(* ===== verification/_CoqProject ===== *)
-Q . S2P
Prelude.v
Exceptions.v
Effects.v
Triples.v
Machine.v
Floats.v
Liblo.v
LibloModel.v
OscTypes.v
TimeTagTheorems.v
OscSender.v
SenderSpec.v
SenderRefine.v
SenderProps.v
SenderTheorems.v
SenderTyping.v
SenderLife.v
Log.v
LogTheorems.v
ReceivedMessage.v
ReceivedProps.v
ReceivedTheorems.v
ReceivedCalls.v
Vectors.v
OscObject.v
ObjectProps.v
ObjectTheorems.v
OscReceiver.v
ReceiverProps.v
ReceiverReach.v
ReceiverTheorems.v
Accesses.v
Calls.v
CallTheorems.v
Threads.v
ThreadProps.v
ThreadView.v
ThreadTheorems.v
Delivery.v
Lptest.v
LptestProps.v
LptestCallbacks.v
LptestTheorems.v
LptestPolling.v
LptestMain.v
LptestPrograms.v
LptestAlone.v
LptestThreads.v
LptestMemory.v
