(* ===== verification/Prelude.v ===== *)
(** * lopack: a verification library

    lopack wraps liblo, the C library for Open Sound Control (OSC): an
    [OscSender] builds messages and nested bundles and sends them; an
    [OscReceiver] owns a liblo server thread and gives every message it receives
    to a graph of [OscObject]s and to its own callback; [ReceivedMessage] reads
    the arguments of a message; [TimeTag], [MidiMessage], [Symbol] and [Blob] are
    the values.  The test program lptest uses all of them.  Paths below are
    under [src/src/].

    ** How the program is modelled

    A member function is a computation of the monad [M S] of [Effects]: it
    returns, throws one of the exceptions of [Exceptions], or has undefined
    behaviour, a value of its own with its cause ([ub]); the state, of type [S],
    is the object and what it reaches, and is kept when an exception is thrown.
    Integers are [Z] in the range of their type, wrapped where the code wraps;
    memory is a list of bytes read little endian; floating values are IEEE 754
    values of the Standard Library's executable specification ([Machine],
    [Floats]).  [std::vector] of pointers carries a stamp that its changes bump,
    so that an iterator used after a change is undefined behaviour ([Vectors]).

    liblo is not part of the repository.  [Liblo] is a class of its functions
    over an abstract [world], with a [view] of the objects that live in it (the
    messages with their arguments and references, bundles, addresses, blobs,
    servers, and the packets sent).  [LibloLaws] states what the sources rely
    on: new objects are fresh, an operation on a live object has its documented
    effect on the view, a failure to create a server is reported to the error
    callback, a port from 1 to 65535 is held by one server at a time (for port 0
    the system picks a free one), and so on.  A server keeps the error callback it
    was made with: receiving either creates the messages that came, or calls it
    for what is not a valid message.  No law says anything of a call with a null
    or dead handle.  All theorems hold over any instance with the laws; [LibloModel] is
    an instance, with proofs of the laws, in which the examples run.  What comes
    from the network is in a class of its own: [Incoming] says which messages
    know the address they came from, and [IncomingLaws] that a message handed to
    a server has well typed arguments and such an address.

    ** The files

    - [Prelude], [Exceptions], [Effects], [Machine], [Floats]: shared lemmas,
      tactics and the machine-level data.  [Triples]: what a computation does from
      a precondition, on each outcome, for the theorems about whole runs.
    - [Liblo], [LibloModel]: the interface to liblo and its reference instance.
    - [OscTypes]: the structs of [lopack/OscTypes.h] and [TimeTag] of
      [OscTypes.cpp]; [TimeTagTheorems]: [TimeTag::add] exactly, through the
      rounding of its double-precision sum, and where it is undefined.
    - [OscSender]: [lopack/OscSender.h], [OscSender.cpp], one definition per
      member function, stream operators included; a call of a member function
      is a [member_call], an insertion an [item], any public call a [command].
      [SenderSpec]: the abstract packet builder, over packets and without handles.  [SenderRefine]: the
      simulation between the two, one lemma per operation, with the part of
      liblo that belongs to others as a frame.  [SenderProps]: packets rendered
      as stream items, reachable senders, guards.  [SenderTheorems]: refinement,
      delivery of the packets written, the one way in which valid calls, [clear] at
      any point included, come to undefined behaviour, the exact exceptions, the
      queries, and what goes wrong outside the protocol ([clear] inside a bundle,
      unsent messages, reopened bundles).
      [SenderTyping]: the arguments under construction and the packets sent are
      always values of the types their type strings announce.  [SenderLife]: the
      destructor, after any life of a sender, gives back what the sender took from
      liblo, and the one message it does not.
    - [Log]: [lopack/Log.h]; the console is the sequence of the values inserted.
      [LogTheorems]: the lines of log objects whose lives overlap are whole,
      against a specification that reads them off the history of the program.
    - [ReceivedMessage]: the classes [ReceivedMessage] and [MessageSource] of
      [OscTypes.cpp].  [ReceivedProps], [ReceivedTheorems]: every accessor and
      silent conversion on every type of argument, reading past the end, the
      round trip from a sender.  [ReceivedCalls]: the whole public interface as a type of calls, which
      of them throw, what, that none changes anything, and the time tag that does
      not depend on the timestamp.
    - [Vectors]: vectors, iterators, and the dispatch loop that
      [OscObject::processOsc] and [OscReceiver::processMessage] share.
    - [OscObject]: [lopack/OscObject.h], [OscObject.cpp], over a heap of objects;
      the virtual callback is an argument.  [ObjectProps], [ObjectTheorems]: the
      graph of attached objects, the post-order in which it is given a message,
      the depth this takes, overflow exactly on cycles, attaching and removing,
      and the removal of an object by itself during dispatch, in any graph.
    - [OscReceiver]: [lopack/OscReceiver.h], [OscReceiver.cpp].  [ReceiverProps],
      [ReceiverReach], [ReceiverTheorems]: a run lemma per operation, the step
      relation of the calls by the program and by the server thread, the
      invariant, the order of dispatch, set up, start, stop and poll on every
      branch, the port that [clear] does not give back, and the messages that
      are never freed.
    - [Accesses]: the members of [OscReceiver] and [OscObject] again, as programs
      of single reads and writes of the data members, calls of liblo and console
      lines; [Calls]: the public interfaces of both classes as types of calls,
      with the two meanings of each; [CallTheorems]: a check of the translation,
      that the two are equal on every call ([call_run_equiv]), so that what is
      proved of one holds of the other.
    - [Threads]: the program's thread and liblo's server thread interleaved, one
      access at a time, with data races as states; the locations are the data
      members of the receiver and of each object, the objects themselves (made and
      destroyed) and the program's own data.  [ServerThread] is what liblo
      promises of its thread, which may at any time report an error of reception
      to [errorCB] ([step_report]); the exception ends the thread.  [ThreadProps]: the invariant of the interleaving,
      through a weakest precondition of programs that tracks whether the thread may
      run, [m_isRunning] and [m_serverThread]; [ThreadView]: runs that differ
      only where a thread does not look.  [ThreadTheorems]: a discipline under
      which no race is reachable, messages handled as if alone under a stricter
      one, the calls that do race, and that [stop] and [clear] always end, with
      the thread stopped and the flags reset.
    - [Delivery]: the parts together.  What the network promises ([Network]), and
      that a packet written to a sender is, once it has come to a receiver that
      polls, given to the callbacks message by message with its arguments.
    - [Lptest]: [lptest/TestReceiver.h] and [lptest/main.cpp].  [LptestProps],
      [LptestCallbacks], [LptestTheorems]: the packets the test sends, what its
      callbacks do with any message (the blob they may read past its end
      included), and a run of the whole program over the reference liblo.
      [LptestPolling]: what the messages of each turn of its polling do, and that
      it ends exactly with [/quit], or on an error of reception or the blob.
      [LptestMain]: [main] from its first line to its last, over any liblo and
      whatever arrives while it sleeps and polls, as triples of its parts: what it
      returns, and the only ways in which it fails.
    - [LptestPrograms]: [main], what it calls and the callbacks once more, as
      programs of [Accesses].  [LptestAlone]: a check of that translation, that run
      alone each is the function of [Lptest] ([main_alone]).  [LptestThreads]: [main] and the callbacks on two
      threads, in any interleaving: no race, and nothing handled or destroyed
      before the thread is stopped, since the sender throws nothing that [main]
      catches ([LibloC]: liblo throws nothing of its own).  [LptestMemory]: an
      object is there whenever one of the threads uses it.

    ** Bounds and fuel

    [processOsc] takes the depth left on the call stack; depth 0 is the undefined
    behaviour [StackOverflow].  A graph of live objects without cycles needs no
    more than its number of objects ([processOsc_post_order]), and with a cycle
    no depth is enough ([processOsc_overflows_iff_cyclic]).  The dispatch loop is
    bounded by the length of the vector at its start, which is exact because
    every turn passes or erases one element and any other change invalidates the
    iterator.  The polling loop of the test takes a number of turns: a poll that is
    told to quit in a turn returns for any larger number ([poll_outcome]).
    [OutOfFuel] is not a behaviour of the program: it is a poll that is still
    waiting after the turns allowed, and the theorems say of it that these turns
    were taken and none received [/quit] ([poll_outcome], [main_outcome]).

    A program of [Accesses], and with it a callback, is a finite tree: a callback
    that waits for ever is outside the model.  It has the same bounds as the function it equals, and a
    schedule of [Threads] is any sequence of steps, without a bound.

    ** What is not modelled

    The body of liblo and the text of floating values on a stream.  Between the
    two threads liblo and the console are taken to be atomic, and the memory to
    be sequentially consistent, which the language gives to programs without
    races.  A callback run by the server thread is taken to do what it likes with
    the program's own data, and to read at most the root addresses ([modest]); one
    that starts, stops or changes the receiver it runs in is covered by the
    sequential model only.  liblo's thread handles one message after the other,
    and a call that stops it waits for the message in hand and no other
    ([ServerThreadLaws]).

    In the functions of [Lptest] the server thread handles messages while the
    program sleeps ([sleeps]), and not while it sends; in the programs of
    [LptestPrograms] it does so at any point after its start, and sleeping is
    nothing.  There a call of a member of the sender, a local object, is one
    access, of liblo.  That an object lives when it is used is shown for the
    objects of the receiver ([main_objects_live]), not for the handles of liblo,
    which have their own theorems.

    A vector that grows is taken to invalidate its iterators, as the standard
    allows.  Exceptions thrown through liblo's C frames are taken to propagate,
    to the caller that polls, or out of liblo's thread, which ends the program
    ([Terminated]).
    The operands of a chain of insertions are evaluated from left to right.
    Header guards, includes and the build files have no behaviour. *)
From Stdlib Require Export Ascii.
From stdpp Require Export base tactics option list numbers strings gmap pretty.
From stdpp Require Export list_numbers.

Declare Scope lopack_scope.
Delimit Scope lopack_scope with lopack.

(** The rewrite base that evaluates the monads, and the resolution base of the
    component lemmas. *)
Create HintDb lopack.

(** ** Generic tactics *)

(** Split every conjunction of the goal and close what is trivial. *)
Ltac split_all := repeat match goal with |- _ ∧ _ => split end; try done.

(** ** Lists *)

Section lists.
Context {A : Type}.
Implicit Types l k : list A.

(** The element in front of a suffix: what an iterator reads. *)
Lemma lookup_app_cons l k x : (l ++ x :: k) !! length l = Some x.
Proof. by rewrite list_lookup_middle. Qed.

Lemma delete_app_cons l k x : delete (length l) (l ++ x :: k) = l ++ k.
Proof. by rewrite delete_middle. Qed.

Lemma removelast_snoc l x : removelast (l ++ [x]) = l.
Proof. apply removelast_last. Qed.

Lemma elem_of_delete l i x : x ∈ delete i l → x ∈ l.
Proof.
  revert i. induction l as [|y l IH]; intros [|i]; simpl; [done..|set_solver|].
  rewrite !elem_of_cons. naive_solver.
Qed.

Lemma filter_Forall (P : A → Prop) `{∀ x, Decision (P x)} l : Forall P l → filter P l = l.
Proof. induction 1; [done|]. rewrite filter_cons_True by done. by f_equal. Qed.

Lemma list_snoc_cases l : l = [] ∨ ∃ k x, l = k ++ [x].
Proof.
  destruct l as [|y l] using rev_ind; [by left|right; by eexists _, _].
Qed.
End lists.
