(* ===== verification/Exceptions.v ===== *)
(** * The exceptions of lopack

    One constructor per exception class of [OscTypes.h], [OscSender.h] and
    [OscReceiver.h]; each carries the message given to [std::runtime_error].
    [Other_exception] stands for whatever a user callback may throw. *)
From S2P Require Import Prelude.

Inductive exn : Type :=
  | TypeException (w : string)
  | ArgException (w : string)
  | SendException (w : string)
  | BundleNotInProgressException (w : string)
  | MessageInProgressException (w : string)
  | MessageNotInProgressException (w : string)
  | ReceiveException (w : string)
  | Other_exception (w : string).

#[export] Instance exn_eq_dec : EqDecision exn.
Proof. solve_decision. Defined.

(** [std::runtime_error::what()]. *)
Definition what (e : exn) : string :=
  match e with
  | TypeException w | ArgException w | SendException w
  | BundleNotInProgressException w | MessageInProgressException w
  | MessageNotInProgressException w | ReceiveException w | Other_exception w => w
  end.

(** ** The default arguments of the constructors *)

Definition typeException : exn :=
  TypeException "argument is of different type then requested".
Definition argException : exn := ArgException "argument index out of range".
Definition sendException : exn :=
  SendException "call to send when setup or BeginMessage have not been called or bundle/message is in progress".
Definition bundleNotInProgress : exn :=
  BundleNotInProgressException "call to EndBundle when bundle is not in progress".
Definition messageInProgress : exn :=
  MessageInProgressException "opening or closing bundle or message while message is in progress".
Definition messageNotInProgress : exn :=
  MessageNotInProgressException "call to EndMessage when message is not in progress".

(** [ReceiveException] is only built from a message: its two constructors have the
    same default, so a construction without an argument would be ambiguous. *)
Definition receiveException (w : string) : exn := ReceiveException w.
