(* ===== verification/Effects.v ===== *)
(** * Effects of the C++ code

    A call returns, throws a C++ exception, or has undefined behaviour; the last
    is a value of its own, with its cause, so that a theorem can say that a call
    is free of it.  [M S] adds the state a member function works on: the object
    and whatever else it reaches.  The state of a call that throws is kept, as
    a C++ exception keeps the writes that precede it. *)
From S2P Require Import Prelude Exceptions.

(** The causes of undefined behaviour the sources can reach, and two more ends of
    a computation that nothing in the program can catch. *)
Inductive ub : Type :=
  | EmptyBack            (* [vector::back] or [front] on an empty vector *)
  | NullString           (* [std::string] built from a null [const char *] *)
  | DanglingPointer      (* use of a pointer whose object is gone *)
  | NullHandle           (* a liblo function called with a null handle *)
  | OutOfBounds          (* read outside an array *)
  | FloatToInt           (* floating value out of the range of the integer type *)
  | IteratorInvalidated  (* iterator used after its vector changed under it *)
  | StackOverflow        (* recursion deeper than the call stack *)
  | Terminated           (* the end of the program by [std::terminate]: an exception
                            left a thread that does not catch it *)
  | OutOfFuel.           (* not a behaviour of the code: it has not ended within
                            the turns the model gave to a loop *)

#[export] Instance ub_eq_dec : EqDecision ub.
Proof. solve_decision. Defined.

Inductive outcome (A : Type) : Type :=
  | Ret (a : A)
  | Throw (e : exn)
  | Undef (u : ub).
Arguments Ret {A} a.
Arguments Throw {A} e.
Arguments Undef {A} u.

#[export] Instance outcome_eq_dec {A} `{EqDecision A} : EqDecision (outcome A).
Proof. solve_decision. Defined.

#[export] Instance outcome_ret : MRet outcome := @Ret.
#[export] Instance outcome_bind : MBind outcome := λ A B f m,
  match m with Ret a => f a | Throw e => Throw e | Undef u => Undef u end.

(** ** State *)

Definition M (S A : Type) : Type := S → outcome A * S.

#[export] Instance M_ret {S} : MRet (M S) := λ A a s, (Ret a, s).
#[export] Instance M_bind {S} : MBind (M S) := λ A B f m s,
  match m s with
  | (Ret a, s') => f a s'
  | (Throw e, s') => (Throw e, s')
  | (Undef u, s') => (Undef u, s')
  end.

Section operations.
Context {S : Type}.

Definition get : M S S := λ s, (Ret s, s).
Definition gets {A} (f : S → A) : M S A := λ s, (Ret (f s), s).
Definition modify (f : S → S) : M S unit := λ s, (Ret tt, f s).
Definition throw {A} (e : exn) : M S A := λ s, (Throw e, s).
Definition undef {A} (u : ub) : M S A := λ s, (Undef u, s).
Definition liftO {A} (o : outcome A) : M S A := λ s, (o, s).
Definition when (b : bool) (m : M S unit) : M S unit := if b then m else mret tt.
End operations.

(** A component of the state: [zoom] runs a computation on it. *)
Class Lens (S T : Type) := { lget : S → T; lset : T → S → S }.
Class LensLaws (S T : Type) {L : Lens S T} : Prop := {
  lget_lset t s : lget (lset t s) = t;
  lset_lget s : lset (lget s) s = s;
  lset_lset t t' s : lset t (lset t' s) = lset t s
}.

Definition zoom {S T A} {L : Lens S T} (m : M T A) : M S A := λ s,
  let '(o, t) := m (lget s) in (o, lset t s).

#[export] Instance lens_id {S} : Lens S S := { lget s := s; lset t _ := t }.
#[export] Instance lens_fst {S T} : Lens (S * T) S :=
  { lget := fst; lset s p := (s, p.2) }.
#[export] Instance lens_snd {S T} : Lens (S * T) T :=
  { lget := snd; lset t p := (p.1, t) }.

#[export] Instance lens_id_laws {S} : LensLaws S S.
Proof. by split. Qed.
#[export] Instance lens_fst_laws {S T} : LensLaws (S * T) S.
Proof. split; by intros; try destruct s. Qed.
#[export] Instance lens_snd_laws {S T} : LensLaws (S * T) T.
Proof. split; by intros; try destruct s. Qed.

(** ** The monad laws *)

Section laws.
Context {S : Type}.

Lemma bind_ret_l {A B} (a : A) (f : A → M S B) s : (mret a ≫= f) s = f a s.
Proof. done. Qed.

Lemma bind_assoc {A B C} (m : M S A) (f : A → M S B) (g : B → M S C) s :
  ((m ≫= f) ≫= g) s = (m ≫= (λ a, f a ≫= g)) s.
Proof. unfold mbind, M_bind. by destruct (m s) as [[] ?]. Qed.

(** A sequence that returns returned at its first step. *)
Lemma bind_Ret_inv {A B} (m : M S A) (f : A → M S B) s b s' :
  (m ≫= f) s = (Ret b, s') → ∃ a s1, m s = (Ret a, s1) ∧ f a s1 = (Ret b, s').
Proof. unfold mbind, M_bind. destruct (m s) as [[a|?|?] s1]; naive_solver. Qed.

Lemma bind_ext {A B} (m m' : M S A) (f : A → M S B) s :
  m s = m' s → (m ≫= f) s = (m' ≫= f) s.
Proof. unfold mbind, M_bind. by intros ->. Qed.

(** The rest only matters where the first step leads. *)
Lemma bind_ext_at {A B} (m : M S A) (f g : A → M S B) s :
  (∀ a s1, m s = (Ret a, s1) → f a s1 = g a s1) → (m ≫= f) s = (m ≫= g) s.
Proof. unfold mbind, M_bind. destruct (m s) as [[a|?|?] s1]; [|done..]. by intros ->. Qed.

Lemma bind_step {A B} (m : M S A) (f : A → M S B) s a s1 :
  m s = (Ret a, s1) → (m ≫= f) s = f a s1.
Proof. unfold mbind, M_bind. by intros ->. Qed.

Lemma bind_throw {A B} (m : M S A) (f : A → M S B) s e s1 :
  m s = (Throw e, s1) → (m ≫= f) s = (Throw e, s1).
Proof. unfold mbind, M_bind. by intros ->. Qed.

Lemma bind_undef {A B} (m : M S A) (f : A → M S B) s u s1 :
  m s = (Undef u, s1) → (m ≫= f) s = (Undef u, s1).
Proof. unfold mbind, M_bind. by intros ->. Qed.
End laws.

(** The pure outcomes. *)
Lemma outcome_bind_Ret_inv {A B} (m : outcome A) (f : A → outcome B) b :
  m ≫= f = Ret b → ∃ a, m = Ret a ∧ f a = Ret b.
Proof. destruct m; naive_solver. Qed.

(** ** Predicates on what a computation does *)

(** A computation keeps a property of the state, whatever its outcome. *)
Definition preserves {S A} (P : S → Prop) (m : M S A) : Prop := ∀ s, P s → P (m s).2.

Section preserves.
Context {S : Type} (P : S → Prop).

Lemma preserves_ret {A} (a : A) : preserves P (mret a).
Proof. by intros s Hs. Qed.

Lemma preserves_same {A} (m : M S A) : (∀ s, (m s).2 = s) → preserves P m.
Proof. intros Hm s Hs. by rewrite Hm. Qed.

Lemma preserves_bind {A B} (m : M S A) (f : A → M S B) :
  preserves P m → (∀ a, preserves P (f a)) → preserves P (m ≫= f).
Proof.
  intros Hm Hf s Hs. specialize (Hm s Hs). unfold mbind, M_bind.
  destruct (m s) as [[a|?|?] s']; simpl in *; [by apply Hf|done..].
Qed.

Lemma preserves_when b (m : M S unit) : preserves P m → preserves P (when b m).
Proof. destruct b; [done|]. intros _. apply preserves_ret. Qed.

Lemma preserves_gets {A} (f : S → A) : preserves P (gets f).
Proof. by intros s Hs. Qed.
End preserves.

#[export] Hint Resolve preserves_ret preserves_bind preserves_when preserves_gets : lopack.

(** A computation throws nothing but what satisfies [E]. *)
Definition throws {S A} (E : exn → Prop) (m : M S A) : Prop :=
  ∀ s e s', m s = (Throw e, s') → E e.
Definition no_throw {S A} (m : M S A) : Prop := throws (λ _, False) m.

Section throws.
Context {S : Type} (E : exn → Prop).

Lemma throws_bind {A B} (m : M S A) (f : A → M S B) :
  throws E m → (∀ a, throws E (f a)) → throws E (m ≫= f).
Proof.
  intros Hm Hf s e s'. unfold mbind, M_bind.
  destruct (m s) as [[a|e1|u] s1] eqn:Hr; [apply Hf| |done]. intros [= <- <-]. by eapply Hm.
Qed.

Lemma throws_no {A} (m : M S A) : no_throw m → throws E m.
Proof. intros Hm s e s' Hr. by destruct (Hm s e s' Hr). Qed.

Lemma throws_ret {A} (a : A) : throws E (mret a : M S A).
Proof. by intros s e s'. Qed.

Lemma throws_throw {A} e : E e → throws E (throw e : M S A).
Proof. by intros He s e' s' [= <- _]. Qed.

Lemma throws_undef {A} u : throws E (undef u : M S A).
Proof. by intros s e s'. Qed.

Lemma throws_gets {A} (f : S → A) : throws E (gets f).
Proof. by intros s e s'. Qed.

Lemma throws_modify (f : S → S) : throws E (modify f).
Proof. by intros s e s'. Qed.

Lemma throws_liftO {A} (o : outcome A) : (∀ e, o ≠ Throw e) → throws E (liftO o : M S A).
Proof. intros Ho s e s' [= Hr _]. by destruct (Ho e). Qed.

Lemma throws_zoom {T A} {L : Lens S T} (m : M T A) : throws E m → throws E (zoom m : M S A).
Proof.
  intros Hm s e s'. unfold zoom. destruct (m (lget s)) as [o t] eqn:Hr. intros [= -> _].
  by eapply Hm.
Qed.
End throws.
