(* ===== verification/Triples.v ===== *)
(** * Triples

    What a computation does from the states of a precondition, on each of its
    outcomes: a result and the state after it, or a failure, that is an exception
    or the cause of undefined behaviour, and the state it is in then. *)
From S2P Require Import Prelude Exceptions Effects.

Definition failure : Type := exn + ub.

(** From [P], [m] fails as [E] allows, or returns with [Q]. *)
Definition triple {S A} (P : S → Prop) (m : M S A) (E : failure → S → Prop) (Q : A → S → Prop) : Prop :=
  ∀ s, P s →
  match m s with
  | (Ret a, s') => Q a s'
  | (Throw e, s') => E (inl e) s'
  | (Undef u, s') => E (inr u) s'
  end.

(** Never fails. *)
Definition total {S A} (P : S → Prop) (m : M S A) (Q : A → S → Prop) : Prop :=
  triple P m (λ _ _, False) Q.

Section triples.
Context {S : Type} (E : failure → S → Prop).
Implicit Types P : S → Prop.

Lemma triple_bind {A B} P (m : M S A) (f : A → M S B) Q R :
  triple P m E Q → (∀ a, triple (Q a) (f a) E R) → triple P (m ≫= f) E R.
Proof.
  intros Hm Hf s Hs. specialize (Hm s Hs). unfold mbind, M_bind.
  destruct (m s) as [[a|?|?] s']; [by apply Hf|done..].
Qed.

Lemma triple_mono {A} P P' (m : M S A) E' (Q Q' : A → S → Prop) :
  triple P' m E' Q' → (∀ s, P s → P' s) → (∀ x s, E' x s → E x s) → (∀ a s, Q' a s → Q a s) →
  triple P m E Q.
Proof.
  intros Hm HP HE HQ s Hs. specialize (Hm s (HP s Hs)).
  destruct (m s) as [[a|?|?] s']; auto.
Qed.

Lemma triple_post {A} P (m : M S A) (Q Q' : A → S → Prop) :
  triple P m E Q' → (∀ a s, Q' a s → Q a s) → triple P m E Q.
Proof. intros. by eapply triple_mono. Qed.

Lemma triple_pre {A} P P' (m : M S A) Q :
  (∀ s, P s → P' s) → triple P' m E Q → triple P m E Q.
Proof. intros HP Hm s Hs. by apply Hm, HP. Qed.

Lemma triple_total {A} P (m : M S A) Q : total P m Q → triple P m E Q.
Proof. intros H. by eapply triple_mono. Qed.

Lemma triple_ret {A} P (a : A) (Q : A → S → Prop) : (∀ s, P s → Q a s) → triple P (mret a) E Q.
Proof. intros H s Hs. by apply H. Qed.

Lemma triple_if {A} P (b : bool) (m m' : M S A) Q :
  triple P m E Q → triple P m' E Q → triple P (if b then m else m') E Q.
Proof. by destruct b. Qed.

Lemma triple_modify P (f : S → S) (Q : unit → S → Prop) :
  (∀ s, P s → Q tt (f s)) → triple P (modify f) E Q.
Proof. intros H s Hs. by apply H. Qed.

(** From one state. *)
Lemma triple_at {A} P (m : M S A) Q : (∀ s, P s → triple (λ s', s' = s) m E Q) → triple P m E Q.
Proof. intros H s Hs. by apply (H s Hs). Qed.

Lemma triple_run {A} P (m : M S A) Q s o s' : triple P m E Q → P s → m s = (o, s') →
  (∃ a, o = Ret a ∧ Q a s') ∨ (∃ e, o = Throw e ∧ E (inl e) s') ∨ (∃ u, o = Undef u ∧ E (inr u) s').
Proof.
  intros H Hs Hr. specialize (H s Hs). rewrite Hr in H.
  destruct o as [a|e|u]; [left|right; left|right; right]; by eexists.
Qed.
End triples.
