(* ===== verification/Machine.v ===== *)
(** * Machine data: fixed-width integers, bytes, C strings

    Integers are [Z]s kept in the range of their C++ type by [wrap] (unsigned)
    and [swrap] (two's complement).  Memory is a list of bytes, read little
    endian; a [const char *] is null, points to a NUL-terminated string, or
    dangles. *)
From S2P Require Import Prelude Exceptions Effects.
Open Scope Z_scope.

(** ** Integers *)

Definition wrap (w z : Z) : Z := z `mod` 2 ^ w.
Definition swrap (w z : Z) : Z := (z + 2 ^ (w - 1)) `mod` 2 ^ w - 2 ^ (w - 1).

Definition is_u32 (z : Z) : Prop := 0 ≤ z < 2 ^ 32.
Definition is_i32 (z : Z) : Prop := - 2 ^ 31 ≤ z < 2 ^ 31.
Definition is_i64 (z : Z) : Prop := - 2 ^ 63 ≤ z < 2 ^ 63.
Definition is_byte (z : Z) : Prop := 0 ≤ z < 256.

#[export] Instance is_u32_dec z : Decision (is_u32 z).
Proof. unfold is_u32. apply _. Defined.
#[export] Instance is_i32_dec z : Decision (is_i32 z).
Proof. unfold is_i32. apply _. Defined.
#[export] Instance is_i64_dec z : Decision (is_i64 z).
Proof. unfold is_i64. apply _. Defined.
#[export] Instance is_byte_dec z : Decision (is_byte z).
Proof. unfold is_byte. apply _. Defined.

Lemma wrap_small w z : 0 ≤ z < 2 ^ w → wrap w z = z.
Proof. intros. unfold wrap. by apply Z.mod_small. Qed.

Lemma wrap_range w z : 0 ≤ w → 0 ≤ wrap w z < 2 ^ w.
Proof. intros. unfold wrap. apply Z.mod_pos_bound. by apply Z.pow_pos_nonneg. Qed.

Lemma swrap_small w z : 0 < w → - 2 ^ (w - 1) ≤ z < 2 ^ (w - 1) → swrap w z = z.
Proof.
  intros Hw Hz. unfold swrap. rewrite Z.mod_small; [lia|].
  replace (2 ^ w) with (2 * 2 ^ (w - 1)); [lia|].
  rewrite <- Z.pow_succ_r by lia. f_equal. lia.
Qed.

(** Reinterpreting an unsigned value and back. *)
Lemma swrap_wrap w z : 0 < w → swrap w (wrap w z) = swrap w z.
Proof.
  intros. unfold swrap, wrap. f_equal.
  by rewrite Zplus_mod_idemp_l.
Qed.

(** ** Bytes *)

(** Read an [n]-byte little-endian unsigned integer at the start of a region. *)
Definition load_uint (n : nat) (bs : list Z) : outcome Z :=
  if decide (n ≤ length bs)%nat then Ret (little_endian_to_Z 8 (take n bs))
  else Undef OutOfBounds.

Definition load_sint (n : nat) (bs : list Z) : outcome Z :=
  z ← load_uint n bs; Ret (swrap (8 * Z.of_nat n) z).

Definition store_int (n : nat) (z : Z) : list Z := Z_to_little_endian (Z.of_nat n) 8 z.

#[global] Arguments load_uint : simpl never.
#[global] Arguments load_sint : simpl never.
#[global] Arguments store_int : simpl never.

Lemma length_store_int n z : length (store_int n z) = n.
Proof.
  unfold store_int. pose proof (length_Z_to_little_endian (Z.of_nat n) 8 z ltac:(lia)). lia.
Qed.

Lemma load_store_uint n z k :
  load_uint n (store_int n z ++ k) = Ret (wrap (8 * Z.of_nat n) z).
Proof.
  unfold load_uint. rewrite length_app, length_store_int, decide_True by lia.
  rewrite take_app_length' by (by rewrite length_store_int).
  unfold store_int. rewrite little_endian_to_Z_to_little_endian by lia.
  unfold wrap. do 3 f_equal. lia.
Qed.

Lemma load_store_sint n z k : (0 < n)%nat →
  load_sint n (store_int n z ++ k) = Ret (swrap (8 * Z.of_nat n) z).
Proof.
  intros. unfold load_sint. rewrite load_store_uint. unfold mbind, outcome_bind.
  by rewrite swrap_wrap by lia.
Qed.

(** ** Characters and C strings *)

Definition byte_of_ascii (c : ascii) : Z := Z.of_N (N_of_ascii c).
Definition ascii_of_byte (b : Z) : ascii := ascii_of_N (Z.to_N (wrap 8 b)).

Lemma byte_of_ascii_range c : is_byte (byte_of_ascii c).
Proof. unfold is_byte, byte_of_ascii. pose proof (N_ascii_bounded c). lia. Qed.

Lemma ascii_of_byte_of_ascii c : ascii_of_byte (byte_of_ascii c) = c.
Proof.
  pose proof (byte_of_ascii_range c) as H. unfold is_byte in H. unfold ascii_of_byte.
  rewrite wrap_small by lia. unfold byte_of_ascii. rewrite N2Z.id.
  apply ascii_N_embedding.
Qed.

Lemma byte_of_ascii_0 c : byte_of_ascii c = 0 ↔ c = "000"%char.
Proof.
  split; [|by intros ->]. intros H.
  rewrite <- (ascii_of_byte_of_ascii c), H. done.
Qed.

Fixpoint string_bytes (s : string) : list Z :=
  match s with EmptyString => [] | String c s => byte_of_ascii c :: string_bytes s end.

(** What a C function sees of the buffer of a [std::string]: [c_str()]. *)
Fixpoint c_str (s : string) : string :=
  match s with
  | EmptyString => EmptyString
  | String c s => if decide (c = "000"%char) then EmptyString else String c (c_str s)
  end.

Fixpoint nul_free (s : string) : Prop :=
  match s with EmptyString => True | String c s => c ≠ "000"%char ∧ nul_free s end.

#[export] Instance nul_free_dec s : Decision (nul_free s).
Proof. induction s; simpl; apply _. Defined.

(** Read a C string at the start of a region. *)
Fixpoint read_cstr (bs : list Z) : outcome string :=
  match bs with
  | [] => Undef OutOfBounds
  | b :: bs => if decide (b = 0) then Ret EmptyString
               else s ← read_cstr bs; Ret (String (ascii_of_byte b) s)
  end.

Lemma c_str_nul_free s : nul_free (c_str s).
Proof. induction s as [|c s IH]; simpl; [done|]. by case_decide. Qed.

Lemma c_str_id s : nul_free s → c_str s = s.
Proof.
  induction s as [|c s IH]; simpl; [done|]. intros [Hc Hs].
  case_decide; [done|]. by rewrite IH.
Qed.

Lemma read_cstr_bytes s k : nul_free s → read_cstr (string_bytes s ++ 0 :: k) = Ret s.
Proof.
  induction s as [|c s IH]; simpl; [done|]. intros [Hc Hs].
  rewrite decide_False by (by rewrite byte_of_ascii_0). rewrite IH by done.
  unfold mbind, outcome_bind. by rewrite ascii_of_byte_of_ascii.
Qed.

Inductive cptr : Type := CNull | CStr (s : string) | CDangling.

#[export] Instance cptr_eq_dec : EqDecision cptr.
Proof. solve_decision. Defined.

(** The [std::string] constructor from a C string. *)
Definition std_string (p : cptr) : outcome string :=
  match p with
  | CNull => Undef NullString
  | CStr s => Ret s
  | CDangling => Undef DanglingPointer
  end.

(** Decimal output of an integer on a stream. *)
Definition dec (z : Z) : string := pretty z.

Lemma pretty_N_char_nul_free x : pretty_N_char x ≠ "000"%char.
Proof. destruct x as [|[[[[]|[]|]|[[]|[]|]|]|[[[]|[]|]|[[]|[]|]|]|]]; done. Qed.

Lemma pretty_N_go_nul_free x s : nul_free s → nul_free (pretty_N_go x s).
Proof.
  revert s. induction (N.lt_wf_0 x) as [x _ IH]. intros s Hs.
  destruct (decide (x = 0)%N) as [->|Hx]; [by rewrite pretty_N_go_0|].
  rewrite pretty_N_go_step by lia. apply IH; [apply N.div_lt; lia|].
  split; [apply pretty_N_char_nul_free|done].
Qed.

Lemma dec_nul_free z : nul_free (dec z).
Proof.
  assert (∀ x : N, nul_free (pretty x)) as HN.
  { intros x. unfold pretty, pretty_N. case_decide; [done|]. by apply pretty_N_go_nul_free. }
  unfold dec, pretty, pretty_Z. destruct z; [done|apply (HN (Npos p))|].
  split; [done|]. apply (HN (Npos p)).
Qed.
