(* ===== verification/Floats.v ===== *)
(** * IEEE 754 values

    [float] and [double] are the binary32 and binary64 values of the Standard
    Library's executable specification [SpecFloat].  The conversions are those
    of the C++ language with rounding to nearest even; a floating value outside
    an integer type has no conversion to it. *)
From Stdlib Require Export SpecFloat.
From S2P Require Import Prelude Exceptions Effects Machine.
Open Scope Z_scope.

Abbreviation float := spec_float.
Abbreviation double := spec_float.

#[export] Instance spec_float_eq_dec : EqDecision spec_float.
Proof. solve_decision. Defined.

Definition float_of_Z (z : Z) : float := binary_normalize 24 128 z 0 false.
Definition double_of_Z (z : Z) : double := binary_normalize 53 1024 z 0 false.

(** Conversion to a format: exact when the value is representable there. *)
Definition round_to (prec emax : Z) (f : spec_float) : spec_float :=
  match f with
  | S754_finite s m e => binary_round prec emax s m e
  | _ => f
  end.

Definition double_of_float (f : float) : double := round_to 53 1024 f.
Definition float_of_double (d : double) : float := round_to 24 128 d.

(** [(bool) f]: every value but zero is true, NaN included. *)
Definition bool_of_float (f : spec_float) : bool :=
  match f with S754_zero _ => false | _ => true end.

(** The integral part, rounding toward zero. *)
Definition truncate (f : spec_float) : option Z :=
  match f with
  | S754_zero _ => Some 0
  | S754_finite s m e =>
      Some (cond_Zopp s (if decide (0 ≤ e) then Zpos m * 2 ^ e else Zpos m / 2 ^ (- e)))
  | _ => None
  end.

(** Conversion to an integer type with the values [lo .. hi]. *)
Definition int_of_float (lo hi : Z) (f : spec_float) : outcome Z :=
  match truncate f with
  | Some z => if decide (lo ≤ z ≤ hi) then Ret z else Undef FloatToInt
  | None => Undef FloatToInt
  end.

Definition to_int (f : spec_float) : outcome Z := int_of_float (- 2 ^ 31) (2 ^ 31 - 1) f.
Definition to_uint (f : spec_float) : outcome Z := int_of_float 0 (2 ^ 32 - 1) f.

(** ** Bit patterns *)

(** Interchange format with [mw] mantissa bits and [ew] exponent bits. *)
Definition sign_bit (mw ew : Z) (s : bool) : Z := if s then 2 ^ (mw + ew) else 0.

Definition encode (mw ew : Z) (f : spec_float) : Z :=
  match f with
  | S754_zero s => sign_bit mw ew s
  | S754_infinity s => sign_bit mw ew s + (2 ^ ew - 1) * 2 ^ mw
  | S754_nan => (2 ^ ew - 1) * 2 ^ mw + 2 ^ (mw - 1)
  | S754_finite s m e =>
      sign_bit mw ew s
      + (if decide (Zpos m < 2 ^ mw) then Zpos m
         else (e + 2 ^ (ew - 1) - 1 + mw) * 2 ^ mw + (Zpos m - 2 ^ mw))
  end.

Definition decode (mw ew : Z) (z : Z) : spec_float :=
  let s := bool_decide (z / 2 ^ (mw + ew) = 1) in
  let ef := (z / 2 ^ mw) `mod` 2 ^ ew in
  let mf := z `mod` 2 ^ mw in
  if decide (ef = 0) then
    match mf with
    | Zpos m => S754_finite s m (2 - 2 ^ (ew - 1) - mw)
    | _ => S754_zero s
    end
  else if decide (ef = 2 ^ ew - 1) then
    (if decide (mf = 0) then S754_infinity s else S754_nan)
  else S754_finite s (Z.to_pos (mf + 2 ^ mw)) (ef - (2 ^ (ew - 1) - 1) - mw).

Definition float_bits (f : float) : Z := encode 23 8 f.
Definition double_bits (d : double) : Z := encode 52 11 d.
Definition float_of_bits (z : Z) : float := decode 23 8 z.
Definition double_of_bits (z : Z) : double := decode 52 11 z.

Definition is_float (f : float) : Prop := valid_binary 24 128 f = true.
Definition is_double (d : double) : Prop := valid_binary 53 1024 d = true.

(** ** Facts *)

Lemma digits2_pos_bounds m :
  2 ^ (Zpos (digits2_pos m) - 1) ≤ Zpos m < 2 ^ Zpos (digits2_pos m).
Proof.
  induction m as [m IH|m IH|]; simpl; [| |done];
    rewrite Pos2Z.inj_succ;
    replace (Z.succ (Z.pos (digits2_pos m)) - 1) with (Z.succ (Z.pos (digits2_pos m) - 1)) by lia;
    rewrite !Z.pow_succ_r by lia; lia.
Qed.

Lemma digits2_pos_lt m d : 0 ≤ d → Zpos m < 2 ^ d → Zpos (digits2_pos m) ≤ d.
Proof.
  intros Hd Hm. destruct (digits2_pos_bounds m) as [Hl _].
  assert (Zpos (digits2_pos m) - 1 < d); [|lia].
  apply (Z.pow_lt_mono_r_iff 2); lia.
Qed.

Lemma digits2_pos_ge m d : 0 ≤ d → 2 ^ d ≤ Zpos m → d < Zpos (digits2_pos m).
Proof.
  intros Hd Hm. destruct (digits2_pos_bounds m) as [_ Hu].
  apply (Z.pow_lt_mono_r_iff 2); lia.
Qed.

(** The mantissa and exponent ranges of a finite value of a format. *)
Lemma bounded_cases mw emax m e :
  0 < mw → bounded (mw + 1) emax m e = true →
  e ≤ emax - mw - 1 ∧
  ((Zpos m < 2 ^ mw ∧ e = 2 - emax - mw) ∨
   (2 ^ mw ≤ Zpos m < 2 ^ (mw + 1) ∧ 2 - emax - mw ≤ e)).
Proof.
  unfold bounded, canonical_mantissa, fexp, emin. intros Hmw H.
  apply andb_prop in H as [Hc Hb]. apply Z.eqb_eq in Hc. apply Z.leb_le in Hb.
  split; [lia|]. destruct (digits2_pos_bounds m) as [Hl Hu].
  destruct (decide (Zpos m < 2 ^ mw)) as [Hm|Hm].
  - left. split; [done|]. pose proof (digits2_pos_lt m mw ltac:(lia) Hm). lia.
  - right. pose proof (digits2_pos_ge m mw ltac:(lia) ltac:(lia)).
    assert (Zpos (digits2_pos m) = mw + 1) as Hd by lia. rewrite Hd in *.
    split; [split; lia|lia].
Qed.

(** *** Bit patterns are exact *)

(** The three fields of a bit pattern. *)
Lemma fields_spec mw ew s b f : 0 ≤ mw → 0 ≤ ew → 0 ≤ b < 2 ^ ew → 0 ≤ f < 2 ^ mw →
  let z := sign_bit mw ew s + b * 2 ^ mw + f in
  bool_decide (z / 2 ^ (mw + ew) = 1) = s ∧
  (z / 2 ^ mw) `mod` 2 ^ ew = b ∧ z `mod` 2 ^ mw = f.
Proof.
  intros Hmw Hew Hb Hf z. unfold z, sign_bit. rewrite Z.pow_add_r by lia.
  assert (0 < 2 ^ mw) as HA by (by apply Z.pow_pos_nonneg).
  assert (0 < 2 ^ ew) as HB by (by apply Z.pow_pos_nonneg).
  remember (2 ^ mw) as A. remember (2 ^ ew) as B.
  set (s' := if s then 1 else 0).
  replace (if s then A * B else 0) with (s' * (A * B)) by (unfold s'; destruct s; lia).
  assert ((s' * (A * B) + b * A + f) / A = s' * B + b) as Hd.
  { symmetry. apply Z.div_unique with f; [by left|ring]. }
  split_all.
  - assert ((s' * (A * B) + b * A + f) / (A * B) = s') as ->.
    { symmetry. apply Z.div_unique with (b * A + f); [left; nia|ring]. }
    unfold s'. by destruct s.
  - rewrite Hd, Z.add_comm, Z_mod_plus_full. apply Z.mod_small. lia.
  - symmetry. apply Z.mod_unique with (s' * B + b); [by left|ring].
Qed.

Lemma decode_encode mw ew f : 0 < mw → 1 < ew →
  valid_binary (mw + 1) (2 ^ (ew - 1)) f = true → decode mw ew (encode mw ew f) = f.
Proof.
  intros Hmw Hew Hv. unfold decode, encode.
  assert (2 ^ ew = 2 * 2 ^ (ew - 1)) as Hp.
  { rewrite <- Z.pow_succ_r by lia. f_equal. lia. }
  assert (2 ≤ 2 ^ (ew - 1)) as HE by (apply (Z.pow_le_mono_r 2 1); lia).
  assert (1 < 2 ^ mw) as HA by (by apply Z.pow_gt_1).
  assert (2 ^ mw = 2 * 2 ^ (mw - 1)) as Hpm.
  { rewrite <- Z.pow_succ_r by lia. f_equal. lia. }
  destruct f as [s|s| |s m e].
  - destruct (fields_spec mw ew s 0 0) as (Hs & Hb & Hf); try lia.
    rewrite Z.mul_0_l, !Z.add_0_r in Hs, Hb, Hf. by rewrite Hs, Hb, Hf.
  - destruct (fields_spec mw ew s (2 ^ ew - 1) 0) as (Hs & Hb & Hf); try lia.
    rewrite Z.add_0_r in Hs, Hb, Hf. rewrite Hs, Hb, Hf.
    rewrite decide_False by lia. by rewrite !decide_True by done.
  - destruct (fields_spec mw ew false (2 ^ ew - 1) (2 ^ (mw - 1))) as (Hs & Hb & Hf); try lia.
    unfold sign_bit in Hs, Hb, Hf. rewrite Z.add_0_l in Hs, Hb, Hf. rewrite Hs, Hb, Hf.
    rewrite decide_False by lia.
    rewrite decide_True by done. by rewrite decide_False by lia.
  - simpl in Hv. apply bounded_cases in Hv as [He Hc]; [|done].
    destruct Hc as [[Hm He']|[Hm He']].
    + destruct (decide (Zpos m < 2 ^ mw)); [|lia].
      destruct (fields_spec mw ew s 0 (Zpos m)) as (Hs & Hb & Hf); try lia.
      rewrite Z.mul_0_l, Z.add_0_r in Hs, Hb, Hf. rewrite Hs, Hb, Hf.
      rewrite decide_True by done. by rewrite <- He'.
    + destruct (decide (Zpos m < 2 ^ mw)); [lia|].
      assert (2 ^ (mw + 1) = 2 * 2 ^ mw) as Hm2 by (rewrite Z.pow_add_r by lia; lia).
      destruct (fields_spec mw ew s (e + 2 ^ (ew - 1) - 1 + mw) (Zpos m - 2 ^ mw))
        as (Hs & Hb & Hf); try lia.
      rewrite Z.add_assoc. rewrite Hs, Hb, Hf.
      rewrite !decide_False by lia. f_equal; lia.
Qed.

Lemma float_bits_exact f : is_float f → float_of_bits (float_bits f) = f.
Proof. intros. by apply decode_encode. Qed.

Lemma double_bits_exact d : is_double d → double_of_bits (double_bits d) = d.
Proof. intros. by apply decode_encode. Qed.

(** Bit patterns fit their width. *)
Lemma encode_range mw ew f : 0 < mw → 1 < ew →
  valid_binary (mw + 1) (2 ^ (ew - 1)) f = true → 0 ≤ encode mw ew f < 2 ^ (1 + ew + mw).
Proof.
  intros Hmw Hew Hv.
  assert (2 ^ ew = 2 * 2 ^ (ew - 1)) as Hp.
  { rewrite <- Z.pow_succ_r by lia. f_equal. lia. }
  assert (2 ^ mw = 2 * 2 ^ (mw - 1)) as Hpm.
  { rewrite <- Z.pow_succ_r by lia. f_equal. lia. }
  assert (0 < 2 ^ (mw - 1)) by (apply Z.pow_pos_nonneg; lia).
  assert (0 < 2 ^ (ew - 1)) by (apply Z.pow_pos_nonneg; lia).
  rewrite !Z.pow_add_r by lia. unfold encode, sign_bit. rewrite Z.pow_add_r by lia.
  destruct f as [[]|[]| |s m e]; try nia.
  simpl in Hv. apply bounded_cases in Hv as [He Hc]; [|done].
  assert (2 ^ (mw + 1) = 2 * 2 ^ mw) as Hm2 by (rewrite Z.pow_add_r by lia; lia).
  case_decide; destruct s; nia.
Qed.

Lemma float_bits_range f : is_float f → 0 ≤ float_bits f < 2 ^ 32.
Proof. intros. by apply encode_range. Qed.

Lemma double_bits_range d : is_double d → 0 ≤ double_bits d < 2 ^ 64.
Proof. intros. by apply encode_range. Qed.
