(* ===== verification/Liblo.v ===== *)
(** * The interface to liblo

    lopack is a wrapper: everything it does ends in a call of liblo, which is
    not part of the repository.  [Liblo] is the signature of the functions the
    sources call, over an abstract state [world]; [LibloLaws] states what the
    sources rely on, as equations on a view of that state (the live messages,
    bundles, addresses, blobs and servers, and the packets sent so far).

    Handles are addresses; a null handle is [None].  No law says anything of a
    call with a null or freed handle. *)
From S2P Require Import Prelude Exceptions Effects Machine Floats.
Open Scope Z_scope.

Abbreviation ptr := positive.

(** ** Data of the OSC protocol *)

Record lo_timetag : Type := Timetag { tt_sec : Z; tt_frac : Z }.

#[export] Instance lo_timetag_eq_dec : EqDecision lo_timetag.
Proof. solve_decision. Defined.

(** An argument of a message. *)
Inductive atom : Type :=
  | ATrue | AFalse | ANil | AInfinitum
  | AChar (c : ascii)
  | AInt32 (z : Z) | AInt64 (z : Z)
  | AFloat (f : float) | ADouble (d : double)
  | AString (s : string) | ASymbol (s : string)
  | AMidi (bytes : list Z)
  | ATimetag (t : lo_timetag)
  | ABlob (data : list Z).

#[export] Instance atom_eq_dec : EqDecision atom.
Proof. solve_decision. Defined.

(** The type tag liblo gives an argument. *)
Definition atom_tag (a : atom) : ascii :=
  match a with
  | ATrue => "T" | AFalse => "F" | ANil => "N" | AInfinitum => "I"
  | AChar _ => "c" | AInt32 _ => "i" | AInt64 _ => "h"
  | AFloat _ => "f" | ADouble _ => "d" | AString _ => "s" | ASymbol _ => "S"
  | AMidi _ => "m" | ATimetag _ => "t" | ABlob _ => "b"
  end%char.

Fixpoint tags (args : list atom) : string :=
  match args with
  | [] => EmptyString
  | a :: args => String (atom_tag a) (tags args)
  end.

(** The values an argument of each C type can have. *)
Definition atom_ok (a : atom) : Prop :=
  match a with
  | AInt32 z => is_i32 z
  | AInt64 z => is_i64 z
  | AFloat f => is_float f
  | ADouble d => is_double d
  | AString s | ASymbol s => nul_free s
  | AMidi bs => length bs = 4%nat ∧ Forall is_byte bs
  | ATimetag t => is_u32 (tt_sec t) ∧ is_u32 (tt_frac t)
  | ABlob d => Forall is_byte d ∧ 0 < Z.of_nat (length d) < 2 ^ 31
  | _ => True
  end.

#[export] Instance atom_ok_dec a : Decision (atom_ok a).
Proof. destruct a; simpl; unfold is_float, is_double; apply _. Defined.

(** What goes over the wire. *)
Inductive packet : Type :=
  | PMessage (path : string) (args : list atom)
  | PBundle (t : lo_timetag) (elems : list packet).

(** An element of a bundle under construction: a message with the path it is
    sent to, or another bundle. *)
Inductive elem : Type := EMessage (path : string) (m : ptr) | EBundle (b : ptr).

(** ** The view of liblo's state *)

(** A message: its arguments, and the references taken with
    [lo_message_incref] on top of its owner's. *)
Record msg : Type := Msg { msg_args : list atom; msg_refs : nat }.
(** The error callback of a server: number, message, where. *)
Definition err_handler : Type := Z → cptr → cptr → outcome unit.

(** A server: the port it was made for, its multicast group, its error callback,
    and whether its thread runs. *)
Record server : Type := Server {
  srv_port : string; srv_group : option string; srv_handler : err_handler; srv_running : bool }.

Record lview : Type := View {
  v_msgs : gmap ptr msg;
  v_bundles : gmap ptr (lo_timetag * list elem);
  v_addrs : gmap ptr (string * string);
  v_blobs : gmap ptr (list Z);
  v_servers : gmap ptr server;
  v_sent : list ((string * string) * packet)
}.

Definition on_msgs (f : gmap ptr msg → gmap ptr msg) (v : lview) : lview :=
  View (f (v_msgs v)) (v_bundles v) (v_addrs v) (v_blobs v) (v_servers v) (v_sent v).
Definition on_bundles f (v : lview) : lview :=
  View (v_msgs v) (f (v_bundles v)) (v_addrs v) (v_blobs v) (v_servers v) (v_sent v).
Definition on_addrs f (v : lview) : lview :=
  View (v_msgs v) (v_bundles v) (f (v_addrs v)) (v_blobs v) (v_servers v) (v_sent v).
Definition on_blobs f (v : lview) : lview :=
  View (v_msgs v) (v_bundles v) (v_addrs v) (f (v_blobs v)) (v_servers v) (v_sent v).
Definition on_servers f (v : lview) : lview :=
  View (v_msgs v) (v_bundles v) (v_addrs v) (v_blobs v) (f (v_servers v)) (v_sent v).
Definition on_sent f (v : lview) : lview :=
  View (v_msgs v) (v_bundles v) (v_addrs v) (v_blobs v) (v_servers v) (f (v_sent v)).

(** ** Reading a bundle in depth

    [reads v e p ms bs]: the element [e] is the packet [p]; it owns the
    messages [ms] and the bundles [bs]. *)
Inductive reads (v : lview) : elem → packet → gset ptr → gset ptr → Prop :=
  | reads_message path m args :
      v_msgs v !! m = Some (Msg args 0) →
      reads v (EMessage path m) (PMessage path args) {[m]} ∅
  | reads_bundle b t es ps ms bs :
      v_bundles v !! b = Some (t, es) →
      reads_list v es ps ms bs → b ∉ bs →
      reads v (EBundle b) (PBundle t ps) ms ({[b]} ∪ bs)
with reads_list (v : lview) : list elem → list packet → gset ptr → gset ptr → Prop :=
  | reads_nil : reads_list v [] [] ∅ ∅
  | reads_cons e es p ps ms1 bs1 ms2 bs2 :
      reads v e p ms1 bs1 → reads_list v es ps ms2 bs2 →
      ms1 ## ms2 → bs1 ## bs2 →
      reads_list v (e :: es) (p :: ps) (ms1 ∪ ms2) (bs1 ∪ bs2).

Scheme reads_ind2 := Minimality for reads Sort Prop
  with reads_list_ind2 := Minimality for reads_list Sort Prop.
Combined Scheme reads_mutind from reads_ind2, reads_list_ind2.

(** Everything a reading owns is live. *)
Lemma reads_live v :
  (∀ e p ms bs, reads v e p ms bs → ms ⊆ dom (v_msgs v) ∧ bs ⊆ dom (v_bundles v)) ∧
  (∀ es ps ms bs, reads_list v es ps ms bs → ms ⊆ dom (v_msgs v) ∧ bs ⊆ dom (v_bundles v)).
Proof.
  apply reads_mutind; try set_solver.
  - intros path m args Hm. apply elem_of_dom_2 in Hm. set_solver.
  - intros b t es ps ms bs Hb _ IH _. apply elem_of_dom_2 in Hb. set_solver.
Qed.

(** ** The functions of liblo the sources call *)

Class Liblo : Type := {
  world : Type;
  view : world → lview;

  (* time *)
  LO_TT_IMMEDIATE : lo_timetag;
  lo_timetag_now : M world lo_timetag;
  lo_timetag_diff : lo_timetag → lo_timetag → double;

  (* addresses *)
  lo_address_new : string → string → M world (option ptr);
  lo_address_free : option ptr → M world unit;
  lo_address_get_hostname : option ptr → world → outcome cptr;
  lo_address_get_port : option ptr → world → outcome cptr;
  lo_address_get_url : option ptr → world → outcome cptr;

  (* messages; the adders return a status the sources ignore *)
  lo_message_new : M world (option ptr);
  lo_message_free : option ptr → M world unit;
  lo_message_incref : option ptr → M world unit;
  lo_message_add_true : option ptr → M world Z;
  lo_message_add_false : option ptr → M world Z;
  lo_message_add_nil : option ptr → M world Z;
  lo_message_add_infinitum : option ptr → M world Z;
  lo_message_add_char : option ptr → ascii → M world Z;
  lo_message_add_int32 : option ptr → Z → M world Z;
  lo_message_add_int64 : option ptr → Z → M world Z;
  lo_message_add_float : option ptr → float → M world Z;
  lo_message_add_double : option ptr → double → M world Z;
  lo_message_add_string : option ptr → cptr → M world Z;
  lo_message_add_symbol : option ptr → cptr → M world Z;
  lo_message_add_midi : option ptr → list Z → M world Z;
  lo_message_add_timetag : option ptr → lo_timetag → M world Z;
  lo_message_add_blob : option ptr → option ptr → M world Z;
  lo_message_pp : option ptr → M world unit;

  (* reading a message: its type string, the number of its arguments, and the
     memory each argument pointer points to *)
  lo_message_get_types : option ptr → world → outcome cptr;
  lo_message_get_argc : option ptr → world → outcome Z;
  lo_message_get_argv : option ptr → world → outcome (list (list Z));
  lo_message_get_timestamp : option ptr → world → outcome lo_timetag;
  lo_message_get_source : option ptr → world → outcome (option ptr);
  lo_arg_pp : ascii → list Z → M world unit;

  (* blobs; a received blob is read through its argument pointer *)
  lo_blob_new : Z → option (list Z) → M world (option ptr);
  lo_blob_free : option ptr → M world unit;
  lo_blob_dataptr : list Z → outcome (list Z);
  lo_blob_datasize : list Z → outcome Z;

  (* bundles *)
  lo_bundle_new : lo_timetag → M world (option ptr);
  lo_bundle_add_message : option ptr → string → option ptr → M world Z;
  lo_bundle_add_bundle : option ptr → option ptr → M world Z;
  lo_bundle_free_recursive : option ptr → M world unit;
  lo_bundle_pp : option ptr → M world unit;

  (* sending *)
  lo_send_message : option ptr → string → option ptr → M world Z;
  lo_send_bundle : option ptr → option ptr → M world Z;

  (* servers: [lo_server_recv_noblock] gives the number of bytes received and
     the messages dispatched to the method of the server, in order *)
  lo_server_thread_new : string → err_handler → M world (option ptr);
  lo_server_thread_new_multicast : string → string → err_handler → M world (option ptr);
  lo_server_thread_add_method : option ptr → cptr → cptr → M world unit;
  lo_server_thread_start : option ptr → M world Z;
  lo_server_thread_stop : option ptr → M world Z;
  lo_server_thread_get_server : option ptr → world → outcome (option ptr);
  lo_server_recv_noblock : option ptr → Z → M world (Z * list (string * option ptr));
  lo_server_get_url : option ptr → world → outcome cptr;
  lo_server_get_port : option ptr → world → outcome Z;
  lo_url_get_hostname : cptr → outcome cptr
}.

Section interface.
Context {L : Liblo}.

(** The adder of each argument type but blobs, which go through a handle. *)
Definition lo_message_add (m : option ptr) (a : atom) : M world Z :=
  match a with
  | ATrue => lo_message_add_true m
  | AFalse => lo_message_add_false m
  | ANil => lo_message_add_nil m
  | AInfinitum => lo_message_add_infinitum m
  | AChar c => lo_message_add_char m c
  | AInt32 z => lo_message_add_int32 m z
  | AInt64 z => lo_message_add_int64 m z
  | AFloat f => lo_message_add_float m f
  | ADouble d => lo_message_add_double m d
  | AString s => lo_message_add_string m (CStr s)
  | ASymbol s => lo_message_add_symbol m (CStr s)
  | AMidi bs => lo_message_add_midi m bs
  | ATimetag t => lo_message_add_timetag m t
  | ABlob _ => mret (-1)
  end.

Definition is_blob (a : atom) : bool := match a with ABlob _ => true | _ => false end.

(** The memory an argument pointer gives access to. *)
Definition arg_repr (a : atom) (mem : list Z) : Prop :=
  match a with
  | ATrue | AFalse | ANil | AInfinitum => True
  | AChar c => ∃ k, mem = byte_of_ascii c :: k
  | AInt32 z => ∃ k, mem = store_int 4 z ++ k
  | AInt64 z => ∃ k, mem = store_int 8 z ++ k
  | AFloat f => ∃ k, mem = store_int 4 (float_bits f) ++ k
  | ADouble d => ∃ k, mem = store_int 8 (double_bits d) ++ k
  | AString s | ASymbol s => ∃ k, mem = string_bytes s ++ 0 :: k
  | AMidi bs => ∃ k, mem = bs ++ k
  | ATimetag t => ∃ k, mem = store_int 4 (tt_sec t) ++ store_int 4 (tt_frac t) ++ k
  | ABlob d => lo_blob_datasize mem = Ret (Z.of_nat (length d)) ∧
               ∃ k, lo_blob_dataptr mem = Ret (d ++ k)
  end.

(** [m] returns, and changes the view of the state by [f]. *)
Definition effect {A} (m : M world A) (w : world) (f : lview → lview) : Prop :=
  ∃ a w', m w = (Ret a, w') ∧ view w' = f (view w).
End interface.

(** ** What the sources rely on *)

Class LibloLaws (L : Liblo) : Prop := {
  law_timetag_now w :
    ∃ t w', lo_timetag_now w = (Ret t, w') ∧ view w' = view w ∧
            is_u32 (tt_sec t) ∧ is_u32 (tt_frac t);

  (* a new object is distinct from the live ones *)
  law_address_new h p w : nul_free h → nul_free p →
    ∃ a w', lo_address_new h p w = (Ret (Some a), w') ∧ v_addrs (view w) !! a = None ∧
            view w' = on_addrs <[a := (h, p)]> (view w);
  law_address_free a x w : v_addrs (view w) !! a = Some x →
    effect (lo_address_free (Some a)) w (on_addrs (delete a));
  law_address_get_hostname a h p w : v_addrs (view w) !! a = Some (h, p) →
    lo_address_get_hostname (Some a) w = Ret (CStr h);
  law_address_get_port a h p w : v_addrs (view w) !! a = Some (h, p) →
    lo_address_get_port (Some a) w = Ret (CStr p);
  law_address_get_url a x w : v_addrs (view w) !! a = Some x →
    ∃ u, lo_address_get_url (Some a) w = Ret (CStr u);

  law_message_new w :
    ∃ m w', lo_message_new w = (Ret (Some m), w') ∧ v_msgs (view w) !! m = None ∧
            view w' = on_msgs <[m := Msg [] 0]> (view w);
  law_message_add m a args w :
    v_msgs (view w) !! m = Some (Msg args 0) → is_blob a = false → atom_ok a →
    effect (lo_message_add (Some m) a) w (on_msgs <[m := Msg (args ++ [a]) 0]>);
  law_message_add_blob m b d args w :
    v_msgs (view w) !! m = Some (Msg args 0) → v_blobs (view w) !! b = Some d →
    effect (lo_message_add_blob (Some m) (Some b)) w
      (on_msgs <[m := Msg (args ++ [ABlob d]) 0]>);
  law_message_free m args w : v_msgs (view w) !! m = Some (Msg args 0) →
    effect (lo_message_free (Some m)) w (on_msgs (delete m));
  law_message_free_ref m args r w : v_msgs (view w) !! m = Some (Msg args (S r)) →
    effect (lo_message_free (Some m)) w (on_msgs <[m := Msg args r]>);
  law_message_incref m args r w : v_msgs (view w) !! m = Some (Msg args r) →
    effect (lo_message_incref (Some m)) w (on_msgs <[m := Msg args (S r)]>);

  law_message_get_types m args r w : v_msgs (view w) !! m = Some (Msg args r) →
    lo_message_get_types (Some m) w = Ret (CStr (tags args));
  law_message_get_argc m args r w : v_msgs (view w) !! m = Some (Msg args r) →
    lo_message_get_argc (Some m) w = Ret (Z.of_nat (length args));
  law_message_get_argv m args r w : v_msgs (view w) !! m = Some (Msg args r) →
    Forall atom_ok args →
    ∃ mems, lo_message_get_argv (Some m) w = Ret mems ∧ Forall2 arg_repr args mems;

  (* printing leaves the objects alone *)
  law_arg_pp t mem w : view (lo_arg_pp t mem w).2 = view w;
  law_arg_pp_returns a mem w : arg_repr a mem →
    effect (lo_arg_pp (atom_tag a) mem) w id;
  law_message_pp m args r w : v_msgs (view w) !! m = Some (Msg args r) →
    effect (lo_message_pp (Some m)) w id;
  law_message_get_timestamp m args r w : v_msgs (view w) !! m = Some (Msg args r) →
    ∃ t, lo_message_get_timestamp (Some m) w = Ret t;

  law_blob_new n d w : 0 < n < 2 ^ 31 → n ≤ Z.of_nat (length d) →
    ∃ b w', lo_blob_new n (Some d) w = (Ret (Some b), w') ∧ v_blobs (view w) !! b = None ∧
            view w' = on_blobs <[b := take (Z.to_nat n) d]> (view w);
  law_blob_free b d w : v_blobs (view w) !! b = Some d →
    effect (lo_blob_free (Some b)) w (on_blobs (delete b));

  (* a C function throws no exception, whatever memory it is given *)
  law_blob_no_throw mem e : lo_blob_dataptr mem ≠ Throw e ∧ lo_blob_datasize mem ≠ Throw e;

  law_bundle_new t w :
    ∃ b w', lo_bundle_new t w = (Ret (Some b), w') ∧ v_bundles (view w) !! b = None ∧
            view w' = on_bundles <[b := (t, [])]> (view w);
  law_bundle_add_message b t es m args path w :
    v_bundles (view w) !! b = Some (t, es) → v_msgs (view w) !! m = Some (Msg args 0) →
    nul_free path →
    effect (lo_bundle_add_message (Some b) path (Some m)) w
      (on_bundles <[b := (t, es ++ [EMessage path m])]>);
  law_bundle_add_bundle b c t es x w :
    v_bundles (view w) !! b = Some (t, es) → v_bundles (view w) !! c = Some x → b ≠ c →
    effect (lo_bundle_add_bundle (Some b) (Some c)) w
      (on_bundles <[b := (t, es ++ [EBundle c])]>);
  law_bundle_free_recursive b p ms bs w : reads (view w) (EBundle b) p ms bs →
    effect (lo_bundle_free_recursive (Some b)) w
      (λ v, on_msgs (filter (λ x, x.1 ∉ ms)) (on_bundles (filter (λ x, x.1 ∉ bs)) v));

  law_bundle_pp b p ms bs w : reads (view w) (EBundle b) p ms bs →
    effect (lo_bundle_pp (Some b)) w id;

  law_send_message a x m args path w :
    v_addrs (view w) !! a = Some x → v_msgs (view w) !! m = Some (Msg args 0) →
    nul_free path →
    effect (lo_send_message (Some a) path (Some m)) w
      (on_sent (λ l, l ++ [(x, PMessage path args)]));
  law_send_bundle a x b p ms bs w :
    v_addrs (view w) !! a = Some x → reads (view w) (EBundle b) p ms bs →
    effect (lo_send_bundle (Some a) (Some b)) w (on_sent (λ l, l ++ [(x, p)]));

  (* creating a server succeeds, or fails and reports to the error callback with
     readable (or null) strings; a port from 1 to 65535 is held while a server on
     it lives, and is shared by no other but for multicast (for port 0 the
     operating system picks a free one, each time) *)
  law_server_thread_new p h w :
    (∃ s w', lo_server_thread_new p h w = (Ret (Some s), w') ∧
             v_servers (view w) !! s = None ∧
             (∀ n, p = dec n → 0 < n < 65536 →
                ∀ s' x, v_servers (view w) !! s' = Some x → srv_port x ≠ p) ∧
             view w' = on_servers <[s := Server p None h false]> (view w)) ∨
    (∃ n m wh w', lo_server_thread_new p h w = ((_ ← h n m wh; Ret None), w') ∧
             m ≠ CDangling ∧ wh ≠ CDangling ∧ view w' = view w);
  law_server_thread_new_multicast g p h w :
    (∃ s w', lo_server_thread_new_multicast g p h w = (Ret (Some s), w') ∧
             v_servers (view w) !! s = None ∧
             view w' = on_servers <[s := Server p (Some g) h false]> (view w)) ∨
    (∃ n m wh w', lo_server_thread_new_multicast g p h w = ((_ ← h n m wh; Ret None), w') ∧
             m ≠ CDangling ∧ wh ≠ CDangling ∧ view w' = view w);
  law_server_thread_add_method s x path types w : v_servers (view w) !! s = Some x →
    effect (lo_server_thread_add_method (Some s) path types) w id;
  law_server_thread_start s x w : v_servers (view w) !! s = Some x →
    effect (lo_server_thread_start (Some s)) w
      (on_servers <[s := Server (srv_port x) (srv_group x) (srv_handler x) true]>);
  law_server_thread_stop s x w : v_servers (view w) !! s = Some x →
    effect (lo_server_thread_stop (Some s)) w
      (on_servers <[s := Server (srv_port x) (srv_group x) (srv_handler x) false]>);

  (* the server of a thread: its url, its port as a number; receiving creates
     the messages to dispatch and leaves the other objects alone, or, when what
     came in is not a valid message, reports to the error callback and
     dispatches nothing *)
  law_server_thread_get_server s x w : v_servers (view w) !! s = Some x →
    ∃ sv, lo_server_thread_get_server (Some s) w = Ret (Some sv) ∧
      (∃ url host, lo_server_get_url (Some sv) w = Ret (CStr url) ∧
                   lo_url_get_hostname (CStr url) = Ret (CStr host)) ∧
      (∀ n, srv_port x = dec n → 0 < n < 65536 → lo_server_get_port (Some sv) w = Ret n) ∧
      (∀ t,
        (∃ n ms w', lo_server_recv_noblock (Some sv) t w = (Ret (n, ms), w') ∧
           v_servers (view w') = v_servers (view w) ∧
           Forall (λ d, ∃ m args, d.2 = Some m ∧ v_msgs (view w) !! m = None ∧
                                  v_msgs (view w') !! m = Some (Msg args 0)) ms) ∨
        (∃ n m wh k w',
           lo_server_recv_noblock (Some sv) t w = ((_ ← srv_handler x n m wh; Ret (k, [])), w') ∧
           m ≠ CDangling ∧ wh ≠ CDangling ∧ view w' = view w))
}.

(** ** No exceptions

    liblo is a C library: but for the error callback of a server, nothing it runs
    can throw.  These are the functions a sender calls, and those that start and
    stop a server. *)
Class LibloC (L : Liblo) : Prop := {
  c_timetag_now : no_throw lo_timetag_now;
  c_address_new h p : no_throw (lo_address_new h p);
  c_address_free a : no_throw (lo_address_free a);
  c_address_get_url a w e : lo_address_get_url a w ≠ Throw e;
  c_message_new : no_throw lo_message_new;
  c_message_free m : no_throw (lo_message_free m);
  c_message_add m a : no_throw (lo_message_add m a);
  c_message_add_string m s : no_throw (lo_message_add_string m s);
  c_message_add_symbol m s : no_throw (lo_message_add_symbol m s);
  c_message_add_blob m b : no_throw (lo_message_add_blob m b);
  c_blob_new n d : no_throw (lo_blob_new n d);
  c_blob_free b : no_throw (lo_blob_free b);
  c_bundle_new t : no_throw (lo_bundle_new t);
  c_bundle_add_message b path m : no_throw (lo_bundle_add_message b path m);
  c_bundle_add_bundle b c : no_throw (lo_bundle_add_bundle b c);
  c_bundle_free_recursive b : no_throw (lo_bundle_free_recursive b);
  c_send_message a path m : no_throw (lo_send_message a path m);
  c_send_bundle a b : no_throw (lo_send_bundle a b);
  c_server_thread_start s : no_throw (lo_server_thread_start s);
  c_server_thread_stop s : no_throw (lo_server_thread_stop s)
}.

(** ** Messages from the network *)

(** [sourced w m]: message [m] was received, and knows the address it came from. *)
Class Incoming {L : Liblo} : Type := { sourced : world → ptr → Prop }.

(** A message liblo hands to the method of a server. *)
Definition incoming {L : Liblo} {I : Incoming} (w : world) (d : string * option ptr) : Prop :=
  ∃ m args, d.2 = Some m ∧ v_msgs (view w) !! m = Some (Msg args 0) ∧
    Forall atom_ok args ∧ Z.of_nat (length args) < 2 ^ 16 ∧ sourced w m.

(** liblo checks what it receives: the arguments are values of their types, and a
    datagram has less than 2^16 bytes, one of them for each tag.  The address a
    message came from is a live one as long as the message lives; keeping and
    dropping references and printing leave it alone. *)
Class IncomingLaws {L : Liblo} (I : Incoming) : Prop := {
  law_sourced w m args r : sourced w m → v_msgs (view w) !! m = Some (Msg args r) →
    ∃ a x, lo_message_get_source (Some m) w = Ret (Some a) ∧ v_addrs (view w) !! a = Some x;
  law_sourced_incref w m p : sourced w m → sourced (lo_message_incref p w).2 m;
  law_sourced_free w m p : sourced w m → sourced (lo_message_free p w).2 m;
  law_sourced_arg_pp w m t mem : sourced w m → sourced (lo_arg_pp t mem w).2 m;
  law_recv_incoming t sv timeoutMS n ds w w' :
    lo_server_thread_get_server t w = Ret sv →
    lo_server_recv_noblock sv timeoutMS w = (Ret (n, ds), w') → Forall (incoming w') ds
}.
