(* ===== verification/LibloModel.v ===== *)
(** * A reference liblo

    A concrete instance of the interface, over finite maps, with a proof of
    every law: the laws are consistent, and the theorems about clients of
    liblo can be applied to runs that evaluate.  A call with a null handle or a
    dead one is undefined behaviour here. *)
From S2P Require Import Prelude Exceptions Effects Machine Floats Liblo.
Open Scope Z_scope.

(** An address no live object has. *)
Definition fresh_ptr {A} (m : gmap ptr A) : ptr :=
  Pos.succ (map_fold (λ k _ a, Pos.max k a) 1%positive m).

Lemma fresh_ptr_None {A} (m : gmap ptr A) : m !! fresh_ptr m = None.
Proof.
  assert (∀ k x, m !! k = Some x →
            (k ≤ map_fold (λ k _ a, Pos.max k a) 1%positive m)%positive) as Hle.
  { apply (map_fold_weak_ind (λ a m, ∀ k x, m !! k = Some x → (k ≤ a)%positive)); [done|].
    intros i x m' a _ IH k y. destruct (decide (i = k)) as [->|Hne].
    - rewrite lookup_insert_eq. lia.
    - rewrite lookup_insert_ne by done. intros ?%IH. lia. }
  apply eq_None_not_Some. intros [x Hx]. apply Hle in Hx. unfold fresh_ptr in Hx. lia.
Qed.

(** A packet at a socket: its size and the path and arguments of the messages it
    dispatches, all from one address; or bytes that are no packet. *)
Inductive datagram : Type :=
  | Datagram (size : Z) (messages : list (string * list atom))
  | Malformed.

(** The state: the view, a clock, the packets waiting at the sockets, and the
    address of the last one received. *)
Record mworld : Type := MWorld {
  mw_view : lview;
  mw_clock : Z;
  mw_inbox : list datagram;
  mw_source : option ptr
}.

Definition mw0 : mworld := MWorld (View ∅ ∅ ∅ ∅ ∅ []) 0 [] None.

Definition set_view (v : lview) (w : mworld) : mworld :=
  MWorld v (mw_clock w) (mw_inbox w) (mw_source w).
Definition update (f : lview → lview) : M mworld unit := λ w,
  (Ret tt, set_view (f (mw_view w)) w).

(** The object a handle stands for. *)
Definition deref {A} (f : lview → gmap ptr A) (p : option ptr) (w : mworld) : outcome (ptr * A) :=
  match p with
  | None => Undef NullHandle
  | Some p => match f (mw_view w) !! p with
              | Some x => Ret (p, x)
              | None => Undef DanglingPointer
              end
  end.

Definition derefM {A} (f : lview → gmap ptr A) (p : option ptr) : M mworld (ptr * A) :=
  λ w, (deref f p w, w).

Definition alloc {A} (f : lview → gmap ptr A)
    (upd : (gmap ptr A → gmap ptr A) → lview → lview) (x : A) : M mworld (option ptr) :=
  λ w, let p := fresh_ptr (f (mw_view w)) in
       (Ret (Some p), set_view (upd <[p := x]> (mw_view w)) w).

Definition m_add (m : option ptr) (a : atom) : M mworld Z :=
  '(p, x) ← derefM v_msgs m;
  _ ← update (on_msgs <[p := Msg (msg_args x ++ [a]) (msg_refs x)]>);
  mret 0.

Definition m_add_str (mk : string → atom) (m : option ptr) (s : cptr) : M mworld Z :=
  s ← liftO (std_string s); m_add m (mk s).

Definition m_free (m : option ptr) : M mworld unit :=
  '(p, x) ← derefM v_msgs m;
  match msg_refs x with
  | O => update (on_msgs (delete p))
  | S r => update (on_msgs <[p := Msg (msg_args x) r]>)
  end.

Definition m_blob_new (n : Z) (d : option (list Z)) : M mworld (option ptr) :=
  match d with
  | Some d =>
      if decide (0 < n) then
        (if decide (n ≤ Z.of_nat (length d)) then alloc v_blobs on_blobs (take (Z.to_nat n) d)
         else undef OutOfBounds)
      else mret None
  | None => mret None
  end.

(** The memory of a received argument. *)
Definition arg_mem (a : atom) : list Z :=
  match a with
  | ATrue | AFalse | ANil | AInfinitum => []
  | AChar c => [byte_of_ascii c; 0; 0; 0]
  | AInt32 z => store_int 4 z
  | AInt64 z => store_int 8 z
  | AFloat f => store_int 4 (float_bits f)
  | ADouble d => store_int 8 (double_bits d)
  | AString s | ASymbol s => string_bytes s ++ [0]
  | AMidi bs => bs
  | ATimetag t => store_int 4 (tt_sec t) ++ store_int 4 (tt_frac t)
  | ABlob d => store_int 4 (Z.of_nat (length d)) ++ d
  end.

(** The packet below a bundle and the objects it owns, to a given depth. *)
Fixpoint deep (n : nat) (v : lview) (e : elem) : option (packet * gset ptr * gset ptr) :=
  match e with
  | EMessage path m =>
      match v_msgs v !! m with
      | Some (Msg args O) => Some (PMessage path args, {[m]}, ∅)
      | _ => None
      end
  | EBundle b =>
      match n with
      | O => None
      | S n =>
          '(t, es) ← v_bundles v !! b;
          '(ps, ms, bs) ← foldr (λ e acc,
             '(p, ms1, bs1) ← deep n v e;
             '(ps, ms2, bs2) ← acc;
             Some (p :: ps, ms1 ∪ ms2, bs1 ∪ bs2)) (Some ([], ∅, ∅)) es;
          Some (PBundle t ps, ms, {[b]} ∪ bs)
      end
  end.

Definition m_deep (b : option ptr) : M mworld (packet * gset ptr * gset ptr) := λ w,
  match b with
  | None => (Undef NullHandle, w)
  | Some b =>
      match deep (size (v_bundles (mw_view w))) (mw_view w) (EBundle b) with
      | Some x => (Ret x, w)
      | None => (Undef DanglingPointer, w)
      end
  end.

(** Is a port taken?  Port 0 never is. *)
Definition bound (p : string) (v : lview) : bool :=
  bool_decide (p ≠ "0" ∧ map_Exists (λ _ x, srv_port x = p) (v_servers v)).

Definition m_server_new (p : string) (g : option string) (h : err_handler) : M mworld (option ptr) :=
  λ w, if bound p (mw_view w)
       then ((_ ← h 9904 (CStr "cannot find free port") CNull; Ret None), w)
       else alloc v_servers on_servers (Server p g h false) w.

Definition m_server_run (r : bool) (s : option ptr) : M mworld Z :=
  '(p, x) ← derefM v_servers s;
  _ ← update (on_servers <[p := Server (srv_port x) (srv_group x) (srv_handler x) r]>);
  mret 0.

(** The messages of a packet are allocated one after the other. *)
Fixpoint m_receive (ds : list (string * list atom)) (v : lview)
    : list (string * option ptr) * lview :=
  match ds with
  | [] => ([], v)
  | (path, args) :: ds =>
      let m := fresh_ptr (v_msgs v) in
      let '(ms, v') := m_receive ds (on_msgs <[m := Msg args 0]> v) in
      ((path, Some m) :: ms, v')
  end.

(** The messages liblo accepts: arguments of their types, few enough for a datagram. *)
Definition accepted (x : string * list atom) : Prop :=
  Forall atom_ok x.2 ∧ Z.of_nat (length x.2) < 2 ^ 16.

#[export] Instance accepted_dec x : Decision (accepted x).
Proof. unfold accepted. apply _. Defined.

(** A packet comes from an address of its own; the messages that are not accepted
    are dropped. *)
Definition m_incoming (ds : list (string * list atom)) (w : mworld)
    : list (string * option ptr) * mworld :=
  let a := fresh_ptr (v_addrs (mw_view w)) in
  let '(ms, v') := m_receive (filter accepted ds)
    (on_addrs <[a := ("127.0.0.1", "57120")]> (mw_view w)) in
  (ms, MWorld v' (mw_clock w) (mw_inbox w) (Some a)).

Definition m_recv (s : option ptr) (ms : Z) : M mworld (Z * list (string * option ptr)) := λ w,
  match mw_inbox w with
  | [] => (Ret (0, []), w)
  | Datagram n ds :: xs =>
      let '(ms, w') := m_incoming ds (MWorld (mw_view w) (mw_clock w) xs (mw_source w)) in
      (Ret (n, ms), w')
  | Malformed :: xs =>
      (('(_, x) ← deref v_servers s w;
        _ ← srv_handler x 9911 (CStr "Invalid message received") CNull; Ret (-1, [])),
       MWorld (mw_view w) (mw_clock w) xs (mw_source w))
  end.

(** The port a decimal numeral stands for. *)
Definition m_port (p : string) : Z :=
  from_option snd 0 (list_find (λ n, dec n = p)
    (seqZ 0 (Z.max 65536 (Z.of_nat (String.length p))))).

Definition deref_fst {A B} (f : lview → gmap ptr A) (g : A → B) (p : option ptr) (w : mworld)
    : outcome B :=
  '(_, x) ← deref f p w; Ret (g x).

Definition url_of (x : string * string) : string :=
  ("osc.udp://" +:+ x.1 +:+ ":" +:+ x.2 +:+ "/").

#[export] Instance model : Liblo := {
  world := mworld;
  view := mw_view;
  LO_TT_IMMEDIATE := Timetag 0 1;
  lo_timetag_now := λ w, (Ret (Timetag (wrap 32 (mw_clock w)) 0),
                          MWorld (mw_view w) (mw_clock w + 1) (mw_inbox w) (mw_source w));
  lo_timetag_diff := λ a b, double_of_Z (tt_sec a - tt_sec b);
  lo_address_new := λ h p, alloc v_addrs on_addrs (h, p);
  lo_address_free := λ a, '(p, _) ← derefM v_addrs a; update (on_addrs (delete p));
  lo_address_get_hostname := deref_fst v_addrs (λ x, CStr x.1);
  lo_address_get_port := deref_fst v_addrs (λ x, CStr x.2);
  lo_address_get_url := deref_fst v_addrs (λ x, CStr (url_of x));
  lo_message_new := alloc v_msgs on_msgs (Msg [] 0);
  lo_message_free := m_free;
  lo_message_incref := λ m, '(p, x) ← derefM v_msgs m;
    update (on_msgs <[p := Msg (msg_args x) (S (msg_refs x))]>);
  lo_message_add_true := λ m, m_add m ATrue;
  lo_message_add_false := λ m, m_add m AFalse;
  lo_message_add_nil := λ m, m_add m ANil;
  lo_message_add_infinitum := λ m, m_add m AInfinitum;
  lo_message_add_char := λ m c, m_add m (AChar c);
  lo_message_add_int32 := λ m z, m_add m (AInt32 z);
  lo_message_add_int64 := λ m z, m_add m (AInt64 z);
  lo_message_add_float := λ m f, m_add m (AFloat f);
  lo_message_add_double := λ m d, m_add m (ADouble d);
  lo_message_add_string := m_add_str AString;
  lo_message_add_symbol := m_add_str ASymbol;
  lo_message_add_midi := λ m bs, m_add m (AMidi bs);
  lo_message_add_timetag := λ m t, m_add m (ATimetag t);
  lo_message_add_blob := λ m b, '(_, d) ← derefM v_blobs b; m_add m (ABlob d);
  lo_message_pp := λ _, mret tt;
  lo_message_get_types := deref_fst v_msgs (λ x, CStr (tags (msg_args x)));
  lo_message_get_argc := deref_fst v_msgs (λ x, Z.of_nat (length (msg_args x)));
  lo_message_get_argv := deref_fst v_msgs (λ x, arg_mem <$> msg_args x);
  lo_message_get_timestamp := λ m w, Ret (Timetag (wrap 32 (mw_clock w)) 0);
  lo_message_get_source := λ m w, Ret (mw_source w);
  lo_arg_pp := λ _ _, mret tt;
  lo_blob_new := m_blob_new;
  lo_blob_free := λ b, '(p, _) ← derefM v_blobs b; update (on_blobs (delete p));
  lo_blob_dataptr := λ mem, Ret (drop 4 mem);
  lo_blob_datasize := load_uint 4;
  lo_bundle_new := λ t, alloc v_bundles on_bundles (t, []);
  lo_bundle_add_message := λ b path m,
    '(p, x) ← derefM v_bundles b; '(q, _) ← derefM v_msgs m;
    _ ← update (on_bundles <[p := (x.1, x.2 ++ [EMessage path q])]>); mret 0;
  lo_bundle_add_bundle := λ b c,
    '(p, x) ← derefM v_bundles b; '(q, _) ← derefM v_bundles c;
    _ ← update (on_bundles <[p := (x.1, x.2 ++ [EBundle q])]>); mret 0;
  lo_bundle_free_recursive := λ b,
    '(_, ms, bs) ← m_deep b;
    update (λ v, on_msgs (filter (λ x, x.1 ∉ ms)) (on_bundles (filter (λ x, x.1 ∉ bs)) v));
  lo_bundle_pp := λ _, mret tt;
  lo_send_message := λ a path m,
    '(_, x) ← derefM v_addrs a; '(_, y) ← derefM v_msgs m;
    _ ← update (on_sent (λ l, l ++ [(x, PMessage path (msg_args y))])); mret 1;
  lo_send_bundle := λ a b,
    '(_, x) ← derefM v_addrs a; '(p, _, _) ← m_deep b;
    _ ← update (on_sent (λ l, l ++ [(x, p)])); mret 1;
  lo_server_thread_new := λ p h, m_server_new p None h;
  lo_server_thread_new_multicast := λ g p h, m_server_new p (Some g) h;
  lo_server_thread_add_method := λ s _ _, _ ← derefM v_servers s; mret tt;
  lo_server_thread_start := m_server_run true;
  lo_server_thread_stop := m_server_run false;
  lo_server_thread_get_server := λ s w, Ret s;
  lo_server_recv_noblock := m_recv;
  lo_server_get_url := deref_fst v_servers (λ x, CStr (url_of ("localhost", srv_port x)));
  lo_server_get_port := deref_fst v_servers (λ x, m_port (srv_port x));
  lo_url_get_hostname := λ u, Ret (CStr "localhost")
}.

(** ** The laws hold *)

Lemma deref_live {A} (f : lview → gmap ptr A) p x w :
  f (mw_view w) !! p = Some x → deref f (Some p) w = Ret (p, x).
Proof. unfold deref. by intros ->. Qed.

Lemma deep_complete v :
  (∀ e p ms bs, reads v e p ms bs → ∀ n, (size bs ≤ n)%nat → deep n v e = Some (p, ms, bs)) ∧
  (∀ es ps ms bs, reads_list v es ps ms bs → ∀ n, (size bs ≤ n)%nat →
    foldr (λ e acc, '(p, ms1, bs1) ← deep n v e; '(ps, ms2, bs2) ← acc;
                    Some (p :: ps, ms1 ∪ ms2, bs1 ∪ bs2)) (Some ([], ∅, ∅)) es
    = Some (ps, ms, bs)).
Proof.
  apply reads_mutind.
  - intros path m args Hm [|n] _; simpl; by rewrite Hm.
  - intros b t es ps ms bs Hb _ IH Hn n Hle.
    rewrite size_union, size_singleton in Hle by set_solver.
    destruct n as [|n]; [lia|]. simpl. rewrite Hb. simpl. rewrite IH by lia. done.
  - done.
  - intros e es p ps ms1 bs1 ms2 bs2 _ IH1 _ IH2 Hms Hbs n Hle.
    rewrite size_union in Hle by done. simpl.
    rewrite IH2 by lia. by rewrite IH1 by lia.
Qed.

Lemma m_deep_reads b p ms bs w :
  reads (mw_view w) (EBundle b) p ms bs → m_deep (Some b) w = (Ret (p, ms, bs), w).
Proof.
  intros H. unfold m_deep. destruct (deep_complete (mw_view w)) as [Hd _].
  rewrite (Hd _ _ _ _ H); [done|].
  rewrite <- (size_dom (D := gset ptr)). apply subseteq_size.
  by apply (proj1 (reads_live _) _ _ _ _ H).
Qed.

Lemma arg_mem_repr a : atom_ok a → arg_repr a (arg_mem a).
Proof.
  destruct a; cbn -[store_int load_uint]; try done; intros;
    try (by eexists); try (exists []; by rewrite ?app_nil_r).
  rewrite load_store_uint. split; [|exists []; by rewrite app_nil_r].
  f_equal. apply wrap_small. lia.
Qed.

(** The steps of the laws: run the dereferences, then name the next state. *)
Ltac unfold_model := cbn -[deref m_deep mbind];
  unfold effect, m_add_str, m_add, m_server_run, derefM, update, liftO, std_string,
    mbind, M_bind, outcome_bind, mret, M_ret;
  cbn -[deref m_deep mbind].
Ltac run_model := unfold_model;
  repeat match goal with
  | H : ?f (mw_view ?w) !! ?p = Some ?x |- context [deref ?f (Some ?p) ?w] =>
      rewrite (deref_live f p x w H); cbn -[deref m_deep]
  end.
Ltac model_effect := intros; run_model; by do 2 eexists.

Lemma model_add m a args w :
  v_msgs (mw_view w) !! m = Some (Msg args 0) → is_blob a = false →
  effect (L := model) (lo_message_add (L := model) (Some m) a) w
    (on_msgs <[m := Msg (args ++ [a]) 0]>).
Proof. destruct a; intros H Hb; try done; model_effect. Qed.

Lemma model_message_free m args r w :
  v_msgs (mw_view w) !! m = Some (Msg args r) →
  effect (L := model) (m_free (Some m)) w
    (on_msgs (match r with O => delete m | S r => <[m := Msg args r]> end)).
Proof. intros. unfold m_free. run_model. destruct r; by do 2 eexists. Qed.

Lemma model_argv args : Forall atom_ok args → Forall2 (arg_repr (L := model)) args (arg_mem <$> args).
Proof. induction 1; constructor; [by apply arg_mem_repr|done]. Qed.

Lemma model_blob_new n d w : 0 < n → n ≤ Z.of_nat (length d) →
  ∃ b w', m_blob_new n (Some d) w = (Ret (Some b), w') ∧ v_blobs (mw_view w) !! b = None ∧
          mw_view w' = on_blobs <[b := take (Z.to_nat n) d]> (mw_view w).
Proof.
  intros. unfold m_blob_new. rewrite !decide_True by lia.
  do 2 eexists; split_all. apply fresh_ptr_None.
Qed.

Lemma model_free_recursive b p ms bs w : reads (mw_view w) (EBundle b) p ms bs →
  effect (L := model) (lo_bundle_free_recursive (Liblo := model) (Some b)) w
    (λ v, on_msgs (filter (λ x, x.1 ∉ ms)) (on_bundles (filter (λ x, x.1 ∉ bs)) v)).
Proof.
  intros H. run_model.
  rewrite (m_deep_reads _ _ _ _ _ H). by do 2 eexists.
Qed.

Lemma model_send_bundle a x b p ms bs w :
  v_addrs (mw_view w) !! a = Some x → reads (mw_view w) (EBundle b) p ms bs →
  effect (L := model) (lo_send_bundle (Liblo := model) (Some a) (Some b)) w
    (on_sent (λ l, l ++ [(x, p)])).
Proof.
  intros Ha H. run_model.
  rewrite (m_deep_reads _ _ _ _ _ H). by do 2 eexists.
Qed.

Lemma model_server_new p g h w :
  (∃ s w', m_server_new p g h w = (Ret (Some s), w') ∧ v_servers (mw_view w) !! s = None ∧
           (∀ n, p = dec n → 0 < n < 65536 →
              ∀ s' x, v_servers (mw_view w) !! s' = Some x → srv_port x ≠ p) ∧
           mw_view w' = on_servers <[s := Server p g h false]> (mw_view w)) ∨
  (∃ n m wh w', m_server_new p g h w = ((_ ← h n m wh; Ret None), w') ∧
           m ≠ CDangling ∧ wh ≠ CDangling ∧ mw_view w' = mw_view w).
Proof.
  unfold m_server_new, bound. case_bool_decide as Hb; [right|left].
  - do 4 eexists. by split_all.
  - do 2 eexists; split_all; [apply fresh_ptr_None|].
    intros n -> Hn s' x Hs Hx. apply Hb. split; [|by exists s', x].
    intros H0. change "0" with (dec 0) in H0. apply (inj (pretty (A := Z))) in H0. lia.
Qed.

Lemma m_port_dec n : 0 < n < 65536 → m_port (dec n) = n.
Proof.
  intros Hn. unfold m_port.
  destruct (list_find (λ k, dec k = dec n) _) as [[i k]|] eqn:E; simpl.
  - apply list_find_Some in E as (_ & Hk & _). by apply (inj (pretty (A := Z))) in Hk.
  - eapply list_find_None, Forall_forall in E; [by destruct E|]. apply elem_of_seqZ. lia.
Qed.

Lemma m_receive_live ds v ms v' : m_receive ds v = (ms, v') →
  v_servers v' = v_servers v ∧
  (∀ m x, v_msgs v !! m = Some x → v_msgs v' !! m = Some x) ∧
  Forall (λ d, ∃ m args, d.2 = Some m ∧ v_msgs v !! m = None ∧
                         v_msgs v' !! m = Some (Msg args 0)) ms.
Proof.
  revert v ms v'. induction ds as [|[path args] ds IH]; intros v ms v' H; simpl in H.
  - simplify_eq. by split_all.
  - destruct (m_receive ds _) as [ms0 v0] eqn:E. simplify_eq.
    apply IH in E as (Hs & Hk & Hf). simpl in *. split_all.
    + intros m x Hm. apply Hk. rewrite lookup_insert_ne; [done|].
      intros <-. by rewrite fresh_ptr_None in Hm.
    + constructor.
      * exists (fresh_ptr (v_msgs v)), args. split_all; [apply fresh_ptr_None|].
        apply Hk. by rewrite lookup_insert_eq.
      * eapply Forall_impl; [done|]. intros d (m & a & ? & Hm & ?). exists m, a. split_all.
        by apply lookup_insert_None in Hm as [? _].
Qed.

Lemma m_incoming_live ds w ms w' : m_incoming ds w = (ms, w') →
  v_servers (mw_view w') = v_servers (mw_view w) ∧
  Forall (λ d, ∃ m args, d.2 = Some m ∧ v_msgs (mw_view w) !! m = None ∧
                         v_msgs (mw_view w') !! m = Some (Msg args 0)) ms.
Proof.
  unfold m_incoming. destruct (m_receive _ _) as [ms0 v0] eqn:E. intros [= <- <-].
  by apply m_receive_live in E as (? & _ & ?).
Qed.

Lemma model_recv s t x w : v_servers (mw_view w) !! s = Some x →
  (∃ n ms w', m_recv (Some s) t w = (Ret (n, ms), w') ∧
     v_servers (mw_view w') = v_servers (mw_view w) ∧
     Forall (λ d, ∃ m args, d.2 = Some m ∧ v_msgs (mw_view w) !! m = None ∧
                            v_msgs (mw_view w') !! m = Some (Msg args 0)) ms) ∨
  (∃ n m wh k w', m_recv (Some s) t w = ((_ ← srv_handler x n m wh; Ret (k, [])), w') ∧
     m ≠ CDangling ∧ wh ≠ CDangling ∧ mw_view w' = mw_view w).
Proof.
  intros Hx. unfold m_recv. destruct (mw_inbox w) as [|[n ds|] xs]; [left; by do 3 eexists|left|right].
  - destruct (m_incoming ds _) as [ms w'] eqn:E. apply m_incoming_live in E as [? ?].
    by do 3 eexists.
  - rewrite (deref_live _ _ _ _ Hx). do 5 eexists. by split_all.
Qed.

#[export] Instance model_laws : LibloLaws model.
Proof.
  split; cbn -[m_deep arg_repr m_free m_blob_new m_server_new effect deref m_recv m_port
               lo_message_add].
  - intros w. do 2 eexists. split_all; simpl; try lia. apply wrap_range; lia.
  - intros. do 2 eexists; split_all. apply fresh_ptr_None.
  - model_effect.
  - intros. unfold deref_fst. by run_model.
  - intros. unfold deref_fst. by run_model.
  - intros. unfold deref_fst. run_model. by eexists.
  - intros. do 2 eexists; split_all. apply fresh_ptr_None.
  - intros. by apply model_add.
  - model_effect.
  - intros. by apply (model_message_free m args 0).
  - intros. by apply (model_message_free m args (S r)).
  - model_effect.
  - intros. unfold deref_fst. by run_model.
  - intros. unfold deref_fst. by run_model.
  - intros m args r w H Hok. unfold deref_fst. run_model.
    eexists. split; [done|]. by apply model_argv.
  - done.
  - intros a mem w _. by eexists _, _.
  - intros m args r w _. by eexists _, _.
  - intros m args r w _. by eexists.
  - intros. apply model_blob_new; lia.
  - model_effect.
  - intros mem e. split; [done|]. unfold load_uint. by case_decide.
  - intros. do 2 eexists; split_all. apply fresh_ptr_None.
  - model_effect.
  - model_effect.
  - apply model_free_recursive.
  - intros b p ms bs w _. by eexists _, _.
  - model_effect.
  - apply model_send_bundle.
  - intros p h w. apply model_server_new.
  - intros g p h w. destruct (model_server_new p (Some g) h w) as [(s & w' & ? & ? & _ & ?)|?];
      [left; by exists s, w'|by right].
  - intros s x path types w H. exists tt, w. split_all.
    by run_model.
  - model_effect.
  - model_effect.
  - intros s x w H. exists s. split_all.
    + do 2 eexists. split; [|done]. unfold deref_fst. by run_model.
    + intros n Hp Hn. unfold deref_fst. run_model. rewrite Hp. by rewrite m_port_dec.
    + intros t. by apply model_recv.
Qed.

(** The address of the last packet received, if it is live. *)
#[export] Instance model_incoming : Incoming (L := model) :=
  { sourced w _ := ∃ a x, mw_source w = Some a ∧ v_addrs (mw_view w) !! a = Some x }.

Lemma m_receive_incoming ds v ms v' : m_receive ds v = (ms, v') →
  v_addrs v' = v_addrs v ∧ Forall2 (λ d x, d.1 = x.1 ∧ ∃ m, d.2 = Some m ∧ v_msgs v' !! m = Some (Msg x.2 0)) ms ds.
Proof.
  revert v ms v'. induction ds as [|[path args] ds IH]; intros v ms v' Hr; simpl in Hr.
  - injection Hr as <- <-. by split.
  - destruct (m_receive ds _) as [ms0 v0] eqn:E. injection Hr as <- <-.
    apply m_receive_live in E as Hl. destruct Hl as (_ & Hk & _).
    apply IH in E as [? ?]. split; [done|]. constructor; [|done].
    split; [done|]. eexists. split; [done|]. apply Hk, lookup_insert_eq.
Qed.

Lemma m_incoming_incoming ds w ms w' : m_incoming ds w = (ms, w') → Forall (incoming (L := model) w') ms.
Proof.
  unfold m_incoming. destruct (m_receive _ _) as [ms0 v0] eqn:E. intros [= <- <-].
  apply m_receive_incoming in E as [Ha Hms]. apply Forall_forall. intros d Hd.
  apply list_elem_of_lookup in Hd as [i Hi].
  destruct (Forall2_lookup_l _ _ _ _ _ Hms Hi) as (x & Hx & _ & m & Hm & Hl).
  apply list_elem_of_lookup_2, list_elem_of_filter in Hx as [[Hok Hn] _].
  exists m, x.2. split_all. eexists _, _. split; [done|]. simpl. rewrite Ha. apply lookup_insert_eq.
Qed.

#[export] Instance model_incoming_laws : IncomingLaws model_incoming.
Proof.
  assert (∀ {A} (m : M mworld A) w p, sourced (Incoming := model_incoming) w p →
    mw_source (m w).2 = mw_source w → v_addrs (mw_view (m w).2) = v_addrs (mw_view w) →
    sourced (Incoming := model_incoming) (m w).2 p) as Hstable.
  { intros A m w p (a & x & Hs & Ha) Hs' Ha'. exists a, x. by rewrite Hs', Ha'. }
  split.
  - intros w m args r (a & x & Hs & Ha) _. exists a, x. simpl. by rewrite Hs.
  - intros w m p Hm. apply Hstable; [done|..]; simpl; unfold derefM, mbind, M_bind;
      by destruct (deref v_msgs p w) as [[]|?|?].
  - intros w m p Hm. apply Hstable; [done|..]; simpl; unfold m_free, derefM, mbind, M_bind;
      by destruct (deref v_msgs p w) as [[? [? []]]|?|?].
  - done.
  - intros t sv timeoutMS n ds w w' _ Hr. simpl in Hr. unfold m_recv in Hr.
    destruct (mw_inbox w) as [|[k xs|] ys]; [injection Hr as <- <- <-; constructor| |].
    + destruct (m_incoming xs _) as [ms w1] eqn:E. injection Hr as <- <- <-.
      by eapply m_incoming_incoming.
    + injection Hr as Hr _. apply outcome_bind_Ret_inv in Hr as ([? y] & _ & Hr).
      apply outcome_bind_Ret_inv in Hr as (? & _ & [= _ <-]). constructor.
Qed.

(** No function of the reference liblo throws. *)
Lemma deref_no_throw {A} (f : lview → gmap ptr A) p w e : deref f p w ≠ Throw e.
Proof. unfold deref. destruct p as [p|]; [|done]. by destruct (f (mw_view w) !! p). Qed.

Lemma deref_fst_no_throw {A B} (f : lview → gmap ptr A) (g : A → B) p w e : deref_fst f g p w ≠ Throw e.
Proof.
  unfold deref_fst. pose proof (deref_no_throw f p w) as H.
  destruct (deref f p w) as [[]|e1|]; [done| |done]. by destruct (H e1).
Qed.

Lemma derefM_no_throw {A} (f : lview → gmap ptr A) p : no_throw (derefM f p).
Proof. intros w e w' [= Hr _]. by apply deref_no_throw in Hr. Qed.

Lemma m_deep_no_throw b : no_throw (m_deep b).
Proof. intros w e w'. unfold m_deep. destruct b; [|done]. by destruct (deep _ _ _). Qed.

Lemma m_add_no_throw m a : no_throw (m_add m a).
Proof. apply throws_bind; [apply derefM_no_throw|]. by intros [p x]. Qed.

Lemma m_add_str_no_throw mk m s : no_throw (m_add_str mk m s).
Proof. apply throws_bind; [by destruct s|]. intros. apply m_add_no_throw. Qed.

Ltac no_throw_steps :=
  repeat first [ apply derefM_no_throw | apply m_deep_no_throw | apply m_add_no_throw
               | apply m_add_str_no_throw | by intros ? ? ?
               | apply throws_bind; [|intros ?; repeat case_match] ].

#[export] Instance model_C : LibloC model.
Proof.
  split; cbn [lo_timetag_now lo_address_new lo_address_free lo_message_new lo_message_free
    lo_message_add_string lo_message_add_symbol lo_message_add_blob lo_blob_new lo_blob_free
    lo_bundle_new lo_bundle_add_message lo_bundle_add_bundle lo_bundle_free_recursive
    lo_send_message lo_send_bundle lo_server_thread_start lo_server_thread_stop model];
    try done; intros; try solve [no_throw_steps].
  - by apply deref_fst_no_throw.
  - destruct a; simpl; no_throw_steps.
  - unfold m_blob_new. destruct d; [|done]. by repeat case_decide.
Qed.
