(* ===== verification/OscTypes.v ===== *)
(** * OscTypes: the value types and the stream manipulators

    The structs of [OscTypes.h] and the members of [TimeTag].  [MidiMessage] and
    [TimeTag] are unions: the bytes (the liblo timetag) are the state, the
    other member is a view of it.  [Symbol] and [Blob] hold pointers into memory
    they do not own. *)
From S2P Require Import Prelude Exceptions Effects Machine Floats Liblo.
Open Scope Z_scope.

Inductive Nil : Type := mkNil.
Inductive Infinitum : Type := mkInfinitum.

(** ** MidiMessage *)

Record MidiMessage : Type := mkMidi { bytes : list Z }.

Definition MidiMessage_default : MidiMessage := mkMidi [0; 0; 0; 0].

(** The constructor from four bytes in memory. *)
Definition MidiMessage_of (bytes_ : list Z) (reverse : bool) : outcome MidiMessage :=
  match bytes_ with
  | b0 :: b1 :: b2 :: b3 :: _ =>
      Ret (if reverse then mkMidi [b3; b2; b1; b0] else mkMidi [b0; b1; b2; b3])
  | _ => Undef OutOfBounds
  end.

(** The [value] member of the union, and the implicit conversion to it. *)
Definition MidiMessage_value (m : MidiMessage) : Z := little_endian_to_Z 8 (bytes m).

(** ** Symbol and Blob *)

Record Symbol : Type := mkSymbol { value : cptr }.

Definition Symbol_default : Symbol := mkSymbol CNull.
Definition Symbol_of_cstr (value_ : cptr) : Symbol := mkSymbol value_.
(** The argument is a by-value [std::string]: its buffer dies with the
    constructor, and the member points into it. *)
Definition Symbol_of_string (value_ : string) : Symbol := mkSymbol CDangling.
(** The implicit conversion to [const char *]. *)
Definition Symbol_cstr (s : Symbol) : cptr := value s.

Record Blob : Type := mkBlob { data : option (list Z); size : Z }.

Definition Blob_default : Blob := mkBlob None 0.
Definition Blob_of (data_ : option (list Z)) (size_ : Z) : Blob := mkBlob data_ size_.

(** ** TimeTag *)

Record TimeTag : Type := mkTimeTag { tag : lo_timetag }.

Definition sec (t : TimeTag) : Z := tt_sec (tag t).
Definition frac (t : TimeTag) : Z := tt_frac (tag t).

#[export] Instance TimeTag_eq_dec : EqDecision TimeTag.
Proof. solve_decision. Defined.

Definition TimeTag_ok (t : TimeTag) : Prop := is_u32 (sec t) ∧ is_u32 (frac t).

Definition TimeTag_of_sec_frac (sec_ frac_ : Z) : TimeTag := mkTimeTag (Timetag sec_ frac_).

(** The body is [tag = tag], a self-assignment of the member: the argument is
    not used, and the object keeps what its storage held. *)
Definition TimeTag_of_lo (storage timetag : lo_timetag) : TimeTag := mkTimeTag storage.

Definition TimeTag_eq (this t : TimeTag) : bool :=
  bool_decide (sec this = sec t) && bool_decide (frac this = frac t).

(** The floating literals of [TimeTag::add], correctly rounded. *)
Definition lit_0_001 : double := SFdiv 53 1024 (double_of_Z 1) (double_of_Z 1000).
Definition lit_frac_unit : double :=
  SFdiv 53 1024 (double_of_Z 23283064365) (double_of_Z (10 ^ 20)).

(** [((ms%1000)*0.001) / 0.00000000023283064365] *)
Definition frac_increment (ms : Z) : double :=
  SFdiv 53 1024 (SFmul 53 1024 (double_of_Z (ms `mod` 1000)) lit_0_001) lit_frac_unit.

(** [+=] on an unsigned member with a floating operand: the sum is a double,
    converted back to the type of the member. *)
Definition TimeTag_add (this : TimeTag) (ms : Z) : outcome TimeTag :=
  let sec' := wrap 32 (sec this + ms / 1000) in
  frac' ← to_uint (SFadd 53 1024 (double_of_Z (frac this)) (frac_increment ms));
  Ret (TimeTag_of_sec_frac sec' frac').

Section TimeTag.
Context {L : Liblo}.

Definition TimeTag_now (this : TimeTag) : M world TimeTag :=
  t ← lo_timetag_now; mret (mkTimeTag t).

Definition TimeTag_default (storage : lo_timetag) : M world TimeTag :=
  TimeTag_now (mkTimeTag storage).

Definition TimeTag_ms (storage : lo_timetag) (ms : Z) : M world TimeTag :=
  this ← TimeTag_now (mkTimeTag storage);
  liftO (TimeTag_add this ms).

Definition TimeTag_minus (this t : TimeTag) : double := lo_timetag_diff (tag this) (tag t).

Definition TimeTag_diff_now (this : TimeTag) : M world double :=
  now ← lo_timetag_now; mret (lo_timetag_diff now (tag this)).

Definition TimeTag_diff (this t : TimeTag) : double := lo_timetag_diff (tag this) (tag t).
End TimeTag.

(** ** Stream manipulators *)

Record BeginBundle : Type := mkBeginBundle { timetag : TimeTag }.
Inductive EndBundle : Type := mkEndBundle.
Record BeginMessage : Type := mkBeginMessage { addressPattern : string }.
Inductive EndMessage : Type := mkEndMessage.

(** The default constructor takes the default [TimeTag]: the current time. *)
Definition BeginBundle_default {L : Liblo} (storage : lo_timetag) : M world BeginBundle :=
  t ← TimeTag_default storage; mret (mkBeginBundle t).
