(* ===== verification/TimeTagTheorems.v ===== *)
(** * Theorems about time tags

    [TimeTag::add] computes with doubles: the sum of the fractional part and of
    the increment is rounded to 53 bits and truncated.  The first part shows
    that rounding to nearest does not reach the integral part of such a sum;
    the theorems give the tag exactly. *)
From S2P Require Import Prelude Exceptions Effects Machine Floats Liblo LibloModel OscTypes.
Open Scope Z_scope.

(** ** Rounding a positive sum *)

Lemma digits_bounds m d : 2 ^ (d - 1) ≤ Zpos m < 2 ^ d → 0 < d → Zpos (digits2_pos m) = d.
Proof.
  intros [Hl Hu] Hd. apply digits2_pos_lt in Hu; [|lia].
  apply digits2_pos_ge in Hl; lia.
Qed.

Lemma fexp_normal k : -1000 ≤ k → fexp 53 1024 k = k - 53.
Proof. intros. unfold fexp, emin. lia. Qed.

Lemma shl_align_value m e e' : e' ≤ e → Zpos (shl_align m e e').1 = Zpos m * 2 ^ (e - e').
Proof.
  intros He. unfold shl_align. destruct (e' - e) eqn:E; simpl; try lia.
  - replace (e - e') with 0 by lia. lia.
  - replace (e - e') with (Zpos p) by lia.
    clear E. induction p as [|p IH] using Pos.peano_ind; [simpl; lia|].
    rewrite Pos.iter_succ, Pos2Z.inj_succ, Z.pow_succ_r by lia. lia.
Qed.

Lemma shl_align_exp m e e' : e' ≤ e → (shl_align m e e').2 = e'.
Proof. intros He. unfold shl_align. destruct (e' - e) eqn:E; simpl; lia. Qed.

Lemma shl_align_none m e e' : e ≤ e' → shl_align m e e' = (m, e).
Proof. intros He. unfold shl_align. by destruct (e' - e) eqn:E; [| |lia]. Qed.

Lemma shr_m_iter n r : 0 ≤ shr_m r → shr_m (iter_pos shr_1 n r) = shr_m r / 2 ^ Zpos n.
Proof.
  assert (∀ r, 0 ≤ shr_m r → shr_m (shr_1 r) = shr_m r / 2) as H1.
  { intros [m b s] Hm. simpl in Hm. destruct m as [|[p|p|]|p]; simpl; try done; try lia.
    - rewrite Pos2Z.inj_xI. apply Z.div_unique with 1; lia.
    - rewrite Pos2Z.inj_xO. apply Z.div_unique with 0; lia. }
  revert r. induction n as [n IH|n IH|]; intros r Hr; simpl.
  - rewrite IH; rewrite IH; rewrite ?H1; try done; try (apply Z.div_pos; lia).
    2: { apply Z.div_pos; [apply Z.div_pos; lia|lia]. }
    rewrite !Z.div_div by lia. f_equal. rewrite Pos2Z.inj_xI.
    replace (2 * Z.pos n + 1) with (1 + Zpos n + Zpos n) by lia.
    rewrite !Z.pow_add_r by lia. lia.
  - rewrite IH; rewrite IH; try done; try (apply Z.div_pos; lia).
    rewrite !Z.div_div by lia. f_equal. rewrite (Pos2Z.inj_xO n).
    replace (2 * Z.pos n) with (Zpos n + Zpos n) by lia. rewrite Z.pow_add_r by lia. lia.
  - by apply H1.
Qed.

(** A mantissa that fits is not rounded: the value is the same. *)
Lemma binary_round_fits m e : Zpos m < 2 ^ 53 → -200 ≤ e ≤ 0 →
  let d := Zpos (digits2_pos m) in
  ∃ m', binary_round 53 1024 false m e = S754_finite false m' (d + e - 53) ∧
        Zpos m' = Zpos m * 2 ^ (53 - d) ∧ d ≤ 53 ∧ 2 ^ 52 ≤ Zpos m' < 2 ^ 53.
Proof.
  intros Hm He d. pose proof (digits2_pos_bounds m) as Hb. fold d in Hb.
  assert (d ≤ 53) as Hd by (by apply digits2_pos_lt). assert (0 < d) as Hd0 by done.
  assert (2 ^ 52 ≤ Zpos m * 2 ^ (53 - d) < 2 ^ 53) as Hr.
  { replace (2 ^ 52) with (2 ^ (d - 1) * 2 ^ (53 - d)) by (rewrite <- Z.pow_add_r by lia; f_equal; lia).
    replace (2 ^ 53) with (2 ^ d * 2 ^ (53 - d)) by (rewrite <- Z.pow_add_r by lia; f_equal; lia).
    pose proof (Z.pow_pos_nonneg 2 (53 - d)). nia. }
  unfold binary_round. fold d. rewrite fexp_normal by lia.
  destruct (shl_align m e (d + e - 53)) as [mz ez] eqn:E.
  assert (Zpos mz = Zpos m * 2 ^ (53 - d)) as Hz.
  { replace mz with (shl_align m e (d + e - 53)).1 by (by rewrite E).
    rewrite shl_align_value by lia. do 2 f_equal. lia. }
  assert (ez = d + e - 53) as ->
    by (rewrite <- (shl_align_exp m e (d + e - 53)) by lia; by rewrite E).
  exists mz. split_all; try lia. 
  unfold binary_round_aux, shr_fexp. simpl Zdigits2.
  rewrite (digits_bounds mz 53), fexp_normal by lia. simpl shr_record_of_loc.
  replace (53 + (d + e - 53) - 53 - (d + e - 53)) with 0 by lia. simpl.
  rewrite (digits_bounds mz 53), fexp_normal by lia.
  replace (53 + (d + e - 53) - 53 - (d + e - 53)) with 0 by lia. simpl.
  by rewrite (proj2 (Z.leb_le _ _)) by lia.
Qed.

(** A longer mantissa loses its low bits, and may be rounded up by one. *)
Lemma binary_round_long m e : 2 ^ 53 ≤ Zpos m → -200 ≤ e → Zpos (digits2_pos m) + e ≤ 33 →
  let n := Zpos (digits2_pos m) - 53 in
  ∃ m' e' r, binary_round 53 1024 false m e = S754_finite false m' e' ∧
    (r = Zpos m / 2 ^ n ∨ r = Zpos m / 2 ^ n + 1) ∧ e + n ≤ e' < 0 ∧
    r = Zpos m' * 2 ^ (e' - (e + n)).
Proof.
  intros Hm He Hde n. pose proof (digits2_pos_bounds m) as Hb.
  assert (0 < n) as Hn.
  { assert (53 < Zpos (digits2_pos m)); [|lia]. by apply digits2_pos_ge. }
  set (q := Zpos m / 2 ^ n).
  assert (2 ^ 52 ≤ q < 2 ^ 53) as Hq.
  { assert (0 < 2 ^ n) by (apply Z.pow_pos_nonneg; lia). unfold q. split.
    - apply Z.div_le_lower_bound; [done|].
      replace (2 ^ n * 2 ^ 52) with (2 ^ (Zpos (digits2_pos m) - 1)); [lia|].
      rewrite <- Z.pow_add_r by lia. f_equal. lia.
    - apply Z.div_lt_upper_bound; [done|].
      replace (2 ^ n * 2 ^ 53) with (2 ^ Zpos (digits2_pos m)); [lia|].
      rewrite <- Z.pow_add_r by lia. f_equal. lia. }
  unfold binary_round. rewrite fexp_normal, shl_align_none by lia.
  unfold binary_round_aux. unfold shr_fexp at 1. simpl Zdigits2. rewrite fexp_normal by lia.
  replace (Zpos (digits2_pos m) + e - 53 - e) with n by lia.
  destruct n as [|p|p] eqn:En; [lia| |lia]. simpl shr.
  set (mrs := iter_pos shr_1 p _).
  assert (shr_m mrs = q) as Hs by (unfold mrs; rewrite shr_m_iter; done).
  assert (∃ r, (r = q ∨ r = q + 1) ∧ round_nearest_even (shr_m mrs) (loc_of_shr_record mrs) = r)
    as (r & Hr & ->).
  { rewrite Hs. destruct (loc_of_shr_record mrs) as [|[]]; simpl; eauto.
    destruct (Z.even q); eauto. }
  unfold shr_fexp. destruct r as [|r|r]; [lia| |lia]. simpl Zdigits2.
  destruct (decide (Zpos r = 2 ^ 53)) as [Htop|Htop].
  - rewrite (digits_bounds r 54), fexp_normal by lia.
    replace (54 + (e + Z.pos p) - 53 - (e + Z.pos p)) with 1 by lia. cbn [shr].
    rewrite shr_m_iter by done. cbn [shr_m shr_record_of_loc]. rewrite Htop.
    change (2 ^ 53 / 2 ^ 1) with (Zpos 4503599627370496). cbv iota beta.
    eexists _, _, _. split; [by rewrite (proj2 (Z.leb_le _ _)) by lia|].
    split; [exact Hr|]. split; [lia|]. rewrite Htop.
    by replace (e + Zpos p + 1 - (e + Zpos p)) with 1 by lia.
  - rewrite (digits_bounds r 53), fexp_normal by lia.
    replace (53 + (e + Z.pos p) - 53 - (e + Z.pos p)) with 0 by lia. simpl.
    eexists _, _, _. split; [by rewrite (proj2 (Z.leb_le _ _)) by lia|].
    split; [exact Hr|]. split; [lia|].
    replace (e + Zpos p - (e + Zpos p)) with 0 by lia. lia.
Qed.

(** Truncation undoes rounding when the fraction is not close to one: [k] bits of
    fraction, at most 33 of integral part. *)
Lemma truncate_round m k : 21 ≤ k ≤ 200 → Zpos m < 2 ^ (33 + k) →
  Zpos m mod 2 ^ k < 2 ^ k - 2 ^ (k - 20) →
  truncate (binary_round 53 1024 false m (- k)) = Some (Zpos m / 2 ^ k).
Proof.
  intros Hk Hm Hf. pose proof (digits2_pos_lt m (33 + k) ltac:(lia) Hm) as Hd.
  destruct (Z_lt_ge_dec (Zpos m) (2 ^ 53)) as [Hlt|Hge].
  - destruct (binary_round_fits m (- k) Hlt ltac:(lia)) as (m' & -> & Hm' & Hd' & _).
    simpl. rewrite decide_False by lia. f_equal. rewrite Hm'.
    set (d := Zpos (digits2_pos m)) in *.
    replace (- (d + - k - 53)) with (k + (53 - d)) by lia.
    rewrite Z.pow_add_r by lia. apply Z.div_mul_cancel_r; apply Z.pow_nonzero; lia.
  - destruct (binary_round_long m (- k)) as (m' & e' & r & -> & Hr & He' & Hrm); [lia..|].
    simpl. rewrite decide_False by lia. f_equal.
    set (n := Zpos (digits2_pos m) - 53) in *. set (q := Zpos m / 2 ^ n) in *.
    assert (0 < n ≤ k - 20) as Hn.
    { assert (53 < Zpos (digits2_pos m)) by (apply digits2_pos_ge; lia). lia. }
    assert (Zpos m' / 2 ^ (- e') = r / 2 ^ (k - n)) as ->.
    { rewrite Hrm. replace (k - n) with (- e' + (e' - (- k + n))) by lia.
      rewrite Z.pow_add_r by lia. symmetry. apply Z.div_mul_cancel_r; apply Z.pow_nonzero; lia. }
    assert (0 < 2 ^ n) as H2n by (apply Z.pow_pos_nonneg; lia).
    assert (0 < 2 ^ (k - n)) as H2k by (apply Z.pow_pos_nonneg; lia).
    assert (2 ^ k = 2 ^ n * 2 ^ (k - n)) as Hsplit by (rewrite <- Z.pow_add_r by lia; f_equal; lia).
    assert (q / 2 ^ (k - n) = Zpos m / 2 ^ k) as Hq
      by (unfold q; rewrite Z.div_div by lia; by rewrite <- Hsplit).
    destruct Hr as [->| ->]; [done|]. rewrite <- Hq.
    (* the low bits of [q] are not all ones *)
    set (c := q / 2 ^ (k - n)) in *. symmetry. apply Z.div_unique with (q - 2 ^ (k - n) * c + 1); [|lia].
    left. pose proof (Z.mul_div_le q (2 ^ (k - n)) H2k) as Hlo. fold c in Hlo. split; [lia|].
    assert (2 ^ n * q ≤ Zpos m) as Hqm by (unfold q; apply Z.mul_div_le; lia).
    rewrite Z.mod_eq in Hf by lia. rewrite <- Hq in Hf. fold c in Hf.
    assert (2 ^ n ≤ 2 ^ (k - 20)) as Hle by (apply Z.pow_le_mono_r; lia). nia.
Qed.

(** ** The sum of [add] *)

Lemma double_of_Z_exact z : 0 < z < 2 ^ 53 → ∃ m e,
  double_of_Z z = S754_finite false m e ∧ -52 ≤ e ≤ 0 ∧ Zpos m = z * 2 ^ (- e).
Proof.
  intros Hz. destruct z as [|p|p]; [lia| |lia].
  destruct (binary_round_fits p 0) as (m & Hr & Hm & Hd & _); [lia..|].
  exists m. eexists. split; [exact Hr|]. split; [lia|].
  rewrite Hm. do 2 f_equal. lia.
Qed.

(** An integer plus a double whose fraction is not close to one. *)
Lemma truncate_add a m e : 0 ≤ a < 2 ^ 32 → -60 ≤ e ≤ -21 → Zpos m < 2 ^ (32 - e) →
  Zpos m mod 2 ^ (- e) < 2 ^ (- e) - 2 ^ (- e - 20) →
  truncate (SFadd 53 1024 (double_of_Z a) (S754_finite false m e))
  = Some (a + Zpos m / 2 ^ (- e)).
Proof.
  intros Ha He Hm Hf. destruct (decide (a = 0)) as [->|Hne].
  { simpl. by rewrite decide_False by lia. }
  destruct (double_of_Z_exact a) as (m1 & e1 & -> & He1 & Hm1); [lia|].
  cbn [SFadd cond_Zopp]. set (ez := Z.min e1 e).
  set (k := - ez). assert (ez = - k) as Hez by lia.
  assert (Zpos (shl_align m1 e1 ez).1 = a * 2 ^ k) as Ha1.
  { rewrite shl_align_value, Hm1, <- Z.mul_assoc, <- Z.pow_add_r by lia. do 2 f_equal. lia. }
  assert (Zpos (shl_align m e ez).1 = Zpos m * 2 ^ (k + e)) as Ha2.
  { rewrite shl_align_value by lia. do 2 f_equal. lia. }
  assert (2 ^ k = 2 ^ (- e) * 2 ^ (k + e)) as Hsplit by (rewrite <- Z.pow_add_r by lia; f_equal; lia).
  assert (0 < 2 ^ (k + e)) as Hke by (apply Z.pow_pos_nonneg; lia).
  assert (0 < 2 ^ (- e)) as H2e by (apply Z.pow_pos_nonneg; lia).
  rewrite Ha1, Ha2, Hez. destruct (a * 2 ^ k + Zpos m * 2 ^ (k + e)) as [|s|s] eqn:Es; [nia| |nia].
  cbn [binary_normalize]. rewrite truncate_round.
  - f_equal. rewrite <- Es, Z.div_add_l by (rewrite Hsplit; nia). f_equal. rewrite Hsplit.
    apply Z.div_mul_cancel_r; lia.
  - lia.
  - rewrite <- Es. rewrite (Z.pow_add_r 2 33 k) by lia.
    assert (Zpos m * 2 ^ (k + e) < 2 ^ 32 * 2 ^ k) as Hlt.
    { replace (2 ^ 32 * 2 ^ k) with (2 ^ (32 - e) * 2 ^ (k + e))
        by (rewrite <- !Z.pow_add_r by lia; f_equal; lia). nia. }
    assert (a * 2 ^ k ≤ (2 ^ 32 - 1) * 2 ^ k) by (apply Z.mul_le_mono_nonneg_r; lia).
    change (2 ^ 33) with (2 * 2 ^ 32). lia.
  - rewrite <- Es, Z.add_comm, Z.mod_add by (rewrite Hsplit; nia). rewrite Hsplit.
    rewrite Z.mul_mod_distr_r by lia.
    replace (2 ^ (k - 20)) with (2 ^ (- e - 20) * 2 ^ (k + e))
      by (rewrite <- Z.pow_add_r by lia; f_equal; lia). nia.
Qed.

(** The increment for [ms] milliseconds: the units of 2^-32 s the literal of the
    source stands for, truncated. *)
Definition increment (ms : Z) : Z := (ms mod 1000) * 10 ^ 17 / 23283064365.

(** Every increment but that of zero: fraction, size and integral part. *)
Definition increment_ok (m : Z) : bool :=
  match frac_increment m with
  | S754_finite false p e =>
      bool_decide (-60 ≤ e ≤ -21) && bool_decide (Zpos p < 2 ^ (32 - e)) &&
      bool_decide (Zpos p mod 2 ^ (- e) < 2 ^ (- e) - 2 ^ (- e - 20)) &&
      bool_decide (Zpos p / 2 ^ (- e) = increment m) &&
      bool_decide (0 ≤ 1000 * increment m - m * 2 ^ 32 + 1000 ≤ 2000)
  | _ => false
  end.

Lemma increments_ok : forallb increment_ok (seqZ 1 999) = true.
Proof. vm_compute. reflexivity. Qed.

Lemma increment_spec m : 0 < m < 1000 → ∃ p e,
  frac_increment m = S754_finite false p e ∧ -60 ≤ e ≤ -21 ∧ Zpos p < 2 ^ (32 - e) ∧
  Zpos p mod 2 ^ (- e) < 2 ^ (- e) - 2 ^ (- e - 20) ∧
  Zpos p / 2 ^ (- e) = increment m ∧ 0 ≤ 1000 * increment m - m * 2 ^ 32 + 1000 ≤ 2000.
Proof.
  intros Hm. pose proof increments_ok as H. rewrite forallb_forall in H.
  specialize (H m). unfold increment_ok in H.
  destruct (frac_increment m) as [| | |[] p e];
    try (by discriminate H; apply list_elem_of_In, elem_of_seqZ; lia).
  exists p, e. rewrite !andb_true_iff, !bool_decide_eq_true in H.
  destruct H as [[[[? ?] ?] ?] ?]; [apply list_elem_of_In, elem_of_seqZ; lia|done].
Qed.

Lemma frac_increment_mod ms : frac_increment ms = frac_increment (ms mod 1000).
Proof. unfold frac_increment. by rewrite Z.mod_mod by lia. Qed.

Lemma increment_mod ms : increment ms = increment (ms mod 1000).
Proof. unfold increment. by rewrite Z.mod_mod by lia. Qed.

(** ** Adding milliseconds *)

(** C21: [add(ms)] adds the whole seconds modulo 2^32 and, to the fraction, the
    rest in units of 2^-32 s, to within one unit, when the sum fits; it has no
    carry into the seconds, and when the sum does not fit the conversion back
    to [uint32_t] is undefined. *)
Theorem TimeTag_add_exact t ms : TimeTag_ok t → is_u32 ms →
  TimeTag_add t ms
  = (if decide (frac t + increment ms < 2 ^ 32)
     then Ret (TimeTag_of_sec_frac (wrap 32 (sec t + ms / 1000)) (frac t + increment ms))
     else Undef FloatToInt) ∧
  - 1000 ≤ 1000 * increment ms - (ms mod 1000) * 2 ^ 32 ≤ 1000.
Proof.
  intros [Hs Hf] Hms. unfold TimeTag_add, to_uint, int_of_float.
  pose proof (Z.mod_pos_bound ms 1000 ltac:(lia)) as Hm.
  rewrite (frac_increment_mod ms), (increment_mod ms).
  assert (∃ i, truncate (SFadd 53 1024 (double_of_Z (frac t)) (frac_increment (ms mod 1000)))
               = Some (frac t + i) ∧ i = increment (ms mod 1000) ∧
               0 ≤ i ∧ - 1000 ≤ 1000 * i - (ms mod 1000) * 2 ^ 32 ≤ 1000)
    as (i & -> & <- & Hi & Hb).
  { destruct (decide (ms mod 1000 = 0)) as [->|Hne].
    - exists 0. split_all. destruct (decide (frac t = 0)) as [->|Hfne]; [done|].
      destruct (double_of_Z_exact (frac t)) as (m & e & -> & He & Hme); [unfold is_u32 in Hf; lia|].
      change (frac_increment 0) with (S754_zero false). simpl. rewrite Z.add_0_r, Hme. f_equal.
      destruct (decide (0 ≤ e)) as [H0|H0].
      + replace e with 0 by lia. simpl. lia.
      + apply Z.div_mul, Z.pow_nonzero; lia.
    - destruct (increment_spec (ms mod 1000)) as (p & e & -> & He & Hp & Hpf & Hpi & Hb); [lia|].
      exists (increment (ms mod 1000)). split; [rewrite truncate_add by done; by rewrite Hpi|].
      split; [done|]. split; [|lia].
      rewrite <- Hpi. apply Z.div_pos; [done|]. apply Z.pow_pos_nonneg; lia. }
  unfold is_u32 in Hf. split; [|done]. simpl.
  destruct (decide (frac t + i < 2 ^ 32)); [rewrite decide_True by lia|rewrite decide_False by lia]; done.
Qed.

(** For every number of milliseconds that is not whole seconds there is a
    time tag to which adding it is undefined: the last fraction of a second. *)
Theorem TimeTag_add_undefined ms : is_u32 ms → ms mod 1000 ≠ 0 →
  ∃ t, TimeTag_ok t ∧ TimeTag_add t ms = Undef FloatToInt.
Proof.
  intros Hms Hne. exists (TimeTag_of_sec_frac 0 (2 ^ 32 - 1)).
  unfold TimeTag_add, to_uint, int_of_float. rewrite frac_increment_mod.
  pose proof (Z.mod_pos_bound ms 1000 ltac:(lia)) as Hm.
  split; [by split; unfold is_u32; simpl|].
  destruct (increment_spec (ms mod 1000)) as (p & e & -> & He & Hp & Hpf & Hpi & Hb); [lia|].
  change (frac (TimeTag_of_sec_frac 0 (2 ^ 32 - 1))) with (2 ^ 32 - 1).
  rewrite truncate_add by (done || lia). by rewrite decide_False by lia.
Qed.

(** ** Applications *)

Lemma TimeTag_add_exact_witness :
  TimeTag_add (TimeTag_of_sec_frac 100 5) 1025
  = (if decide (5 + increment 1025 < 2 ^ 32)
     then Ret (TimeTag_of_sec_frac (wrap 32 (100 + 1025 / 1000)) (5 + increment 1025))
     else Undef FloatToInt) ∧
  - 1000 ≤ 1000 * increment 1025 - (1025 mod 1000) * 2 ^ 32 ≤ 1000.
Proof.
  apply (TimeTag_add_exact (TimeTag_of_sec_frac 100 5) 1025);
    [split|]; by apply (bool_decide_unpack _).
Defined.

Lemma TimeTag_add_undefined_witness :
  ∃ t, TimeTag_ok t ∧ TimeTag_add t 25 = Undef FloatToInt.
Proof. by apply (TimeTag_add_undefined 25); [apply (bool_decide_unpack _)|]. Defined.
