(* ===== verification/OscSender.v ===== *)
(** * OscSender: building and sending messages

    One definition per member function of [OscSender.cpp], over the object and
    the state of liblo.  The handles are those liblo gave; [m_bundles] is the
    stack of open bundles, outermost first. *)
From S2P Require Import Prelude Exceptions Effects Machine Floats Liblo OscTypes.
Open Scope Z_scope.

Record OscSender : Type := mkSender {
  m_address : option ptr;
  m_message : option ptr;
  m_bundles : list (option ptr);
  m_addressPattern : string;
  m_messageInProgress : bool;
  m_bundleInProgress : bool
}.

Definition set_address (x : option ptr) (s : OscSender) : OscSender :=
  mkSender x (m_message s) (m_bundles s) (m_addressPattern s)
    (m_messageInProgress s) (m_bundleInProgress s).
Definition set_message (x : option ptr) (s : OscSender) : OscSender :=
  mkSender (m_address s) x (m_bundles s) (m_addressPattern s)
    (m_messageInProgress s) (m_bundleInProgress s).
Definition set_bundles (x : list (option ptr)) (s : OscSender) : OscSender :=
  mkSender (m_address s) (m_message s) x (m_addressPattern s)
    (m_messageInProgress s) (m_bundleInProgress s).
Definition set_pattern (x : string) (s : OscSender) : OscSender :=
  mkSender (m_address s) (m_message s) (m_bundles s) x
    (m_messageInProgress s) (m_bundleInProgress s).
Definition set_messageInProgress (x : bool) (s : OscSender) : OscSender :=
  mkSender (m_address s) (m_message s) (m_bundles s) (m_addressPattern s) x
    (m_bundleInProgress s).
Definition set_bundleInProgress (x : bool) (s : OscSender) : OscSender :=
  mkSender (m_address s) (m_message s) (m_bundles s) (m_addressPattern s)
    (m_messageInProgress s) x.

(** The members after the initialiser list of the constructors. *)
Definition OscSender_init : OscSender := mkSender None None [] "" false false.

(** The buffer [endMessage] copies the pattern into, read as a C string: the
    characters of the pattern followed by a NUL. *)
Definition copy_pattern (s : string) : string := c_str (s +:+ String "000" EmptyString).

Section operations.
Context {L : Liblo}.

Definition state : Type := OscSender * world.

(** Calls of liblo, and accesses to the object. *)
Definition lo {A} (m : M world A) : M state A := zoom m.
Definition field {A} (f : OscSender → A) : M state A := gets (f ∘ fst).
Definition assign (f : OscSender → OscSender) : M state unit :=
  modify (λ s, (f s.1, s.2)).

(** [m_bundles.back()] and [.front()] need an element. *)
Definition bundles_back : M state (option ptr) :=
  bs ← field m_bundles;
  match last bs with Some b => mret b | None => undef EmptyBack end.
Definition bundles_front : M state (option ptr) :=
  bs ← field m_bundles;
  match head bs with Some b => mret b | None => undef EmptyBack end.

(** ** Set up and sending *)

Definition setup (address : string) (port : Z) : M state unit :=
  a ← field m_address;
  _ ← when (bool_decide (a ≠ None)) (lo (lo_address_free a));
  a' ← lo (lo_address_new (c_str address) (c_str (dec port)));
  assign (set_address a').

Definition clear : M state unit :=
  bs ← field m_bundles;
  m ← field m_message;
  _ ← (if bool_decide (0 < length bs)%nat then
         b ← bundles_front;
         _ ← lo (lo_bundle_free_recursive b);
         assign (set_bundles [])
       else when (bool_decide (m ≠ None)) (lo (lo_message_free m)));
  _ ← assign (set_pattern "");
  assign (set_message None).

Definition send : M state unit :=
  s ← field id;
  if bool_decide (m_address s = None) || m_bundleInProgress s || m_messageInProgress s
  then throw sendException
  else
    _ ← (if bool_decide (0 < length (m_bundles s))%nat then
           b ← bundles_front;
           _ ← lo (lo_send_bundle (m_address s) b);
           mret tt
         else if bool_decide (m_message s = None) then throw sendException
         else
           _ ← lo (lo_send_message (m_address s) (c_str (m_addressPattern s)) (m_message s));
           mret tt);
    clear.

Definition OscSender_new : M world OscSender := mret OscSender_init.

Definition OscSender_setup (address : string) (port : Z) : M world OscSender := λ w,
  let '(o, (s, w')) := setup address port (OscSender_init, w) in
  (_ ← o; Ret s, w').

Definition OscSender_destroy : M state unit :=
  a ← field m_address;
  _ ← when (bool_decide (a ≠ None)) (lo (lo_address_free a));
  clear.

(** ** Message building *)

Definition beginMessage (addressPattern : string) : M state unit :=
  p ← field m_messageInProgress;
  if (p : bool) then throw messageInProgress
  else
    m ← lo lo_message_new;
    _ ← assign (set_message m);
    _ ← assign (set_messageInProgress true);
    assign (set_pattern addressPattern).

Definition addBool (var : bool) : M state unit :=
  p ← field m_messageInProgress;
  if negb p then throw messageNotInProgress
  else
    m ← field m_message;
    _ ← (if var then lo (lo_message_add_true m) else lo (lo_message_add_false m));
    mret tt.

Definition addChar (var : ascii) : M state unit :=
  p ← field m_messageInProgress;
  if negb p then throw messageNotInProgress
  else m ← field m_message; _ ← lo (lo_message_add_char m var); mret tt.

Definition addNil : M state unit :=
  p ← field m_messageInProgress;
  if negb p then throw messageNotInProgress
  else m ← field m_message; _ ← lo (lo_message_add_nil m); mret tt.

Definition addInfinitum : M state unit :=
  p ← field m_messageInProgress;
  if negb p then throw messageNotInProgress
  else m ← field m_message; _ ← lo (lo_message_add_infinitum m); mret tt.

Definition addInt32 (var : Z) : M state unit :=
  p ← field m_messageInProgress;
  if negb p then throw messageNotInProgress
  else m ← field m_message; _ ← lo (lo_message_add_int32 m var); mret tt.

Definition addInt64 (var : Z) : M state unit :=
  p ← field m_messageInProgress;
  if negb p then throw messageNotInProgress
  else m ← field m_message; _ ← lo (lo_message_add_int64 m var); mret tt.

Definition addFloat (var : float) : M state unit :=
  p ← field m_messageInProgress;
  if negb p then throw messageNotInProgress
  else m ← field m_message; _ ← lo (lo_message_add_float m var); mret tt.

Definition addDouble (var : double) : M state unit :=
  p ← field m_messageInProgress;
  if negb p then throw messageNotInProgress
  else m ← field m_message; _ ← lo (lo_message_add_double m var); mret tt.

(** The overload for [char *]. *)
Definition addString_cstr (var : cptr) : M state unit :=
  p ← field m_messageInProgress;
  if negb p then throw messageNotInProgress
  else m ← field m_message; _ ← lo (lo_message_add_string m var); mret tt.

(** The overload for [std::string]. *)
Definition addString (var : string) : M state unit :=
  p ← field m_messageInProgress;
  if negb p then throw messageNotInProgress
  else m ← field m_message; _ ← lo (lo_message_add_string m (CStr (c_str var))); mret tt.

Definition addSymbol (var : Symbol) : M state unit :=
  p ← field m_messageInProgress;
  if negb p then throw messageNotInProgress
  else m ← field m_message; _ ← lo (lo_message_add_symbol m (value var)); mret tt.

Definition addMidiMessage (var : MidiMessage) : M state unit :=
  p ← field m_messageInProgress;
  if negb p then throw messageNotInProgress
  else m ← field m_message; _ ← lo (lo_message_add_midi m (bytes var)); mret tt.

Definition addTimeTag (var : TimeTag) : M state unit :=
  p ← field m_messageInProgress;
  if negb p then throw messageNotInProgress
  else m ← field m_message; _ ← lo (lo_message_add_timetag m (tag var)); mret tt.

(** The size is a [uint32_t], the parameter of liblo an [int32_t]. *)
Definition addBlob (var : Blob) : M state unit :=
  p ← field m_messageInProgress;
  if negb p then throw messageNotInProgress
  else
    blob ← lo (lo_blob_new (swrap 32 (size var)) (data var));
    m ← field m_message;
    _ ← lo (lo_message_add_blob m blob);
    lo (lo_blob_free blob).

Definition endMessage : M state unit :=
  p ← field m_messageInProgress;
  if negb p then throw messageNotInProgress
  else
    s ← field id;
    _ ← (if m_bundleInProgress s then
           let addressPattern := copy_pattern (m_addressPattern s) in
           b ← bundles_back;
           _ ← lo (lo_bundle_add_message b addressPattern (m_message s));
           _ ← assign (set_message None);
           assign (set_pattern "")
         else mret tt);
    assign (set_messageInProgress false).

(** ** Bundle building *)

Definition open_bundle (t : lo_timetag) : M state unit :=
  b ← lo (lo_bundle_new t);
  bs ← field m_bundles;
  _ ← (if bool_decide (0 < length bs)%nat then
         outer ← bundles_back;
         _ ← lo (lo_bundle_add_bundle outer b);
         mret tt
       else mret tt);
  _ ← assign (λ s, set_bundles (m_bundles s ++ [b]) s);
  assign (set_bundleInProgress true).

(** The overload without a time tag; its guard reads the bundle flag. *)
Definition beginBundle : M state unit :=
  p ← field m_bundleInProgress;
  if (p : bool) then throw messageInProgress else open_bundle LO_TT_IMMEDIATE.

(** The overload with a time tag; its guard reads the message flag. *)
Definition beginBundle_at (t : TimeTag) : M state unit :=
  p ← field m_messageInProgress;
  if (p : bool) then throw messageInProgress else open_bundle (tag t).

Definition endBundle : M state unit :=
  p ← field m_bundleInProgress;
  if negb p then throw bundleNotInProgress
  else
    bs ← field m_bundles;
    if bool_decide (1 < length bs)%nat
    then assign (λ s, set_bundles (removelast (m_bundles s)) s)
    else assign (set_bundleInProgress false).

(** ** The member functions that build messages and bundles, as data *)

Inductive member_call : Type :=
  | K_beginMessage (addressPattern : string)
  | K_addBool (var : bool) | K_addChar (var : ascii) | K_addNil | K_addInfinitum
  | K_addInt32 (var : Z) | K_addInt64 (var : Z)
  | K_addFloat (var : float) | K_addDouble (var : double)
  | K_addString_cstr (var : cptr) | K_addString (var : string) | K_addSymbol (var : Symbol)
  | K_addMidiMessage (var : MidiMessage) | K_addTimeTag (var : TimeTag) | K_addBlob (var : Blob)
  | K_endMessage
  | K_beginBundle_at (tag : TimeTag) | K_endBundle.

Definition member_exec (c : member_call) : M state unit :=
  match c with
  | K_beginMessage addressPattern => beginMessage addressPattern
  | K_addBool var => addBool var
  | K_addChar var => addChar var
  | K_addNil => addNil
  | K_addInfinitum => addInfinitum
  | K_addInt32 var => addInt32 var
  | K_addInt64 var => addInt64 var
  | K_addFloat var => addFloat var
  | K_addDouble var => addDouble var
  | K_addString_cstr var => addString_cstr var
  | K_addString var => addString var
  | K_addSymbol var => addSymbol var
  | K_addMidiMessage var => addMidiMessage var
  | K_addTimeTag var => addTimeTag var
  | K_addBlob var => addBlob var
  | K_endMessage => endMessage
  | K_beginBundle_at tag => beginBundle_at tag
  | K_endBundle => endBundle
  end.

(** ** The stream operators *)

Inductive item : Type :=
  | I_BeginMessage (var : BeginMessage) | I_EndMessage (var : EndMessage)
  | I_bool (var : bool) | I_char (var : ascii)
  | I_Nil (var : Nil) | I_Infinitum (var : Infinitum)
  | I_int32 (var : Z) | I_int64 (var : Z)
  | I_float (var : float) | I_double (var : double)
  | I_cstr (var : cptr) | I_string (var : string) | I_Symbol (var : Symbol)
  | I_MidiMessage (var : MidiMessage) | I_TimeTag (var : TimeTag) | I_Blob (var : Blob)
  | I_BeginBundle (var : BeginBundle) | I_EndBundle (var : EndBundle).

(** A [const char *] only converts to the [std::string] overload. *)
Definition operator_in (i : item) : M state unit :=
  match i with
  | I_BeginMessage var => beginMessage (addressPattern var)
  | I_EndMessage _ => endMessage
  | I_bool var => addBool var
  | I_char var => addChar var
  | I_Nil _ => addNil
  | I_Infinitum _ => addInfinitum
  | I_int32 var => addInt32 var
  | I_int64 var => addInt64 var
  | I_float var => addFloat var
  | I_double var => addDouble var
  | I_cstr var => s ← liftO (std_string var); addString s
  | I_string var => addString var
  | I_Symbol var => addSymbol var
  | I_MidiMessage var => addMidiMessage var
  | I_TimeTag var => addTimeTag var
  | I_Blob var => addBlob var
  | I_BeginBundle var => beginBundle_at (timetag var)
  | I_EndBundle _ => endBundle
  end.

(** [sender << i1 << i2 << ...] *)
Fixpoint stream (its : list item) : M state unit :=
  match its with
  | [] => mret tt
  | i :: its => _ ← operator_in i; stream its
  end.

(** ** Queries *)

Definition isMessageInProgress : M state bool := field m_messageInProgress.
Definition isBundleInProgress : M state bool := field m_bundleInProgress.

Definition address_string (f : option ptr → world → outcome cptr) (dflt : cptr) : M state string :=
  λ s, (p ← (match m_address s.1 with Some a => f (Some a) s.2 | None => Ret dflt end);
        std_string p, s).

Definition getHostname : M state string := address_string lo_address_get_hostname (CStr "").
(** The alternative is the literal [0], a null pointer. *)
Definition getPort : M state string := address_string lo_address_get_port CNull.
Definition getUrl : M state string := address_string lo_address_get_url (CStr "").

Definition print : M state unit :=
  bs ← field m_bundles;
  _ ← when (bool_decide (0 < length bs)%nat) (b ← bundles_back; lo (lo_bundle_pp b));
  m ← field m_message;
  when (bool_decide (m ≠ None)) (lo (lo_message_pp m)).
End operations.
