(* ===== verification/SenderSpec.v ===== *)
(** * What a sender promises: a packet builder

    The abstract counterpart of [OscSender]: messages and bundles are values,
    the open bundles a zipper (innermost first), and sending appends a packet to
    the traffic.  The flags are those of the code, since its errors depend on
    them.  [item_ok] collects the ranges of the C types and the validity of the
    pointers given to the stream operators. *)
From S2P Require Import Prelude Exceptions Effects Machine Floats Liblo OscTypes OscSender.
Open Scope Z_scope.

(** An open bundle: its time tag and the elements completed so far. *)
Definition frame : Type := lo_timetag * list packet.

Record builder : Type := mkBuilder {
  a_addr : option (string * string);
  a_cur : option (list atom);
  a_path : string;
  a_mip : bool;
  a_stack : list frame;
  a_bip : bool;
  a_sent : list ((string * string) * packet)
}.

Definition with_addr x (a : builder) : builder :=
  mkBuilder x (a_cur a) (a_path a) (a_mip a) (a_stack a) (a_bip a) (a_sent a).
Definition with_msg cur path mip (a : builder) : builder :=
  mkBuilder (a_addr a) cur path mip (a_stack a) (a_bip a) (a_sent a).
Definition with_stack st bip (a : builder) : builder :=
  mkBuilder (a_addr a) (a_cur a) (a_path a) (a_mip a) st bip (a_sent a).
Definition with_sent l (a : builder) : builder :=
  mkBuilder (a_addr a) (a_cur a) (a_path a) (a_mip a) (a_stack a) (a_bip a) l.

(** The packet a completed element and the open bundles around it make. *)
Fixpoint plug (p : packet) (fs : list frame) : packet :=
  match fs with
  | [] => p
  | (t, ps) :: fs => plug (PBundle t (ps ++ [p])) fs
  end.

(** ** The operations *)

Definition a_setup (address : string) (port : Z) : M builder unit :=
  modify (with_addr (Some (c_str address, dec port))).

Definition a_clear : M builder unit :=
  modify (λ a, with_stack [] (a_bip a) (with_msg None "" (a_mip a) a)).

Definition a_send : M builder unit :=
  a ← get;
  match a_addr a with
  | Some x =>
      if a_bip a || a_mip a then throw sendException else
      match a_stack a with
      | (t, ps) :: fs =>
          _ ← modify (with_sent (a_sent a ++ [(x, plug (PBundle t ps) fs)])); a_clear
      | [] =>
          match a_cur a with
          | Some args =>
              _ ← modify (with_sent (a_sent a ++ [(x, PMessage (c_str (a_path a)) args)]));
              a_clear
          | None => throw sendException
          end
      end
  | None => throw sendException
  end.

Definition a_beginMessage (p : string) : M builder unit :=
  a ← get; if a_mip a then throw messageInProgress else modify (with_msg (Some []) p true).

Definition a_add (x : atom) : M builder unit :=
  a ← get;
  if negb (a_mip a) then throw messageNotInProgress else
  match a_cur a with
  | Some args => modify (with_msg (Some (args ++ [x])) (a_path a) true)
  | None => undef NullHandle
  end.

Definition a_endMessage : M builder unit :=
  a ← get;
  if negb (a_mip a) then throw messageNotInProgress else
  if a_bip a then
    match a_stack a, a_cur a with
    | [], _ => undef EmptyBack
    | (t, ps) :: fs, Some args =>
        modify (λ a, with_stack ((t, ps ++ [PMessage (c_str (a_path a)) args]) :: fs) true
                       (with_msg None "" false a))
    | _, None => undef NullHandle
    end
  else modify (with_msg (a_cur a) (a_path a) false).

Definition a_open (t : lo_timetag) : M builder unit :=
  modify (λ a, with_stack ((t, []) :: a_stack a) true a).

Definition a_beginBundle (imm : lo_timetag) : M builder unit :=
  a ← get; if a_bip a then throw messageInProgress else a_open imm.

Definition a_beginBundle_at (t : TimeTag) : M builder unit :=
  a ← get; if a_mip a then throw messageInProgress else a_open (tag t).

Definition a_endBundle : M builder unit :=
  a ← get;
  if negb (a_bip a) then throw bundleNotInProgress else
  match a_stack a with
  | (t, ps) :: (t', ps') :: fs => modify (with_stack ((t', ps' ++ [PBundle t ps]) :: fs) true)
  | _ => modify (with_stack (a_stack a) false)
  end.

(** The argument an item of the stream adds. *)
Definition item_atom (i : item) : option atom :=
  match i with
  | I_bool b => Some (if b then ATrue else AFalse)
  | I_char c => Some (AChar c)
  | I_Nil _ => Some ANil
  | I_Infinitum _ => Some AInfinitum
  | I_int32 z => Some (AInt32 z)
  | I_int64 z => Some (AInt64 z)
  | I_float f => Some (AFloat f)
  | I_double d => Some (ADouble d)
  | I_cstr (CStr s) | I_string s => Some (AString (c_str s))
  | I_Symbol (mkSymbol (CStr s)) => Some (ASymbol s)
  | I_MidiMessage m => Some (AMidi (bytes m))
  | I_TimeTag t => Some (ATimetag (tag t))
  | I_Blob (mkBlob (Some d) n) => Some (ABlob (take (Z.to_nat n) d))
  | _ => None
  end.

(** Valid items: values of their C types, pointers that point somewhere, and a
    blob whose size is positive and within its data. *)
Definition item_ok (i : item) : Prop :=
  match i with
  | I_BeginMessage _ | I_EndMessage _ | I_BeginBundle _ | I_EndBundle _ => True
  | I_cstr p => ∃ s, p = CStr s
  | I_Symbol s => ∃ x, value s = CStr x ∧ nul_free x
  | I_Blob b => ∃ d, data b = Some d ∧ Forall is_byte d ∧
                     0 < size b < 2 ^ 31 ∧ size b ≤ Z.of_nat (length d)
  | _ => match item_atom i with Some a => atom_ok a | None => True end
  end.

Definition a_item (i : item) : M builder unit :=
  match i with
  | I_BeginMessage b => a_beginMessage (addressPattern b)
  | I_EndMessage _ => a_endMessage
  | I_BeginBundle b => a_beginBundle_at (timetag b)
  | I_EndBundle _ => a_endBundle
  | _ => match item_atom i with Some x => a_add x | None => undef DanglingPointer end
  end.

(** The item of the stream with the effect of a member function; a [char *] must
    point to a string. *)
Definition member_item (c : member_call) : item :=
  match c with
  | K_beginMessage p => I_BeginMessage (mkBeginMessage p)
  | K_addBool var => I_bool var
  | K_addChar var => I_char var
  | K_addNil => I_Nil mkNil
  | K_addInfinitum => I_Infinitum mkInfinitum
  | K_addInt32 var => I_int32 var
  | K_addInt64 var => I_int64 var
  | K_addFloat var => I_float var
  | K_addDouble var => I_double var
  | K_addString_cstr var => I_cstr var
  | K_addString var => I_string var
  | K_addSymbol var => I_Symbol var
  | K_addMidiMessage var => I_MidiMessage var
  | K_addTimeTag var => I_TimeTag var
  | K_addBlob var => I_Blob var
  | K_endMessage => I_EndMessage mkEndMessage
  | K_beginBundle_at tag => I_BeginBundle (mkBeginBundle tag)
  | K_endBundle => I_EndBundle mkEndBundle
  end.

Definition member_ok (c : member_call) : Prop :=
  match c with
  | K_addString_cstr var => ∃ s, var = CStr s ∧ nul_free s
  | _ => item_ok (member_item c)
  end.

(** ** Commands: the public interface of a sender *)

Inductive command : Type :=
  | C_setup (address : string) (port : Z)
  | C_send | C_clear | C_beginBundle
  | C_item (i : item)
  | C_member (m : member_call).

Definition command_ok (c : command) : Prop :=
  match c with
  | C_setup h p => is_u32 p
  | C_item i => item_ok i
  | C_member m => member_ok m
  | _ => True
  end.

Definition a_command (imm : lo_timetag) (c : command) : M builder unit :=
  match c with
  | C_setup h p => a_setup h p
  | C_send => a_send
  | C_clear => a_clear
  | C_beginBundle => a_beginBundle imm
  | C_item i => a_item i
  | C_member m => a_item (member_item m)
  end.

Section commands.
Context {L : Liblo}.

Definition exec (c : command) : M state unit :=
  match c with
  | C_setup h p => setup h p
  | C_send => send
  | C_clear => clear
  | C_beginBundle => beginBundle
  | C_item i => operator_in i
  | C_member m => member_exec m
  end.

Fixpoint exec_all (cs : list command) : M state unit :=
  match cs with
  | [] => mret tt
  | c :: cs => _ ← exec c; exec_all cs
  end.
End commands.

Fixpoint a_commands (imm : lo_timetag) (cs : list command) : M builder unit :=
  match cs with
  | [] => mret tt
  | c :: cs => _ ← a_command imm c; a_commands imm cs
  end.

(** The commands that drop the handle of a live message: a message begun after
    one that was ended and not sent, and a clear (or send) of bundles while such
    a message is pending. *)
Definition leaks (c : command) (a : builder) : bool :=
  match c with
  | C_item (I_BeginMessage _) | C_member (K_beginMessage _) => negb (a_mip a) && bool_decide (a_cur a ≠ None)
  | C_clear | C_send => bool_decide (a_stack a ≠ []) && bool_decide (a_cur a ≠ None)
  | _ => false
  end.

(** ** Rendering a packet as commands *)

Definition atom_item (a : atom) : item :=
  match a with
  | ATrue => I_bool true
  | AFalse => I_bool false
  | ANil => I_Nil mkNil
  | AInfinitum => I_Infinitum mkInfinitum
  | AChar c => I_char c
  | AInt32 z => I_int32 z
  | AInt64 z => I_int64 z
  | AFloat f => I_float f
  | ADouble d => I_double d
  | AString s => I_string s
  | ASymbol s => I_Symbol (Symbol_of_cstr (CStr s))
  | AMidi bs => I_MidiMessage (mkMidi bs)
  | ATimetag t => I_TimeTag (mkTimeTag t)
  | ABlob d => I_Blob (Blob_of (Some d) (Z.of_nat (length d)))
  end.

Fixpoint render (p : packet) : list item :=
  match p with
  | PMessage path args =>
      I_BeginMessage (mkBeginMessage path) :: map atom_item args ++ [I_EndMessage mkEndMessage]
  | PBundle t ps =>
      I_BeginBundle (mkBeginBundle (mkTimeTag t)) :: concat (map render ps)
        ++ [I_EndBundle mkEndBundle]
  end.

Fixpoint packet_ok (p : packet) : Prop :=
  match p with
  | PMessage path args => nul_free path ∧ Forall atom_ok args
  | PBundle _ ps => foldr (λ p P, packet_ok p ∧ P) True ps
  end.

(** The state between two packets. *)
Definition idle (addr : option (string * string)) (sent : list ((string * string) * packet))
    : builder := mkBuilder addr None "" false [] false sent.
