(* ===== verification/SenderRefine.v ===== *)
(** * The sender refines the builder

    [Rel] relates an [OscSender] and the state of liblo to a [builder]: every
    handle of the object is live, the message under construction and the trees
    of the open bundles are disjoint, and what liblo holds besides them is the
    part [foreign] of the rest of the program.  Every public command of the
    sender simulates its abstract counterpart; the foreign part is unchanged
    unless the command drops a live message ([leaks]). *)
From S2P Require Import Prelude Exceptions Effects Machine Floats Liblo OscTypes OscSender SenderSpec.
Open Scope Z_scope.

(** ** Framing of the deep reading *)

Definition agree (v v' : lview) (ms bs : gset ptr) : Prop :=
  (∀ m, m ∈ ms → v_msgs v' !! m = v_msgs v !! m) ∧
  (∀ b, b ∈ bs → v_bundles v' !! b = v_bundles v !! b).

Lemma agree_weaken v v' ms bs ms' bs' :
  agree v v' ms bs → ms' ⊆ ms → bs' ⊆ bs → agree v v' ms' bs'.
Proof. intros [Hm Hb] ??. split; set_solver. Qed.

Lemma reads_frame_both v v' :
  (∀ e p ms bs, reads v e p ms bs → agree v v' ms bs → reads v' e p ms bs) ∧
  (∀ es ps ms bs, reads_list v es ps ms bs → agree v v' ms bs → reads_list v' es ps ms bs).
Proof.
  apply reads_mutind.
  - intros path m args Hm [Hag _]. constructor. rewrite Hag; set_solver.
  - intros b t es ps ms bs Hb _ IH Hn Hag. econstructor; [|eapply IH|done].
    + destruct Hag as [_ Hag]. rewrite Hag; set_solver.
    + eapply agree_weaken; set_solver.
  - constructor.
  - intros e es p ps ms1 bs1 ms2 bs2 _ IH1 _ IH2 Hms Hbs Hag.
    constructor; [apply IH1|apply IH2|done|done]; eapply agree_weaken; set_solver.
Qed.

Definition reads_frame v v' := proj1 (reads_frame_both v v').
Definition reads_list_frame v v' := proj2 (reads_frame_both v v').

Lemma reads_list_snoc v es ps ms bs e p ms' bs' :
  reads_list v es ps ms bs → reads v e p ms' bs' → ms ## ms' → bs ## bs' →
  reads_list v (es ++ [e]) (ps ++ [p]) (ms ∪ ms') (bs ∪ bs').
Proof.
  induction 1 as [|e0 es p0 ps ms1 bs1 ms2 bs2 He Hes IH ??]; intros Hp Hms Hbs; simpl.
  - rewrite <- (union_empty_r_L ms'), <- (union_empty_r_L bs'), !union_empty_l_L.
    constructor; [done|constructor|set_solver|set_solver].
  - rewrite <- !union_assoc_L.
    constructor; [done|apply IH; set_solver|set_solver|set_solver].
Qed.

(** ** The open bundles *)

(** [bstack v hs fs ms bs]: the handles [hs] are the open bundles [fs],
    innermost first; an outer bundle ends with the next inner one. *)
Inductive below (v : lview) : ptr → list ptr → list frame → gset ptr → gset ptr → Prop :=
  | below_nil c : below v c [] [] ∅ ∅
  | below_cons c b hs t es ps fs ms1 bs1 ms2 bs2 :
      v_bundles v !! b = Some (t, es ++ [EBundle c]) →
      reads_list v es ps ms1 bs1 → below v b hs fs ms2 bs2 →
      ms1 ## ms2 → bs1 ## bs2 → b ∉ bs1 ∪ bs2 →
      below v c (b :: hs) ((t, ps) :: fs) (ms1 ∪ ms2) ({[b]} ∪ (bs1 ∪ bs2)).

Inductive bstack (v : lview) : list ptr → list frame → gset ptr → gset ptr → Prop :=
  | bstack_nil : bstack v [] [] ∅ ∅
  | bstack_cons c hs t es ps fs ms1 bs1 ms2 bs2 :
      v_bundles v !! c = Some (t, es) →
      reads_list v es ps ms1 bs1 → below v c hs fs ms2 bs2 →
      ms1 ## ms2 → bs1 ## bs2 → c ∉ bs1 ∪ bs2 →
      bstack v (c :: hs) ((t, ps) :: fs) (ms1 ∪ ms2) ({[c]} ∪ (bs1 ∪ bs2)).

Lemma below_frame v v' c hs fs ms bs :
  below v c hs fs ms bs → agree v v' ms bs → below v' c hs fs ms bs.
Proof.
  induction 1 as [|c b hs t es ps fs ms1 bs1 ms2 bs2 Hb Hes Hbl IH ???]; intros Hag;
    [constructor|].
  econstructor; try done.
  - destruct Hag as [_ ->]; [done|set_solver].
  - eapply reads_list_frame; [done|]. eapply agree_weaken; set_solver.
  - apply IH. eapply agree_weaken; set_solver.
Qed.

Lemma bstack_frame v v' hs fs ms bs :
  bstack v hs fs ms bs → agree v v' ms bs → bstack v' hs fs ms bs.
Proof.
  destruct 1 as [|c hs t es ps fs ms1 bs1 ms2 bs2 Hb Hes Hbl ???]; intros Hag; [constructor|].
  econstructor; try done.
  - destruct Hag as [_ ->]; [done|set_solver].
  - eapply reads_list_frame; [done|]. eapply agree_weaken; set_solver.
  - eapply below_frame; [done|]. eapply agree_weaken; set_solver.
Qed.

Lemma bstack_length v hs fs ms bs : bstack v hs fs ms bs → length hs = length fs.
Proof.
  destruct 1 as [|c hs t es ps fs ms1 bs1 ms2 bs2 _ _ Hbl _ _ _]; [done|].
  simpl. f_equal. induction Hbl; simpl; auto.
Qed.

(** The innermost open bundle is live. *)
Lemma bstack_top v c hs fs ms bs : bstack v (c :: hs) fs ms bs →
  ∃ t es ps fs', fs = (t, ps) :: fs' ∧ v_bundles v !! c = Some (t, es) ∧ c ∈ bs.
Proof. inversion 1; subst. do 4 eexists. split_all. set_solver. Qed.

(** A completed element goes at the end of the innermost bundle. *)
Lemma bstack_add v v' c hs t es ps fs ms bs e p ms' bs' :
  bstack v (c :: hs) ((t, ps) :: fs) ms bs → v_bundles v !! c = Some (t, es) →
  reads v e p ms' bs' → ms ## ms' → bs ## bs' →
  v' = on_bundles <[c := (t, es ++ [e])]> v →
  bstack v' (c :: hs) ((t, ps ++ [p]) :: fs) (ms ∪ ms') (bs ∪ bs').
Proof.
  inversion 1 as [|? ? ? es' ? ? ms1 bs1 ms2 bs2 Hc Hes Hbl ? ? Hn]; subst; clear H.
  intros Hc' He Hms Hbs ->. rewrite Hc in Hc'. simplify_eq.
  assert (∀ X Y, c ∉ Y → agree v (on_bundles <[c := (t, es ++ [e])]> v) X Y) as Hag.
  { intros X Y HY. split; [done|]. intros b Hb. simpl. apply lookup_insert_ne. set_solver. }
  replace (ms1 ∪ ms2 ∪ ms') with ((ms1 ∪ ms') ∪ ms2) by set_solver.
  replace ({[c]} ∪ (bs1 ∪ bs2) ∪ bs') with ({[c]} ∪ ((bs1 ∪ bs') ∪ bs2)) by set_solver.
  econstructor.
  - apply lookup_insert_eq.
  - apply reads_list_snoc; [eapply reads_list_frame|eapply reads_frame| |];
      try done; try apply Hag; set_solver.
  - eapply below_frame; [done|]. apply Hag. set_solver.
  - set_solver.
  - set_solver.
  - set_solver.
Qed.

(** Opening a bundle inside the innermost one. *)
Lemma bstack_push v v' c hs t es ps fs ms bs d t' :
  bstack v (c :: hs) ((t, ps) :: fs) ms bs → v_bundles v !! c = Some (t, es) → d ∉ bs →
  v' = on_bundles (λ m, <[c := (t, es ++ [EBundle d])]> (<[d := (t', [])]> m)) v →
  bstack v' (d :: c :: hs) ((t', []) :: (t, ps) :: fs) ms ({[d]} ∪ bs).
Proof.
  inversion 1 as [|? ? ? es' ? ? ms1 bs1 ms2 bs2 Hc Hes Hbl ? ? Hn]; subst; clear H.
  intros Hc' Hd ->. rewrite Hc in Hc'. simplify_eq.
  assert (∀ X Y, c ∉ Y → d ∉ Y →
    agree v (on_bundles (λ m, <[c := (t, es ++ [EBundle d])]> (<[d := (t', [])]> m)) v) X Y) as Hag.
  { intros X Y HY HY'. split; [done|]. intros b Hb. simpl.
    rewrite !lookup_insert_ne by set_solver. done. }
  replace (ms1 ∪ ms2) with (∅ ∪ (ms1 ∪ ms2)) by set_solver.
  replace ({[d]} ∪ ({[c]} ∪ (bs1 ∪ bs2))) with ({[d]} ∪ (∅ ∪ ({[c]} ∪ (bs1 ∪ bs2)))) by set_solver.
  econstructor; [|constructor|econstructor|set_solver|set_solver|set_solver].
  - simpl. rewrite lookup_insert_ne by set_solver. apply lookup_insert_eq.
  - apply lookup_insert_eq.
  - eapply reads_list_frame; [done|]. apply Hag; set_solver.
  - eapply below_frame; [done|]. apply Hag; set_solver.
  - done.
  - done.
  - done.
Qed.

(** The first bundle. *)
Lemma bstack_open v v' d t :
  v' = on_bundles <[d := (t, [])]> v → bstack v' [d] [(t, [])] ∅ {[d]}.
Proof.
  intros ->. replace ({[d]} : gset ptr) with ({[d]} ∪ (∅ ∪ ∅) : gset ptr) by set_solver.
  replace (∅ : gset ptr) with (∅ ∪ ∅ : gset ptr) at 1 by set_solver.
  econstructor; [apply lookup_insert_eq|constructor|constructor|set_solver..].
Qed.

(** Closing the innermost bundle: it is an element of the next one already. *)
Lemma bstack_pop v d c hs t ps t' ps' fs ms bs :
  bstack v (d :: c :: hs) ((t, ps) :: (t', ps') :: fs) ms bs →
  bstack v (c :: hs) ((t', ps' ++ [PBundle t ps]) :: fs) ms bs.
Proof.
  inversion 1 as [|? ? ? es ? ? ms1 bs1 ms2 bs2 Hd Hes Hbl ? ? Hn]; subst; clear H.
  inversion Hbl as [|? ? ? ? es' ? ? ms3 bs3 ms4 bs4 Hc Hes' Hbl' ? ? Hn']; subst.
  replace (ms1 ∪ (ms3 ∪ ms4)) with ((ms3 ∪ ms1) ∪ ms4) by set_solver.
  replace ({[d]} ∪ (bs1 ∪ ({[c]} ∪ (bs3 ∪ bs4))))
    with ({[c]} ∪ ((bs3 ∪ ({[d]} ∪ bs1)) ∪ bs4)) by set_solver.
  econstructor; [done| |done|set_solver..].
  apply reads_list_snoc; [done|by econstructor; [..|set_solver]|set_solver|set_solver].
Qed.

(** The outermost bundle reads as the whole stack. *)
Lemma below_plug v c hs fs ms2 bs2 p ms1 bs1 :
  below v c hs fs ms2 bs2 → reads v (EBundle c) p ms1 bs1 → ms1 ## ms2 → bs1 ## bs2 →
  ∃ b, last (c :: hs) = Some b ∧ reads v (EBundle b) (plug p fs) (ms1 ∪ ms2) (bs1 ∪ bs2).
Proof.
  intros Hbl. revert p ms1 bs1.
  induction Hbl as [c|c b hs t es ps fs ms3 bs3 ms4 bs4 Hb Hes Hbl IH Hm Hbb Hn];
    intros p ms1 bs1 Hp Hms Hbs.
  - exists c. by rewrite !union_empty_r_L.
  - destruct (IH (PBundle t (ps ++ [p])) (ms3 ∪ ms1) ({[b]} ∪ (bs3 ∪ bs1))) as (b' & Hl & Hr).
    + econstructor; [done|apply reads_list_snoc; [done..|set_solver|set_solver]|set_solver].
    + set_solver.
    + set_solver.
    + exists b'. split; [done|]. simpl.
      replace (ms1 ∪ (ms3 ∪ ms4)) with (ms3 ∪ ms1 ∪ ms4) by set_solver.
      by replace (bs1 ∪ ({[b]} ∪ (bs3 ∪ bs4))) with ({[b]} ∪ (bs3 ∪ bs1) ∪ bs4) by set_solver.
Qed.

Lemma bstack_reads v c hs t ps fs ms bs :
  bstack v (c :: hs) ((t, ps) :: fs) ms bs →
  ∃ b, last (c :: hs) = Some b ∧ reads v (EBundle b) (plug (PBundle t ps) fs) ms bs.
Proof.
  inversion 1 as [|? ? ? es ? ? ms1 bs1 ms2 bs2 Hc Hes Hbl ? ? Hn]; subst.
  rewrite union_assoc_L. eapply below_plug; [done| |done|set_solver].
  econstructor; [done..|set_solver].
Qed.

(** ** The relation *)

Section refinement.
Context {L : Liblo} {LL : LibloLaws L}.

(** What liblo holds for the rest of the program. *)
Record foreign : Type := Foreign {
  f_addrs : gmap ptr (string * string);
  f_msgs : gmap ptr msg;
  f_bundles : gmap ptr (lo_timetag * list elem);
  f_blobs : gmap ptr (list Z);
  f_servers : gmap ptr server
}.

Definition own (m : option ptr) : gset ptr :=
  match m with Some m => {[m]} | None => ∅ end.

(** The part of a view outside the addresses [as_], the messages [ms] and the
    bundles [bs]. *)
Definition rest_of (v : lview) (as_ ms bs : gset ptr) : foreign :=
  Foreign (filter (λ x, x.1 ∉ as_) (v_addrs v)) (filter (λ x, x.1 ∉ ms) (v_msgs v)) (filter (λ x, x.1 ∉ bs) (v_bundles v))
    (v_blobs v) (v_servers v).

Definition addr_rel (v : lview) (p : option ptr) (x : option (string * string)) : Prop :=
  match p, x with
  | Some p, Some x => v_addrs v !! p = Some x
  | None, None => True
  | _, _ => False
  end.

Definition cur_rel (v : lview) (p : option ptr) (x : option (list atom)) : Prop :=
  match p, x with
  | Some p, Some args => v_msgs v !! p = Some (Msg args 0)
  | None, None => True
  | _, _ => False
  end.

Record Rel_at (F : foreign) (hs : list ptr) (ms bs : gset ptr) (a : builder) (st : state)
    : Prop := MkRel {
  rel_addr : addr_rel (view st.2) (m_address st.1) (a_addr a);
  rel_cur : cur_rel (view st.2) (m_message st.1) (a_cur a);
  rel_handles : m_bundles st.1 = reverse (Some <$> hs);
  rel_stack : bstack (view st.2) hs (a_stack a) ms bs;
  rel_disj : own (m_message st.1) ## ms;
  rel_rest : rest_of (view st.2) (own (m_address st.1)) (own (m_message st.1) ∪ ms) bs = F;
  rel_path : m_addressPattern st.1 = a_path a;
  rel_mip : m_messageInProgress st.1 = a_mip a;
  rel_bip : m_bundleInProgress st.1 = a_bip a;
  rel_sent : v_sent (view st.2) = a_sent a
}.

Definition Rel (F : foreign) (a : builder) (st : state) : Prop :=
  ∃ hs ms bs, Rel_at F hs ms bs a st.

(** [m] does what [ma] does, from related states; the messages that belong to
    others stay, and a leak adds to them. *)
Definition simulates (F : foreign) (a : builder) (st : state)
    (m : M state unit) (ma : M builder unit) (leak : bool) : Prop :=
  ∀ o a', ma a = (o, a') → (∀ u, o ≠ Undef u) →
  ∃ F' st', m st = (o, st') ∧ Rel F' a' st' ∧ (leak = false → F' = F) ∧ f_msgs F ⊆ f_msgs F'.

(** ** Running the concrete operations *)

Lemma bind_field {A B} (f : OscSender → A) (k : A → M state B) st :
  (field f ≫= k) st = k (f st.1) st.
Proof. done. Qed.

Lemma bind_assign {B} f (k : unit → M state B) st :
  (assign f ≫= k) st = k tt (f st.1, st.2).
Proof. done. Qed.

Lemma bind_lo {A B} (m : M world A) (k : A → M state B) s w a w' :
  m w = (Ret a, w') → (lo m ≫= k) (s, w) = k a (s, w').
Proof. intros H. unfold lo, zoom, mbind, M_bind. simpl. by rewrite H. Qed.

Lemma run_lo {A} (m : M world A) s w a w' : m w = (Ret a, w') → lo m (s, w) = (Ret a, (s, w')).
Proof. intros H. unfold lo, zoom. simpl. by rewrite H. Qed.

(** Owning fewer messages leaves more to others. *)
Lemma rest_grows v as_ ms ms' bs bs' : ms ⊆ ms' →
  f_msgs (rest_of v as_ ms' bs) ⊆ f_msgs (rest_of v as_ ms bs').
Proof.
  intros Hs. apply map_subseteq_spec. intros m x. simpl. rewrite !map_lookup_filter_Some. set_solver.
Qed.

Lemma rest_insert_msg v as_ ms bs m x : m ∈ ms →
  rest_of (on_msgs <[m := x]> v) as_ ms bs = rest_of v as_ ms bs.
Proof. intros. unfold rest_of. simpl. f_equal. apply map_filter_insert_not. set_solver. Qed.

Lemma rest_fresh_msg v as_ ms bs m x : v_msgs v !! m = None →
  rest_of (on_msgs <[m := x]> v) as_ ({[m]} ∪ ms) bs = rest_of v as_ ms bs.
Proof.
  intros Hm. unfold rest_of. simpl. f_equal.
  apply map_eq. intros i. apply option_eq. intros y.
  rewrite !map_lookup_filter_Some. simpl.
  destruct (decide (m = i)) as [->|Hne].
  - rewrite Hm. set_solver.
  - rewrite lookup_insert_ne by done. set_solver.
Qed.

(** A new address in the place of the ones left out. *)
Lemma rest_fresh_addr v as_ ms bs q x : filter (λ x, x.1 ∉ as_) (v_addrs v) !! q = None →
  rest_of (on_addrs (λ m, <[q := x]> (filter (λ x, x.1 ∉ as_) m)) v) {[q]} ms bs = rest_of v as_ ms bs.
Proof.
  intros Hq. unfold rest_of. simpl. f_equal. rewrite map_filter_insert_False by set_solver.
  rewrite delete_id by done. apply map_filter_id.
  intros i y Hi. rewrite not_elem_of_singleton. simpl. congruence.
Qed.

Lemma rest_insert_bundle v as_ ms bs b x : b ∈ bs →
  rest_of (on_bundles <[b := x]> v) as_ ms bs = rest_of v as_ ms bs.
Proof. intros. unfold rest_of. simpl. f_equal. apply map_filter_insert_not. set_solver. Qed.

Lemma rest_fresh_bundle v as_ ms bs b x : v_bundles v !! b = None →
  rest_of (on_bundles <[b := x]> v) as_ ms ({[b]} ∪ bs) = rest_of v as_ ms bs.
Proof.
  intros Hb. unfold rest_of. simpl. f_equal.
  apply map_eq. intros i. apply option_eq. intros y.
  rewrite !map_lookup_filter_Some. simpl.
  destruct (decide (b = i)) as [->|Hne].
  - rewrite Hb. set_solver.
  - rewrite lookup_insert_ne by done. set_solver.
Qed.

Lemma below_live v c hs fs ms bs : below v c hs fs ms bs →
  ms ⊆ dom (v_msgs v) ∧ bs ⊆ dom (v_bundles v).
Proof.
  induction 1 as [|c b hs' t es ps fs' ms1 bs1 ms2 bs2 Hb Hl _ IH _ _ _]; [set_solver|].
  apply elem_of_dom_2 in Hb. apply (proj2 (reads_live v)) in Hl. set_solver.
Qed.

Lemma bstack_live v hs fs ms bs : bstack v hs fs ms bs →
  ms ⊆ dom (v_msgs v) ∧ bs ⊆ dom (v_bundles v).
Proof.
  destruct 1 as [|c hs' t es ps fs' ms1 bs1 ms2 bs2 Hc Hl Hb _ _ _]; [set_solver|].
  apply elem_of_dom_2 in Hc. apply (proj2 (reads_live v)) in Hl.
  apply below_live in Hb. set_solver.
Qed.

Lemma bstack_fresh v hs fs ms bs b :
  bstack v hs fs ms bs → v_bundles v !! b = None → b ∉ bs.
Proof. intros [_ H]%bstack_live Hb Hin. apply not_elem_of_dom in Hb. set_solver. Qed.

Lemma bstack_fresh_msg v hs fs ms bs m :
  bstack v hs fs ms bs → v_msgs v !! m = None → m ∉ ms.
Proof. intros [H _]%bstack_live Hb Hin. apply not_elem_of_dom in Hb. set_solver. Qed.

(** ** Simulation, one operation at a time *)

(** Evaluate a run of an abstract operation. *)
Ltac run_spec H :=
  cbv [mbind M_bind mret M_ret get modify throw undef] in H; simpl in H; simplify_eq.

Lemma cur_rel_Some v p args : cur_rel v p (Some args) →
  ∃ m, p = Some m ∧ v_msgs v !! m = Some (Msg args 0).
Proof. destruct p; simpl; [eauto|done]. Qed.

Lemma cur_rel_None v p : cur_rel v p None → p = None.
Proof. by destruct p. Qed.

Lemma addr_rel_Some v p x : addr_rel v p (Some x) → ∃ q, p = Some q ∧ v_addrs v !! q = Some x.
Proof. destruct p; simpl; [eauto|done]. Qed.

(** An argument added to the message under construction. *)
Lemma Rel_add F hs ms bs a s w w' m args args' :
  Rel_at F hs ms bs a (s, w) → m_message s = Some m → a_cur a = Some args →
  view w' = on_msgs <[m := Msg args' 0]> (view w) →
  Rel_at F hs ms bs (with_msg (Some args') (a_path a) (a_mip a) a) (s, w').
Proof.
  intros [] Hm Ha Hv; simpl in *. rewrite Hm in *. simpl in *.
  split; simpl; rewrite ?Hm, ?Hv; try done; simpl.
  - apply lookup_insert_eq.
  - eapply bstack_frame; [done|]. split; [|done]. intros i Hi. simpl.
    apply lookup_insert_ne. set_solver.
  - rewrite rest_insert_msg by set_solver. done.
Qed.

(** The common body of the adders: test the flag, call liblo. *)
Definition adder (f : option ptr → M world Z) : M state unit :=
  p ← field m_messageInProgress;
  if negb p then throw messageNotInProgress
  else m ← field m_message; _ ← lo (f m); mret tt.

Lemma sim_adder F a st f x :
  (∀ m args w, v_msgs (view w) !! m = Some (Msg args 0) →
     effect (f (Some m)) w (on_msgs <[m := Msg (args ++ [x]) 0]>)) →
  Rel F a st → simulates F a st (adder f) (a_add x) false.
Proof.
  intros Hf HR. pose proof HR as (hs & ms & bs & HRa). destruct st as [s w].
  unfold adder, a_add, simulates. rewrite bind_field.
  pose proof (rel_mip _ _ _ _ _ _ HRa) as Hmip. simpl in *. rewrite Hmip.
  intros o a' Ho Hu. run_spec Ho. destruct (a_mip a) eqn:Emip; run_spec Ho.
  2: by exists F, (s, w).
  destruct (a_cur a) as [args|] eqn:Ecur; run_spec Ho; [|by edestruct Hu].
  pose proof (rel_cur _ _ _ _ _ _ HRa) as Hcur. rewrite Ecur in Hcur.
  apply cur_rel_Some in Hcur as (m & Hm & Hv). simpl in *.
  destruct (Hf m args w Hv) as (rc & w' & Hrun & Hv').
  exists F, (s, w'). split_all.
  - rewrite bind_field. simpl. rewrite Hm. by rewrite (bind_lo _ _ _ _ _ _ Hrun).
  - exists hs, ms, bs. rewrite <- Emip. by eapply Rel_add.
Qed.

Lemma sim_add_atom F a st x :
  is_blob x = false → atom_ok x → Rel F a st →
  simulates F a st (adder (λ m, lo_message_add m x)) (a_add x) false.
Proof. intros. apply sim_adder; [|done]. intros. by apply law_message_add. Qed.

Lemma sim_addBlob F a st d n :
  Forall is_byte d → 0 < n < 2 ^ 31 → n ≤ Z.of_nat (length d) → Rel F a st →
  simulates F a st (addBlob (mkBlob (Some d) n)) (a_add (ABlob (take (Z.to_nat n) d))) false.
Proof.
  intros Hd Hn Hlen HR. pose proof HR as (hs & ms & bs & HRa). destruct st as [s w].
  unfold addBlob, a_add, simulates. rewrite bind_field.
  pose proof (rel_mip _ _ _ _ _ _ HRa) as Hmip. simpl in *. rewrite Hmip.
  intros o a' Ho Hu. run_spec Ho. destruct (a_mip a) eqn:Emip; run_spec Ho.
  2: by exists F, (s, w).
  destruct (a_cur a) as [args|] eqn:Ecur; run_spec Ho; [|by edestruct Hu].
  pose proof (rel_cur _ _ _ _ _ _ HRa) as Hcur. rewrite Ecur in Hcur.
  apply cur_rel_Some in Hcur as (m & Hm & Hv). simpl in *.
  rewrite (swrap_small 32 n) by lia.
  destruct (law_blob_new n d w Hn Hlen) as (b & w1 & Hr1 & Hb & Hv1).
  destruct (law_message_add_blob m b (take (Z.to_nat n) d) args w1) as (rc & w2 & Hr2 & Hv2).
  { by rewrite Hv1. }
  { rewrite Hv1. apply lookup_insert_eq. }
  destruct (law_blob_free b (take (Z.to_nat n) d) w2) as ([] & w3 & Hr3 & Hv3).
  { rewrite Hv2, Hv1. apply lookup_insert_eq. }
  exists F, (s, w3). split_all.
  - rewrite (bind_lo _ _ _ _ _ _ Hr1), bind_field. simpl. rewrite Hm.
    rewrite (bind_lo _ _ _ _ _ _ Hr2). by apply run_lo.
  - exists hs, ms, bs. rewrite <- Emip. eapply Rel_add; [done..|].
    rewrite Hv3, Hv2, Hv1. unfold on_blobs, on_msgs. simpl.
    by rewrite delete_insert_eq, delete_id.
Qed.

(** The address is freed, if there is one. *)
Lemma run_free_address a s w : addr_rel (view w) (m_address s) (a_addr a) →
  ∃ w1, when (bool_decide (m_address s ≠ None)) (lo (lo_address_free (m_address s))) (s, w)
        = (Ret tt, (s, w1)) ∧
    view w1 = on_addrs (filter (λ x, x.1 ∉ own (m_address s))) (view w).
Proof.
  intros Ha. destruct (m_address s) as [q|], (a_addr a) as [x|]; try done; simpl.
  - destruct (law_address_free q x w Ha) as ([] & w1 & Hr & Hv).
    exists w1. split; [by apply run_lo|]. rewrite Hv. unfold on_addrs. f_equal.
    apply map_eq. intros i. apply option_eq. intros y.
    rewrite map_lookup_filter_Some, lookup_delete_Some. set_solver.
  - exists w. split; [done|]. unfold on_addrs.
    rewrite map_filter_id by set_solver. by destruct (view w).
Qed.

Lemma sim_setup F a st h p : Rel F a st → simulates F a st (setup h p) (a_setup h p) false.
Proof.
  intros (hs & ms & bs & []) o a' Ho _. destruct st as [s w]. simpl in *.
  unfold a_setup in Ho. run_spec Ho. unfold setup. rewrite bind_field. simpl.
  destruct (run_free_address a s w rel_addr0) as (w1 & Hr1 & Hv1).
  rewrite (bind_step _ _ _ _ _ Hr1).
  rewrite (c_str_id (dec p)) by apply dec_nul_free.
  destruct (law_address_new (c_str h) (dec p) w1) as (q & w2 & Hr2 & Hq & Hv2).
  { apply c_str_nul_free. }
  { apply dec_nul_free. }
  rewrite (bind_lo _ _ _ _ _ _ Hr2). do 2 eexists. split_all.
  exists hs, ms, bs. split; simpl; try done; rewrite Hv2, Hv1; simpl; try done.
  - apply lookup_insert_eq.
  - eapply bstack_frame; [done|]. by split.
  - rewrite Hv1 in Hq. exact (rest_fresh_addr _ _ _ _ q _ Hq).
Qed.

(** A new message: what was the message of the sender becomes foreign. *)
Lemma run_beginMessage F hs ms bs a s w p : Rel_at F hs ms bs a (s, w) → a_mip a = false →
  ∃ st', beginMessage p (s, w) = (Ret tt, st') ∧
    Rel_at (rest_of (view w) (own (m_address s)) ms bs) hs ms bs (with_msg (Some []) p true a) st'.
Proof.
  intros HRa Emip. pose proof HRa as []. simpl in *.
  unfold beginMessage. rewrite bind_field. simpl. rewrite rel_mip0, Emip.
  destruct (law_message_new w) as (m & w' & Hr & Hm & Hv).
  rewrite (bind_lo _ _ _ _ _ _ Hr), !bind_assign.
  pose proof (bstack_fresh_msg _ _ _ _ _ _ rel_stack0 Hm).
  eexists. split; [done|]. split; simpl; rewrite ?Hv; simpl; try done.
  - apply lookup_insert_eq.
  - eapply bstack_frame; [done|]. split; [|done]. intros i Hi. simpl.
    apply lookup_insert_ne. set_solver.
  - set_solver.
  - by apply rest_fresh_msg.
Qed.

Lemma sim_beginMessage F a st p : Rel F a st →
  simulates F a st (beginMessage p) (a_beginMessage p)
    (leaks (C_item (I_BeginMessage (mkBeginMessage p))) a).
Proof.
  intros (hs & ms & bs & HRa) o a' Ho _. destruct st as [s w].
  unfold a_beginMessage in Ho. run_spec Ho. destruct (a_mip a) eqn:Emip; run_spec Ho.
  - exists F, (s, w). split_all; [|by exists hs, ms, bs].
    unfold beginMessage. rewrite bind_field. simpl. destruct HRa. simpl in *. by rewrite rel_mip0, Emip.
  - destruct (run_beginMessage _ _ _ _ _ _ _ p HRa Emip) as (st' & Hr & HR').
    exists (rest_of (view w) (own (m_address s)) ms bs), st'. split; [done|]. split; [by exists hs, ms, bs|].
    split; [|destruct HRa; simpl in *; rewrite <- rel_rest0; by apply (rest_grows _ _ _ _ bs bs), union_subseteq_r].
    simpl. rewrite Emip. simpl. intros Hcur%bool_decide_eq_false. destruct HRa. simpl in *.
    destruct (a_cur a); [by destruct Hcur|]. apply cur_rel_None in rel_cur0.
    rewrite rel_cur0 in rel_rest0. simpl in rel_rest0. by rewrite union_empty_l_L in rel_rest0.
Qed.

(** The two ends of the stack of bundles. *)
Lemma run_back s w c hs : m_bundles s = reverse (Some <$> c :: hs) →
  bundles_back (s, w) = (Ret (Some c), (s, w)).
Proof.
  intros H. unfold bundles_back. rewrite bind_field. simpl.
  by rewrite H, fmap_cons, reverse_cons, last_snoc.
Qed.

Lemma run_front s w b hs : m_bundles s = reverse (Some <$> hs) → last hs = Some b →
  bundles_front (s, w) = (Ret (Some b), (s, w)).
Proof.
  intros H Hl. unfold bundles_front. rewrite bind_field. simpl.
  by rewrite H, head_reverse, fmap_last, Hl.
Qed.

Lemma handles_length (l : list (option ptr)) hs : l = reverse (Some <$> hs) → length l = length hs.
Proof. intros ->. by rewrite length_reverse, length_fmap. Qed.

Lemma copy_pattern_c_str p : copy_pattern p = c_str p.
Proof.
  unfold copy_pattern. induction p as [|c p IH]; [done|]. simpl. case_decide; [done|].
  by f_equal.
Qed.

Lemma sim_endMessage F a st : Rel F a st → simulates F a st endMessage a_endMessage false.
Proof.
  intros (hs & ms & bs & HRa) o a' Ho Hu. pose proof HRa as []. destruct st as [s w].
  simpl in *. unfold endMessage. rewrite bind_field. simpl. rewrite rel_mip0.
  unfold a_endMessage in Ho. run_spec Ho. destruct (a_mip a) eqn:Emip; run_spec Ho.
  2: { do 2 eexists. split_all. by exists hs, ms, bs. }
  cbn [negb]. rewrite bind_field. simpl. rewrite rel_bip0. destruct (a_bip a) eqn:Ebip.
  2: { run_spec Ho. do 2 eexists. split_all. exists hs, ms, bs. by split; simpl; done || congruence. }
  destruct (a_stack a) as [|[t ps] fs] eqn:Est; [run_spec Ho; by edestruct Hu|].
  destruct (a_cur a) as [args|] eqn:Ecur; run_spec Ho; [|by edestruct Hu].
  apply cur_rel_Some in rel_cur0 as (m & Hm & Hv).
  destruct hs as [|c hs]; [inversion rel_stack0|].
  destruct (bstack_top _ _ _ _ _ _ rel_stack0) as (t' & es & ps' & fs' & Heq & Hc & Hcin).
  simplify_eq.
  destruct (law_bundle_add_message c t' es m args (c_str (m_addressPattern s)) w)
    as (rc & w' & Hr & Hv'); [done..|apply c_str_nul_free|].
  rewrite !bind_assoc, (bind_step _ _ _ _ _ (run_back _ _ _ _ rel_handles0)).
  rewrite bind_assoc, Hm, copy_pattern_c_str, (bind_lo _ _ _ _ _ _ Hr), bind_assoc, !bind_assign.
  do 2 eexists. split_all. rewrite Hm in *. simpl in *.
  exists (c :: hs), (ms ∪ {[m]}), (bs ∪ ∅).
  split; simpl; rewrite ?Hv'; simpl; try done.
  - rewrite <- rel_path0. eapply bstack_add; [done|done| | | |done].
    + constructor. done.
    + set_solver.
    + set_solver.
  - rewrite rest_insert_bundle by set_solver.
    f_equal; set_solver.
Qed.

Lemma sim_open F a st t : Rel F a st → simulates F a st (open_bundle t) (a_open t) false.
Proof.
  intros (hs & ms & bs & HRa) o a' Ho Hu. pose proof HRa as []. destruct st as [s w].
  simpl in *. unfold a_open in Ho. run_spec Ho. unfold open_bundle.
  destruct (law_bundle_new t w) as (d & w1 & Hr1 & Hd & Hv1).
  rewrite (bind_lo _ _ _ _ _ _ Hr1), bind_field. simpl.
  rewrite (handles_length _ _ rel_handles0).
  pose proof (bstack_fresh _ _ _ _ _ _ rel_stack0 Hd) as Hdbs.
  destruct hs as [|c hs].
  - simpl. rewrite bind_ret_l, !bind_assign. do 2 eexists. split_all.
    inversion rel_stack0 as [Hh Hf Hms Hbs|]; subst.
    exists [d], ∅, ({[d]} ∪ ∅). split; simpl; rewrite ?Hv1; simpl; try done.
    + by rewrite rel_handles0.
    + rewrite union_empty_r_L. by eapply bstack_open.
    + by rewrite rest_fresh_bundle.
  - destruct (bstack_top _ _ _ _ _ _ rel_stack0) as (t' & es & ps & fs & Heq & Hc & Hcin).
    assert (c ≠ d) by set_solver.
    destruct (law_bundle_add_bundle c d t' es (t, []) w1) as (rc & w2 & Hr2 & Hv2).
    { rewrite Hv1. simpl. by rewrite lookup_insert_ne. }
    { rewrite Hv1. apply lookup_insert_eq. }
    { done. }
    simpl. rewrite bind_assoc, (bind_step _ _ _ _ _ (run_back _ _ _ _ rel_handles0)).
    rewrite bind_assoc, (bind_lo _ _ _ _ _ _ Hr2), bind_ret_l, !bind_assign.
    do 2 eexists. split_all.
    exists (d :: c :: hs), ms, ({[d]} ∪ bs). split; simpl; rewrite ?Hv2, ?Hv1; simpl; try done.
    + by rewrite rel_handles0, !fmap_cons, !reverse_cons.
    + rewrite Heq in *. by eapply bstack_push.
    + rewrite rest_insert_bundle by set_solver. by rewrite rest_fresh_bundle.
Qed.

Lemma sim_endBundle F a st : Rel F a st → simulates F a st endBundle a_endBundle false.
Proof.
  intros (hs & ms & bs & HRa) o a' Ho Hu. pose proof HRa as []. destruct st as [s w].
  simpl in *. unfold endBundle. rewrite bind_field. simpl. rewrite rel_bip0.
  unfold a_endBundle in Ho. run_spec Ho. destruct (a_bip a) eqn:Ebip; run_spec Ho.
  2: { do 2 eexists. split_all. by exists hs, ms, bs. }
  cbn [negb]. rewrite bind_field. simpl. rewrite (handles_length _ _ rel_handles0).
  pose proof (bstack_length _ _ _ _ _ rel_stack0) as Hlen.
  destruct hs as [|d [|c hs]], (a_stack a) as [|[t ps] [|[t' ps'] fs]] eqn:Est; try done;
    run_spec Ho; do 2 eexists; split_all.
  - exists [], ms, bs. by split; simpl; done || congruence.
  - exists [d], ms, bs. by split; simpl; done || congruence.
  - exists (c :: hs), ms, bs. split; simpl; try done.
    + by rewrite rel_handles0, fmap_cons, reverse_cons, removelast_snoc.
    + by apply bstack_pop with (d := d).
Qed.

(** *** Clearing and sending *)

Lemma rest_filter v as_ ms bs :
  rest_of (on_msgs (filter (λ x, x.1 ∉ ms)) (on_bundles (filter (λ x, x.1 ∉ bs)) v)) as_ ∅ ∅
  = rest_of v as_ ms bs.
Proof.
  unfold rest_of. simpl. f_equal; apply map_eq; intros i; apply option_eq; intros y;
    rewrite !map_lookup_filter_Some; set_solver.
Qed.

Lemma rest_delete v as_ m bs :
  rest_of (on_msgs (delete m) v) as_ ∅ bs = rest_of v as_ {[m]} bs.
Proof.
  unfold rest_of. simpl. f_equal; apply map_eq; intros i; apply option_eq; intros y.
  rewrite !map_lookup_filter_Some, lookup_delete_Some. set_solver.
Qed.

(** What the rest of the program is left with when the message [m] is dropped. *)
Definition left_behind (m : ptr) (args : list atom) (F : foreign) : foreign :=
  Foreign (f_addrs F) (<[m := Msg args 0]> (f_msgs F)) (f_bundles F) (f_blobs F) (f_servers F).

Lemma rest_left_behind v as_ m args ms bs : v_msgs v !! m = Some (Msg args 0) → m ∉ ms →
  let F := rest_of v as_ ({[m]} ∪ ms) bs in
  rest_of v as_ ms bs = left_behind m args F ∧ f_msgs F !! m = None.
Proof.
  intros Hm Hn. split.
  - unfold rest_of, left_behind. simpl. f_equal. apply map_eq. intros i. apply option_eq. intros y.
    rewrite map_lookup_filter_Some, lookup_insert_Some, map_lookup_filter_Some. simpl.
    destruct (decide (m = i)) as [<-|]; [rewrite Hm|]; set_solver.
  - simpl. apply map_lookup_filter_None. right. set_solver.
Qed.

(** The builder after a clear. *)
Definition cleared (a : builder) : builder :=
  with_stack [] (a_bip a) (with_msg None "" (a_mip a) a).

Lemma Rel_cleared F a s w w' :
  Rel F a (s, w) → v_addrs (view w') = v_addrs (view w) →
  v_sent (view w') = v_sent (view w) →
  Rel (rest_of (view w') (own (m_address s)) ∅ ∅) (cleared a)
    (mkSender (m_address s) None [] "" (m_messageInProgress s) (m_bundleInProgress s), w').
Proof.
  intros (hs & ms & bs & []) Ha Hs. simpl in *. exists [], ∅, ∅.
  split; simpl; try done; try congruence.
  - destruct (m_address s), (a_addr a); simpl in *; congruence.
  - constructor.
Qed.

(** The frees of [clear]: the bundles, or else the message. *)
Definition clear_frees : M state unit :=
  bs ← field m_bundles;
  m ← field m_message;
  if bool_decide (0 < length bs)%nat then
    b ← bundles_front;
    _ ← lo (lo_bundle_free_recursive b);
    assign (set_bundles [])
  else when (bool_decide (m ≠ None)) (lo (lo_message_free m)).

Lemma clear_eq st : clear st =
  (_ ← clear_frees; _ ← assign (set_pattern ""); assign (set_message None)) st.
Proof. unfold clear, clear_frees. by rewrite !bind_field, bind_assoc, bind_field, bind_assoc, bind_field. Qed.

Lemma run_clear_frees F a s w : Rel F a (s, w) →
  ∃ w', clear_frees (s, w) = (Ret tt, (set_bundles [] s, w')) ∧
    v_addrs (view w') = v_addrs (view w) ∧ v_sent (view w') = v_sent (view w) ∧
    (leaks C_clear a = false → rest_of (view w') (own (m_address s)) ∅ ∅ = F) ∧
    (leaks C_clear a = true → ∃ m args, m_message s = Some m ∧ a_cur a = Some args ∧
       f_msgs F !! m = None ∧ rest_of (view w') (own (m_address s)) ∅ ∅ = left_behind m args F).
Proof.
  intros (hs & ms & bs & []). simpl in *. unfold clear_frees. rewrite !bind_field. simpl.
  rewrite (handles_length _ _ rel_handles0). destruct hs as [|c hs]; simpl.
  - inversion rel_stack0; subst. destruct (m_message s) as [m|] eqn:Hm; simpl.
    + destruct (a_cur a) as [args|] eqn:Ecur; [|done]. simpl in *.
      destruct (law_message_free m args w rel_cur0) as ([] & w' & Hr & Hv).
      exists w'. rewrite (run_lo _ _ _ _ _ Hr), Hv. split_all.
      * destruct s. simpl in *. by rewrite rel_handles0.
      * intros _. by rewrite rest_delete, union_empty_r_L.
    + exists w. split_all. destruct s. simpl in *. by rewrite rel_handles0.
  - destruct (bstack_top _ _ _ _ _ _ rel_stack0) as (t & es & ps & fs & Heq & _).
    rewrite Heq in *.
    destruct (bstack_reads _ _ _ _ _ _ _ _ rel_stack0) as (b & Hl & Hrd).
    destruct (law_bundle_free_recursive _ _ _ _ _ Hrd) as ([] & w' & Hr & Hv).
    exists w'. rewrite (bind_step _ _ _ _ _ (run_front _ _ _ _ rel_handles0 Hl)).
    rewrite (bind_lo _ _ _ _ _ _ Hr), Hv. split_all.
    all: simpl; rewrite rest_filter.
    + intros Hcur%bool_decide_eq_false. destruct (a_cur a); [by destruct Hcur|].
      apply cur_rel_None in rel_cur0. rewrite <- rel_rest0, rel_cur0. simpl.
      by rewrite union_empty_l_L.
    + intros Hcur%bool_decide_eq_true. destruct (a_cur a) as [args|]; [|done].
      apply cur_rel_Some in rel_cur0 as (m & Hm & Hlive). rewrite Hm in *. simpl in *.
      destruct (rest_left_behind (view w) (own (m_address s)) m args ms bs Hlive) as [HF Hn];
        [set_solver|]. rewrite rel_rest0 in *. by exists m, args.
Qed.

Lemma run_clear F a st : Rel F a st →
  ∃ F' st', clear st = (Ret tt, st') ∧ Rel F' (cleared a) st' ∧
            (leaks C_clear a = false → F' = F) ∧
            (leaks C_clear a = true → ∃ m args, m_message st.1 = Some m ∧ a_cur a = Some args ∧
               f_msgs F !! m = None ∧ F' = left_behind m args F).
Proof.
  destruct st as [s w]. intros HR.
  destruct (run_clear_frees _ _ _ _ HR) as (w' & Hr & Ha & Hs & HF & HF').
  exists (rest_of (view w') (own (m_address s)) ∅ ∅). eexists. split_all.
  - rewrite clear_eq, (bind_step _ _ _ _ _ Hr), bind_assign. done.
  - by apply (Rel_cleared F a s w w').
Qed.

Lemma clear_grows F F' a (s : OscSender) : (leaks C_clear a = false → F' = F) →
  (leaks C_clear a = true → ∃ m args, m_message s = Some m ∧ a_cur a = Some args ∧
     f_msgs F !! m = None ∧ F' = left_behind m args F) → f_msgs F ⊆ f_msgs F'.
Proof.
  intros HF HF'. destruct (leaks C_clear a); [|by rewrite HF].
  destruct (HF' eq_refl) as (m & args & _ & _ & Hm & ->). by apply insert_subseteq.
Qed.

Lemma sim_clear F a st : Rel F a st → simulates F a st clear a_clear (leaks C_clear a).
Proof.
  intros HR o a' Ho _. unfold a_clear in Ho. run_spec Ho.
  destruct (run_clear F a st HR) as (F' & st' & ? & ? & HF & HF'). exists F', st'. split_all.
  by eapply clear_grows.
Qed.

(** A packet sent: the traffic grows, nothing else changes. *)
Lemma Rel_sent F a s w w' x p :
  Rel F a (s, w) → view w' = on_sent (λ l, l ++ [(x, p)]) (view w) →
  Rel F (with_sent (a_sent a ++ [(x, p)]) a) (s, w').
Proof.
  intros (hs & ms & bs & []) Hv. exists hs, ms, bs. simpl in *.
  split; simpl; rewrite ?Hv; simpl; try done.
  - eapply bstack_frame; [done|]. by split.
  - by rewrite rel_sent0.
Qed.

Lemma sim_send F a st : Rel F a st → simulates F a st send a_send (leaks C_send a).
Proof.
  intros HR o a' Ho _. destruct st as [s w]. pose proof HR as (hs & ms & bs & []).
  simpl in *. clear rel_rest0. unfold send. rewrite bind_field. simpl.
  rewrite rel_mip0, rel_bip0.
  assert (bool_decide (m_address s = None) = bool_decide (a_addr a = None)) as ->.
  { destruct (m_address s), (a_addr a); done. }
  unfold a_send in Ho. run_spec Ho.
  destruct (a_addr a) as [x|] eqn:Ea; simpl; run_spec Ho.
  2: by exists F, (s, w).
  destruct (a_bip a || a_mip a) eqn:Eb; run_spec Ho.
  { by exists F, (s, w). }
  apply addr_rel_Some in rel_addr0 as (q & Hq & Hx).
  rewrite (handles_length _ _ rel_handles0).
  assert (∀ lk p w', (lk = false → leaks C_send a = false) →
    view w' = on_sent (λ l, l ++ [(x, p)]) (view w) →
    a' = cleared (with_sent (a_sent a ++ [(x, p)]) a) → 
    ∃ F' st', clear (s, w') = (Ret tt, st') ∧ Rel F' a' st' ∧
              (lk = false → F' = F) ∧ f_msgs F ⊆ f_msgs F') as Hfin.
  { intros lk p w' Hlk Hv ->. edestruct run_clear as (F' & st' & ? & ? & HF & HF');
      [by apply Rel_sent with (w := w)|]. exists F', st'. split_all; [intros ?%Hlk; by apply HF|].
    by eapply clear_grows. }
  destruct (a_stack a) as [|[t ps] fs] eqn:Est.
  - inversion rel_stack0; subst. simpl.
    destruct (a_cur a) as [args|] eqn:Ecur; run_spec Ho.
    + unfold a_clear in Ho. run_spec Ho. apply cur_rel_Some in rel_cur0 as (m & Hm & Hv).
      destruct (law_send_message q x m args (c_str (m_addressPattern s)) w)
        as (rc & w' & Hr & Hv'); [done..|apply c_str_nul_free|].
      rewrite Hm. simpl. rewrite bind_assoc, Hq, (bind_lo _ _ _ _ _ _ Hr), bind_ret_l.
      eapply Hfin; [|done|by rewrite rel_path0]. intros _. simpl. by rewrite Est.
    + apply cur_rel_None in rel_cur0. rewrite rel_cur0. simpl. by exists F, (s, w).
  - destruct hs as [|c hs]; [by inversion rel_stack0|]. simpl.
    destruct (bstack_reads _ _ _ _ _ _ _ _ rel_stack0) as (b & Hl & Hrd).
    destruct (law_send_bundle q x b _ _ _ w Hx Hrd) as (rc & w' & Hr & Hv').
    run_spec Ho. unfold a_clear in Ho. run_spec Ho.
    rewrite bind_assoc, (bind_step _ _ _ _ _ (run_front _ _ _ _ rel_handles0 Hl)).
    rewrite bind_assoc, Hq, (bind_lo _ _ _ _ _ _ Hr), bind_ret_l.
    eapply Hfin; [|done|done]. simpl. by rewrite Est.
Qed.

(** *** Every command *)

Lemma sim_item F a st i : item_ok i → Rel F a st →
  simulates F a st (operator_in i) (a_item i) (leaks (C_item i) a).
Proof.
  intros Hi HR. destruct i; simpl in Hi.
  - by apply (sim_beginMessage F a st (addressPattern var)).
  - by apply sim_endMessage.
  - destruct var; [by apply (sim_add_atom F a st ATrue)|by apply (sim_add_atom F a st AFalse)].
  - by apply (sim_add_atom F a st (AChar var)).
  - by apply (sim_add_atom F a st ANil).
  - by apply (sim_add_atom F a st AInfinitum).
  - by apply (sim_add_atom F a st (AInt32 var)).
  - by apply (sim_add_atom F a st (AInt64 var)).
  - by apply (sim_add_atom F a st (AFloat var)).
  - by apply (sim_add_atom F a st (ADouble var)).
  - destruct Hi as [s ->].
    by apply (sim_add_atom F a st (AString (c_str s)) eq_refl (c_str_nul_free s)).
  - by apply (sim_add_atom F a st (AString (c_str var)) eq_refl (c_str_nul_free var)).
  - destruct Hi as (x & Hx & Hn). destruct var. simpl in Hx. subst.
    by apply (sim_add_atom F a st (ASymbol x)).
  - by apply (sim_add_atom F a st (AMidi (bytes var))).
  - by apply (sim_add_atom F a st (ATimetag (tag var))).
  - destruct var as [d n], Hi as (d' & Hd & Hb & Hn & Hl). simpl in *. subst.
    by apply sim_addBlob.
  - intros o a' Ho Hu. simpl in Ho. unfold a_beginBundle_at in Ho. run_spec Ho.
    unfold operator_in, beginBundle_at. rewrite bind_field.
    pose proof HR as (hs & ms & bs & HRa). rewrite (rel_mip _ _ _ _ _ _ HRa).
    destruct (a_mip a); [run_spec Ho; by exists F, st|]. by eapply sim_open.
  - by apply sim_endBundle.
Qed.

(** A member function and the stream do the same. *)
Lemma member_item_ok m : member_ok m → item_ok (member_item m).
Proof. destruct m; try done. intros (s & -> & _). by exists s. Qed.

Lemma member_exec_item st m : member_ok m → member_exec m st = operator_in (member_item m) st.
Proof.
  destruct m; try done. intros (s & -> & Hs). simpl.
  unfold liftO, mbind at 1, M_bind at 1. simpl. unfold addString_cstr, addString.
  by rewrite !(c_str_id s Hs).
Qed.

Lemma sim_command_grows F a st c : command_ok c → Rel F a st →
  simulates F a st (exec c) (a_command LO_TT_IMMEDIATE c) (leaks c a).
Proof.
  intros Hc HR. destruct c; simpl in *.
  - by apply sim_setup.
  - by apply sim_send.
  - by apply sim_clear.
  - intros o a' Ho Hu. unfold a_beginBundle in Ho. run_spec Ho.
    unfold beginBundle. rewrite bind_field.
    pose proof HR as (hs & ms & bs & HRa). rewrite (rel_bip _ _ _ _ _ _ HRa).
    destruct (a_bip a); [run_spec Ho; by exists F, st|]. by eapply sim_open.
  - by apply sim_item.
  - intros o a' Ho Hu. rewrite (member_exec_item st m Hc).
    destruct (sim_item F a st (member_item m) (member_item_ok m Hc) HR o a' Ho Hu)
      as (F' & st' & Hr & HR' & Hl & Hg).
    exists F', st'. split_all. intros Hk. apply Hl. by destruct m.
Qed.

Lemma sim_command F a st c : command_ok c → Rel F a st →
  ∀ o a', a_command LO_TT_IMMEDIATE c a = (o, a') → (∀ u, o ≠ Undef u) →
  ∃ F' st', exec c st = (o, st') ∧ Rel F' a' st' ∧ (leaks c a = false → F' = F).
Proof.
  intros Hc HR o a' Ho Hu. destruct (sim_command_grows F a st c Hc HR o a' Ho Hu)
    as (F' & st' & ? & ? & ? & _). by exists F', st'.
Qed.

(** Does a sequence of commands drop a message? *)
Fixpoint leaks_all (cs : list command) (a : builder) : bool :=
  match cs with
  | [] => false
  | c :: cs => leaks c a || leaks_all cs (a_command LO_TT_IMMEDIATE c a).2
  end.

Lemma sim_commands_grows F a st cs : Forall command_ok cs → Rel F a st →
  simulates F a st (exec_all cs) (a_commands LO_TT_IMMEDIATE cs) (leaks_all cs a).
Proof.
  intros Hcs. revert F a st. induction Hcs as [|c cs Hc _ IH]; intros F a st HR o a' Ho Hu.
  - simpl in Ho. run_spec Ho. by exists F, st.
  - simpl in Ho. unfold mbind, M_bind in Ho.
    destruct (a_command LO_TT_IMMEDIATE c a) as [o1 a1] eqn:E1.
    assert (∀ u, o1 ≠ Undef u) as Hu1 by (intros u ->; simplify_eq; by eapply Hu).
    destruct (sim_command_grows F a st c Hc HR o1 a1 E1 Hu1) as (F1 & st1 & Hr & HR1 & HF1 & Hg1).
    simpl. rewrite E1. simpl. destruct o1 as [[]|e|u]; simplify_eq.
    + destruct (IH F1 a1 st1 HR1 o a' Ho Hu) as (F' & st' & Hr' & HR' & HF' & Hg').
      exists F', st'. split_all; [by rewrite (bind_step _ _ _ _ _ Hr)| |by etrans].
      intros [Hl1 Hl2]%orb_false_elim. rewrite HF', HF1; auto.
    + exists F1, st1. split_all; [by rewrite (bind_throw _ _ _ _ _ Hr)|].
      intros [Hl1 _]%orb_false_elim. auto.
    + by destruct (Hu1 u).
Qed.

Lemma sim_commands F a st cs : Forall command_ok cs → Rel F a st →
  ∀ o a', a_commands LO_TT_IMMEDIATE cs a = (o, a') → (∀ u, o ≠ Undef u) →
  ∃ F' st', exec_all cs st = (o, st') ∧ Rel F' a' st' ∧ (leaks_all cs a = false → F' = F).
Proof.
  intros Hcs HR o a' Ho Hu. destruct (sim_commands_grows F a st cs Hcs HR o a' Ho Hu)
    as (F' & st' & ? & ? & ? & _). by exists F', st'.
Qed.

(** A new sender. *)
Lemma Rel_init w :
  Rel (rest_of (view w) ∅ ∅ ∅) (idle None (v_sent (view w))) (OscSender_init, w).
Proof. exists [], ∅, ∅. split; simpl; try done. constructor. Qed.

Lemma Rel_idle F addr l st : Rel F (idle addr l) st →
  m_message st.1 = None ∧ m_bundles st.1 = [] ∧ rest_of (view st.2) (own (m_address st.1)) ∅ ∅ = F ∧
  v_sent (view st.2) = l.
Proof.
  intros (hs & ms & bs & []). simpl in *. apply cur_rel_None in rel_cur0.
  inversion rel_stack0; subst. split_all. rewrite rel_cur0. simpl.
  by rewrite union_empty_l_L.
Qed.
End refinement.
