(* ===== verification/SenderProps.v ===== *)
(** * Properties of the sender

    Theorems about [OscSender] over any liblo that satisfies the laws: the
    refinement of the builder, the packets that reach the network, the absence
    of undefined behaviour, the guards of every operation, and what goes wrong
    outside them. *)
From S2P Require Import Prelude Exceptions Effects Machine Floats Liblo LibloModel OscTypes OscSender SenderSpec SenderRefine.
Open Scope Z_scope.

(** ** Rendered packets on the builder *)

(** Induction over the nesting of packets. *)
Lemma packet_nested_ind (P : packet → Prop) :
  (∀ path args, P (PMessage path args)) →
  (∀ t ps, Forall P ps → P (PBundle t ps)) → ∀ p, P p.
Proof.
  intros Hm Hb. fix IH 1. intros [path args|t ps]; [apply Hm|apply Hb].
  induction ps as [|p ps IHps]; constructor; [apply IH|apply IHps].
Qed.

Lemma packet_ok_bundle t ps : packet_ok (PBundle t ps) ↔ Forall packet_ok ps.
Proof. simpl. induction ps; simpl; [done|]. rewrite Forall_cons. naive_solver. Qed.

Section builder.
Context {L : Liblo}.
Implicit Types a : builder.

(** A run of commands that returns and drops no message. *)
Definition clean_run (cs : list command) (a a' : builder) : Prop :=
  a_commands LO_TT_IMMEDIATE cs a = (Ret tt, a') ∧ leaks_all cs a = false.

Lemma clean_run_nil a : clean_run [] a a.
Proof. done. Qed.

Lemma clean_run_cons c cs a a1 a2 :
  a_command LO_TT_IMMEDIATE c a = (Ret tt, a1) → leaks c a = false →
  clean_run cs a1 a2 → clean_run (c :: cs) a a2.
Proof.
  intros Hc Hl [Hr Hls]. split; simpl.
  - by rewrite (bind_step _ _ _ _ _ Hc).
  - by rewrite Hl, Hc.
Qed.

Lemma clean_run_app cs cs' a a1 a2 :
  clean_run cs a a1 → clean_run cs' a1 a2 → clean_run (cs ++ cs') a a2.
Proof.
  intros [Hr Hl] H2. revert a Hr Hl. induction cs as [|c cs IH]; intros a Hr Hl.
  - by injection Hr as <-.
  - simpl in Hl. apply orb_false_elim in Hl as [Hl1 Hl2].
    apply bind_Ret_inv in Hr as ([] & a0 & Hc & Hr).
    apply clean_run_cons with a0; [done..|]. apply IH; [done|].
    by rewrite Hc in Hl2.
Qed.

Lemma item_atom_item x : atom_ok x →
  ∀ a, a_item (atom_item x) a = a_add x a.
Proof.
  intros Hx a. destruct x; simpl in *; try done.
  - by rewrite c_str_id.
  - unfold Blob_of. by rewrite Nat2Z.id, firstn_all.
Qed.

Lemma atom_item_ok x : atom_ok x → item_ok (atom_item x).
Proof.
  destruct x; simpl; try done.
  - intros _. apply c_str_nul_free.
  - by eexists.
  - intros [Hb Hn]. eexists. split_all; lia.
Qed.

Lemma run_args args addr pre path st bip sent : Forall atom_ok args →
  clean_run (map C_item (map atom_item args))
    (mkBuilder addr (Some pre) path true st bip sent)
    (mkBuilder addr (Some (pre ++ args)) path true st bip sent).
Proof.
  intros H. revert pre. induction H as [|x args Hx _ IH]; intros pre.
  - rewrite app_nil_r. apply clean_run_nil.
  - eapply clean_run_cons; [simpl; by rewrite item_atom_item|by destruct x|].
    specialize (IH (pre ++ [x])). by rewrite <- app_assoc in IH.
Qed.

(** A message up to its end. *)
Lemma run_message path args addr st bip sent : Forall atom_ok args →
  clean_run (C_item (I_BeginMessage (mkBeginMessage path)) :: map C_item (map atom_item args))
    (mkBuilder addr None "" false st bip sent)
    (mkBuilder addr (Some args) path true st bip sent).
Proof. intros H. eapply clean_run_cons; [done..|]. by apply (run_args args addr []). Qed.

(** Inside a bundle, a rendered packet becomes its next element. *)
Definition nests (p : packet) : Prop := ∀ addr t ps fs sent,
  clean_run (map C_item (render p))
    (mkBuilder addr None "" false ((t, ps) :: fs) true sent)
    (mkBuilder addr None "" false ((t, ps ++ [p]) :: fs) true sent).

Lemma run_render_list ps : Forall nests ps → ∀ addr t ps0 fs sent,
  clean_run (map C_item (concat (map render ps)))
    (mkBuilder addr None "" false ((t, ps0) :: fs) true sent)
    (mkBuilder addr None "" false ((t, ps0 ++ ps) :: fs) true sent).
Proof.
  induction 1 as [|p ps Hp _ IH]; intros addr t ps0 fs sent.
  - rewrite app_nil_r. apply clean_run_nil.
  - simpl. rewrite map_app. eapply clean_run_app; [apply Hp|].
    specialize (IH addr t (ps0 ++ [p]) fs sent). by rewrite <- app_assoc in IH.
Qed.

Lemma run_render_nested p : packet_ok p → nests p.
Proof.
  induction p as [path args|t ps IH] using packet_nested_ind; intros Hok addr t' ps' fs sent.
  - destruct Hok as [Hpath Hargs]. simpl. rewrite map_app.
    apply (clean_run_app (_ :: _)) with (1 := run_message path args _ _ _ _ Hargs).
    eapply clean_run_cons; [|done|apply clean_run_nil]. 
    by replace (PMessage path args) with (PMessage (c_str path) args) by by rewrite c_str_id.
  - rewrite packet_ok_bundle in Hok. simpl. rewrite map_app.
    eapply clean_run_cons; [done..|]. simpl.
    eapply clean_run_app; [apply (run_render_list ps)|by eapply clean_run_cons].
    rewrite Forall_forall in *. auto.
Qed.

Lemma nests_all ps : Forall packet_ok ps → Forall nests ps.
Proof. intros H. eapply Forall_impl; [done|]. apply run_render_nested. Qed.

(** Between packets, a rendered bundle waits to be sent. *)
Lemma run_render_bundle t ps addr sent : Forall packet_ok ps →
  clean_run (map C_item (render (PBundle t ps))) (idle addr sent)
    (mkBuilder addr None "" false [(t, ps)] false sent).
Proof.
  intros Hok. simpl. rewrite map_app. eapply clean_run_cons; [done..|]. simpl.
  eapply clean_run_app; [apply (run_render_list ps); by apply nests_all|]. by eapply clean_run_cons.
Qed.

(** Between packets, a rendered packet followed by [send] goes out. *)
Lemma run_render_send p x sent : packet_ok p →
  clean_run (map C_item (render p) ++ [C_send]) (idle (Some x) sent)
    (idle (Some x) (sent ++ [(x, p)])).
Proof.
  destruct p as [path args|t ps]; intros Hok.
  - destruct Hok as [Hpath Hargs]. simpl. rewrite map_app, <- app_assoc.
    apply (clean_run_app (_ :: _)) with (1 := run_message path args _ _ _ _ Hargs).
    eapply clean_run_cons; [done..|]. eapply clean_run_cons; [|done|apply clean_run_nil].
    by replace (PMessage path args) with (PMessage (c_str path) args) by by rewrite c_str_id.
  - rewrite packet_ok_bundle in Hok. eapply clean_run_app; [by apply run_render_bundle|].
    by eapply clean_run_cons.
Qed.

(** The commands that send a list of packets. *)
Definition send_all (ps : list packet) : list command :=
  concat (map (λ p, map C_item (render p) ++ [C_send]) ps).

Lemma run_send_all ps x sent : Forall packet_ok ps →
  clean_run (send_all ps) (idle (Some x) sent) (idle (Some x) (sent ++ map (pair x) ps)).
Proof.
  intros H. revert sent. induction H as [|p ps Hp _ IH]; intros sent.
  - rewrite app_nil_r. apply clean_run_nil.
  - simpl. eapply clean_run_app; [by apply run_render_send|].
    specialize (IH (sent ++ [(x, p)])). by rewrite <- app_assoc in IH.
Qed.

Lemma render_ok p : packet_ok p → Forall item_ok (render p).
Proof.
  induction p as [path args|t ps IH] using packet_nested_ind; intros Hok; simpl.
  - destruct Hok as [_ Hargs]. constructor; [done|]. apply Forall_app. split; [|by repeat constructor].
    apply Forall_map. eapply Forall_impl; [done|]. apply atom_item_ok.
  - rewrite packet_ok_bundle in Hok. constructor; [done|]. apply Forall_app.
    split; [|by repeat constructor]. apply Forall_concat, Forall_map.
    rewrite Forall_forall in *. auto.
Qed.

Lemma send_all_ok ps : Forall packet_ok ps → Forall command_ok (send_all ps).
Proof.
  induction 1 as [|p ps Hp _ IH]; [constructor|]. unfold send_all. simpl.
  repeat (apply Forall_app; split); [|by repeat constructor|done].
  apply Forall_map. by apply render_ok.
Qed.
End builder.

(** Equality of what liblo holds. *)
Lemma rest_of_all {L : Liblo} v v' as_ as' : rest_of v as_ ∅ ∅ = rest_of v' as' ∅ ∅ →
  v_msgs v = v_msgs v' ∧ v_bundles v = v_bundles v' ∧ v_blobs v = v_blobs v' ∧
  v_servers v = v_servers v' ∧
  filter (λ x, x.1 ∉ as_) (v_addrs v) = filter (λ x, x.1 ∉ as') (v_addrs v').
Proof.
  intros H. injection H as H0 H1 H2 H3 H4. split_all.
  - rewrite map_filter_id in H1 by set_solver. by rewrite map_filter_id in H1 by set_solver.
  - rewrite map_filter_id in H2 by set_solver. by rewrite map_filter_id in H2 by set_solver.
Qed.

(** ** Sending packets *)

(** A new sender set up and given packets ends between packets, having sent them,
    with the rest of liblo as it was. *)
Lemma run_setup_send_all {L : Liblo} {LL : LibloLaws L} w h port ps :
  is_u32 port → Forall packet_ok ps →
  ∃ st', exec_all (C_setup h port :: send_all ps) (OscSender_init, w) = (Ret tt, st') ∧
    Rel (rest_of (view w) ∅ ∅ ∅)
      (idle (Some (c_str h, dec port)) (v_sent (view w) ++ map (pair (c_str h, dec port)) ps)) st'.
Proof.
  intros Hp Hps. destruct (run_send_all ps (c_str h, dec port) (v_sent (view w)) Hps) as [Hr Hl].
  assert (Forall command_ok (C_setup h port :: send_all ps)) as Hok
    by (constructor; [done|by apply send_all_ok]).
  destruct (sim_commands _ _ _ _ Hok (Rel_init w) (Ret tt) (idle (Some (c_str h, dec port))
    (v_sent (view w) ++ map (pair (c_str h, dec port)) ps))) as (F' & st' & Hx & HR & HF);
    [done|done|].
  exists st'. split; [done|]. by rewrite <- HF.
Qed.

(** ** Reachable senders *)

Section reach.
Context {L : Liblo} {LL : LibloLaws L}.

(** The flags agree with what is under construction. *)
Definition safe (a : builder) : Prop :=
  (a_mip a = true → a_cur a ≠ None) ∧ (a_bip a = true → a_stack a ≠ []).

(** [clear] is called between messages and bundles only. *)
Definition disciplined (c : command) (s : OscSender) : Prop :=
  c = C_clear → m_messageInProgress s = false ∧ m_bundleInProgress s = false.

(** The states of a sender driven through its public interface, the caller
    catching the exceptions. *)
Inductive sender_reach : state → Prop :=
  | sender_reach_init w : sender_reach (OscSender_init, w)
  | sender_reach_step st c o st' :
      sender_reach st → command_ok c → disciplined c st.1 →
      exec c st = (o, st') → sender_reach st'.

(** Close the cases of a definedness proof. *)
Ltac settle := simpl; repeat match goal with
  | |- _ ∧ _ => split
  | |- _ → _ => intros ?
  | |- ∀ _, _ => intros ?
  end; first [done | congruence | by auto].

Lemma item_defined i a o a' : item_ok i → safe a → a_item i a = (o, a') →
  (∀ u, o ≠ Undef u) ∧ safe a'.
Proof.
  unfold safe. intros Hi [Hm Hb] Ho.
  assert (∀ x, a_add x a = (o, a') → (∀ u, o ≠ Undef u) ∧ safe a') as Hadd.
  { intros x Hx. unfold a_add in Hx. unfold safe. cbv [mbind M_bind get modify throw undef] in Hx.
    destruct (a_mip a) eqn:Emip, (a_cur a) eqn:Ecur; simplify_eq/=;
      first [by destruct Hm|rewrite ?Emip, ?Ecur; settle]. }
  destruct i; simpl in Ho, Hi; try by apply (Hadd _ Ho).
  - cbv [a_beginMessage mbind M_bind get modify throw] in Ho.
    destruct (a_mip a) eqn:Emip; simplify_eq/=; rewrite ?Emip; settle.
  - cbv [a_endMessage mbind M_bind get modify throw undef] in Ho. simpl in Ho.
    destruct (a_mip a) eqn:Emip; simpl in Ho; [|simplify_eq; rewrite Emip; settle].
    destruct (a_bip a) eqn:Ebip; [|simplify_eq/=; rewrite Ebip; settle].
    destruct (a_stack a) as [|[??]?]; [by destruct Hb|].
    destruct (a_cur a); [|by destruct Hm]. simplify_eq/=. settle.
  - destruct Hi as [s ->]. by apply (Hadd _ Ho).
  - destruct Hi as (x & Hx & _). destruct var. simpl in Hx. subst. by apply (Hadd _ Ho).
  - destruct Hi as (d & Hd & _). destruct var. simpl in Hd. subst. by apply (Hadd _ Ho).
  - cbv [a_beginBundle_at a_open mbind M_bind get modify throw] in Ho.
    destruct (a_mip a) eqn:Emip; simplify_eq/=; rewrite ?Emip; settle.
  - cbv [a_endBundle mbind M_bind get modify throw] in Ho. simpl in Ho.
    destruct (a_bip a) eqn:Ebip; simpl in Ho; [|simplify_eq; rewrite Ebip; settle].
    destruct (a_stack a) as [|[??] [|[??]?]]; simplify_eq/=; settle.
Qed.

Lemma command_defined c a o a' imm : command_ok c → safe a →
  (c = C_clear → a_mip a = false ∧ a_bip a = false) →
  a_command imm c a = (o, a') → (∀ u, o ≠ Undef u) ∧ safe a'.
Proof.
  unfold safe. intros Hc [Hm Hb] Hd Ho. destruct c; simpl in Ho.
  - cbv [a_setup modify] in Ho. simplify_eq/=. settle.
  - cbv [a_send a_clear mbind M_bind get modify throw] in Ho. simpl in Ho.
    destruct (a_addr a); [|simplify_eq; settle].
    destruct (a_bip a) eqn:Ebip, (a_mip a) eqn:Emip; simpl in Ho;
      try (simplify_eq; rewrite ?Ebip, ?Emip; settle).
    destruct (a_stack a) as [|[??]?]; [destruct (a_cur a)|]; simplify_eq/=;
      rewrite ?Ebip, ?Emip; settle.
  - destruct (Hd eq_refl) as [Em Eb]. cbv [a_clear modify] in Ho. simplify_eq/=.
    rewrite Em, Eb. settle.
  - cbv [a_beginBundle a_open mbind M_bind get modify throw] in Ho.
    destruct (a_bip a) eqn:Ebip; simplify_eq/=; rewrite ?Ebip; settle.
  - by eapply item_defined.
  - by eapply item_defined; [apply member_item_ok| |].
Qed.

Lemma reach_step_Rel F a st c o st' :
  Rel F a st → safe a → command_ok c → disciplined c st.1 → exec c st = (o, st') →
  (∀ u, o ≠ Undef u) ∧
  ∃ F' a', a_command LO_TT_IMMEDIATE c a = (o, a') ∧ Rel F' a' st' ∧ safe a'.
Proof.
  intros HR Hs Hc Hd Hr. destruct (a_command LO_TT_IMMEDIATE c a) as [o1 a1] eqn:E.
  pose proof HR as (hs & ms & bs & []).
  destruct (command_defined c a o1 a1 LO_TT_IMMEDIATE Hc Hs) as [Hu Hs1]; [|done|].
  { intros Hcl. destruct (Hd Hcl). simpl in *. split; congruence. }
  destruct (sim_command F a st c Hc HR o1 a1 E Hu) as (F' & st1 & Hr' & HR' & _).
  rewrite Hr in Hr'. simplify_eq. split_all. by exists F', a1.
Qed.

Lemma reach_Rel st : sender_reach st → ∃ F a, Rel F a st ∧ safe a.
Proof.
  induction 1 as [w|st c o st' _ (F & a & HR & Hs) Hc Hd Hr].
  - eexists _, _. split; [apply Rel_init|by split].
  - destruct (reach_step_Rel _ _ _ _ _ _ HR Hs Hc Hd Hr) as (_ & F' & a' & _ & ? & ?). eauto.
Qed.

(** ** Without discipline

    [clear] keeps the progress flags, so a call may find its flag set and the
    message, or the bundles, gone: the calls that use them then. *)
Definition item_lost (i : item) (s : OscSender) : bool :=
  match i with
  | I_BeginMessage _ | I_BeginBundle _ | I_EndBundle _ => false
  | I_EndMessage _ => m_messageInProgress s && m_bundleInProgress s &&
                      (bool_decide (m_bundles s = []) || bool_decide (m_message s = None))
  | _ => m_messageInProgress s && bool_decide (m_message s = None)
  end.
Definition lost (c : command) (s : OscSender) : bool :=
  match c with
  | C_item i => item_lost i s
  | C_member m => item_lost (member_item m) s
  | _ => false
  end.

(** A valid call but those, the caller catching the exceptions; and the states of
    a sender driven by such calls. *)
Definition any_call (st st' : state) : Prop :=
  ∃ c o, command_ok c ∧ lost c st.1 = false ∧ exec c st = (o, st').
Definition sender_any (st : state) : Prop := ∃ w, rtc any_call (OscSender_init, w) st.

Lemma Rel_lost F a st :  Rel F a st →
  bool_decide (m_message st.1 = None) = bool_decide (a_cur a = None) ∧
  bool_decide (m_bundles st.1 = []) = bool_decide (a_stack a = []).
Proof.
  intros (hs & ms & bs & [_ Hc Hh Hst _ _ _ _ _ _]). split.
  - by destruct (m_message st.1), (a_cur a).
  - apply bstack_length in Hst. rewrite Hh. destruct hs, (a_stack a); try done.
    rewrite fmap_cons, reverse_cons. rewrite !bool_decide_false; [done..|]. by intros [??]%app_nil.
Qed.

Lemma item_undef F a st i u a' : Rel F a st → item_ok i → a_item i a = (Undef u, a') →
  item_lost i st.1 = true.
Proof.
  intros HR Hi Ho. destruct (Rel_lost F a st HR) as [Hcur Hst].
  destruct HR as (hs & ms & bs & [_ _ _ _ _ _ _ Hm Hb _]).
  assert (∀ x, a_add x a = (Undef u, a') →
    m_messageInProgress st.1 && bool_decide (m_message st.1 = None) = true) as Hadd.
  { intros x Hx. rewrite Hm, Hcur. unfold a_add in Hx. cbv [mbind M_bind get modify throw undef] in Hx.
    by destruct (a_mip a), (a_cur a). }
  destruct i; simpl in Ho, Hi; try by apply (Hadd _ Ho).
  - cbv [a_beginMessage mbind M_bind get modify throw] in Ho. by destruct (a_mip a).
  - simpl. rewrite Hm, Hb, Hcur, Hst. cbv [a_endMessage mbind M_bind get modify throw undef] in Ho.
    simpl in Ho. by destruct (a_mip a), (a_bip a), (a_stack a) as [|[??]?], (a_cur a).
  - destruct Hi as [s ->]. by apply (Hadd _ Ho).
  - destruct Hi as (x & Hx & _). destruct var. simpl in Hx. subst. by apply (Hadd _ Ho).
  - destruct Hi as (d & Hd & _). destruct var. simpl in Hd. subst. by apply (Hadd _ Ho).
  - cbv [a_beginBundle_at a_open mbind M_bind get modify throw] in Ho. by destruct (a_mip a).
  - cbv [a_endBundle mbind M_bind get modify throw] in Ho. simpl in Ho.
    by destruct (a_bip a), (a_stack a) as [|[??] [|[??]?]].
Qed.

Lemma command_undef F a st c u a' : Rel F a st → command_ok c →
  a_command LO_TT_IMMEDIATE c a = (Undef u, a') → lost c st.1 = true.
Proof.
  intros HR Hc Ho. destruct c; simpl in Ho.
  - done.
  - cbv [a_send a_clear mbind M_bind get modify throw] in Ho. simpl in Ho.
    destruct (a_addr a); [|done]. destruct (a_bip a || a_mip a); [done|].
    by destruct (a_stack a) as [|[??]?]; [destruct (a_cur a)|].
  - done.
  - cbv [a_beginBundle a_open mbind M_bind get modify throw] in Ho. by destruct (a_bip a).
  - by eapply item_undef.
  - eapply item_undef; [done|by apply member_item_ok|done].
Qed.

Lemma any_step_Rel F a st c o st' :
  Rel F a st → command_ok c → lost c st.1 = false → exec c st = (o, st') →
  (∀ u, o ≠ Undef u) ∧ ∃ F' a', Rel F' a' st' ∧ f_msgs F ⊆ f_msgs F'.
Proof.
  intros HR Hc Hl Hr. destruct (a_command LO_TT_IMMEDIATE c a) as [o1 a1] eqn:E.
  assert (∀ u, o1 ≠ Undef u) as Hu.
  { intros u ->. apply (command_undef F a st c u a1 HR Hc) in E. congruence. }
  destruct (sim_command_grows F a st c Hc HR o1 a1 E Hu) as (F' & st1 & Hr' & HR' & _ & Hg).
  rewrite Hr in Hr'. simplify_eq. split_all. by exists F', a1.
Qed.

(** However it is driven, what belongs to others stays. *)
Lemma any_Rel_grows F a st st' : Rel F a st → rtc any_call st st' →
  ∃ F' a', Rel F' a' st' ∧ f_msgs F ⊆ f_msgs F'.
Proof.
  intros HR H. revert F a HR. induction H as [st|st st1 st' (c & o & Hc & Hl & Hr) _ IH]; intros F a HR.
  - by exists F, a.
  - destruct (any_step_Rel _ _ _ _ _ _ HR Hc Hl Hr) as (_ & F1 & a1 & HR1 & Hg1).
    destruct (IH _ _ HR1) as (F' & a' & ? & ?). exists F', a'. split; [done|by etrans].
Qed.

Lemma any_Rel st : sender_any st → ∃ F a, Rel F a st.
Proof.
  intros (w & H). destruct (any_Rel_grows _ _ _ _ (Rel_init w) H) as (F & a & ? & _). by exists F, a.
Qed.

(** With discipline nothing is lost. *)
Lemma safe_not_lost F a st c : Rel F a st → safe a → lost c st.1 = false.
Proof.
  intros HR [Hm Hb]. destruct (Rel_lost F a st HR) as [Hcur Hst].
  destruct HR as (hs & ms & bs & [_ _ _ _ _ _ _ Hmip Hbip _]).
  assert (a_mip a && bool_decide (a_cur a = None) = false) as Hadd.
  { destruct (a_mip a); [|done]. simpl. apply bool_decide_false. auto. }
  assert (∀ i, item_lost i st.1 = false) as Hi.
  { intros []; unfold item_lost; rewrite ?Hmip, ?Hbip, ?Hcur, ?Hst; try done.
    destruct (a_mip a), (a_bip a); simpl in *; try done. rewrite Hadd, orb_false_r.
    apply bool_decide_false. auto. }
  destruct c; simpl; auto.
Qed.

Lemma reach_any st : sender_reach st → sender_any st.
Proof.
  induction 1 as [w|st c o st' Hst IH Hc Hd Hr]; [by exists w|].
  destruct IH as [w IH]. exists w. eapply rtc_r; [done|]. exists c, o. split_all.
  destruct (reach_Rel st Hst) as (F & a & HR & Hs). by eapply safe_not_lost.
Qed.

(** ** Guards *)

(** The exception an operation starts with. *)
Definition adder_guard (s : OscSender) : option exn :=
  if m_messageInProgress s then None else Some messageNotInProgress.

Definition item_guard (i : item) (s : OscSender) : option exn :=
  match i with
  | I_BeginMessage _ | I_BeginBundle _ =>
      if m_messageInProgress s then Some messageInProgress else None
  | I_EndBundle _ => if m_bundleInProgress s then None else Some bundleNotInProgress
  | I_cstr (CStr _) => adder_guard s
  | I_cstr _ => None
  | _ => adder_guard s
  end.

Definition guard (c : command) (s : OscSender) : option exn :=
  match c with
  | C_setup _ _ | C_clear => None
  | C_send =>
      if bool_decide (m_address s = None) || m_bundleInProgress s || m_messageInProgress s
         || (bool_decide (m_bundles s = []) && bool_decide (m_message s = None))
      then Some sendException else None
  | C_beginBundle => if m_bundleInProgress s then Some messageInProgress else None
  | C_item i => item_guard i s
  | C_member (K_addString_cstr _) => adder_guard s
  | C_member m => item_guard (member_item m) s
  end.

Lemma adder_throw f s w e : adder_guard s = Some e → adder f (s, w) = (Throw e, (s, w)).
Proof.
  unfold adder_guard, adder. rewrite bind_field. simpl.
  destruct (m_messageInProgress s); intros ?; by simplify_eq.
Qed.

Lemma item_guard_throw i s w e : item_guard i s = Some e →
  operator_in i (s, w) = (Throw e, (s, w)).
Proof.
  pose proof (λ f, adder_throw f s w e) as Hadd. unfold adder_guard in *.
  destruct i as [| |[]| | | | | | | |[]| | | | | | |]; simpl; try done; try apply Hadd.
  all: unfold adder_guard, beginMessage, endMessage, addBlob, beginBundle_at, endBundle.
  all: rewrite bind_field; simpl.
  all: destruct (m_messageInProgress s), (m_bundleInProgress s); intros ?; by simplify_eq.
Qed.

Lemma guard_throw c s w e : guard c s = Some e → exec c (s, w) = (Throw e, (s, w)).
Proof.
  destruct c as [| | | |i|m]; simpl; try done.
  - unfold send. rewrite bind_field. simpl.
    destruct (bool_decide (m_address s = None) || m_bundleInProgress s || m_messageInProgress s);
      simpl; [intros ?; by simplify_eq|].
    destruct (m_bundles s); simpl; [|done].
    destruct (m_message s); simpl; intros ?; by simplify_eq.
  - unfold beginBundle. rewrite bind_field. simpl.
    destruct (m_bundleInProgress s); intros ?; by simplify_eq.
  - apply item_guard_throw.
  - intros Hg. destruct m; try by apply (item_guard_throw (member_item _) s w e Hg).
    by apply (adder_throw (λ m, lo_message_add_string m var)).
Qed.

Lemma item_guard_complete F a i s w e a' :
  Rel F a (s, w) → item_ok i → a_item i a = (Throw e, a') → item_guard i s = Some e.
Proof.
  intros (hs & ms & bs & [_ _ _ _ _ _ _ Hmip Hbip _]) Hc Ho. simpl in *.
  unfold item_guard, adder_guard. rewrite Hmip, Hbip.
  assert (∀ x, a_add x a = (Throw e, a') →
    (if a_mip a then None else Some messageNotInProgress) = Some e) as Hadd.
  { intros x Hx. cbv [a_add mbind M_bind get modify throw undef] in Hx. simpl in Hx.
    destruct (a_mip a); simpl in Hx; [by destruct (a_cur a)|by simplify_eq]. }
  destruct i; simpl in Ho, Hc; try by apply (Hadd _ Ho).
  - cbv [a_beginMessage mbind M_bind get modify throw] in Ho.
    destruct (a_mip a); by simplify_eq.
  - cbv [a_endMessage mbind M_bind get modify throw undef] in Ho. simpl in Ho.
    destruct (a_mip a); simpl in Ho; [|by simplify_eq].
    destruct (a_bip a), (a_stack a) as [|[??]?], (a_cur a); by simplify_eq.
  - destruct Hc as [x ->]. by apply (Hadd _ Ho).
  - destruct Hc as (x & Hx & _). destruct var. simpl in Hx. subst. by apply (Hadd _ Ho).
  - destruct Hc as (d & Hd & _). destruct var. simpl in Hd. subst. by apply (Hadd _ Ho).
  - cbv [a_beginBundle_at a_open mbind M_bind get modify throw] in Ho.
    destruct (a_mip a); by simplify_eq.
  - cbv [a_endBundle mbind M_bind get modify throw] in Ho. simpl in Ho.
    destruct (a_bip a); simpl in Ho; [|by simplify_eq].
    destruct (a_stack a) as [|[??] [|[??]?]]; by simplify_eq.
Qed.

Lemma guard_complete F a c s w e a' :
  Rel F a (s, w) → command_ok c → a_command LO_TT_IMMEDIATE c a = (Throw e, a') →
  guard c s = Some e.
Proof.
  intros HR Hc Ho. pose proof HR as (hs & ms & bs & [Hadr Hcur Hhs Hst _ _ _ Hmip Hbip _]).
  simpl in *. unfold guard.
  destruct c as [| | | |i|m]; simpl in Ho; try done; rewrite ?Hmip, ?Hbip.
  - assert (bool_decide (m_address s = None) = bool_decide (a_addr a = None)) as ->
      by (by destruct (m_address s), (a_addr a)).
    cbv [a_send a_clear mbind M_bind get modify throw] in Ho. simpl in Ho.
    destruct (a_addr a); simpl; [|by simplify_eq].
    destruct (a_bip a || a_mip a); simpl; [by simplify_eq|].
    destruct (a_stack a) as [|[??]?]; [|done]. destruct (a_cur a); [done|].
    inversion Hst; subst. apply cur_rel_None in Hcur.
    rewrite Hhs, Hcur. simpl. by simplify_eq.
  - cbv [a_beginBundle a_open mbind M_bind get modify throw] in Ho.
    destruct (a_bip a); by simplify_eq.
  - by eapply item_guard_complete.
  - apply (item_guard_complete F a (member_item m) s w e a' HR) in Ho; [|by apply member_item_ok].
    destruct m; try done. by destruct Hc as (x & -> & _).
Qed.

(** ** What the open bundles hold *)

(** The message [m] is in the bundle [b], or in one nested in it. *)
Inductive holds_message (v : lview) : ptr → ptr → Prop :=
  | holds_element b t es path m :
      v_bundles v !! b = Some (t, es) → EMessage path m ∈ es → holds_message v b m
  | holds_nested b t es c m :
      v_bundles v !! b = Some (t, es) → EBundle c ∈ es → holds_message v c m → holds_message v b m.

Lemma reads_list_member v es ps ms bs e : reads_list v es ps ms bs → e ∈ es →
  ∃ p ms' bs', reads v e p ms' bs' ∧ ms' ⊆ ms ∧ bs' ⊆ bs.
Proof.
  induction 1 as [|e0 es p0 ps ms1 bs1 ms2 bs2 He _ IH _ _]; [set_solver|].
  intros [->|Hin]%elem_of_cons; [exists p0, ms1, bs1; split_all; set_solver|].
  destruct (IH Hin) as (p & ms' & bs' & ? & ? & ?). exists p, ms', bs'. split_all; set_solver.
Qed.

(** Everything in a bundle that is read is owned by the reading. *)
Lemma reads_holds v :
  (∀ e p ms bs, reads v e p ms bs → ∀ b m, b ∈ bs → holds_message v b m → m ∈ ms) ∧
  (∀ es ps ms bs, reads_list v es ps ms bs → ∀ b m, b ∈ bs → holds_message v b m → m ∈ ms).
Proof.
  apply reads_mutind; [set_solver| |set_solver|].
  2: { intros e es p ps ms1 bs1 ms2 bs2 _ IH1 _ IH2 _ _ b m [?|?]%elem_of_union ?; set_solver. }
  intros b t es ps ms bs Hb Hes IH Hn b' m [->%elem_of_singleton|Hin]%elem_of_union Hh; [|by eauto].
  inversion Hh as [? ? ? path ? Hb' He|? ? ? c ? Hb' He Hh']; subst; rewrite Hb in Hb';
    injection Hb' as <- <-; destruct (reads_list_member _ _ _ _ _ _ Hes He) as (p & ms' & bs' & Hr & ? & ?);
    inversion Hr; subst; set_solver.
Qed.

Lemma below_handles v c hs fs ms bs b : below v c hs fs ms bs → b ∈ hs → b ∈ bs.
Proof. induction 1; set_solver. Qed.

(** The handles of a sender lead only to the messages of its stack. *)
Lemma stack_holds v hs fs ms bs b m : bstack v hs fs ms bs → b ∈ hs → holds_message v b m → m ∈ ms.
Proof.
  intros Hst Hb Hh. destruct hs as [|c hs]; [set_solver|].
  destruct (bstack_top _ _ _ _ _ _ Hst) as (t & es & ps & fs' & -> & _).
  destruct (bstack_reads _ _ _ _ _ _ _ _ Hst) as (o & _ & Hr).
  apply (proj1 (reads_holds v) _ _ _ _ Hr b m); [|done].
  inversion Hst as [|? ? ? ? ? ? ? ? ? ? _ _ Hbl]; subst. apply elem_of_cons in Hb as [->|Hb]; [set_solver|].
  pose proof (below_handles _ _ _ _ _ _ _ Hbl Hb). set_solver.
Qed.

(** ** Printing *)

(** The innermost open bundle, on its own, is a tree. *)
Lemma bstack_inner v c hs fs ms bs : bstack v (c :: hs) fs ms bs →
  ∃ p ms' bs', reads v (EBundle c) p ms' bs'.
Proof.
  inversion 1 as [|? ? ? es ? ? ms1 bs1 ms2 bs2 Hc Hes _ _ _ Hn]; subst.
  eexists _, _, _. econstructor; [apply Hc|apply Hes|set_solver].
Qed.

(** The relation only sees the view of liblo. *)
Lemma Rel_view F a (s : OscSender) w w' : Rel F a (s, w) → view w' = view w → Rel F a (s, w').
Proof. intros (hs & ms & bs & []) Hv. exists hs, ms, bs. simpl in *. split; simpl; by rewrite ?Hv. Qed.

(** Printing leaves the sender alone, and the view of liblo. *)
Lemma run_sender_print F a s w : Rel F a (s, w) →
  ∃ w', print (s, w) = (Ret tt, (s, w')) ∧ view w' = view w.
Proof.
  intros (hs & ms & bs & [_ Hc Hh Hs _ _ _ _ _ _]). simpl in *.
  assert (∃ w1, when (bool_decide (0 < length (m_bundles s))%nat)
      (b ← bundles_back; lo (lo_bundle_pp b)) (s, w) = (Ret tt, (s, w1)) ∧ view w1 = view w)
    as (w1 & Hr1 & Hv1).
  { destruct hs as [|c hs]; [rewrite Hh; by exists w|].
    rewrite fmap_cons, reverse_cons in Hh.
    rewrite bool_decide_true by (rewrite Hh, length_app; simpl; lia). simpl.
    destruct (bstack_inner _ _ _ _ _ _ Hs) as (p & ms' & bs' & Hp).
    destruct (law_bundle_pp _ _ _ _ _ Hp) as ([] & w1 & Hr & Hv). exists w1. split; [|done].
    unfold bundles_back. rewrite bind_assoc, bind_field. simpl. rewrite Hh, last_snoc.
    rewrite bind_ret_l. by apply run_lo. }
  unfold print. rewrite bind_field. simpl. rewrite (bind_step _ _ _ _ _ Hr1), bind_field. simpl.
  destruct (m_message s) as [m|], (a_cur a) as [args|]; try done; simpl in *; [|by exists w1].
  rewrite <- Hv1 in Hc. destruct (law_message_pp _ _ _ _ Hc) as ([] & w2 & Hr2 & Hv2).
  exists w2. rewrite (run_lo _ _ _ _ _ Hr2). by rewrite Hv2.
Qed.
End reach.
