(* ===== verification/SenderTheorems.v ===== *)
(** * Theorems about the sender

    The properties of [OscSender] and, after each one with hypotheses, an
    application of it to a run over the reference liblo. *)
From S2P Require Import Prelude Exceptions Effects Machine Floats Liblo LibloModel OscTypes OscSender SenderSpec SenderRefine SenderProps.
Open Scope Z_scope.

(** The reference sender used by the applications: one new object. *)
Definition st0 : state (L := model) := (OscSender_init, mw0).

Lemma Rel_st0 : Rel (rest_of (mw_view mw0) ∅ ∅ ∅) (idle None []) st0.
Proof. apply (Rel_init (L := model) mw0). Qed.

(** A message and two nested bundles with every type of argument. *)
Definition sample_message : packet := PMessage "/test3"
  [ATrue; AFalse; AChar "c"; ANil; AInfinitum; AInt32 100; AInt64 200;
   AFloat (float_of_Z 123); ADouble (double_of_Z 678); AString "a string"; ASymbol "a symbol";
   AMidi [127; 144; 62; 96]; ATimetag (Timetag 1 2); ABlob [1; 2; 3]].
Definition sample_bundle : packet := PBundle (Timetag 0 1)
  [PMessage "/test4" [AFalse; AInt32 100; AString "kraaa"];
   PBundle (Timetag 7 0) [PMessage "/test5" [AString "foo"; AString "bar"]]].

Lemma samples_ok : Forall packet_ok [sample_message; sample_bundle].
Proof.
  repeat constructor; simpl; unfold is_i32, is_i64, is_u32, is_byte; split_all; try lia;
    try (by repeat constructor; lia).
Qed.

(** ** Refinement and delivery *)

Section theorems.
Context {L : Liblo} {LL : LibloLaws L}.

(** C1: a sender implements the packet builder: from related states, any
    sequence of valid public calls has the outcome of the abstract sequence
    (return or exception) and ends in related states, and liblo keeps what it
    holds for others unless a call drops a live message. *)
Theorem sender_refines_builder F a st cs o a' :
  Rel F a st → Forall command_ok cs →
  a_commands LO_TT_IMMEDIATE cs a = (o, a') → (∀ u, o ≠ Undef u) →
  ∃ F' st', exec_all cs st = (o, st') ∧ Rel F' a' st' ∧ (leaks_all cs a = false → F' = F).
Proof. intros HR Hcs Ho Hu. by apply (sim_commands F a st cs Hcs HR). Qed.

(** C2: the packets written to a sender are the packets on the network: after
    [setup], writing any list of well-formed messages and (nested) bundles
    with the stream operators and sending each one sends exactly these
    packets, in order, to the address; afterwards the sender holds no handle
    and liblo holds the same messages, bundles, blobs and servers as before. *)
Theorem sender_delivers w h port ps :
  is_u32 port → Forall packet_ok ps →
  ∃ st', exec_all (C_setup h port :: send_all ps) (OscSender_init, w) = (Ret tt, st') ∧
    v_sent (view st'.2) = v_sent (view w) ++ map (pair (c_str h, dec port)) ps ∧
    m_message st'.1 = None ∧ m_bundles st'.1 = [] ∧
    v_msgs (view st'.2) = v_msgs (view w) ∧
    v_bundles (view st'.2) = v_bundles (view w) ∧
    v_blobs (view st'.2) = v_blobs (view w) ∧
    v_servers (view st'.2) = v_servers (view w).
Proof.
  intros Hp Hps. destruct (run_setup_send_all w h port ps Hp Hps) as (st' & Hx & HR).
  exists st'. apply Rel_idle in HR as (? & ? & HF & ?).
  apply rest_of_all in HF as (? & ? & ? & ? & _). by split_all.
Qed.

(** C11: on a sender that has been driven by any valid calls ([clear] at any point,
    exceptions caught, but no call with undefined behaviour), a valid call that
    changes the sender is undefined only if it is to use the message, or the
    bundles, under construction, and finds its progress flag set and these gone.
    When [clear] has only been called between messages and bundles this is never
    so, and then no valid call is undefined.  ([getPort], which changes nothing, is
    in [sender_queries].) *)
Theorem sender_undefined_only_when_lost st :
  (sender_any st → ∀ c u, command_ok c → (exec c st).1 = Undef u → lost c st.1 = true) ∧
  (sender_reach st → sender_any st ∧ ∀ c, lost c st.1 = false).
Proof.
  split.
  - intros (F & a & HR)%any_Rel c u Hc Hu. destruct (lost c st.1) eqn:Hl; [done|].
    destruct (exec c st) as [o st'] eqn:E. simpl in Hu. subst o.
    destruct (any_step_Rel F a st c _ st' HR Hc Hl E) as [Hn _]. by destruct (Hn u).
  - intros Hs. split; [by apply reach_any|]. intros c.
    destruct (reach_Rel st Hs) as (F & a & HR & Ha). by eapply safe_not_lost.
Qed.

(** C13: a call throws exactly when its guard says so, with the exception of
    the guard, and then nothing has changed, neither the sender nor liblo. *)
Theorem sender_throws_iff_guard st c e st' :
  sender_reach st → command_ok c → disciplined c st.1 →
  exec c st = (Throw e, st') ↔ guard c st.1 = Some e ∧ st' = st.
Proof.
  intros (F & a & HR & Hs)%reach_Rel Hc Hd. destruct st as [s w]. split.
  - intros E. destruct (reach_step_Rel F a (s, w) c _ _ HR Hs Hc Hd E) as (_ & F' & a' & Ho & _).
    pose proof (guard_complete F a c s w e a' HR Hc Ho) as Hg. split; [done|].
    apply (guard_throw c s w) in Hg. simpl in *. congruence.
  - intros [Hg ->]. by apply guard_throw.
Qed.

(** *** Outside the protocol *)

(** C35: [clear] keeps the progress flags: called while a bundle is being
    built it leaves a sender on which the next message, begun without error,
    reads the back of an empty vector at its end. *)
Theorem clear_inside_bundle_undefined F a st p :
  Rel F a st → a_bip a = true → a_mip a = false →
  (exec_all [C_clear; C_item (I_BeginMessage (mkBeginMessage p));
             C_item (I_EndMessage mkEndMessage)] st).1 = Undef EmptyBack.
Proof.
  intros HR Hb Hm. destruct (run_clear F a st HR) as (F1 & st1 & Hr1 & HR1 & _ & _).
  destruct (sim_beginMessage F1 (cleared a) st1 p HR1 (Ret tt)
              (with_msg (Some []) p true (cleared a))) as (F2 & [s2 w2] & Hr2 & HR2 & _); [|done|].
  { unfold a_beginMessage. cbv [mbind M_bind get]. simpl. by rewrite Hm. }
  change (([C_clear; C_item (I_BeginMessage (mkBeginMessage p));
            C_item (I_EndMessage mkEndMessage)]))
    with ([C_clear] ++ [C_item (I_BeginMessage (mkBeginMessage p));
            C_item (I_EndMessage mkEndMessage)]). simpl.
  rewrite (bind_step _ _ _ _ _ Hr1), (bind_step _ _ _ _ _ Hr2).
  destruct HR2 as (hs & ms & bs & [_ _ Hh Hst _ _ _ Hmip Hbip _]). simpl in *.
  inversion Hst; subst. unfold endMessage. cbv [mbind M_bind field gets bundles_back]. simpl.
  rewrite Hmip. simpl. rewrite Hbip, Hb. simpl. by rewrite Hh.
Qed.

(** C38: beginning a bundle after one that was ended and not sent nests it in that
    one: after writing two bundles one after the other the sender has one handle,
    which reads as the first bundle with the second as its last element, the
    flag says a bundle is in progress, and [send] throws; one more [endBundle]
    and the nested bundle is sent as one packet. *)
Theorem reopened_bundle_blocks_send F st x sent t1 ps1 t2 ps2 :
  Rel F (idle (Some x) sent) st → Forall packet_ok ps1 → Forall packet_ok ps2 →
  let nested := PBundle t1 (ps1 ++ [PBundle t2 ps2]) in
  ∃ st' b ms bs,
    exec_all (map C_item (render (PBundle t1 ps1) ++ render (PBundle t2 ps2))) st = (Ret tt, st') ∧
    m_bundles st'.1 = [Some b] ∧ reads (view st'.2) (EBundle b) nested ms bs ∧
    m_bundleInProgress st'.1 = true ∧ v_sent (view st'.2) = sent ∧
    exec C_send st' = (Throw sendException, st') ∧
    ∃ st2, exec_all [C_item (I_EndBundle mkEndBundle); C_send] st' = (Ret tt, st2) ∧
      v_sent (view st2.2) = sent ++ [(x, nested)].
Proof.
  intros HR H1 H2 nested. set (a2 := mkBuilder (Some x) None "" false
    [(t1, ps1 ++ [PBundle t2 ps2])] true sent).
  assert (clean_run (map C_item (render (PBundle t1 ps1) ++ render (PBundle t2 ps2)))
    (idle (Some x) sent) a2) as [Ha _].
  { rewrite map_app. apply (clean_run_app _ _ _ (mkBuilder (Some x) None "" false [(t1, ps1)] false sent)).
    - by apply run_render_bundle.
    - simpl. rewrite map_app. eapply clean_run_cons; [done..|]. simpl.
      eapply clean_run_app; [apply (run_render_list ps2); by apply nests_all|].
      by eapply clean_run_cons. }
  assert (Forall command_ok (map C_item (render (PBundle t1 ps1) ++ render (PBundle t2 ps2)))) as Hok.
  { apply Forall_map. apply Forall_app. split; by apply (render_ok (PBundle _ _)), packet_ok_bundle. }
  destruct (sim_commands F _ st _ Hok HR _ _ Ha) as (F' & st' & Hr & HR' & _); [done|].
  pose proof HR' as (hs & ms & bs & [_ _ Hh Hst _ _ _ _ Hbip Hsent]). simpl in *.
  pose proof (bstack_length _ _ _ _ _ Hst) as Hlen. destruct hs as [|b [|? ?]]; [done| |done].
  destruct (bstack_reads _ _ _ _ _ _ _ _ Hst) as (b' & [= <-] & Hrd).
  exists st', b, ms, bs. split_all.
  - destruct st' as [s w]. apply (guard_throw C_send). simpl in *. by rewrite Hbip, orb_true_r.
  - destruct (sim_commands F' a2 st' [C_item (I_EndBundle mkEndBundle); C_send] ltac:(by repeat constructor)
      HR' (Ret tt) (idle (Some x) (sent ++ [(x, nested)]))) as (F2 & st2 & Hr2 & HR2 & _); [done..|].
    exists st2. split; [exact Hr2|]. by apply Rel_idle in HR2 as (_ & _ & _ & ?).
Qed.

(** C37: a message begun after one that was ended and not sent drops the handle
    of that one: whatever valid calls are made from then on ([clear] at any point,
    exceptions caught), it stays alive, and neither the message handle of the
    sender nor any of its bundle handles leads to it. *)
Theorem unsent_message_leaks F a st p args :
  Rel F a st → a_cur a = Some args → a_mip a = false →
  ∃ m st1, m_message st.1 = Some m ∧
    exec (C_item (I_BeginMessage (mkBeginMessage p))) st = (Ret tt, st1) ∧
    ∀ st', rtc any_call st1 st' →
      v_msgs (view st'.2) !! m = Some (Msg args 0) ∧ m_message st'.1 ≠ Some m ∧
      ∀ b, Some b ∈ m_bundles st'.1 → ¬ holds_message (view st'.2) b m.
Proof.
  intros (hs & ms & bs & HRa) Hcur Hmip. destruct st as [s w].
  destruct (run_beginMessage _ _ _ _ _ _ _ p HRa Hmip) as (st1 & Hr1 & HR1).
  destruct HRa as [_ Hc _ _ Hdj _ _ _ _ _]. simpl in *. rewrite Hcur in Hc.
  destruct (m_message s) as [m|]; [|done]. simpl in *.
  assert (f_msgs (rest_of (view w) (own (m_address s)) ms bs) !! m = Some (Msg args 0)) as Hm.
  { simpl. rewrite map_lookup_filter_Some. split; [done|]. simpl. set_solver. }
  exists m, st1. split_all. intros st' Hst.
  destruct (any_Rel_grows _ _ st1 st' (ex_intro _ hs (ex_intro _ ms (ex_intro _ bs HR1))) Hst)
    as (F' & a' & (hs' & ms' & bs' & [_ _ Hh' Hst' _ Hrest _ _ _ _]) & HF).
  eapply lookup_weaken in Hm; [|exact HF]. rewrite <- Hrest in Hm. simpl in Hm.
  apply map_lookup_filter_Some in Hm as [Hm Hn]. simpl in Hn. split_all.
  - intros Heq. rewrite Heq in Hn. simpl in Hn. set_solver.
  - intros b Hb Hhm. rewrite Hh', elem_of_reverse, list_elem_of_fmap in Hb.
    destruct Hb as (b' & [= <-] & Hb). pose proof (stack_holds _ _ _ _ _ _ _ Hst' Hb Hhm). set_solver.
Qed.

(** C36: a sender that has an address gives back its host and port, and a url; one
    that has none gives empty strings for host and url, and building the string
    of its port from a null pointer is undefined.  The flags are those of the
    message and the bundle under construction.  Printing always returns, and
    leaves the sender, and what it has under construction, as they are. *)
Theorem sender_queries F a st : Rel F a st →
  match a_addr a with
  | Some (h, p) => getHostname st = (Ret h, st) ∧ getPort st = (Ret p, st) ∧
                   ∃ u, getUrl st = (Ret u, st)
  | None => getHostname st = (Ret "", st) ∧ getUrl st = (Ret "", st) ∧
            getPort st = (Undef NullString, st)
  end ∧
  isMessageInProgress st = (Ret (a_mip a), st) ∧
  isBundleInProgress st = (Ret (a_bip a), st) ∧
  ∃ st', print st = (Ret tt, st') ∧ st'.1 = st.1 ∧ Rel F a st'.
Proof.
  intros HR. destruct st as [s w]. pose proof HR as (hs & ms & bs & [Ha _ _ _ _ _ _ Hm Hb _]).
  simpl in *. split; [|split; [|split]].
  - unfold getHostname, getPort, getUrl, address_string. simpl.
    destruct (m_address s) as [p|], (a_addr a) as [[h q]|]; try done. simpl in Ha.
    rewrite (law_address_get_hostname _ _ _ _ Ha), (law_address_get_port _ _ _ _ Ha).
    destruct (law_address_get_url _ _ _ Ha) as [u ->]. split_all. by exists u.
  - by rewrite <- Hm.
  - by rewrite <- Hb.
  - destruct (run_sender_print F a s w HR) as (w' & Hr & Hv). exists (s, w'). split_all.
    by apply (Rel_view _ _ _ w).
Qed.
End theorems.

Lemma sender_refines_builder_witness :
  let cs := [C_setup "127.0.0.1" 9990; C_item (I_EndMessage mkEndMessage)] in
  ∃ F' st', exec_all cs st0 = (Throw messageNotInProgress, st') ∧
            Rel F' (idle (Some ("127.0.0.1", "9990")) []) st' ∧
            (leaks_all cs (idle None []) = false → F' = rest_of (mw_view mw0) ∅ ∅ ∅).
Proof.
  apply (sender_refines_builder (L := model) _ (idle None []) st0).
  - apply Rel_st0.
  - repeat constructor; unfold command_ok, is_u32; lia.
  - vm_compute. reflexivity.
  - done.
Defined.

Lemma sender_delivers_witness :
  ∃ st', exec_all (C_setup "127.0.0.1" 9990 :: send_all [sample_message; sample_bundle]) st0
         = (Ret tt, st') ∧
    v_sent (view st'.2) = v_sent (view mw0) ++ map (pair (c_str "127.0.0.1", dec 9990))
                            [sample_message; sample_bundle] ∧
    m_message st'.1 = None ∧ m_bundles st'.1 = [] ∧
    v_msgs (view st'.2) = v_msgs (view mw0) ∧
    v_bundles (view st'.2) = v_bundles (view mw0) ∧
    v_blobs (view st'.2) = v_blobs (view mw0) ∧
    v_servers (view st'.2) = v_servers (view mw0).
Proof. apply (sender_delivers (L := model)); [unfold is_u32; lia|apply samples_ok]. Defined.

(** A reachable sender with an open message. *)
Definition st1 : state (L := model) := (exec (C_item (I_BeginMessage (mkBeginMessage "/a"))) st0).2.

Lemma st1_reach : sender_reach st1.
Proof.
  apply (sender_reach_step (L := model) st0 (C_item (I_BeginMessage (mkBeginMessage "/a"))) (Ret tt)).
  - apply (sender_reach_init (L := model)).
  - done.
  - done.
  - reflexivity.
Qed.

(** A sender cleared while a message is open: ending it is still defined, adding to
    it is not promised to be. *)
Lemma sender_undefined_only_when_lost_witness :
  (∀ u, (exec (C_item (I_EndMessage mkEndMessage)) (exec C_clear st1).2).1 ≠ Undef u) ∧
  lost (C_item (I_EndMessage mkEndMessage)) st1.1 = false.
Proof.
  assert (sender_any (L := model) (exec C_clear st1).2) as Hany.
  { destruct (reach_any (L := model) st1 st1_reach) as [w H]. exists w.
    eapply rtc_r; [exact H|]. by exists C_clear, (Ret tt). }
  split.
  - intros u Hu.
    by apply (proj1 (sender_undefined_only_when_lost (L := model) _) Hany
             (C_item (I_EndMessage mkEndMessage)) u I) in Hu.
  - apply (proj2 (sender_undefined_only_when_lost (L := model) st1) st1_reach).
Defined.

Lemma sender_throws_iff_guard_witness :
  exec (C_item (I_BeginMessage (mkBeginMessage "/b"))) st1 = (Throw messageInProgress, st1) ↔
  guard (C_item (I_BeginMessage (mkBeginMessage "/b"))) st1.1 = Some messageInProgress ∧ st1 = st1.
Proof. apply (sender_throws_iff_guard (L := model)); [apply st1_reach|done|done]. Defined.

Definition bundle_open : builder := mkBuilder None None "" false [(Timetag 0 1, [])] true [].
Definition st2 : state (L := model) := (exec C_beginBundle st0).2.

Lemma Rel_st2 : ∃ F, Rel F bundle_open st2.
Proof.
  destruct (sim_command (L := model) _ _ _ C_beginBundle I Rel_st0 (Ret tt) bundle_open)
    as (F' & st' & Hr & HR & _); [reflexivity|done|].
  exists F'. unfold st2. by rewrite Hr.
Qed.

Lemma clear_inside_bundle_undefined_witness :
  (exec_all [C_clear; C_item (I_BeginMessage (mkBeginMessage "/a"));
             C_item (I_EndMessage mkEndMessage)] st2).1 = Undef EmptyBack.
Proof.
  destruct Rel_st2 as [F HR].
  by apply (clear_inside_bundle_undefined (L := model) F bundle_open).
Defined.

Lemma reopened_bundle_blocks_send_witness :
  let st := (exec (C_setup "127.0.0.1" 9990) st0).2 in
  let nested := PBundle (Timetag 0 1) ([PMessage "/a" []] ++ [PBundle (Timetag 7 0) []]) in
  ∃ st' b ms bs, exec_all (map C_item (render (PBundle (Timetag 0 1) [PMessage "/a" []])
      ++ render (PBundle (Timetag 7 0) []))) st = (Ret tt, st') ∧
    m_bundles st'.1 = [Some b] ∧ reads (view st'.2) (EBundle b) nested ms bs ∧
    m_bundleInProgress st'.1 = true ∧ v_sent (view st'.2) = [] ∧
    exec C_send st' = (Throw sendException, st') ∧
    ∃ st2, exec_all [C_item (I_EndBundle mkEndBundle); C_send] st' = (Ret tt, st2) ∧
      v_sent (view st2.2) = [] ++ [(("127.0.0.1", "9990")%string, nested)].
Proof.
  destruct (sim_command (L := model) _ _ _ (C_setup "127.0.0.1" 9990)
              ltac:(by apply (bool_decide_unpack _)) Rel_st0 (Ret tt)
              (idle (Some ("127.0.0.1", "9990")) [])) as (F' & st' & Hr & HR & _); [reflexivity|done|].
  rewrite Hr. eapply (reopened_bundle_blocks_send (L := model)); [exact HR| |done].
  by repeat constructor.
Defined.

(** A sender with an ended message. *)
Definition ended : builder := mkBuilder None (Some []) "/a" false [] false [].
Definition st_ended : state (L := model) :=
  (exec_all [C_item (I_BeginMessage (mkBeginMessage "/a")); C_item (I_EndMessage mkEndMessage)] st0).2.

Lemma Rel_ended : ∃ F, Rel F ended st_ended.
Proof.
  destruct (sim_commands (L := model) _ _ _
    [C_item (I_BeginMessage (mkBeginMessage "/a")); C_item (I_EndMessage mkEndMessage)]
    ltac:(by repeat constructor) Rel_st0 (Ret tt) ended) as (F' & st' & Hr & HR & _);
    [reflexivity|done|].
  exists F'. unfold st_ended. by rewrite Hr.
Qed.

Lemma unsent_message_leaks_witness :
  ∃ m st1, m_message st_ended.1 = Some m ∧
    exec (C_item (I_BeginMessage (mkBeginMessage "/b"))) st_ended = (Ret tt, st1) ∧
    v_msgs (view (exec C_clear st1).2.2) !! m = Some (Msg [] 0) ∧
    m_message (exec C_clear st1).2.1 ≠ Some m.
Proof.
  destruct Rel_ended as [F HR].
  destruct (unsent_message_leaks (L := model) F ended st_ended "/b" [] HR eq_refl eq_refl)
    as (m & st1 & Hm & Hr & H). exists m, st1. split_all.
  - apply H. apply rtc_once. by exists C_clear, (exec C_clear st1).1; destruct (exec C_clear st1).
  - apply H. apply rtc_once. by exists C_clear, (exec C_clear st1).1; destruct (exec C_clear st1).
Defined.

Lemma sender_queries_witness :
  (getHostname st0 = (Ret "", st0) ∧ getUrl st0 = (Ret "", st0) ∧ getPort st0 = (Undef NullString, st0)) ∧
  isMessageInProgress st0 = (Ret false, st0) ∧ isBundleInProgress st0 = (Ret false, st0) ∧
  ∃ st', print st0 = (Ret tt, st') ∧ st'.1 = st0.1 ∧ Rel (rest_of (mw_view mw0) ∅ ∅ ∅) (idle None []) st'.
Proof. apply (sender_queries (L := model) _ _ _ Rel_st0). Defined.
