(* ===== verification/SenderTyping.v ===== *)
(** * The type discipline of a sender

    An argument is well typed when it is a value of the C type its tag stands for
    ([atom_ok]), a packet when its arguments are and its path is a C string
    ([packet_ok]).  The packet builder keeps what is under construction well
    typed, so a sender does too, and only well typed packets reach the network. *)
From S2P Require Import Prelude Exceptions Effects Machine Floats Liblo LibloModel OscTypes OscSender SenderSpec SenderRefine SenderProps SenderTheorems.
Open Scope Z_scope.

Definition typed_frame (f : frame) : Prop := Forall packet_ok f.2.

(** What a builder has under construction. *)
Definition typed (a : builder) : Prop :=
  Forall atom_ok (default [] (a_cur a)) ∧ Forall typed_frame (a_stack a).

Lemma plug_ok p fs : packet_ok p → Forall typed_frame fs → packet_ok (plug p fs).
Proof.
  intros Hp Hfs. revert p Hp. induction Hfs as [|[t ps] fs Hf _ IH]; intros p Hp; [done|].
  apply IH, packet_ok_bundle, Forall_app. split; [done|by constructor].
Qed.

Lemma item_atom_typed i x : item_ok i → item_atom i = Some x → atom_ok x.
Proof.
  intros Hi Hx. destruct i; simpl in Hi, Hx; simplify_eq; try done.
  - destruct Hi as [s ->]. simplify_eq. apply c_str_nul_free.
  - destruct Hi as (s & Hs & Hn). destruct var. simpl in Hs. by simplify_eq.
  - destruct var as [d n], Hi as (d' & Hd & Hb & Hn & Hl). simpl in *. simplify_eq.
    split; [by apply Forall_take|]. rewrite length_take. lia.
Qed.

(** What one command sends. *)
Definition sends_typed (a a' : builder) : Prop :=
  ∃ new, a_sent a' = a_sent a ++ new ∧ Forall (λ x, packet_ok x.2) new.

Lemma sends_nothing a a' : a_sent a' = a_sent a → sends_typed a a'.
Proof. intros H. exists []. by rewrite app_nil_r. Qed.

Lemma typed_add x a o a' : atom_ok x → typed a → a_add x a = (o, a') →
  typed a' ∧ sends_typed a a'.
Proof.
  intros Hx [Hc Hs] Ho. cbv [a_add mbind M_bind get modify throw undef] in Ho.
  destruct (a_mip a) eqn:Em; simplify_eq/=; [|split; [done|by apply sends_nothing]].
  destruct (a_cur a) as [args|] eqn:Ec; simplify_eq/=.
  - split; [|by apply sends_nothing]. split; [|done]. simpl. apply Forall_app. by split; [|constructor].
  - split; [|by apply sends_nothing]. split; [by rewrite Ec|done].
Qed.

Lemma typed_endMessage a o a' : typed a → a_endMessage a = (o, a') → typed a' ∧ sends_typed a a'.
Proof.
  intros [Hc Hs] Ho. cbv [a_endMessage mbind M_bind get modify throw undef] in Ho. simpl in Ho.
  destruct (a_mip a); simpl in Ho; [|simplify_eq; split; [done|by apply sends_nothing]].
  destruct (a_bip a); [|simplify_eq; split; [done|by apply sends_nothing]].
  destruct (a_stack a) as [|[t ps] fs] eqn:Es;
    [simplify_eq; split; [split; [done|by rewrite Es]|by apply sends_nothing]|].
  apply Forall_cons in Hs as [Hps Hfs].
  destruct (a_cur a) as [args|] eqn:Ec; simplify_eq/=; (split; [|by apply sends_nothing]);
    [|by split; [rewrite Ec|rewrite Es; constructor]].
  split; [done|]. constructor; [|done]. apply Forall_app. split; [done|]. constructor; [|done].
  split; [apply c_str_nul_free|done].
Qed.

Lemma typed_endBundle a o a' : typed a → a_endBundle a = (o, a') → typed a' ∧ sends_typed a a'.
Proof.
  intros [Hc Hs] Ho. cbv [a_endBundle mbind M_bind get modify throw] in Ho. simpl in Ho.
  destruct (a_bip a); simpl in Ho; [|simplify_eq; split; [done|by apply sends_nothing]].
  destruct (a_stack a) as [|[t ps] [|[t' ps'] fs]] eqn:Es; simplify_eq/=;
    (split; [|by apply sends_nothing]); split; try done.
  apply Forall_cons in Hs as [Hps [Hps' Hfs]%Forall_cons]. constructor; [|done].
  apply Forall_app. split; [done|]. constructor; [|done]. by apply packet_ok_bundle.
Qed.

Lemma typed_open t a o a' : typed a → a_open t a = (o, a') → typed a' ∧ sends_typed a a'.
Proof.
  intros [Hc Hs] [= <- <-]. split; [|by apply sends_nothing]. split; [done|].
  constructor; [apply Forall_nil_2|done].
Qed.

Lemma typed_send a o a' : typed a → a_send a = (o, a') → typed a' ∧ sends_typed a a'.
Proof.
  intros Ht Ho. pose proof Ht as [Hc Hs]. cbv [a_send a_clear mbind M_bind get modify throw] in Ho. simpl in Ho.
  destruct (a_addr a) as [x|]; [|simplify_eq; split; [done|by apply sends_nothing]].
  destruct (a_bip a || a_mip a); [simplify_eq; split; [done|by apply sends_nothing]|].
  destruct (a_stack a) as [|[t ps] fs] eqn:Es.
  - destruct (a_cur a) as [args|]; simplify_eq/=; [|split; [done|by apply sends_nothing]].
    split; [done|]. eexists. split; [done|]. constructor; [|done]. by split; [apply c_str_nul_free|].
  - apply Forall_cons in Hs as [Hps Hfs]. simplify_eq/=. split; [done|].
    eexists. split; [done|]. constructor; [|done]. by apply plug_ok; [apply packet_ok_bundle|].
Qed.

Lemma typed_item i a o a' : item_ok i → typed a → a_item i a = (o, a') →
  typed a' ∧ sends_typed a a'.
Proof.
  intros Hc Ht Ho.
  assert (∀ x, item_atom i = Some x → a_add x a = (o, a') → typed a' ∧ sends_typed a a') as Hadd
    by (intros x Hx; apply typed_add; [by eapply item_atom_typed|done]).
  destruct i; simpl in Ho, Hc; try by eapply Hadd.
  - cbv [a_beginMessage mbind M_bind get modify throw] in Ho.
    destruct Ht. by destruct (a_mip a); simplify_eq/=; (split; [|apply sends_nothing]).
  - by eapply typed_endMessage.
  - destruct Hc as [s ->]. by eapply Hadd.
  - destruct Hc as (s & Hs & _). destruct var. simpl in Hs. subst. by eapply Hadd.
  - destruct Hc as (d & Hd & _). destruct var. simpl in Hd. subst. by eapply Hadd.
  - cbv [a_beginBundle_at mbind M_bind get throw] in Ho.
    destruct (a_mip a); [simplify_eq; split; [done|by apply sends_nothing]|]. by eapply typed_open.
  - by eapply typed_endBundle.
Qed.

Lemma typed_command c a o a' imm : command_ok c → typed a → a_command imm c a = (o, a') →
  typed a' ∧ sends_typed a a'.
Proof.
  intros Hc Ht Ho. destruct c as [h p| | | |i|m]; simpl in Ho.
  - injection Ho as <- <-. split; [done|by apply sends_nothing].
  - by eapply typed_send.
  - injection Ho as <- <-. split; [done|by apply sends_nothing].
  - cbv [a_beginBundle mbind M_bind get throw] in Ho.
    destruct (a_bip a); [simplify_eq; split; [done|by apply sends_nothing]|]. by eapply typed_open.
  - by eapply typed_item.
  - by eapply typed_item; [apply member_item_ok| |].
Qed.

Section typing.
Context {L : Liblo} {LL : LibloLaws L}.

Lemma reach_typed st : sender_reach st → ∃ F a, Rel F a st ∧ safe a ∧ typed a.
Proof.
  induction 1 as [w|st c o st' _ (F & a & HR & Hs & Ht) Hc Hd Hr].
  - eexists _, _. split; [apply Rel_init|]. by repeat constructor.
  - destruct (reach_step_Rel _ _ _ _ _ _ HR Hs Hc Hd Hr) as (_ & F' & a' & Ha & ? & ?).
    exists F', a'. split_all. by apply (typed_command _ _ _ _ _ Hc Ht) in Ha as [? _].
Qed.

(** C14: a sender keeps the types of the protocol: whatever valid calls are made, in
    any reachable state and whether they return or throw, the message under
    construction holds values of the C types that its type string announces, the
    outermost open bundle reads as a well typed packet, and everything the call
    puts on the network is a well typed packet. *)
Theorem sender_well_typed st c o st' :
  sender_reach st → command_ok c → disciplined c st.1 → exec c st = (o, st') →
  (∀ m, m_message st'.1 = Some m → ∃ args,
     v_msgs (view st'.2) !! m = Some (Msg args 0) ∧ Forall atom_ok args ∧
     lo_message_get_types (Some m) st'.2 = Ret (CStr (tags args))) ∧
  (∀ b, head (m_bundles st'.1) = Some (Some b) → ∃ p ms bs,
     reads (view st'.2) (EBundle b) p ms bs ∧ packet_ok p) ∧
  (∃ new, v_sent (view st'.2) = v_sent (view st.2) ++ new ∧ Forall (λ x, packet_ok x.2) new).
Proof.
  intros (F & a & HR & Hs & Ht)%reach_typed Hc Hd Hr.
  destruct (reach_step_Rel _ _ _ _ _ _ HR Hs Hc Hd Hr) as (_ & F' & a' & Ha & HR' & _).
  apply (typed_command _ _ _ _ _ Hc Ht) in Ha as [[Htc Hts] (new & Hsent & Hnew)].
  destruct HR as (? & ? & ? & HRa), HR' as (hs & ms & bs & HRb). split_all.
  - intros m Hm. pose proof (rel_cur _ _ _ _ _ _ HRb) as Hcur. rewrite Hm in Hcur.
    destruct (a_cur a') as [args|]; [|done].
    exists args. split_all. by eapply law_message_get_types.
  - intros b Hb. pose proof (rel_stack _ _ _ _ _ _ HRb) as Hst.
    rewrite (rel_handles _ _ _ _ _ _ HRb), head_reverse, fmap_last in Hb.
    destruct (a_stack a') as [|[t ps] fs]; inversion Hst; subst; [done|].
    destruct (bstack_reads _ _ _ _ _ _ _ _ Hst) as (b' & Hl & Hrd).
    rewrite Hl in Hb. injection Hb as <-. apply Forall_cons in Hts as [Hps Hfs].
    eexists _, _, _. split; [done|]. by apply plug_ok; [apply packet_ok_bundle|].
  - exists new. by rewrite (rel_sent _ _ _ _ _ _ HRa), (rel_sent _ _ _ _ _ _ HRb).
Qed.
End typing.

(** A string added to a message under construction. *)
Lemma sender_well_typed_witness :
  let st' := (exec (C_item (I_string "x")) st1).2 in
  (∀ m, m_message st'.1 = Some m → ∃ args,
     v_msgs (view st'.2) !! m = Some (Msg args 0) ∧ Forall atom_ok args ∧
     lo_message_get_types (Some m) st'.2 = Ret (CStr (tags args))) ∧
  (∀ b, head (m_bundles st'.1) = Some (Some b) → ∃ p ms bs,
     reads (view st'.2) (EBundle b) p ms bs ∧ packet_ok p) ∧
  (∃ new, v_sent (view st'.2) = v_sent (view st1.2) ++ new ∧ Forall (λ x, packet_ok x.2) new).
Proof.
  apply (sender_well_typed (L := model) st1 (C_item (I_string "x")) (Ret tt));
    [apply st1_reach|done|done|].
  apply injective_projections; [by vm_compute|reflexivity].
Defined.
