(* ===== verification/SenderLife.v ===== *)
(** * The lifetime of a sender

    From its construction to its destruction, whatever is called in between: the
    destructor has no undefined behaviour, and gives back to liblo everything the
    sender took, but a message that is pending while bundles are open. *)
From S2P Require Import Prelude Exceptions Effects Machine Floats Liblo LibloModel OscTypes OscSender SenderSpec SenderRefine SenderProps SenderTheorems.
Open Scope Z_scope.

(** The calls that drop the handle of a live message, on the object. *)
Definition drops (c : command) (s : OscSender) : bool :=
  match c with
  | C_item (I_BeginMessage _) | C_member (K_beginMessage _) =>
      negb (m_messageInProgress s) && bool_decide (m_message s ≠ None)
  | C_clear | C_send => bool_decide (m_bundles s ≠ []) && bool_decide (m_message s ≠ None)
  | _ => false
  end.

Section life.
Context {L : Liblo} {LL : LibloLaws L}.

Lemma Rel_pending F a st : Rel F a st →
  bool_decide (m_message st.1 ≠ None) = bool_decide (a_cur a ≠ None).
Proof.
  intros (hs & ms & bs & [_ Hc _ _ _ _ _ _ _ _]). by destruct (m_message st.1), (a_cur a).
Qed.

Lemma Rel_open F a st : Rel F a st →
  bool_decide (m_bundles st.1 ≠ []) = bool_decide (a_stack a ≠ []).
Proof.
  intros (hs & ms & bs & [_ _ Hh Hst _ _ _ _ _ _]). apply bstack_length in Hst.
  apply bool_decide_ext. rewrite Hh. destruct hs, (a_stack a); try done.
  rewrite fmap_cons, reverse_cons. split; [done|]. intros _ H. by apply app_nil in H as [_ ?].
Qed.

Lemma drops_leaks F a st c : Rel F a st → drops c st.1 = leaks c a.
Proof.
  intros HR. pose proof (Rel_pending F a st HR) as Hp. pose proof (Rel_open F a st HR) as Ho.
  destruct HR as (hs & ms & bs & HRa). pose proof (rel_mip _ _ _ _ _ _ HRa) as Hm.
  destruct c as [| | | |[]|[]]; simpl; congruence.
Qed.

(** A sender since its construction in the state [w0] of liblo, driven by valid
    calls that drop no message, the caller catching the exceptions. *)
Inductive sender_life (w0 : world) : state → Prop :=
  | sender_life_init : sender_life w0 (OscSender_init, w0)
  | sender_life_step st c o st' :
      sender_life w0 st → command_ok c → disciplined c st.1 → drops c st.1 = false →
      exec c st = (o, st') → sender_life w0 st'.

Lemma life_Rel w0 st : sender_life w0 st →
  ∃ a, Rel (rest_of (view w0) ∅ ∅ ∅) a st ∧ safe a.
Proof.
  induction 1 as [|st c o st' _ (a & HR & Hs) Hc Hd Hl Hr].
  - exists (idle None (v_sent (view w0))). split; [apply Rel_init|by split].
  - destruct (reach_step_Rel _ _ _ _ _ _ HR Hs Hc Hd Hr) as (Hu & _ & a' & Ha & _ & Hs').
    destruct (sim_command _ a st c Hc HR o a' Ha Hu) as (F' & st1 & Hr' & HR' & HF).
    rewrite Hr in Hr'. injection Hr' as <-. exists a'. split; [|done].
    rewrite <- HF; [done|]. by rewrite <- (drops_leaks _ a st c HR).
Qed.

(** ** The destructor *)

(** Without its address. *)
Lemma Rel_freed F a s w w1 : Rel F a (s, w) →
  view w1 = on_addrs (filter (λ x, x.1 ∉ own (m_address s))) (view w) →
  Rel F (with_addr None a) (set_address None s, w1).
Proof.
  intros (hs & ms & bs & []) Hv. exists hs, ms, bs. simpl in *.
  split; simpl; rewrite ?Hv; try done; simpl.
  - eapply bstack_frame; [done|]. by split.
  - rewrite <- rel_rest. unfold rest_of. simpl. f_equal. apply map_filter_id. set_solver.
Qed.

(** [clear] does not look at the address. *)
Lemma clear_any_address x s w s' w' : clear (set_address x s, w) = (Ret tt, (s', w')) →
  ∃ s1, clear (s, w) = (Ret tt, (s1, w')).
Proof.
  destruct s as [a m bs p mp bp]. rewrite !clear_eq. unfold clear_frees, bundles_front.
  cbv [mbind M_bind field gets assign modify when undef lo zoom mret M_ret]. simpl.
  destruct bs as [|b bs]; simpl.
  - destruct m as [m|]; simpl; [destruct (lo_message_free _ _) as [[[]|?|?] ?]|];
      intros H; simplify_eq; by eexists.
  - destruct (lo_bundle_free_recursive _ _) as [[[]|?|?] ?]; intros H; simplify_eq; by eexists.
Qed.

(** The destructor leaves behind the message pending while bundles are open. *)
Lemma run_destructor F a s w : Rel F a (s, w) →
  ∃ st', OscSender_destroy (s, w) = (Ret tt, st') ∧ v_sent (view st'.2) = v_sent (view w) ∧
    (drops C_clear s = false → rest_of (view st'.2) ∅ ∅ ∅ = F) ∧
    (drops C_clear s = true → ∃ m args, m_message s = Some m ∧
       v_msgs (view w) !! m = Some (Msg args 0) ∧ f_msgs F !! m = None ∧
       rest_of (view st'.2) ∅ ∅ ∅ = left_behind m args F).
Proof.
  intros HR. pose proof HR as (hs & ms & bs & []). simpl in *.
  destruct (run_free_address a s w rel_addr) as (w1 & Hr1 & Hv1).
  pose proof (Rel_freed F a s w w1 HR Hv1) as HR1.
  destruct (run_clear _ _ _ HR1) as (F' & [s2 w2] & Hr2 & HR2 & HF & HF').
  destruct (clear_any_address None s w1 s2 w2 Hr2) as [s3 Hr3].
  rewrite <- (drops_leaks _ _ _ C_clear HR1) in HF, HF'.
  destruct HR2 as (hs2 & ms2 & bs2 & []). simpl in *.
  assert (rest_of (view w2) ∅ ∅ ∅ = F') as Hrest.
  { assert (m_address s2 = None) as Ha by by destruct (m_address s2).
    apply cur_rel_None in rel_cur0. inversion rel_stack0; subst.
    rewrite Ha, rel_cur0. simpl. by rewrite union_empty_l_L. }
  exists (s3, w2). split_all; simpl.
  - unfold OscSender_destroy. rewrite bind_field. simpl. by rewrite (bind_step _ _ _ _ _ Hr1).
  - by rewrite rel_sent0, <- rel_sent.
  - intros Hd. by rewrite Hrest, HF.
  - intros Hd. destruct (HF' Hd) as (m & args & Hm & Hc & Hn & HF1). exists m, args.
    rewrite Hrest. split_all. by rewrite Hm, Hc in rel_cur.
Qed.

(** ** Nothing is lost *)

Lemma rest_nothing v :
  rest_of v ∅ ∅ ∅ = Foreign (v_addrs v) (v_msgs v) (v_bundles v) (v_blobs v) (v_servers v).
Proof. unfold rest_of. f_equal; apply map_filter_id; set_solver. Qed.

(** C12: a sender that is driven by valid calls, none of which drops a message, and
    then destroyed leaves liblo as it found it: the destructor returns, and every
    address, message, bundle and blob taken since the construction is given back,
    whatever exceptions were thrown and caught, but for one case: a message
    pending while bundles are open outlives the sender. *)
Theorem sender_lifetime w0 st : sender_life w0 st →
  ∃ st', OscSender_destroy st = (Ret tt, st') ∧
    v_sent (view st'.2) = v_sent (view st.2) ∧
    v_addrs (view st'.2) = v_addrs (view w0) ∧ v_bundles (view st'.2) = v_bundles (view w0) ∧
    v_blobs (view st'.2) = v_blobs (view w0) ∧ v_servers (view st'.2) = v_servers (view w0) ∧
    (bool_decide (m_bundles st.1 ≠ []) && bool_decide (m_message st.1 ≠ None) = false →
     v_msgs (view st'.2) = v_msgs (view w0)) ∧
    (bool_decide (m_bundles st.1 ≠ []) && bool_decide (m_message st.1 ≠ None) = true →
     ∃ m args, m_message st.1 = Some m ∧ v_msgs (view w0) !! m = None ∧
       v_msgs (view st'.2) = <[m := Msg args 0]> (v_msgs (view w0))).
Proof.
  intros (a & HR & _)%life_Rel. destruct st as [s w].
  destruct (run_destructor _ a s w HR) as (st' & Hr & Hs & Hn & Hy). exists st'.
  pose proof rest_nothing as Hid.
  split; [done|]. split; [done|]. change (drops C_clear s) with
    (bool_decide (m_bundles s ≠ []) && bool_decide (m_message s ≠ None)) in *. cbn [fst] in *.
  destruct (bool_decide (m_bundles s ≠ []) && bool_decide (m_message s ≠ None)).
  - destruct (Hy eq_refl) as (m & args & Hm & _ & Hf & HF). rewrite Hid in Hf, HF. rewrite Hid in HF.
    injection HF as ?????. split_all. intros _. by exists m, args.
  - specialize (Hn eq_refl). rewrite !Hid in Hn. injection Hn as ?????. by split_all.
Qed.
End life.

(** A sender set up, that opened a bundle and a message in it. *)
Definition life_calls : list command :=
  [C_setup "127.0.0.1" 9990; C_beginBundle; C_item (I_BeginMessage (mkBeginMessage "/a"))].
Definition st_life : state (L := model) := (exec_all life_calls st0).2.

Lemma sender_lifetime_witness : ∃ st', OscSender_destroy st_life = (Ret tt, st') ∧
  v_addrs (view st'.2) = ∅ ∧ v_bundles (view st'.2) = ∅ ∧
  ∃ m args, m_message st_life.1 = Some m ∧ v_msgs (view st'.2) = <[m := Msg args 0]> ∅.
Proof.
  destruct (sender_lifetime (L := model) mw0 st_life) as (st' & Hr & _ & Ha & Hb & _ & _ & _ & Hm).
  - unfold st_life, life_calls. 
    apply (sender_life_step (L := model) mw0 (exec_all (take 2 life_calls) st0).2
             (C_item (I_BeginMessage (mkBeginMessage "/a"))) (Ret tt)); try done.
    apply (sender_life_step (L := model) mw0 (exec (C_setup "127.0.0.1" 9990) st0).2
             C_beginBundle (Ret tt)); try done.
    apply (sender_life_step (L := model) mw0 st0 (C_setup "127.0.0.1" 9990) (Ret tt)); try done.
    apply (sender_life_init (L := model)).
  - exists st'. split_all; [done..|].
    destruct (Hm eq_refl) as (m & args & Hm1 & _ & Hm2). by exists m, args.
Defined.
