(* ===== verification/Log.v ===== *)
(** * Log: output streams and the logger

    The console is what was inserted into [std::cout] and [std::cerr], as the
    sequence of the values inserted (the text of floating values depends on the
    C++ library, and is not modelled further).  [Log] collects a line in its own
    buffer and prints it when it is destroyed. *)
From S2P Require Import Prelude Exceptions Effects Machine Floats.
Open Scope Z_scope.

Inductive token : Type :=
  | T_str (s : string)
  | T_char (c : ascii)
  | T_int (z : Z)
  | T_hex (z : Z)
  | T_bool (b : bool)
  | T_float (f : float)
  | T_double (d : double)
  | T_endl.

#[export] Instance token_eq_dec : EqDecision token.
Proof. solve_decision. Defined.

Record console : Type := Console { cout : list token; cerr : list token }.

Definition cout_put {S} {C : Lens S console} (ts : list token) : M S unit :=
  zoom (modify (λ c, Console (cout c ++ ts) (cerr c))).
Definition cerr_put {S} {C : Lens S console} (ts : list token) : M S unit :=
  zoom (modify (λ c, Console (cout c) (cerr c ++ ts))).

Inductive Level : Type :=
  | LOG_LEVEL_NORMAL | LOG_LEVEL_DEBUG | LOG_LEVEL_WARN | LOG_LEVEL_ERROR.

Record Log : Type := mkLog { m_level : Level; m_line : list token }.

(** The constructor, by default of level normal. *)
Definition Log_new (level : Level) : Log := mkLog level [].

(** Insertion of a value, and of a stream manipulator such as [std::endl]. *)
Definition Log_insert (l : Log) (value : token) : Log := mkLog (m_level l) (m_line l ++ [value]).
Definition Log_manip (l : Log) (func : list token → list token) : Log :=
  mkLog (m_level l) (func (m_line l)).

Definition endl (line : list token) : list token := line ++ [T_endl].

(** The destructor; [debug] tells whether [DEBUG] is defined. *)
Definition Log_destroy {S} {C : Lens S console} (debug : bool) (l : Log) : M S unit :=
  match m_level l with
  | LOG_LEVEL_NORMAL => cout_put (m_line l)
  | LOG_LEVEL_DEBUG => if debug then cout_put (T_str "Debug: " :: m_line l) else mret tt
  | LOG_LEVEL_WARN => cerr_put (T_str "Warn: " :: m_line l)
  | LOG_LEVEL_ERROR => cerr_put (T_str "Error: " :: m_line l)
  end.

(** [LOG_X << s1 << s2 << std::endl;]: a temporary that dies with the statement. *)
Definition log_statement {S} {C : Lens S console} (debug : bool) (level : Level)
    (vs : list token) : M S unit :=
  Log_destroy debug (Log_manip (foldl Log_insert (Log_new level) vs) endl).

Definition LOG {S} {C : Lens S console} (s : string) : M S unit :=
  log_statement false LOG_LEVEL_NORMAL [T_str s].
Definition LOG_DEBUG {S} {C : Lens S console} (debug : bool) (s : string) : M S unit :=
  log_statement debug LOG_LEVEL_DEBUG [T_str s].
Definition LOG_WARN {S} {C : Lens S console} (s : string) : M S unit :=
  log_statement false LOG_LEVEL_WARN [T_str s].
Definition LOG_ERROR {S} {C : Lens S console} (s : string) : M S unit :=
  log_statement false LOG_LEVEL_ERROR [T_str s].

(** ** Facts *)

Lemma foldl_Log_insert l vs :
  foldl Log_insert l vs = mkLog (m_level l) (m_line l ++ vs).
Proof.
  revert l. induction vs as [|v vs IH]; intros l; simpl.
  - destruct l. by rewrite app_nil_r.
  - rewrite IH. simpl. by rewrite <- app_assoc.
Qed.

(** A statement prints its line, prefixed by its level, on the stream of its
    level. *)
Lemma run_log_statement {S} {C : Lens S console} debug level vs (s : S) :
  log_statement debug level vs s =
    match level with
    | LOG_LEVEL_NORMAL => cout_put (vs ++ [T_endl]) s
    | LOG_LEVEL_DEBUG =>
        if debug then cout_put (T_str "Debug: " :: vs ++ [T_endl]) s else (Ret tt, s)
    | LOG_LEVEL_WARN => cerr_put (T_str "Warn: " :: vs ++ [T_endl]) s
    | LOG_LEVEL_ERROR => cerr_put (T_str "Error: " :: vs ++ [T_endl]) s
    end.
Proof.
  unfold log_statement. rewrite foldl_Log_insert. simpl. by destruct level, debug.
Qed.

(** What a warning or an error adds to the console. *)
Definition warned (s : string) (c : console) : console :=
  Console (cout c) (cerr c ++ [T_str "Warn: "; T_str s; T_endl]).
Definition errored (s : string) (c : console) : console :=
  Console (cout c) (cerr c ++ [T_str "Error: "; T_str s; T_endl]).

Lemma run_LOG_WARN {S} {C : Lens S console} s (st : S) :
  LOG_WARN s st = (Ret tt, lset (warned s (lget st)) st).
Proof. unfold LOG_WARN. by rewrite run_log_statement. Qed.

Lemma run_LOG_ERROR {S} {C : Lens S console} s (st : S) :
  LOG_ERROR s st = (Ret tt, lset (errored s (lget st)) st).
Proof. unfold LOG_ERROR. by rewrite run_log_statement. Qed.

Lemma run_warn_line {S} {C : Lens S console} vs (st : S) :
  log_statement false LOG_LEVEL_WARN vs st
  = (Ret tt, lset (Console (cout (lget st))
                     (cerr (lget st) ++ T_str "Warn: " :: vs ++ [T_endl])) st).
Proof. by rewrite run_log_statement. Qed.
