(* ===== verification/LogTheorems.v ===== *)
(** * Lines of the log

    Several [Log] objects alive at once (a value inserted into one may be computed
    by a function that logs), beside what the program writes itself: each prints
    its own line, whole, when it dies. *)
From S2P Require Import Prelude Exceptions Effects Machine Floats Log.

(** What a program does with its log objects, named by numbers. *)
Inductive log_event : Type :=
  | L_new (i : nat) (level : Level)
  | L_insert (i : nat) (value : token)
  | L_manip (i : nat) (func : list token → list token)
  | L_destroy (i : nat)
  | L_cout (ts : list token).

(** The live objects and the console. *)
Definition logs : Type := gmap nat Log * console.

Section lines.
Context (debug : bool).
Implicit Types es past : list log_event.

(** An object used must be alive, and a new one have a name of its own. *)
Definition the_log (i : nat) : M logs Log :=
  s ← get; match s.1 !! i with Some l => mret l | None => undef DanglingPointer end.
Definition put_log (i : nat) (l : Log) : M logs unit := zoom (modify <[i := l]>).

Definition log_step (e : log_event) : M logs unit :=
  match e with
  | L_new i level =>
      s ← get;
      match s.1 !! i with Some _ => undef DanglingPointer | None => put_log i (Log_new level) end
  | L_insert i v => l ← the_log i; put_log i (Log_insert l v)
  | L_manip i f => l ← the_log i; put_log i (Log_manip l f)
  | L_destroy i => l ← the_log i; _ ← zoom (Log_destroy debug l); zoom (modify (delete i))
  | L_cout ts => cout_put ts
  end.

Fixpoint log_run es : M logs unit :=
  match es with
  | [] => mret tt
  | e :: es => _ ← log_step e; log_run es
  end.

(** ** What is expected

    Said without the operations of [Log]: a line is its level and the values
    inserted so far, the latest last. *)
Definition line : Type := Level * list token.

(** What the events on the object [i] make of its line, whatever the others do. *)
Definition alone_step (i : nat) (l : option line) (e : log_event) : option line :=
  match e with
  | L_new j level => if decide (j = i) then Some (level, []) else l
  | L_insert j v => if decide (j = i) then (λ l : line, (l.1, l.2 ++ [v])) <$> l else l
  | L_manip j f => if decide (j = i) then (λ l : line, (l.1, f l.2)) <$> l else l
  | L_destroy j => if decide (j = i) then None else l
  | L_cout _ => l
  end.
Definition alone (i : nat) past : option line := foldl (alone_step i) None past.

(** A line as it is printed: prefixed, to standard output or error. *)
Definition line_of (l : line) : list token * list token :=
  match l.1 with
  | LOG_LEVEL_NORMAL => (l.2, [])
  | LOG_LEVEL_DEBUG => (if debug then T_str "Debug: " :: l.2 else [], [])
  | LOG_LEVEL_WARN => ([], T_str "Warn: " :: l.2)
  | LOG_LEVEL_ERROR => ([], T_str "Error: " :: l.2)
  end.

(** What is printed, event by event: each line at the death of its object. *)
Fixpoint printed past es : list (list token * list token) :=
  match es with
  | [] => []
  | e :: es =>
      match e with
      | L_destroy i => from_option line_of ([], []) (alone i past)
      | L_cout ts => (ts, [])
      | _ => ([], [])
      end :: printed (past ++ [e]) es
  end.

(** ** What the objects hold *)
Definition log_line (l : Log) : line := (m_level l, m_line l).

Lemma run_Log_destroy l c : Log_destroy debug l c
  = (Ret tt, Console (cout c ++ (line_of (log_line l)).1) (cerr c ++ (line_of (log_line l)).2)).
Proof.
  destruct c, l as [[] ?]; unfold Log_destroy, line_of; simpl; try by rewrite app_nil_r.
  destruct debug; simpl; by rewrite !app_nil_r.
Qed.

#[local] Arguments Log_destroy : simpl never.

Lemma alone_snoc i past e : alone i (past ++ [e]) = alone_step i (alone i past) e.
Proof. unfold alone. by rewrite foldl_app. Qed.

(** Each live object holds the line that is expected of it. *)
Definition replayed past (live : gmap nat Log) : Prop := ∀ i, log_line <$> live !! i = alone i past.

(** An event that changes the objects as each of them expects. *)
Lemma replayed_step past e live live' : replayed past live →
  (∀ i, log_line <$> live' !! i = alone_step i (log_line <$> live !! i) e) → replayed (past ++ [e]) live'.
Proof. intros H H' i. by rewrite alone_snoc, <- H, H'. Qed.

Lemma log_step_run past e live c st' : replayed past live → log_step e (live, c) = (Ret tt, st') →
  replayed (past ++ [e]) st'.1 ∧
  ∃ o, printed past [e] = [o] ∧ st'.2 = Console (cout c ++ o.1) (cerr c ++ o.2).
Proof.
  intros H Hr. destruct e as [i level|i v|i f|i|ts]; simpl in Hr;
    unfold the_log, put_log, mbind, M_bind, get in Hr; simpl in Hr.
  1-4: destruct (live !! i) as [l|] eqn:Hi; try done; simpl in Hr.
  4: unfold zoom at 1 in Hr; simpl in Hr; rewrite run_Log_destroy in Hr; simpl in Hr.
  all: injection Hr as <-; split;
    [apply (replayed_step past _ live); [done|]; intros j; simpl
    |eexists; split; [done|]; simpl; rewrite <- ?H, ?Hi, ?app_nil_r; by destruct c].
  5: done.
  all: destruct (decide (i = j)) as [<-|]; rewrite ?lookup_insert_eq, ?lookup_delete_eq, ?Hi;
    first [done | by rewrite lookup_insert_ne | by rewrite lookup_delete_ne].
Qed.

(** C28: the lines of the log are whole: however the lives of several log objects
    overlap, and whatever the program prints meanwhile, each object prints
    exactly once, when it is destroyed, the values inserted into it and nothing
    of another, with the prefix of its level, on the stream of its level; an
    object of level debug prints nothing unless [DEBUG] is defined; a live object
    holds the level it was made with and what was inserted since, in order. *)
Theorem log_lines_whole es c live c' : log_run es (∅, c) = (Ret tt, (live, c')) →
  cout c' = cout c ++ concat (map fst (printed [] es)) ∧
  cerr c' = cerr c ++ concat (map snd (printed [] es)) ∧
  ∀ i, log_line <$> live !! i = alone i es.
Proof.
  assert (∀ past live0 c0, replayed past live0 → log_run es (live0, c0) = (Ret tt, (live, c')) →
    cout c' = cout c0 ++ concat (map fst (printed past es)) ∧
    cerr c' = cerr c0 ++ concat (map snd (printed past es)) ∧ replayed (past ++ es) live) as Hgen.
  { induction es as [|e es IH]; intros past live0 c0 H0 Hr.
    - injection Hr as <- <-. simpl. by rewrite !app_nil_r.
    - apply bind_Ret_inv in Hr as ([] & [live1 c1] & Hr1 & Hr).
      destruct (log_step_run past e live0 c0 _ H0 Hr1) as (H1 & o & [= Ho] & Hc1). simpl in Hc1.
      destruct (IH _ _ _ H1 Hr) as (-> & -> & H2). rewrite <- app_assoc in H2. split_all.
      all: simpl; rewrite Ho, Hc1; simpl; by rewrite app_assoc. }
  intros Hr. assert (replayed [] ∅) as H0 by done. by destruct (Hgen [] ∅ c H0 Hr) as (? & ? & ?).
Qed.
End lines.

(** A warning during which a function is called that logs and prints. *)
Definition nested_logs : list log_event :=
  [L_new 0 LOG_LEVEL_WARN; L_insert 0 (T_str "value: ");
   L_new 1 LOG_LEVEL_NORMAL; L_insert 1 (T_str "computing"); L_manip 1 endl; L_destroy 1;
   L_cout [T_str "done"]; L_insert 0 (T_int 3); L_manip 0 endl; L_destroy 0].

Lemma log_lines_whole_witness : ∃ live c',
  log_run false nested_logs (∅, Console [] []) = (Ret tt, (live, c')) ∧
  cout c' = [T_str "computing"; T_endl; T_str "done"] ∧
  cerr c' = [T_str "Warn: "; T_str "value: "; T_int 3; T_endl].
Proof.
  destruct (log_run false nested_logs (∅, Console [] [])) as [o [live c']] eqn:E.
  assert (o = Ret tt) as ->.
  { pose proof (f_equal fst E) as H. vm_compute in H. by rewrite <- H. }
  destruct (log_lines_whole false nested_logs _ _ _ E) as (H1 & H2 & _).
  exists live, c'. split; [done|]. split; [exact H1|exact H2].
Defined.
