(* ===== verification/ReceivedMessage.v ===== *)
(** * ReceivedMessage: reading the arguments of a message

    The members of [ReceivedMessage] and [MessageSource].  Reading goes through
    liblo: the type string, the argument count and the argument pointers of the
    message in the current [world].  A [try] function gives [Some v] when it
    returns true after writing [v], and [None] when it returns false and writes
    nothing. *)
From S2P Require Import Prelude Exceptions Effects Machine Floats Liblo OscTypes Log.
Open Scope Z_scope.

Record ReceivedMessage : Type := mkReceived {
  rm_addressPattern : string;
  rm_message : option ptr
}.

Record MessageSource : Type := mkSource { ms_address : option ptr }.

(** [std::string::operator[]]: the terminator may be read, nothing after it. *)
Definition string_at (s : string) (i : Z) : outcome ascii :=
  match String.get (Z.to_nat i) s with
  | Some c => Ret c
  | None => if decide (i = Z.of_nat (String.length s)) then Ret "000"%char else Undef OutOfBounds
  end.

(** A pointer to the C string at the start of a region. *)
Definition cstr_at (mem : list Z) : cptr :=
  match read_cstr mem with Ret s => CStr s | _ => CDangling end.

Section received.
Context {L : Liblo}.

(** The constructor takes a reference to the message. *)
Definition ReceivedMessage_new (addressPattern : string) (message : option ptr)
    : M world ReceivedMessage :=
  _ ← lo_message_incref message;
  mret (mkReceived addressPattern message).

Section reading.
Context (w : world) (this : ReceivedMessage).

(** ** Info *)

Definition address : string := rm_addressPattern this.

Definition types : outcome string :=
  p ← lo_message_get_types (rm_message this) w; std_string p.

Definition checkAddressAndTypes (addr : string) (tys : string) : outcome bool :=
  if bool_decide (addr = rm_addressPattern this)
  then t ← types; Ret (bool_decide (tys = t))
  else Ret false.

Definition numArgs : outcome Z :=
  n ← lo_message_get_argc (rm_message this) w; Ret (wrap 32 n).

Definition typeTag (at_ : Z) : outcome ascii :=
  n ← numArgs;
  if decide (at_ < n) then t ← types; string_at t at_ else Ret "*"%char.

(** The timestamp goes through [TimeTag(lo_timetag)]. *)
Definition getTimeTag (storage : lo_timetag) : outcome TimeTag :=
  t ← lo_message_get_timestamp (rm_message this) w; Ret (TimeTag_of_lo storage t).

(** ** Types *)

Definition tag_is (c : ascii) (at_ : Z) : outcome bool :=
  t ← typeTag at_; Ret (bool_decide (t = c)).

Definition tag_is_either (c d : ascii) (at_ : Z) : outcome bool :=
  b ← tag_is c at_; if (b : bool) then Ret true else tag_is d at_.

Definition isBool := tag_is_either "T" "F".
Definition isChar := tag_is "c".
Definition isNil := tag_is "N".
Definition isInfinitum := tag_is "I".
Definition isInt := tag_is_either "i" "h".
Definition isInt32 := tag_is "i".
Definition isInt64 := tag_is "h".
Definition isFloat := tag_is "f".
Definition isDouble := tag_is "d".
Definition isText := tag_is_either "s" "S".
Definition isString := tag_is "s".
Definition isSymbol := tag_is "S".
Definition isMidiMessage := tag_is "m".
Definition isTimeTag := tag_is "t".
Definition isBlob := tag_is "b".

(** ** Values *)

(** The memory the argument pointer points to. *)
Definition arg (at_ : Z) : outcome (list Z) :=
  n ← numArgs;
  if decide (at_ < n) then
    argv ← lo_message_get_argv (rm_message this) w;
    match argv !! Z.to_nat at_ with Some mem => Ret mem | None => Undef OutOfBounds end
  else Throw argException.

(** [if(!isX(at)) throw TypeException();] *)
Definition require (test : Z → outcome bool) (at_ : Z) : outcome unit :=
  b ← test at_; if (b : bool) then Ret tt else Throw typeException.

Definition asBool (at_ : Z) : outcome bool :=
  _ ← require isBool at_; t ← typeTag at_; Ret (bool_decide (t = "T"%char)).
Definition asChar (at_ : Z) : outcome Z :=
  _ ← require isChar at_; mem ← arg at_; load_uint 1 mem.
Definition asInt32 (at_ : Z) : outcome Z :=
  _ ← require isInt32 at_; mem ← arg at_; load_sint 4 mem.
Definition asInt64 (at_ : Z) : outcome Z :=
  _ ← require isInt64 at_; mem ← arg at_; load_sint 8 mem.
Definition asFloat (at_ : Z) : outcome float :=
  _ ← require isFloat at_; mem ← arg at_; z ← load_uint 4 mem; Ret (float_of_bits z).
Definition asDouble (at_ : Z) : outcome double :=
  _ ← require isDouble at_; mem ← arg at_; z ← load_uint 8 mem; Ret (double_of_bits z).
Definition asString (at_ : Z) : outcome string :=
  _ ← require isString at_; mem ← arg at_; std_string (cstr_at mem).
Definition asMidiMessage (at_ : Z) : outcome MidiMessage :=
  _ ← require isMidiMessage at_; mem ← arg at_; MidiMessage_of mem true.
Definition asSymbol (at_ : Z) : outcome Symbol :=
  _ ← require isSymbol at_; mem ← arg at_; Ret (Symbol_of_cstr (cstr_at mem)).
Definition asTimeTag (at_ : Z) : outcome TimeTag :=
  _ ← require isTimeTag at_;
  mem ← arg at_; s ← load_uint 4 mem;
  mem' ← arg at_; f ← load_uint 4 (drop 4 mem');
  Ret (TimeTag_of_sec_frac s f).
(** No test of the type tag here. *)
Definition asBlob (at_ : Z) : outcome Blob :=
  b ← arg at_;
  d ← lo_blob_dataptr b; n ← lo_blob_datasize b;
  Ret (Blob_of (Some d) n).

(** ** Conversions that fail silently *)

(** The cascade the numeric [try] functions share: the first type test that
    holds converts the value. *)
Fixpoint cascade {A} (cases : list ((Z → outcome bool) * (Z → outcome A))) (at_ : Z)
    : outcome (option A) :=
  match cases with
  | [] => Ret None
  | (test, as_) :: cases =>
      b ← test at_;
      if (b : bool) then v ← as_ at_; Ret (Some v) else cascade cases at_
  end.

Definition conv {A B} (f : A → B) (as_ : Z → outcome A) (at_ : Z) : outcome B :=
  v ← as_ at_; Ret (f v).
Definition convO {A B} (f : A → outcome B) (as_ : Z → outcome A) (at_ : Z) : outcome B :=
  v ← as_ at_; f v.

Definition bool_of_int (z : Z) : bool := bool_decide (z ≠ 0).
Definition int_of_bool (b : bool) : Z := if b then 1 else 0.

Definition tryBool : Z → outcome (option bool) := cascade
  [(isBool, asBool);
   (isInt32, conv bool_of_int asInt32);
   (isInt64, conv bool_of_int asInt64);
   (isFloat, conv bool_of_float asFloat);
   (isDouble, conv bool_of_float asDouble)].

Definition tryChar : Z → outcome (option ascii) := cascade
  [(isChar, conv ascii_of_byte asChar);
   (isInt32, conv ascii_of_byte asInt32);
   (isInt64, conv ascii_of_byte asInt64)].

Definition tryNumber_int : Z → outcome (option Z) := cascade
  [(isBool, conv int_of_bool asBool);
   (isInt32, asInt32);
   (isInt64, conv (swrap 32) asInt64);
   (isFloat, convO to_int asFloat);
   (isDouble, convO to_int asDouble)].

Definition tryNumber_uint : Z → outcome (option Z) := cascade
  [(isBool, conv int_of_bool asBool);
   (isInt32, conv (wrap 32) asInt32);
   (isInt64, conv (wrap 32) asInt64);
   (isFloat, convO to_uint asFloat);
   (isDouble, convO to_uint asDouble)].

Definition tryNumber_float : Z → outcome (option float) := cascade
  [(isBool, conv (λ b, float_of_Z (int_of_bool b)) asBool);
   (isInt32, conv float_of_Z asInt32);
   (isInt64, conv float_of_Z asInt64);
   (isFloat, asFloat);
   (isDouble, conv float_of_double asDouble)].

Definition tryNumber_double : Z → outcome (option double) := cascade
  [(isBool, conv (λ b, double_of_Z (int_of_bool b)) asBool);
   (isInt32, conv double_of_Z asInt32);
   (isInt64, conv double_of_Z asInt64);
   (isFloat, conv double_of_float asFloat);
   (isDouble, asDouble)].

Definition tryString : Z → outcome (option string) := cascade
  [(isString, asString);
   (isSymbol, λ at_, s ← asSymbol at_; std_string (value s))].
End reading.

(** ** Printing *)

Definition ReceivedMessage_print (this : ReceivedMessage) : M (console * world) unit :=
  _ ← cout_put [T_str (rm_addressPattern this); T_str " "];
  zoom (lo_message_pp (rm_message this)).

Definition printArg (this : ReceivedMessage) (at_ : Z) : M (console * world) unit :=
  w ← gets snd;
  t ← liftO (typeTag w this at_);
  mem ← liftO (arg w this at_);
  zoom (lo_arg_pp t mem).

(** The loop of [printAllArgs] over the [n] arguments from index [i] on. *)
Fixpoint printAllArgs_loop (this : ReceivedMessage) (argv : list (list Z)) (n : nat) (i : Z)
    : M (console * world) unit :=
  match n with
  | O => mret tt
  | S n =>
      w ← gets snd;
      t ← liftO (typeTag w this i);
      mem ← liftO (match argv !! Z.to_nat i with Some m => Ret m | None => Undef OutOfBounds end);
      _ ← zoom (lo_arg_pp t mem);
      printAllArgs_loop this argv n (i + 1)
  end.

Definition printAllArgs (this : ReceivedMessage) : M (console * world) unit :=
  w ← gets snd;
  argc ← liftO (lo_message_get_argc (rm_message this) w);
  argv ← liftO (lo_message_get_argv (rm_message this) w);
  printAllArgs_loop this argv (Z.to_nat argc) 0.

(** The underlying message. *)
Definition ReceivedMessage_message (this : ReceivedMessage) : option ptr := rm_message this.

(** ** MessageSource *)

Definition MessageSource_new (address : option ptr) : MessageSource := mkSource address.

Definition MessageSource_string (f : option ptr → world → outcome cptr) (this : MessageSource)
    (w : world) : outcome string := p ← f (ms_address this) w; std_string p.

Definition MessageSource_getHostname := MessageSource_string lo_address_get_hostname.
Definition MessageSource_getPort := MessageSource_string lo_address_get_port.
Definition MessageSource_getUrl := MessageSource_string lo_address_get_url.

Definition MessageSource_print (this : MessageSource) : M (console * world) unit :=
  w ← gets snd;
  h ← liftO (MessageSource_getHostname this w);
  p ← liftO (MessageSource_getPort this w);
  cout_put [T_str h; T_str " "; T_str p; T_endl].
End received.
