(* ===== verification/ReceivedProps.v ===== *)
(** * Reading messages: lemmas

    What each member of [ReceivedMessage] gives on a live message, in terms of
    the arguments the message holds. *)
From S2P Require Import Prelude Exceptions Effects Machine Floats Liblo OscTypes Log ReceivedMessage.
Open Scope Z_scope.

Lemma get_tags args i : String.get i (tags args) = atom_tag <$> (args !! i).
Proof. revert i. induction args as [|a args IH]; intros [|i]; simpl; auto. Qed.

(** The tag [typeTag] gives: that of the argument, or ['*']. *)
Definition tag_at (args : list atom) (at_ : Z) : ascii :=
  match args !! Z.to_nat at_ with Some a => atom_tag a | None => "*"%char end.

Section live.
Context {L : Liblo} {LL : LibloLaws L}.
Context (w : world) (path : string) (m : ptr) (args : list atom) (r : nat).
Context (Hm : v_msgs (view w) !! m = Some (Msg args r)).
Context (Hok : Forall atom_ok args) (Hlen : Z.of_nat (length args) < 2 ^ 32).

#[local] Notation this := (mkReceived path (Some m)).

Lemma run_types : types w this = Ret (tags args).
Proof. unfold types. simpl. by rewrite (law_message_get_types _ _ _ _ Hm). Qed.

Lemma run_numArgs : numArgs w this = Ret (Z.of_nat (length args)).
Proof.
  unfold numArgs. simpl. rewrite (law_message_get_argc _ _ _ _ Hm).
  unfold mbind, outcome_bind. by rewrite wrap_small by lia.
Qed.

Lemma run_typeTag at_ : 0 ≤ at_ → typeTag w this at_ = Ret (tag_at args at_).
Proof.
  intros Hat. unfold typeTag, tag_at. rewrite run_numArgs, run_types.
  unfold mbind, outcome_bind. case_decide as Hlt.
  - unfold string_at. rewrite get_tags.
    destruct (lookup_lt_is_Some_2 args (Z.to_nat at_)) as [a Ha]; [lia|]. by rewrite Ha.
  - by rewrite lookup_ge_None_2 by lia.
Qed.

Lemma run_tag_is c at_ : 0 ≤ at_ →
  tag_is w this c at_ = Ret (bool_decide (tag_at args at_ = c)).
Proof. intros. unfold tag_is. by rewrite run_typeTag. Qed.

Lemma run_tag_is_either c d at_ : 0 ≤ at_ →
  tag_is_either w this c d at_ =
    Ret (bool_decide (tag_at args at_ = c) || bool_decide (tag_at args at_ = d)).
Proof.
  intros. unfold tag_is_either. rewrite !run_tag_is by done.
  unfold mbind, outcome_bind. by destruct (bool_decide (tag_at args at_ = c)).
Qed.

Lemma run_arg at_ : 0 ≤ at_ →
  match args !! Z.to_nat at_ with
  | Some a => ∃ mem, arg w this at_ = Ret mem ∧ arg_repr a mem
  | None => arg w this at_ = Throw argException
  end.
Proof.
  intros Hat. unfold arg. rewrite run_numArgs. unfold mbind, outcome_bind.
  destruct (args !! Z.to_nat at_) as [a|] eqn:Ha.
  - pose proof (lookup_lt_Some _ _ _ Ha). rewrite decide_True by lia.
    destruct (law_message_get_argv _ _ _ _ Hm Hok) as (mems & Hr & Hall). simpl. rewrite Hr.
    destruct (Forall2_lookup_l _ _ _ _ _ Hall Ha) as (mem & Hmem & Hrep).
    rewrite Hmem. by exists mem.
  - apply lookup_ge_None_1 in Ha. by rewrite decide_False by lia.
Qed.

Lemma arg_ok at_ a : args !! Z.to_nat at_ = Some a → atom_ok a.
Proof. intros Ha. by eapply Forall_lookup_1. Qed.

(** The value accessors, as functions of the argument at the index. *)
Definition the_bool (a : option atom) : outcome bool :=
  match a with Some ATrue => Ret true | Some AFalse => Ret false | _ => Throw typeException end.
Definition the_char (a : option atom) : outcome Z :=
  match a with Some (AChar c) => Ret (byte_of_ascii c) | _ => Throw typeException end.
Definition the_int32 (a : option atom) : outcome Z :=
  match a with Some (AInt32 z) => Ret z | _ => Throw typeException end.
Definition the_int64 (a : option atom) : outcome Z :=
  match a with Some (AInt64 z) => Ret z | _ => Throw typeException end.
Definition the_float (a : option atom) : outcome float :=
  match a with Some (AFloat f) => Ret f | _ => Throw typeException end.
Definition the_double (a : option atom) : outcome double :=
  match a with Some (ADouble d) => Ret d | _ => Throw typeException end.
Definition the_string (a : option atom) : outcome string :=
  match a with Some (AString s) => Ret s | _ => Throw typeException end.
Definition the_symbol (a : option atom) : outcome Symbol :=
  match a with Some (ASymbol s) => Ret (mkSymbol (CStr s)) | _ => Throw typeException end.
Definition the_midi (a : option atom) : outcome MidiMessage :=
  match a with Some (AMidi bs) => Ret (mkMidi (reverse bs)) | _ => Throw typeException end.
Definition the_timetag (a : option atom) : outcome TimeTag :=
  match a with Some (ATimetag t) => Ret (mkTimeTag t) | _ => Throw typeException end.

(** One accessor: case on the argument, run the type test, then read. *)
Ltac access at_ Hat :=
  unfold require;
  rewrite ?run_tag_is, ?run_tag_is_either by done;
  pose proof (run_arg at_ Hat) as Harg; pose proof (arg_ok at_) as Haok; unfold tag_at;
  destruct (args !! Z.to_nat at_) as [[]|];
  try (by rewrite ?bool_decide_false by done);
  try (specialize (Haok _ eq_refl); cbn [atom_ok] in Haok;
       destruct Harg as (mem & Harg & Hrep); cbn [arg_repr] in Hrep);
  cbv [mbind outcome_bind]; rewrite ?bool_decide_true by done; cbn [orb];
  try rewrite Harg.

Lemma run_asBool at_ : 0 ≤ at_ → asBool w this at_ = the_bool (args !! Z.to_nat at_).
Proof.
  intros Hat. unfold asBool, isBool. rewrite run_typeTag by done.
  unfold require. rewrite run_tag_is_either by done. unfold tag_at.
  by destruct (args !! Z.to_nat at_) as [[]|].
Qed.

Lemma run_asChar at_ : 0 ≤ at_ → asChar w this at_ = the_char (args !! Z.to_nat at_).
Proof.
  intros Hat. unfold asChar, isChar. access at_ Hat. destruct Hrep as [k ->].
  unfold load_uint. case_decide as Hk; [|simpl in Hk; lia]. simpl.
  by rewrite Z.shiftl_0_l, Z.lor_0_r.
Qed.

Lemma run_asInt32 at_ : 0 ≤ at_ → asInt32 w this at_ = the_int32 (args !! Z.to_nat at_).
Proof.
  intros Hat. unfold asInt32, isInt32. access at_ Hat. destruct Hrep as [k ->].
  by rewrite load_store_sint, swrap_small by (lia || exact Haok).
Qed.

Lemma run_asInt64 at_ : 0 ≤ at_ → asInt64 w this at_ = the_int64 (args !! Z.to_nat at_).
Proof.
  intros Hat. unfold asInt64, isInt64. access at_ Hat. destruct Hrep as [k ->].
  by rewrite load_store_sint, swrap_small by (lia || exact Haok).
Qed.

Lemma run_asFloat at_ : 0 ≤ at_ → asFloat w this at_ = the_float (args !! Z.to_nat at_).
Proof.
  intros Hat. unfold asFloat, isFloat. access at_ Hat. destruct Hrep as [k ->].
  rewrite load_store_uint, wrap_small by (by apply float_bits_range).
  by rewrite float_bits_exact.
Qed.

Lemma run_asDouble at_ : 0 ≤ at_ → asDouble w this at_ = the_double (args !! Z.to_nat at_).
Proof.
  intros Hat. unfold asDouble, isDouble. access at_ Hat. destruct Hrep as [k ->].
  rewrite load_store_uint, wrap_small by (by apply double_bits_range).
  by rewrite double_bits_exact.
Qed.

Lemma run_asString at_ : 0 ≤ at_ → asString w this at_ = the_string (args !! Z.to_nat at_).
Proof.
  intros Hat. unfold asString, isString. access at_ Hat. destruct Hrep as [k ->].
  unfold cstr_at. by rewrite read_cstr_bytes.
Qed.

Lemma run_asSymbol at_ : 0 ≤ at_ → asSymbol w this at_ = the_symbol (args !! Z.to_nat at_).
Proof.
  intros Hat. unfold asSymbol, isSymbol. access at_ Hat. destruct Hrep as [k ->].
  unfold cstr_at. by rewrite read_cstr_bytes.
Qed.

Lemma run_asMidiMessage at_ : 0 ≤ at_ →
  asMidiMessage w this at_ = the_midi (args !! Z.to_nat at_).
Proof.
  intros Hat. unfold asMidiMessage, isMidiMessage. access at_ Hat.
  destruct Hrep as [k ->], Haok as [Hl _].
  by destruct bytes as [|b0 [|b1 [|b2 [|b3 [|]]]]].
Qed.

Lemma run_asTimeTag at_ : 0 ≤ at_ → asTimeTag w this at_ = the_timetag (args !! Z.to_nat at_).
Proof.
  intros Hat. unfold asTimeTag, isTimeTag. access at_ Hat.
  destruct Hrep as [k ->], Haok as [Hs Hf], t as [s f].
  rewrite load_store_uint. rewrite drop_app_length' by (by rewrite length_store_int).
  rewrite load_store_uint. simpl in Hs, Hf.
  by rewrite !wrap_small by first [exact Hs|exact Hf].
Qed.

Lemma run_asBlob at_ : 0 ≤ at_ →
  match args !! Z.to_nat at_ with
  | Some a => ∃ mem, arg_repr a mem ∧
      asBlob w this at_ = (d ← lo_blob_dataptr mem; n ← lo_blob_datasize mem;
                           Ret (Blob_of (Some d) n))
  | None => asBlob w this at_ = Throw argException
  end.
Proof.
  intros Hat. pose proof (run_arg at_ Hat) as H. unfold asBlob.
  destruct (args !! Z.to_nat at_) as [a|].
  - destruct H as (mem & -> & Hrep). by exists mem.
  - by rewrite H.
Qed.

(** The silent conversions. *)
Definition the_tryBool (a : option atom) : outcome (option bool) :=
  match a with
  | Some ATrue => Ret (Some true)
  | Some AFalse => Ret (Some false)
  | Some (AInt32 z) | Some (AInt64 z) => Ret (Some (bool_of_int z))
  | Some (AFloat f) | Some (ADouble f) => Ret (Some (bool_of_float f))
  | _ => Ret None
  end.

Definition the_tryChar (a : option atom) : outcome (option ascii) :=
  match a with
  | Some (AChar c) => Ret (Some c)
  | Some (AInt32 z) | Some (AInt64 z) => Ret (Some (ascii_of_byte z))
  | _ => Ret None
  end.

(** The conversions to an integer type: [of_int] wraps, [of_float] truncates. *)
Definition the_tryInt (of_int : Z → Z) (of_float : spec_float → outcome Z) (a : option atom)
    : outcome (option Z) :=
  match a with
  | Some ATrue => Ret (Some 1)
  | Some AFalse => Ret (Some 0)
  | Some (AInt32 z) | Some (AInt64 z) => Ret (Some (of_int z))
  | Some (AFloat f) | Some (ADouble f) => z ← of_float f; Ret (Some z)
  | _ => Ret None
  end.

Definition the_tryFloat (of_int : Z → spec_float) (of_f32 of_f64 : spec_float → spec_float)
    (a : option atom) : outcome (option spec_float) :=
  match a with
  | Some ATrue => Ret (Some (of_int 1))
  | Some AFalse => Ret (Some (of_int 0))
  | Some (AInt32 z) | Some (AInt64 z) => Ret (Some (of_int z))
  | Some (AFloat f) => Ret (Some (of_f32 f))
  | Some (ADouble d) => Ret (Some (of_f64 d))
  | _ => Ret None
  end.

Definition the_tryString (a : option atom) : outcome (option string) :=
  match a with
  | Some (AString s) | Some (ASymbol s) => Ret (Some s)
  | _ => Ret None
  end.

(** Run a cascade: the tests, the accessors, then case on the argument. *)
Ltac run_cascade at_ :=
  simpl; unfold conv, convO, isBool, isChar, isInt32, isInt64, isFloat, isDouble, isString,
    isSymbol;
  rewrite ?run_tag_is_either, ?run_tag_is, ?run_asBool, ?run_asChar, ?run_asInt32, ?run_asInt64,
    ?run_asFloat, ?run_asDouble, ?run_asString, ?run_asSymbol by done;
  unfold tag_at; pose proof (arg_ok at_) as Haok;
  destruct (args !! Z.to_nat at_) as [[]|];
  rewrite ?bool_decide_true by done; rewrite ?bool_decide_false by done;
  cbv [mbind outcome_bind]; simpl.

Lemma run_tryBool at_ : 0 ≤ at_ → tryBool w this at_ = the_tryBool (args !! Z.to_nat at_).
Proof. intros. unfold tryBool. by run_cascade at_. Qed.

Lemma run_tryChar at_ : 0 ≤ at_ → tryChar w this at_ = the_tryChar (args !! Z.to_nat at_).
Proof.
  intros. unfold tryChar. run_cascade at_; try done. by rewrite ascii_of_byte_of_ascii.
Qed.

Lemma run_tryNumber_int at_ : 0 ≤ at_ →
  tryNumber_int w this at_ = the_tryInt (swrap 32) to_int (args !! Z.to_nat at_).
Proof.
  intros. unfold tryNumber_int. run_cascade at_; try done.
  by rewrite swrap_small by first [lia|exact (Haok _ eq_refl)].
Qed.

Lemma run_tryNumber_uint at_ : 0 ≤ at_ →
  tryNumber_uint w this at_ = the_tryInt (wrap 32) to_uint (args !! Z.to_nat at_).
Proof. intros. unfold tryNumber_uint. by run_cascade at_. Qed.

Lemma run_tryNumber_float at_ : 0 ≤ at_ →
  tryNumber_float w this at_ =
    the_tryFloat float_of_Z id float_of_double (args !! Z.to_nat at_).
Proof. intros. unfold tryNumber_float. by run_cascade at_. Qed.

Lemma run_tryNumber_double at_ : 0 ≤ at_ →
  tryNumber_double w this at_ =
    the_tryFloat double_of_Z double_of_float id (args !! Z.to_nat at_).
Proof. intros. unfold tryNumber_double. by run_cascade at_. Qed.

Lemma run_tryString at_ : 0 ≤ at_ → tryString w this at_ = the_tryString (args !! Z.to_nat at_).
Proof. intros. unfold tryString. by run_cascade at_. Qed.

Lemma run_checkAddressAndTypes addr tys :
  checkAddressAndTypes w this addr tys =
    Ret (bool_decide (addr = path) && bool_decide (tys = tags args)).
Proof.
  unfold checkAddressAndTypes. rewrite run_types. simpl. by case_bool_decide.
Qed.
End live.
