(* ===== verification/ReceivedTheorems.v ===== *)
(** * Theorems about received messages *)
From S2P Require Import Prelude Exceptions Effects Machine Floats Liblo LibloModel OscTypes OscSender SenderSpec SenderRefine SenderProps SenderTheorems Log ReceivedMessage ReceivedProps.
Open Scope Z_scope.

(** A message of the reference liblo with one argument of each type. *)
Definition sample_args : list atom :=
  match sample_message with PMessage _ args => args | _ => [] end.
Definition rw : mworld :=
  MWorld (View {[ 1%positive := Msg sample_args 0 ]} ∅ ∅ ∅ ∅ []) 5 [] None.
Definition rmsg : ReceivedMessage := mkReceived "/test3" (Some 1%positive).

Lemma sample_args_ok : Forall atom_ok sample_args.
Proof. apply (Forall_inv samples_ok). Qed.

Section theorems.
Context {L : Liblo} {LL : LibloLaws L}.

(** A live message whose arguments are values of their C types. *)
Definition holds (w : world) (m : ptr) (args : list atom) : Prop :=
  (∃ r, v_msgs (view w) !! m = Some (Msg args r)) ∧
  Forall atom_ok args ∧ Z.of_nat (length args) < 2 ^ 32.

(** C19: every accessor, [asBlob] apart, returns exactly the argument at its index
    when it has the requested type (a MIDI message with its bytes reversed), and
    throws [TypeException] on an argument of another type and past the end;
    [arg] and [asBlob] throw [ArgException] past the end.  [asBlob] returns the
    data and the size of a blob; it does not test the type, and on an argument
    of another type returns, as if they were a blob, whatever liblo makes of its
    bytes. *)
Theorem accessors_exact w path m args at_ :
  holds w m args → 0 ≤ at_ →
  let this := mkReceived path (Some m) in
  let a := args !! Z.to_nat at_ in
  asBool w this at_ = the_bool a ∧ asChar w this at_ = the_char a ∧
  asInt32 w this at_ = the_int32 a ∧ asInt64 w this at_ = the_int64 a ∧
  asFloat w this at_ = the_float a ∧ asDouble w this at_ = the_double a ∧
  asString w this at_ = the_string a ∧ asSymbol w this at_ = the_symbol a ∧
  asMidiMessage w this at_ = the_midi a ∧ asTimeTag w this at_ = the_timetag a ∧
  match a with
  | None => arg w this at_ = Throw argException ∧ asBlob w this at_ = Throw argException
  | Some x => ∃ mem, arg_repr x mem ∧ arg w this at_ = Ret mem ∧
      match x with
      | ABlob d => ∃ k, asBlob w this at_ = Ret (Blob_of (Some (d ++ k)) (Z.of_nat (length d)))
      | _ => asBlob w this at_ = (d ← lo_blob_dataptr mem; n ← lo_blob_datasize mem;
                                  Ret (Blob_of (Some d) n))
      end
  end.
Proof.
  intros ([r Hm] & Hok & Hlen) Hat this a.
  pose proof (run_arg w path m args r Hm Hok Hlen at_ Hat) as Harg.
  split_all; eauto using run_asBool, run_asChar, run_asInt32, run_asInt64, run_asFloat,
    run_asDouble, run_asString, run_asSymbol, run_asMidiMessage, run_asTimeTag.
  unfold asBlob, this, a. destruct (args !! Z.to_nat at_) as [x|].
  - destruct Harg as (mem & -> & Hrep). exists mem. split_all. destruct x; try done.
    destruct Hrep as [Hsz [k Hd]]. exists k. simpl. by rewrite Hd, Hsz.
  - by rewrite Harg.
Qed.

(** C20: the silent conversions: each gives the converted value on the types it
    accepts and false on every other type and past the end, where the
    destination is not written; the only undefined behaviour is a floating
    value outside the integer type. *)
Theorem try_conversions_exact w path m args at_ :
  holds w m args → 0 ≤ at_ →
  let this := mkReceived path (Some m) in
  let a := args !! Z.to_nat at_ in
  tryBool w this at_ = the_tryBool a ∧ tryChar w this at_ = the_tryChar a ∧
  tryNumber_int w this at_ = the_tryInt (swrap 32) to_int a ∧
  tryNumber_uint w this at_ = the_tryInt (wrap 32) to_uint a ∧
  tryNumber_float w this at_ = the_tryFloat float_of_Z id float_of_double a ∧
  tryNumber_double w this at_ = the_tryFloat double_of_Z double_of_float id a ∧
  tryString w this at_ = the_tryString a.
Proof.
  intros ([r Hm] & Hok & Hlen) Hat this a.
  split_all; eauto using run_tryBool, run_tryChar, run_tryNumber_int, run_tryNumber_uint,
    run_tryNumber_float, run_tryNumber_double, run_tryString.
Qed.

(** C33: [checkAddressAndTypes] holds exactly for the address and the type string
    of the message; after it has held, the argument at each index of the string
    is there with the type the string says, as [typeTag] reports. *)
Theorem checked_types_readable w path m args addr tys b :
  holds w m args →
  checkAddressAndTypes w (mkReceived path (Some m)) addr tys = Ret b →
  (b = true ↔ addr = path ∧ tys = tags args) ∧
  (b = true → ∀ i c, String.get i tys = Some c → ∃ a,
     args !! i = Some a ∧ atom_tag a = c ∧
     typeTag w (mkReceived path (Some m)) (Z.of_nat i) = Ret c).
Proof.
  intros ([r Hm] & Hok & Hlen) Hc.
  rewrite (run_checkAddressAndTypes w path m args r Hm) in Hc. injection Hc as <-.
  assert (bool_decide (addr = path) && bool_decide (tys = tags args) = true ↔
          addr = path ∧ tys = tags args) as Hiff by (rewrite andb_true_iff, !bool_decide_eq_true; done).
  split; [done|]. rewrite Hiff. intros [-> ->] i c Hi. rewrite get_tags in Hi.
  apply fmap_Some in Hi as (a & Ha & ->). exists a. split_all.
  rewrite (run_typeTag w path m args r Hm Hlen) by lia. unfold tag_at. by rewrite Nat2Z.id, Ha.
Qed.

(** The type tests on an index past the end all return false, although the
    header announces an exception; [arg] and [asBlob] throw [ArgException], the
    other accessors [TypeException]. *)
Theorem past_the_end w path m args at_ :
  holds w m args → Z.of_nat (length args) ≤ at_ →
  let this := mkReceived path (Some m) in
  typeTag w this at_ = Ret "*"%char ∧
  Forall (λ test, test w this at_ = Ret false)
    [isBool; isChar; isNil; isInfinitum; isInt; isInt32; isInt64; isFloat; isDouble; isText;
     isString; isSymbol; isMidiMessage; isTimeTag; isBlob] ∧
  arg w this at_ = Throw argException ∧ asBlob w this at_ = Throw argException ∧
  asInt32 w this at_ = Throw typeException.
Proof.
  intros ([r Hm] & Hok & Hlen) Hat this.
  assert (0 ≤ at_) as H0 by lia.
  assert (args !! Z.to_nat at_ = None) as Hnone by (apply lookup_ge_None_2; lia).
  assert (tag_at args at_ = "*"%char) as Htag by (unfold tag_at; by rewrite Hnone).
  pose proof (run_arg w path m args r Hm Hok Hlen at_ H0) as Harg.
  pose proof (run_asBlob w path m args r Hm Hok Hlen at_ H0) as Hblob.
  rewrite Hnone in Harg, Hblob. subst this. split_all.
  - erewrite run_typeTag by done. by rewrite Htag.
  - repeat constructor; unfold isBool, isChar, isNil, isInfinitum, isInt, isInt32, isInt64,
      isFloat, isDouble, isText, isString, isSymbol, isMidiMessage, isTimeTag, isBlob;
      erewrite ?run_tag_is_either, ?run_tag_is by done; by rewrite Htag.
  - erewrite run_asInt32 by done. by rewrite Hnone.
Qed.

(** C23: a message reads back what a sender wrote: while a message is under
    construction in a sender, a [ReceivedMessage] on it has the written
    arguments: their number, their type tags, and at each index the value of
    the argument (a MIDI message reversed, a blob with its data and size). *)
Theorem written_arguments_read_back F a st m args path i x :
  Rel F a st → a_cur a = Some args → m_message st.1 = Some m →
  Forall atom_ok args → Z.of_nat (length args) < 2 ^ 32 → args !! i = Some x →
  let w := st.2 in
  let this := mkReceived path (Some m) in
  let n := Z.of_nat i in
  numArgs w this = Ret (Z.of_nat (length args)) ∧ types w this = Ret (tags args) ∧
  match x with
  | ATrue => asBool w this n = Ret true
  | AFalse => asBool w this n = Ret false
  | ANil => isNil w this n = Ret true
  | AInfinitum => isInfinitum w this n = Ret true
  | AChar c => asChar w this n = Ret (byte_of_ascii c)
  | AInt32 z => asInt32 w this n = Ret z
  | AInt64 z => asInt64 w this n = Ret z
  | AFloat f => asFloat w this n = Ret f
  | ADouble d => asDouble w this n = Ret d
  | AString s => asString w this n = Ret s
  | ASymbol s => asSymbol w this n = Ret (mkSymbol (CStr s))
  | AMidi bs => asMidiMessage w this n = Ret (mkMidi (reverse bs))
  | ATimetag t => asTimeTag w this n = Ret (mkTimeTag t)
  | ABlob d => ∃ k, asBlob w this n = Ret (Blob_of (Some (d ++ k)) (Z.of_nat (length d)))
  end.
Proof.
  intros (hs & ms & bs & [_ Hcur _ _ _ _ _ _ _ _]) Ha Hmm Hok Hlen Hx w this n.
  rewrite Ha, Hmm in Hcur. simpl in Hcur.
  assert (0 ≤ n) as Hn by lia.
  assert (args !! Z.to_nat n = Some x) as Hx' by (unfold n; by rewrite Nat2Z.id).
  subst this w. split; [by eapply run_numArgs|]. split; [by eapply run_types|].
  destruct x.
  1-2: erewrite run_asBool by done; by rewrite Hx'.
  1-2: unfold isNil, isInfinitum; erewrite run_tag_is by done; unfold tag_at; by rewrite Hx'.
  - erewrite run_asChar by done. by rewrite Hx'.
  - erewrite run_asInt32 by done. by rewrite Hx'.
  - erewrite run_asInt64 by done. by rewrite Hx'.
  - erewrite run_asFloat by done. by rewrite Hx'.
  - erewrite run_asDouble by done. by rewrite Hx'.
  - erewrite run_asString by done. by rewrite Hx'.
  - erewrite run_asSymbol by done. by rewrite Hx'.
  - erewrite run_asMidiMessage by done. by rewrite Hx'.
  - erewrite run_asTimeTag by done. by rewrite Hx'.
  - pose proof (run_asBlob st.2 path m args 0 Hcur Hok Hlen n Hn) as H. rewrite Hx' in H.
    destruct H as (mem & [Hsz [k Hd]] & H). exists k. rewrite H, Hd. simpl. by rewrite Hsz.
Qed.

(** A received message is never released: its constructor takes a
    reference and no member gives it back, so after liblo frees its own the
    message is still held, with its arguments. *)
Theorem received_message_outlives_dispatch w path m args :
  v_msgs (view w) !! m = Some (Msg args 0) →
  ∃ this w', (this ← ReceivedMessage_new path (Some m); _ ← lo_message_free (Some m); mret this) w
               = (Ret this, w') ∧
    this = mkReceived path (Some m) ∧ v_msgs (view w') !! m = Some (Msg args 0).
Proof.
  intros Hm. destruct (law_message_incref m args 0 w Hm) as ([] & w1 & Hr1 & Hv1).
  destruct (law_message_free_ref m args 0 w1) as ([] & w2 & Hr2 & Hv2).
  { rewrite Hv1. apply lookup_insert_eq. }
  exists (mkReceived path (Some m)), w2. split_all.
  - unfold ReceivedMessage_new. rewrite bind_assoc, (bind_step _ _ _ _ _ Hr1), bind_ret_l.
    by rewrite (bind_step _ _ _ _ _ Hr2).
  - rewrite Hv2. apply lookup_insert_eq.
Qed.
End theorems.

Lemma rw_holds : holds (L := model) rw 1 sample_args.
Proof. split; [by exists 0%nat|split; [apply sample_args_ok|done]]. Qed.

Lemma accessors_exact_witness :
  asInt32 (L := model) rw rmsg 5 = Ret 100 ∧ asMidiMessage (L := model) rw rmsg 11
    = Ret (mkMidi [96; 62; 144; 127]) ∧ asBlob (L := model) rw rmsg 14 = Throw argException.
Proof.
  destruct (accessors_exact (L := model) rw "/test3" 1 sample_args 5 rw_holds) as (_&_&H&_); [lia|].
  destruct (accessors_exact (L := model) rw "/test3" 1 sample_args 11 rw_holds)
    as (_&_&_&_&_&_&_&_&H'&_); [lia|].
  destruct (accessors_exact (L := model) rw "/test3" 1 sample_args 14 rw_holds)
    as (_&_&_&_&_&_&_&_&_&_&_&Hb); [lia|]. split_all.
Defined.

Lemma checked_types_readable_witness :
  (true = true ↔ "/test3"%string = "/test3" ∧ "TFcNIihfdsSmtb"%string = tags sample_args) ∧
  (true = true → ∀ i c, String.get i "TFcNIihfdsSmtb" = Some c → ∃ a,
     sample_args !! i = Some a ∧ atom_tag a = c ∧ typeTag (L := model) rw rmsg (Z.of_nat i) = Ret c).
Proof. apply (checked_types_readable (L := model) rw "/test3" 1 sample_args _ _ _ rw_holds). reflexivity. Defined.

Lemma try_conversions_exact_witness :
  tryNumber_int (L := model) rw rmsg 7 = Ret (Some 123) ∧
  tryString (L := model) rw rmsg 10 = Ret (Some "a symbol").
Proof.
  destruct (try_conversions_exact (L := model) rw "/test3" 1 sample_args 7 rw_holds)
    as (_&_&H&_); [lia|].
  destruct (try_conversions_exact (L := model) rw "/test3" 1 sample_args 10 rw_holds)
    as (_&_&_&_&_&_&H'); [lia|]. by split.
Defined.

Lemma past_the_end_witness : asBlob (L := model) rw rmsg 14 = Throw argException.
Proof.
  destruct (past_the_end (L := model) rw "/test3" 1 sample_args 14 rw_holds) as (_&_&_&H&_);
    [simpl; lia|]. exact H.
Defined.

(** A sender that has written two arguments. *)
Definition two_args : list command :=
  [C_item (I_BeginMessage (mkBeginMessage "/a")); C_item (I_int32 7); C_item (I_bool true)].
Definition st3 : state (L := model) := (exec_all two_args st0).2.
Definition writing : builder :=
  mkBuilder None (Some [AInt32 7; ATrue]) "/a" true [] false [].

Lemma Rel_st3 : ∃ F, Rel F writing st3.
Proof.
  destruct (sim_commands (L := model) _ _ _ two_args
              ltac:(repeat constructor; unfold command_ok, item_ok, atom_ok, item_atom, is_i32; lia)
              Rel_st0 (Ret tt) writing) as (F' & st' & Hr & HR & _); [reflexivity|done|].
  exists F'. unfold st3. by rewrite Hr.
Qed.

Lemma written_arguments_read_back_witness :
  numArgs (L := model) st3.2 (mkReceived "/a" (m_message st3.1)) = Ret 2 ∧
  types (L := model) st3.2 (mkReceived "/a" (m_message st3.1)) = Ret "iT" ∧
  asInt32 (L := model) st3.2 (mkReceived "/a" (m_message st3.1)) 0 = Ret 7.
Proof.
  destruct Rel_st3 as [F HR].
  apply (written_arguments_read_back (L := model) F writing st3 2 [AInt32 7; ATrue] "/a" 0 (AInt32 7) HR);
    try reflexivity.
  repeat constructor; unfold atom_ok, is_i32; lia.
Defined.

Lemma received_message_outlives_dispatch_witness :
  ∃ this w', (this ← ReceivedMessage_new (L := model) "/test3" (Some 1%positive);
              _ ← lo_message_free (Some 1%positive); mret this) rw = (Ret this, w') ∧
    this = mkReceived "/test3" (Some 1%positive) ∧
    v_msgs (mw_view w') !! 1%positive = Some (Msg sample_args 0).
Proof.
  apply (received_message_outlives_dispatch (L := model) rw "/test3" 1 sample_args). reflexivity.
Defined.
