(* ===== verification/ReceivedCalls.v ===== *)
(** * The public interface of a received message

    The member functions of [ReceivedMessage] as data, typed by their results, and
    one theorem for all of them: on a live message of well typed arguments, which
    calls throw, what, which may be undefined, and that no call changes the message
    or liblo. *)
From S2P Require Import Prelude Exceptions Effects Machine Floats Liblo LibloModel OscTypes Log ReceivedMessage ReceivedProps ReceivedTheorems.
Open Scope Z_scope.

(** A [try] function gives the value it writes, or nothing. *)
Inductive message_call : Type → Type :=
  | Q_checkAddressAndTypes (addressPattern types : string) : message_call bool
  | Q_address : message_call string
  | Q_types : message_call string
  | Q_typeTag (at_ : Z) : message_call ascii
  | Q_numArgs : message_call Z
  | Q_getTimeTag (storage : lo_timetag) : message_call TimeTag
  | Q_isBool (at_ : Z) : message_call bool
  | Q_isChar (at_ : Z) : message_call bool
  | Q_isNil (at_ : Z) : message_call bool
  | Q_isInfinitum (at_ : Z) : message_call bool
  | Q_isInt (at_ : Z) : message_call bool
  | Q_isInt32 (at_ : Z) : message_call bool
  | Q_isInt64 (at_ : Z) : message_call bool
  | Q_isFloat (at_ : Z) : message_call bool
  | Q_isDouble (at_ : Z) : message_call bool
  | Q_isText (at_ : Z) : message_call bool
  | Q_isString (at_ : Z) : message_call bool
  | Q_isSymbol (at_ : Z) : message_call bool
  | Q_isMidiMessage (at_ : Z) : message_call bool
  | Q_isTimeTag (at_ : Z) : message_call bool
  | Q_isBlob (at_ : Z) : message_call bool
  | Q_asBool (at_ : Z) : message_call bool
  | Q_asChar (at_ : Z) : message_call Z
  | Q_asInt32 (at_ : Z) : message_call Z
  | Q_asInt64 (at_ : Z) : message_call Z
  | Q_asFloat (at_ : Z) : message_call float
  | Q_asDouble (at_ : Z) : message_call double
  | Q_asString (at_ : Z) : message_call string
  | Q_asSymbol (at_ : Z) : message_call Symbol
  | Q_asMidiMessage (at_ : Z) : message_call MidiMessage
  | Q_asTimeTag (at_ : Z) : message_call TimeTag
  | Q_asBlob (at_ : Z) : message_call Blob
  | Q_tryBool (at_ : Z) : message_call (option bool)
  | Q_tryChar (at_ : Z) : message_call (option ascii)
  | Q_tryNumber_int (at_ : Z) : message_call (option Z)
  | Q_tryNumber_uint (at_ : Z) : message_call (option Z)
  | Q_tryNumber_float (at_ : Z) : message_call (option float)
  | Q_tryNumber_double (at_ : Z) : message_call (option double)
  | Q_tryString (at_ : Z) : message_call (option string)
  | Q_arg (at_ : Z) : message_call (list Z)
  | Q_print : message_call unit
  | Q_printArg (at_ : Z) : message_call unit
  | Q_printAllArgs : message_call unit
  | Q_message : message_call (option ptr).

Section calls.
Context {L : Liblo}.

(** A member that only reads. *)
Definition reading {B} (f : world → ReceivedMessage → outcome B) (this : ReceivedMessage)
    : M (console * world) B := λ s, (f s.2 this, s).
Definition reading_at {B} (f : world → ReceivedMessage → Z → outcome B) (at_ : Z)
    (this : ReceivedMessage) : M (console * world) B := λ s, (f s.2 this at_, s).

Definition message_call_run {B} (c : message_call B) : ReceivedMessage → M (console * world) B :=
  match c with
  | Q_checkAddressAndTypes a t => reading (λ w this, checkAddressAndTypes w this a t)
  | Q_address => reading (λ w this, Ret (address this))
  | Q_types => reading types
  | Q_typeTag at_ => reading_at typeTag at_
  | Q_numArgs => reading numArgs
  | Q_getTimeTag storage => reading (λ w this, getTimeTag w this storage)
  | Q_isBool at_ => reading_at isBool at_
  | Q_isChar at_ => reading_at isChar at_
  | Q_isNil at_ => reading_at isNil at_
  | Q_isInfinitum at_ => reading_at isInfinitum at_
  | Q_isInt at_ => reading_at isInt at_
  | Q_isInt32 at_ => reading_at isInt32 at_
  | Q_isInt64 at_ => reading_at isInt64 at_
  | Q_isFloat at_ => reading_at isFloat at_
  | Q_isDouble at_ => reading_at isDouble at_
  | Q_isText at_ => reading_at isText at_
  | Q_isString at_ => reading_at isString at_
  | Q_isSymbol at_ => reading_at isSymbol at_
  | Q_isMidiMessage at_ => reading_at isMidiMessage at_
  | Q_isTimeTag at_ => reading_at isTimeTag at_
  | Q_isBlob at_ => reading_at isBlob at_
  | Q_asBool at_ => reading_at asBool at_
  | Q_asChar at_ => reading_at asChar at_
  | Q_asInt32 at_ => reading_at asInt32 at_
  | Q_asInt64 at_ => reading_at asInt64 at_
  | Q_asFloat at_ => reading_at asFloat at_
  | Q_asDouble at_ => reading_at asDouble at_
  | Q_asString at_ => reading_at asString at_
  | Q_asSymbol at_ => reading_at asSymbol at_
  | Q_asMidiMessage at_ => reading_at asMidiMessage at_
  | Q_asTimeTag at_ => reading_at asTimeTag at_
  | Q_asBlob at_ => reading_at asBlob at_
  | Q_tryBool at_ => reading_at tryBool at_
  | Q_tryChar at_ => reading_at tryChar at_
  | Q_tryNumber_int at_ => reading_at tryNumber_int at_
  | Q_tryNumber_uint at_ => reading_at tryNumber_uint at_
  | Q_tryNumber_float at_ => reading_at tryNumber_float at_
  | Q_tryNumber_double at_ => reading_at tryNumber_double at_
  | Q_tryString at_ => reading_at tryString at_
  | Q_arg at_ => reading_at arg at_
  | Q_print => ReceivedMessage_print
  | Q_printArg at_ => λ this, printArg this at_
  | Q_printAllArgs => printAllArgs
  | Q_message => reading (λ _ this, Ret (ReceivedMessage_message this))
  end.
End calls.

(** ** What a call does, from the arguments of the message *)

(** The index a call is given: an [unsigned int]. *)
Definition index {B} (c : message_call B) : option Z :=
  match c with
  | Q_typeTag i | Q_isBool i | Q_isChar i | Q_isNil i | Q_isInfinitum i | Q_isInt i
  | Q_isInt32 i | Q_isInt64 i | Q_isFloat i | Q_isDouble i | Q_isText i | Q_isString i
  | Q_isSymbol i | Q_isMidiMessage i | Q_isTimeTag i | Q_isBlob i
  | Q_asBool i | Q_asChar i | Q_asInt32 i | Q_asInt64 i | Q_asFloat i | Q_asDouble i
  | Q_asString i | Q_asSymbol i | Q_asMidiMessage i | Q_asTimeTag i | Q_asBlob i
  | Q_tryBool i | Q_tryChar i | Q_tryNumber_int i | Q_tryNumber_uint i
  | Q_tryNumber_float i | Q_tryNumber_double i | Q_tryString i
  | Q_arg i | Q_printArg i => Some i
  | _ => None
  end.

Definition argument {B} (c : message_call B) (args : list atom) : option atom :=
  i ← index c; args !! Z.to_nat i.

(** The tags an accessor takes. *)
Definition tags_taken {B} (c : message_call B) : option (list ascii) :=
  match c with
  | Q_asBool _ => Some ["T"; "F"]%char
  | Q_asChar _ => Some ["c"]%char
  | Q_asInt32 _ => Some ["i"]%char
  | Q_asInt64 _ => Some ["h"]%char
  | Q_asFloat _ => Some ["f"]%char
  | Q_asDouble _ => Some ["d"]%char
  | Q_asString _ => Some ["s"]%char
  | Q_asSymbol _ => Some ["S"]%char
  | Q_asMidiMessage _ => Some ["m"]%char
  | Q_asTimeTag _ => Some ["t"]%char
  | _ => None
  end.

Definition has_tag (ts : list ascii) (a : atom) : bool := bool_decide (atom_tag a ∈ ts).

(** The calls that read the argument whatever its type. *)
Definition takes_any {B} (c : message_call B) : bool :=
  match c with Q_asBlob _ | Q_arg _ | Q_printArg _ => true | _ => false end.

(** The exception of a call, if it throws. *)
Definition throws {B} (c : message_call B) (args : list atom) : option exn :=
  match tags_taken c with
  | Some ts => if from_option (has_tag ts) false (argument c args) then None else Some typeException
  | None =>
      if takes_any c && bool_decide (argument c args = None) then Some argException else None
  end.

(** The calls that may be undefined: a blob read from an argument that is none, and
    a floating value converted to an integer type. *)
Definition may_be_undefined {B} (c : message_call B) (args : list atom) : bool :=
  match c with
  | Q_asBlob _ => negb (from_option is_blob false (argument c args))
  | Q_tryNumber_int _ | Q_tryNumber_uint _ =>
      from_option (has_tag ["f"; "d"]%char) false (argument c args)
  | _ => false
  end.

Definition prints {B} (c : message_call B) : bool :=
  match c with Q_print | Q_printArg _ | Q_printAllArgs => true | _ => false end.

Section theorems.
Context {L : Liblo} {LL : LibloLaws L}.
Implicit Types (s : console * world).

(** *** Printing *)

(** A computation that returns, and leaves the objects of liblo alone. *)
Definition returns_quietly {B} (m : M (console * world) B) (s : console * world) : Prop :=
  ∃ b s', m s = (Ret b, s') ∧ view s'.2 = view s.2.

Lemma run_arg_pp a mem s : arg_repr a mem →
  ∃ s', zoom (lo_arg_pp (atom_tag a) mem) s = (Ret tt, s') ∧ view s'.2 = view s.2.
Proof.
  intros Hr. destruct (law_arg_pp_returns a mem s.2 Hr) as ([] & w' & He & Hv).
  exists (s.1, w'). split; [|done]. unfold zoom. simpl. by rewrite He.
Qed.

Section live.
Context (path : string) (m : ptr) (args : list atom) (r : nat).
Context (Hok : Forall atom_ok args) (Hlen : Z.of_nat (length args) < 2 ^ 32).

Definition there (s : console * world) : Prop := v_msgs (view s.2) !! m = Some (Msg args r).

#[local] Notation this := (mkReceived path (Some m)).

Lemma run_print s : there s → returns_quietly (ReceivedMessage_print this) s.
Proof.
  intros Hs. destruct (law_message_pp m args r s.2 Hs) as ([] & w' & He & Hv).
  eexists tt, (_, w'). split; [|done]. unfold ReceivedMessage_print. simpl.
  unfold mbind, M_bind, cout_put, zoom. simpl. by rewrite He.
Qed.

Lemma run_printArg s i a : there s → 0 ≤ i → args !! Z.to_nat i = Some a →
  returns_quietly (printArg this i) s.
Proof.
  intros Hs Hi Ha. pose proof (run_arg s.2 path m args r Hs Hok Hlen i Hi) as Harg.
  rewrite Ha in Harg. destruct Harg as (mem & Hmem & Hr).
  destruct (run_arg_pp a mem s Hr) as (s' & He & Hv). exists tt, s'. split; [|done].
  unfold printArg, mbind at 1, M_bind at 1, gets. simpl.
  rewrite (run_typeTag s.2 path m args r Hs Hlen i Hi). unfold tag_at. rewrite Ha, Hmem. exact He.
Qed.

(** The loop, from any index. *)
Lemma run_printAllArgs_loop mems n i s :
  Forall2 arg_repr args mems → there s → (i + n)%nat = length args →
  returns_quietly (printAllArgs_loop this mems n (Z.of_nat i)) s.
Proof.
  intros Hmems. revert i s. induction n as [|n IH]; intros i s Hs Hi; [by exists tt, s|].
  destruct (lookup_lt_is_Some_2 args i) as [a Ha]; [lia|].
  destruct (Forall2_lookup_l _ _ _ _ _ Hmems Ha) as (mem & Hmem & Hr).
  destruct (run_arg_pp a mem s Hr) as (s1 & He & Hv).
  destruct (IH (S i) s1) as (b & s' & Hrun & Hv'); [unfold there; by rewrite Hv|lia|].
  exists b, s'. split; [|by rewrite Hv'].
  simpl. unfold mbind at 1, M_bind at 1, gets.
  rewrite (run_typeTag s.2 path m args r Hs Hlen) by lia. unfold tag_at. rewrite Nat2Z.id, Ha, Hmem.
  change ((_ ← zoom (lo_arg_pp (atom_tag a) mem);
           printAllArgs_loop this mems n (Z.of_nat i + 1)) s = (Ret b, s')).
  rewrite (bind_step _ _ _ _ _ He). by replace (Z.of_nat i + 1) with (Z.of_nat (S i)) by lia.
Qed.

Lemma run_printAllArgs s : there s → returns_quietly (printAllArgs this) s.
Proof.
  intros Hs. destruct (law_message_get_argv _ _ _ _ Hs Hok) as (mems & Hr & Hall).
  unfold printAllArgs, returns_quietly, mbind at 1, M_bind at 1, gets. simpl.
  rewrite (law_message_get_argc _ _ _ _ Hs), Hr. unfold liftO, mbind, M_bind. simpl.
  rewrite Nat2Z.id. by apply (run_printAllArgs_loop mems (length args) 0).
Qed.
End live.

(** What a call that only reads does to the outcome. *)
Definition as_told {B} (c : message_call B) (args : list atom) (o : outcome B) : Prop :=
  match throws c args with
  | Some e => o = Throw e
  | None => (∃ b, o = Ret b) ∨ (may_be_undefined c args = true ∧ ∃ u, o = Undef u)
  end.

(** A conversion that may not fit, and a blob read from any memory. *)
Lemma conversion_told lo hi f (k : Z → option Z) :
  (∃ b, (z ← int_of_float lo hi f; Ret (k z)) = Ret b) ∨
  (true = true ∧ ∃ u, (z ← int_of_float lo hi f; Ret (k z)) = Undef u).
Proof.
  unfold int_of_float. destruct (truncate f) as [z|]; simpl; [destruct (decide _)|];
    first [left; by eexists|right; split; [done|by eexists]].
Qed.

Lemma blob_told mem :
  let o := d ← lo_blob_dataptr mem; n ← lo_blob_datasize mem;
           Ret (Blob_of (Some d) n) in
  (∃ b, o = Ret b) ∨ (true = true ∧ ∃ u, o = Undef u).
Proof.
  destruct (lo_blob_dataptr mem) as [d|e|u] eqn:Hd;
    [|by apply (law_blob_no_throw mem e) in Hd|right; split; [done|by eexists]]. simpl.
  destruct (lo_blob_datasize mem) as [n|e|u] eqn:Hn;
    [left; by eexists|by apply (law_blob_no_throw mem e) in Hn|right; split; [done|by eexists]].
Qed.

(** The constructor of the result drops the timestamp. *)
Lemma run_getTimeTag s path m args r storage : there m args r s →
  message_call_run (Q_getTimeTag storage) (mkReceived path (Some m)) s = (Ret (mkTimeTag storage), s).
Proof.
  intros Hm. unfold there in Hm. cbv [message_call_run reading]. unfold getTimeTag. simpl.
  by destruct (law_message_get_timestamp _ _ _ _ Hm) as [t ->].
Qed.

Lemma printing_told s path m args r {B} (c : message_call B) :
  Forall atom_ok args → Z.of_nat (length args) < 2 ^ 32 → there m args r s →
  (∀ i, index c = Some i → 0 ≤ i) → prints c = true →
  let '(o, s') := message_call_run c (mkReceived path (Some m)) s in
  as_told c args o ∧ view s'.2 = view s.2.
Proof.
  intros Hok Hlen Hs Hi Hp. destruct c; try done; cbn [message_call_run].
  - destruct (run_print path m args r s Hs) as (b & s' & -> & Hv). split; [by left; exists b|done].
  - specialize (Hi _ eq_refl). unfold as_told, throws, may_be_undefined, argument. simpl.
    destruct (args !! Z.to_nat at_) as [a|] eqn:Ha.
    + destruct (run_printArg path m args r Hok Hlen s at_ a Hs Hi Ha) as (b & s' & -> & Hv).
      split; [by left; exists b|done].
    + unfold printArg, mbind, M_bind, gets, liftO.
      rewrite (run_typeTag s.2 path m args r Hs Hlen at_ Hi).
      pose proof (run_arg s.2 path m args r Hs Hok Hlen at_ Hi) as Harg. rewrite Ha in Harg.
      by rewrite Harg.
  - destruct (run_printAllArgs path m args r Hok Hlen s Hs) as (b & s' & -> & Hv).
    split; [by left; exists b|done].
Qed.

(** C16: every member function of a received message, on a live message whose
    arguments are values of their types and for any index: it throws exactly in
    the cases [throws] lists, with the default exception of the class, and
    otherwise returns, but for undefined behaviour on a blob read from an argument that is none and a
    floating value converted to an integer type; and no member changes the message
    or any object of liblo, nor, unless it prints, anything at all.  The time tag it
    gives is what the storage of the result held, whatever the message's timestamp. *)
Theorem message_calls_exact s path m args {B} (c : message_call B) :
  holds s.2 m args → (∀ i, index c = Some i → 0 ≤ i) →
  (let '(o, s') := message_call_run c (mkReceived path (Some m)) s in
   as_told c args o ∧ view s'.2 = view s.2 ∧ (prints c = false → s' = s)) ∧
  ∀ storage, message_call_run (Q_getTimeTag storage) (mkReceived path (Some m)) s
             = (Ret (mkTimeTag storage), s).
Proof.
  intros ([r Hm] & Hok & Hlen) Hi. split; [|by intros; apply (run_getTimeTag s path m args r)].
  destruct (prints c) eqn:Hp.
  - pose proof (printing_told s path m args r c Hok Hlen Hm Hi Hp) as H.
    destruct (message_call_run c _ s) as [o s']. destruct H. by split_all.
  - destruct c; try done; simpl in Hi; try specialize (Hi _ eq_refl);
      cbv [message_call_run reading reading_at]; split_all;
      unfold as_told, throws, may_be_undefined, argument; simpl;
      try (left; by eexists).
    all: try (unfold isBool, isChar, isNil, isInfinitum, isInt, isInt32, isInt64, isFloat,
      isDouble, isText, isString, isSymbol, isMidiMessage, isTimeTag, isBlob;
      left; eexists; by first [eapply run_tag_is|eapply run_tag_is_either|eapply run_typeTag
        |eapply run_types|eapply run_numArgs|eapply run_checkAddressAndTypes]).
    all: try (first [erewrite run_asBool by done|erewrite run_asChar by done
      |erewrite run_asInt32 by done|erewrite run_asInt64 by done|erewrite run_asFloat by done
      |erewrite run_asDouble by done|erewrite run_asString by done|erewrite run_asSymbol by done
      |erewrite run_asMidiMessage by done|erewrite run_asTimeTag by done
      |erewrite run_tryBool by done|erewrite run_tryChar by done|erewrite run_tryNumber_int by done
      |erewrite run_tryNumber_uint by done|erewrite run_tryNumber_float by done
      |erewrite run_tryNumber_double by done|erewrite run_tryString by done];
      destruct (args !! Z.to_nat at_) as [[]|]; simpl; try done; first [left; by eexists|apply conversion_told]).
    + left. pose proof (run_getTimeTag s path m args r storage Hm) as [= ->]. by eexists.
    + pose proof (run_asBlob s.2 path m args r Hm Hok Hlen at_ Hi) as H.
      destruct (args !! Z.to_nat at_) as [a|]; [|done]. destruct H as (mem & Hr & ->).
      destruct a; simpl; try apply blob_told. destruct Hr as (-> & k & ->). left. by eexists.
    + pose proof (run_arg s.2 path m args r Hm Hok Hlen at_ Hi) as H.
      destruct (args !! Z.to_nat at_); [|done]. destruct H as (mem & -> & _). left. by eexists.
Qed.
End theorems.

Lemma message_calls_exact_witness :
  message_call_run (L := model) (Q_asInt32 5) rmsg (Console [] [], rw)
    = (Ret 100, (Console [] [], rw)) ∧
  throws (Q_asInt32 6) sample_args = Some typeException ∧
  (message_call_run (L := model) (Q_asInt32 6) rmsg (Console [] [], rw)).1 = Throw typeException ∧
  (message_call_run (L := model) (Q_arg 99) rmsg (Console [] [], rw)).1 = Throw argException.
Proof.
  assert (∀ i, index (Q_asInt32 6) = Some i → 0 ≤ i) as H by (simpl; intros ? [= <-]; lia).
  assert (∀ i, index (Q_arg 99) = Some i → 0 ≤ i) as H' by (simpl; intros ? [= <-]; lia).
  destruct (message_calls_exact (L := model) (Console [] [], rw) "/test3" 1 sample_args
              (Q_asInt32 6) rw_holds H) as ((H1 & _) & _).
  destruct (message_calls_exact (L := model) (Console [] [], rw) "/test3" 1 sample_args
              (Q_arg 99) rw_holds H') as ((H2 & _) & _).
  exact (conj eq_refl (conj eq_refl (conj H1 H2))).
Defined.
