(* ===== verification/Vectors.v ===== *)
(** * Vectors of pointers

    The part of [std::vector] the sources use for their lists of objects, with
    its iterators.  A vector carries a stamp that every change of it bumps; an
    iterator remembers the stamp of its vector, and using it after a change is
    undefined behaviour.  The dispatch loops of [OscObject::processOsc] and
    [OscReceiver::processMessage] are one loop, over the place of the vector, the
    text of its warning and the call made for an object. *)
From S2P Require Import Prelude Exceptions Effects Machine Floats Liblo Log.

Record vec (A : Type) : Type := mkVec { elems : list A; stamp : nat }.
Arguments mkVec {A} elems stamp.
Arguments elems {A} v.
Arguments stamp {A} v.

Definition vec_empty {A} : vec A := mkVec [] 0.
Definition vec_push_back {A} (x : A) (v : vec A) : vec A := mkVec (elems v ++ [x]) (S (stamp v)).
Definition vec_erase {A} (i : nat) (v : vec A) : vec A := mkVec (delete i (elems v)) (S (stamp v)).
Definition vec_clear {A} (v : vec A) : vec A := mkVec [] (S (stamp v)).

(** [std::find]: the index of the first occurrence, or the end. *)
Fixpoint find_index {A} `{EqDecision A} (x : A) (l : list A) : nat :=
  match l with
  | [] => 0
  | y :: l => if decide (y = x) then 0 else S (find_index x l)
  end.

(** [iter = find(begin, end, x); if(iter != end) erase(iter)] *)
Definition vec_remove {A} `{EqDecision A} (x : A) (v : vec A) : vec A :=
  let i := find_index x (elems v) in
  if bool_decide (i ≠ length (elems v)) then vec_erase i v else v.

Section dispatch.
Context {S : Type} {C : Lens S console}.
Context (read : M S (vec (option ptr))) (write : vec (option ptr) → M S unit).
Context (removed : string) (call : ptr → M S bool).

(** The loop at the iterator of index [i] and stamp [st]; [n] bounds the number
    of iterations.  It returns whether an object handled the message. *)
Fixpoint dispatch (n i st : nat) : M S bool :=
  v ← read;
  if bool_decide (stamp v ≠ st) then undef IteratorInvalidated
  else if bool_decide (i = length (elems v)) then mret false
  else
    match n with
    | O => undef OutOfFuel
    | Datatypes.S n =>
        match elems v !! i with
        | None => undef OutOfBounds
        | Some (Some o) =>
            handled ← call o;
            if (handled : bool) then mret true else dispatch n (Datatypes.S i) st
        | Some None =>
            let v' := vec_erase i v in
            _ ← write v';
            _ ← LOG_WARN removed;
            dispatch n i (stamp v')
        end
    end.

(** From [begin]. *)
Definition dispatch_all : M S bool :=
  v ← read;
  dispatch (length (elems v)) 0 (stamp v).
End dispatch.

(** ** Removal *)

Section removal.
Context {A : Type} `{EqDecision A}.
Implicit Types (x : A) (l : list A).

Lemma find_index_length x l : find_index x l = length l ↔ x ∉ l.
Proof.
  induction l as [|y l IH]; simpl; [set_solver|].
  rewrite elem_of_cons. case_decide; [naive_solver|].
  split; [intros [=]; naive_solver|intros ?; f_equal; naive_solver].
Qed.

Lemma find_index_app x l1 l2 : x ∉ l1 → find_index x (l1 ++ x :: l2) = length l1.
Proof.
  induction l1 as [|y l1 IH]; simpl; intros Hx.
  - by rewrite decide_True.
  - rewrite decide_False by set_solver. f_equal. set_solver.
Qed.

Lemma elems_remove_out x (v : vec A) : x ∉ elems v → vec_remove x v = v.
Proof.
  intros Hx. unfold vec_remove. apply find_index_length in Hx. rewrite Hx.
  by rewrite bool_decide_false by naive_solver.
Qed.

(** Removal drops the first occurrence, and keeps the others. *)
Lemma elems_remove_first x l1 l2 st : x ∉ l1 →
  vec_remove x (mkVec (l1 ++ x :: l2) st) = mkVec (l1 ++ l2) (S st).
Proof.
  intros Hx. unfold vec_remove, vec_erase. simpl. rewrite find_index_app by done.
  rewrite bool_decide_true, delete_app_cons; [done|].
  rewrite length_app. simpl. lia.
Qed.

End removal.

(** ** One turn of the loop *)

Section turn.
Context {S : Type} {C : Lens S console}.
Context (read : M S (vec (option ptr))) (write : vec (option ptr) → M S unit).
Context (removed : string) (call : ptr → M S bool).

Lemma dispatch_first v o k s :
  read s = (Ret v, s) → elems v = Some o :: k →
  dispatch_all read write removed call s
  = (handled ← call o;
     if (handled : bool) then mret true
     else dispatch read write removed call (length k) 1 (stamp v)) s.
Proof.
  intros Hr Hv. unfold dispatch_all. rewrite (bind_step _ _ _ _ _ Hr), Hv. simpl.
  rewrite (bind_step _ _ _ _ _ Hr). rewrite bool_decide_false by naive_solver.
  by rewrite Hv.
Qed.

(** The iterator is compared with [end] after the call: by then it must be valid. *)
Lemma dispatch_invalid n i st v s :
  read s = (Ret v, s) → stamp v ≠ st →
  dispatch read write removed call n i st s = (Undef IteratorInvalidated, s).
Proof.
  intros Hr Hst. destruct n; simpl; rewrite (bind_step _ _ _ _ _ Hr);
    by rewrite bool_decide_true.
Qed.
End turn.

(** ** The loop over a stable vector *)

(** Run the calls in order until one handles the message. *)
Fixpoint first_handled {S} (calls : list (M S bool)) : M S bool :=
  match calls with
  | [] => mret false
  | m :: ms => handled ← m; if (handled : bool) then mret true else first_handled ms
  end.

Section stable.
Context {S : Type} {C : Lens S console}.
Context (read : M S (vec (option ptr))) (write : vec (option ptr) → M S unit).
Context (removed : string) (call : ptr → M S bool).
Context (P : S → Prop) (v : vec (option ptr)).
Context (Hread : ∀ s, P s → read s = (Ret v, s)).

Lemma dispatch_stable pre objs n s :
  elems v = pre ++ map Some objs → (length objs ≤ n)%nat → P s →
  (∀ o s s', o ∈ objs → P s → call o s = (Ret false, s') → P s') →
  dispatch read write removed call n (length pre) (stamp v) s
  = first_handled (map call objs) s.
Proof.
  intros Hv Hn Hs Hcall. revert pre n s Hv Hn Hs.
  induction objs as [|o objs IH]; intros pre n s Hv Hn Hs.
  - destruct n; simpl; rewrite (bind_step _ _ _ _ _ (Hread s Hs));
      rewrite bool_decide_false by naive_solver;
      by rewrite bool_decide_true by (by rewrite Hv, length_app, Nat.add_0_r).
  - destruct n as [|n]; simpl in Hn; [lia|]. simpl.
    rewrite (bind_step _ _ _ _ _ (Hread s Hs)).
    rewrite bool_decide_false by naive_solver.
    rewrite bool_decide_false by (rewrite Hv, length_app; simpl; lia).
    rewrite Hv. simpl. rewrite lookup_app_cons. unfold mbind, M_bind.
    destruct (call o s) as [[[]|?|?] s'] eqn:Hc; [done| |done..].
    replace (Datatypes.S (length pre)) with (length (pre ++ [Some o]))
      by (rewrite length_app; simpl; lia).
    apply IH; [|by rewrite <- app_assoc|lia|].
    + intros. eapply Hcall; [by right|done..].
    + eapply Hcall; [by left|done..].
Qed.

Lemma dispatch_all_stable objs s :
  elems v = map Some objs → P s →
  (∀ o s s', o ∈ objs → P s → call o s = (Ret false, s') → P s') →
  dispatch_all read write removed call s = first_handled (map call objs) s.
Proof.
  intros Hv Hs Hcall. unfold dispatch_all.
  rewrite (bind_step _ _ _ _ _ (Hread s Hs)).
  apply (dispatch_stable [] objs); [done|by rewrite Hv, length_map|done..].
Qed.
End stable.

Section handled.
Context {S : Type}.
Implicit Types ms : list (M S bool).

Lemma first_handled_app ms ms' s :
  first_handled (ms ++ ms') s
  = (handled ← first_handled ms; if (handled : bool) then mret true else first_handled ms') s.
Proof.
  revert s. induction ms as [|m ms IH]; intros s; simpl; [done|].
  unfold mbind, M_bind in *. destruct (m s) as [[[]|?|?] s']; [done| |done..]. apply IH.
Qed.

(** A list of groups of calls runs like the groups one after the other. *)
Lemma first_handled_concat mss s :
  first_handled (concat mss) s = first_handled (map (first_handled (S := S)) mss) s.
Proof.
  revert s. induction mss as [|ms mss IH]; intros s; simpl; [done|].
  rewrite first_handled_app. unfold mbind, M_bind.
  destruct (first_handled ms s) as [[[]|?|?] s']; [done|apply IH|done..].
Qed.

Lemma first_handled_ext (Q : S → Prop) ms ms' s :
  Forall2 (λ m m', ∀ s, Q s → m s = m' s ∧ (∀ s', m s = (Ret false, s') → Q s')) ms ms' →
  Q s → first_handled ms s = first_handled ms' s.
Proof.
  intros H. revert s. induction H as [|m m' ms ms' Hm _ IH]; intros s Hs; simpl; [done|].
  destruct (Hm s Hs) as [He Hq]. unfold mbind, M_bind. rewrite <- He.
  destruct (m s) as [[[]|?|?] s'] eqn:Hms; [done| |done..]. apply IH. by apply Hq.
Qed.

(** What survives a call that does not handle the message survives the list. *)
Lemma first_handled_inv (Q : S → Prop) ms s s' :
  Forall (λ m, ∀ s s', Q s → m s = (Ret false, s') → Q s') ms →
  Q s → first_handled ms s = (Ret false, s') → Q s'.
Proof.
  intros H. revert s. induction H as [|m ms Hm _ IH]; intros s Hs Hr; simpl in Hr.
  - by injection Hr as <-.
  - apply bind_Ret_inv in Hr as ([] & s1 & Hms & Hr); [done|]. eauto.
Qed.

Lemma preserves_first_handled (P : S → Prop) ms :
  Forall (preserves P) ms → preserves P (first_handled ms).
Proof.
  induction 1 as [|m ms Hm _ IH]; [apply preserves_ret|].
  apply preserves_bind; [done|]. intros []; [apply preserves_ret|done].
Qed.
End handled.
