(* ===== verification/OscObject.v ===== *)
(** * OscObject: a graph of message handlers

    Objects live in a heap, each with its root address and the vector of the
    objects attached to it.  A program that receives messages has a heap, a
    console and [rest], everything else its callbacks may touch; the virtual
    function [processOscMessage] is an argument, a computation on all of it. *)
From S2P Require Import Prelude Exceptions Effects Machine Floats Liblo Log ReceivedMessage Vectors.

Record OscObject : Type := mkObject {
  oscRootAddress : string;
  oo_objects : vec (option ptr)
}.

Definition OscObject_new (rootAddress : string) : OscObject := mkObject rootAddress vec_empty.

Record env (X : Type) : Type := Env { heap : gmap ptr OscObject; con : console; rest : X }.
Arguments Env {X} heap con rest.
Arguments heap {X} e.
Arguments con {X} e.
Arguments rest {X} e.

#[export] Instance lens_heap {X} : Lens (env X) (gmap ptr OscObject) :=
  { lget := heap; lset h e := Env h (con e) (rest e) }.
#[export] Instance lens_con {X} : Lens (env X) console :=
  { lget := con; lset c e := Env (heap e) c (rest e) }.
#[export] Instance lens_rest {X} : Lens (env X) X :=
  { lget := rest; lset x e := Env (heap e) (con e) x }.
#[export] Instance lens_heap_laws {X} : LensLaws (env X) (gmap ptr OscObject).
Proof. split; by intros; try destruct s. Qed.
#[export] Instance lens_con_laws {X} : LensLaws (env X) console.
Proof. split; by intros; try destruct s. Qed.
#[export] Instance lens_rest_laws {X} : LensLaws (env X) X.
Proof. split; by intros; try destruct s. Qed.

Section operations.
Context {X : Type}.

(** The object at an address, which must be alive. *)
Definition deref (this : ptr) : M (env X) OscObject := λ s,
  match heap s !! this with
  | Some o => (Ret o, s)
  | None => (Undef DanglingPointer, s)
  end.

Definition update (this : ptr) (f : OscObject → OscObject) : M (env X) unit :=
  o ← deref this;
  zoom (modify <[this := f o]>).

Definition set_objects (v : vec (option ptr)) (o : OscObject) : OscObject :=
  mkObject (oscRootAddress o) v.
Definition set_root (r : string) (o : OscObject) : OscObject := mkObject r (oo_objects o).

Definition objects_of (this : ptr) : M (env X) (vec (option ptr)) :=
  o ← deref this; mret (oo_objects o).

(** ** Objects *)

Definition addOscObject (this : ptr) (object : option ptr) : M (env X) unit :=
  match object with
  | None => LOG_WARN "OscObject: cannot add NULL object"
  | Some _ => update this (λ o, set_objects (vec_push_back object (oo_objects o)) o)
  end.

Definition removeOscObject (this : ptr) (object : option ptr) : M (env X) unit :=
  match object with
  | None => LOG_WARN "OscObject: cannot remove NULL object"
  | Some _ => update this (λ o, set_objects (vec_remove object (oo_objects o)) o)
  end.

Definition removeAllOscObjects (this : ptr) : M (env X) unit :=
  update this (λ o, set_objects (vec_clear (oo_objects o)) o).

(** ** Util *)

Definition setOscRootAddress (this : ptr) (rootAddress : string) : M (env X) unit :=
  update this (set_root rootAddress).
Definition getOscRootAddress (this : ptr) : M (env X) string :=
  o ← deref this; mret (oscRootAddress o).
Definition prependOscRootAddress (this : ptr) (prepend : string) : M (env X) unit :=
  update this (λ o, set_root (prepend +:+ oscRootAddress o) o).

(** ** Message processing *)

(** [processOscMessage] of a class that does not override it. *)
Definition processOscMessage_default (message : ReceivedMessage) (source : MessageSource)
    : M (env X) bool := mret false.

(** The virtual function, by the dynamic class of the object. *)
Context (processOscMessage : ptr → ReceivedMessage → MessageSource → M (env X) bool).

(** [depth] is the room left on the call stack, in calls of [processOsc]. *)
Fixpoint processOsc (depth : nat) (this : ptr) (message : ReceivedMessage)
    (source : MessageSource) : M (env X) bool :=
  match depth with
  | O => undef StackOverflow
  | S depth =>
      handled ← dispatch_all (objects_of this)
        (λ v, update this (set_objects v)) "OscObject: removed NULL object"
        (λ o, processOsc depth o message source);
      if (handled : bool) then mret true else processOscMessage this message source
  end.
End operations.
