(* ===== verification/ObjectProps.v ===== *)
(** * The graph of objects and the order of dispatch

    [child h o k]: the object [k] is attached to [o] in the heap [h].
    [visits h o l d]: unfolding the graph below [o] is finite, of depth [d], and
    lists the objects in post-order as [l] (an object attached twice is listed
    twice).  [processOsc] runs the callbacks along [l]. *)
From S2P Require Import Prelude Exceptions Effects Machine Floats Liblo Log ReceivedMessage Vectors OscObject.
Open Scope nat_scope.

Definition child (h : gmap ptr OscObject) (o k : ptr) : Prop :=
  ∃ ob, h !! o = Some ob ∧ Some k ∈ elems (oo_objects ob).

(** No vector holds a null pointer. *)
Definition no_null (h : gmap ptr OscObject) : Prop :=
  ∀ o ob, h !! o = Some ob → None ∉ elems (oo_objects ob).

(** The objects below [o] are alive. *)
Definition closed_below (h : gmap ptr OscObject) (o : ptr) : Prop :=
  ∀ k, rtc (child h) o k → is_Some (h !! k).

Definition acyclic_below (h : gmap ptr OscObject) (o : ptr) : Prop :=
  ∀ k, rtc (child h) o k → ¬ tc (child h) k k.

Inductive visits (h : gmap ptr OscObject) : ptr → list ptr → nat → Prop :=
  | visits_object o ob ks l d :
      h !! o = Some ob → elems (oo_objects ob) = map Some ks →
      visits_list h ks l d → visits h o (l ++ [o]) (S d)
with visits_list (h : gmap ptr OscObject) : list ptr → list ptr → nat → Prop :=
  | visits_nil : visits_list h [] [] 0
  | visits_cons k ks l1 l2 d1 d2 :
      visits h k l1 d1 → visits_list h ks l2 d2 →
      visits_list h (k :: ks) (l1 ++ l2) (d1 `max` d2).

Scheme visits_ind2 := Minimality for visits Sort Prop
  with visits_list_ind2 := Minimality for visits_list Sort Prop.
Combined Scheme visits_mutind from visits_ind2, visits_list_ind2.

Lemma all_Some {A} (l : list (option A)) : None ∉ l → ∃ ks, l = map Some ks.
Proof.
  induction l as [|[x|] l IH]; intros H.
  - by exists [].
  - destruct IH as [ks ->]; [set_solver|]. by exists (x :: ks).
  - set_solver.
Qed.

Lemma map_Some_inj {A} (l k : list A) : map Some l = map Some k → l = k.
Proof. revert k. induction l; intros [|??] [=]; f_equal; auto. Qed.

Section graph.
Context (h : gmap ptr OscObject).

Lemma child_kids o ob ks k :
  h !! o = Some ob → elems (oo_objects ob) = map Some ks → child h o k ↔ k ∈ ks.
Proof.
  intros Ho Hk. unfold child. split.
  - intros (ob' & Ho' & Hin). rewrite Ho in Ho'. simplify_eq. rewrite Hk in Hin.
    apply list_elem_of_fmap in Hin. naive_solver.
  - intros Hin. exists ob. split; [done|]. rewrite Hk. by apply list_elem_of_fmap_2.
Qed.

(** *** What an unfolding lists *)

Lemma visits_det :
  (∀ o l d, visits h o l d → ∀ l' d', visits h o l' d' → l = l' ∧ d = d') ∧
  (∀ ks l d, visits_list h ks l d → ∀ l' d', visits_list h ks l' d' → l = l' ∧ d = d').
Proof.
  apply visits_mutind.
  - intros o ob ks l d Ho Hk _ IH l' d' H. inversion H as [? ob' ks' ? ? Ho' Hk' Hl]; subst.
    rewrite Ho in Ho'. injection Ho' as <-. rewrite Hk in Hk'. apply map_Some_inj in Hk' as <-.
    apply IH in Hl as [-> ->]. done.
  - intros l' d' H. by inversion H.
  - intros k ks l1 l2 d1 d2 _ IH1 _ IH2 l' d' H. inversion H as [|? ? ? ? ? ? H1 H2]; subst.
    apply IH1 in H1 as [-> ->]. by apply IH2 in H2 as [-> ->].
Qed.

Lemma visits_list_member ks l d k : visits_list h ks l d → k ∈ ks →
  ∃ l1 d1, visits h k l1 d1 ∧ d1 ≤ d ∧ l1 ⊆ l.
Proof.
  induction 1 as [|k' ks l1 l2 d1 d2 H1 _ IH]; [set_solver|].
  intros [->|Hin]%elem_of_cons.
  - exists l1, d1. split_all; [lia|set_solver].
  - destruct (IH Hin) as (l3 & d3 & ? & ? & ?). exists l3, d3. split_all; [lia|set_solver].
Qed.

Lemma visits_child o l d k : visits h o l d → child h o k →
  ∃ l1 d1, visits h k l1 d1 ∧ d1 < d ∧ l1 ⊆ l.
Proof.
  intros H Hc. inversion H as [? ob ks l0 d0 Ho Hk Hl]; subst.
  rewrite child_kids in Hc by done.
  destruct (visits_list_member _ _ _ _ Hl Hc) as (l1 & d1 & ? & ? & ?).
  exists l1, d1. split_all; [lia|set_solver].
Qed.

Lemma visits_tc o k : tc (child h) o k → ∀ l d, visits h o l d →
  ∃ l1 d1, visits h k l1 d1 ∧ d1 < d ∧ l1 ⊆ l.
Proof.
  induction 1 as [o k Hc|o k x Hc _ IH]; intros l d Hv.
  - by apply visits_child with o.
  - destruct (visits_child _ _ _ _ Hv Hc) as (l1 & d1 & Hv1 & ? & ?).
    destruct (IH _ _ Hv1) as (l2 & d2 & ? & ? & ?). exists l2, d2. split_all; [lia|set_solver].
Qed.

Lemma visits_self o l d : visits h o l d → o ∈ l.
Proof. inversion 1. set_solver. Qed.

(** An unfolding that ends meets no cycle. *)
Lemma visits_acyclic o l d : visits h o l d → acyclic_below h o.
Proof.
  intros Hv k Hk Hc.
  assert (∃ l1 d1, visits h k l1 d1) as (l1 & d1 & Hv1).
  { apply rtc_tc in Hk as [->|Hk]; [by eauto|].
    destruct (visits_tc _ _ Hk _ _ Hv) as (? & ? & ? & _). by eauto. }
  destruct (visits_tc _ _ Hc _ _ Hv1) as (l2 & d2 & Hv2 & Hd & _).
  destruct (proj1 visits_det _ _ _ Hv1 _ _ Hv2) as [_ ->]. lia.
Qed.

Lemma visits_reach :
  (∀ o l d, visits h o l d → ∀ x, x ∈ l → rtc (child h) o x) ∧
  (∀ ks l d, visits_list h ks l d → ∀ x, x ∈ l → ∃ k, k ∈ ks ∧ rtc (child h) k x).
Proof.
  apply visits_mutind.
  - intros o ob ks l d Ho Hk _ IH x [Hx| ->%list_elem_of_singleton]%elem_of_app; [|done].
    destruct (IH x Hx) as (k & Hin & Hr). apply rtc_l with k; [|done].
    by apply (child_kids _ _ _ _ Ho Hk).
  - set_solver.
  - intros k ks l1 l2 d1 d2 _ IH1 _ IH2 x [Hx|Hx]%elem_of_app.
    + exists k. split; [set_solver|auto].
    + destruct (IH2 x Hx) as (k' & ? & ?). exists k'. split; [set_solver|done].
Qed.

(** The objects listed are those below. *)
Lemma visits_elements o l d x : visits h o l d → x ∈ l ↔ rtc (child h) o x.
Proof.
  intros Hv. split; [by apply (proj1 visits_reach _ _ _ Hv)|].
  intros [->|Hx]%rtc_tc; [by apply visits_self in Hv|].
  destruct (visits_tc _ _ Hx _ _ Hv) as (l1 & d1 & Hv1 & _ & Hsub).
  apply Hsub. by apply visits_self in Hv1.
Qed.

(** An object is listed after the objects attached to it. *)
Definition children_first (l : list ptr) : Prop :=
  ∀ l1 x l2 k, l = l1 ++ x :: l2 → child h x k → k ∈ l1.

Lemma children_first_app l1 l2 :
  children_first l1 → children_first l2 → children_first (l1 ++ l2).
Proof.
  intros H1 H2 k1 x k2 k Hl Hc.
  apply app_eq_inv in Hl as [(m & -> & Hm)|(m & -> & Hm)].
  - destruct m as [|y m]; simpl in Hm.
    + exfalso. subst l2. by apply (not_elem_of_nil k), (H2 [] x k2 k).
    + injection Hm as <- ->. by apply (H1 k1 x m k).
  - apply elem_of_app. right. by apply (H2 m x k2 k).
Qed.

Lemma visits_children_first :
  (∀ o l d, visits h o l d → children_first l) ∧
  (∀ ks l d, visits_list h ks l d → children_first l).
Proof.
  apply visits_mutind.
  - intros o ob ks l d Ho Hk Hl IH l1 x l2 k Heq Hc.
    destruct (list_snoc_cases l2) as [->|(l3 & y & ->)].
    + apply app_inj_tail in Heq as [-> <-].
      rewrite (child_kids _ _ _ _ Ho Hk) in Hc.
      destruct (visits_list_member _ _ _ _ Hl Hc) as (l' & d' & Hv & _ & Hsub).
      apply Hsub. by apply visits_self in Hv.
    + rewrite app_comm_cons, app_assoc in Heq. apply app_inj_tail in Heq as [-> _].
      by eapply IH.
  - intros [|??] x l2 k [=].
  - intros k ks l1 l2 d1 d2 _ IH1 _ IH2. by apply children_first_app.
Qed.

(** *** Acyclic graphs unfold *)

Definition has_cycle (r : ptr) : Prop := ∃ k, rtc (child h) r k ∧ tc (child h) k k.

Lemma visits_all (Q : Prop) ks n : (∀ k, k ∈ ks → (∃ l d, visits h k l d ∧ d ≤ n) ∨ Q) →
  (∃ l d, visits_list h ks l d ∧ d ≤ n) ∨ Q.
Proof.
  induction ks as [|k ks IH]; intros Hk.
  - left. exists [], 0. split; [constructor|lia].
  - destruct (Hk k) as [(l1 & d1 & ? & ?)|]; [set_solver| |by right].
    destruct IH as [(l2 & d2 & ? & ?)|]; [set_solver| |by right].
    left. exists (l1 ++ l2), (d1 `max` d2). split; [by constructor|lia].
Qed.

(** [seen] are the objects above [o] on the current path. *)
Lemma unfold_or_cycle r n : no_null h → closed_below h r →
  ∀ (seen : gset ptr) o, rtc (child h) r o → o ∉ seen →
  (∀ x, x ∈ seen → rtc (child h) r x ∧ tc (child h) x o) →
  base.size (dom h ∖ seen) ≤ n →
  (∃ l d, visits h o l d ∧ d ≤ n) ∨ has_cycle r.
Proof.
  intros Hnn Hcl. induction n as [|n IH]; intros seen o Ho Hns Hseen Hsz;
    destruct (Hcl o Ho) as [ob Hob]; pose proof (elem_of_dom_2 _ _ _ Hob) as Hdom.
  - apply Nat.le_0_r, size_empty_iff in Hsz. set_solver.
  - destruct (all_Some _ (Hnn _ _ Hob)) as [ks Hks].
    destruct (visits_all (has_cycle r) ks n) as [(l & d & Hl & Hd)|]; [|left|by right].
    2: { exists (l ++ [o]), (S d). split; [by apply visits_object with ob ks|lia]. }
    intros k Hk. rewrite <- (child_kids _ _ _ _ Hob Hks) in Hk.
    assert (∀ x, x ∈ seen ∪ {[o]} → rtc (child h) r x ∧ tc (child h) x k) as Hup.
    { intros x [Hx|Hx%elem_of_singleton]%elem_of_union.
      - destruct (Hseen x Hx). split; [done|]. by apply tc_r with o.
      - subst. split; [done|]. by apply tc_once. }
    destruct (decide (k ∈ seen ∪ {[o]})) as [Hin|Hout]; [right; exists k; by apply Hup|].
    apply (IH (seen ∪ {[o]})); [by apply rtc_r with o|done..|].
    rewrite <- difference_difference_l_L, size_difference, size_singleton by set_solver. lia.
Qed.

Lemma visits_or_cycle o : no_null h → closed_below h o →
  (∃ l d, visits h o l d ∧ d ≤ base.size h) ∨ has_cycle o.
Proof.
  intros. apply (unfold_or_cycle o) with (seen := ∅); try done; try set_solver.
  rewrite difference_empty_L. by rewrite size_dom.
Qed.

Lemma visits_acyclic_exists o : no_null h → closed_below h o → acyclic_below h o →
  ∃ l d, visits h o l d ∧ d ≤ base.size h.
Proof.
  intros Hnn Hcl Hac. destruct (visits_or_cycle o Hnn Hcl) as [|(k & Hr & Hc)]; [done|].
  by destruct (Hac k Hr).
Qed.
End graph.

(** ** Processing *)

Lemma run_objects_of {X} (s : env X) o ob :
  heap s !! o = Some ob → objects_of o s = (Ret (oo_objects ob), s).
Proof. intros Ho. unfold objects_of, deref, mbind, M_bind. by rewrite Ho. Qed.

Lemma run_update {X} (s : env X) o ob f :
  heap s !! o = Some ob →
  update o f s = (Ret tt, Env (<[o := f ob]> (heap s)) (con s) (rest s)).
Proof. intros Ho. unfold update, deref, mbind, M_bind. by rewrite Ho. Qed.

Section processing.
Context {X : Type} (cb : ptr → ReceivedMessage → MessageSource → M (env X) bool).
Context (message : ReceivedMessage) (source : MessageSource) (h : gmap ptr OscObject).

Definition callbacks (l : list ptr) : list (M (env X) bool) :=
  map (λ o, cb o message source) l.

(** A callback that does not handle the message leaves the objects alone. *)
Definition keeps_heap (o : ptr) : Prop := ∀ s s',
  heap s = h → cb o message source s = (Ret false, s') → heap s' = h.

Lemma callbacks_keep l s s' : Forall keeps_heap l → heap s = h →
  first_handled (callbacks l) s = (Ret false, s') → heap s' = h.
Proof.
  intros Hl. apply (first_handled_inv (λ s, heap s = h)). apply Forall_map.
  eapply Forall_impl; [done|]. intros o Ho s1 s2. apply Ho.
Qed.

(** One level of recursion, given what processing the attached objects does. *)
Lemma processOsc_unfold n o ob ks ls s :
  h !! o = Some ob → elems (oo_objects ob) = map Some ks → heap s = h →
  Forall2 (λ k l, Forall keeps_heap l ∧ ∀ s, heap s = h →
     processOsc cb n k message source s = first_handled (callbacks l) s) ks ls →
  processOsc cb (S n) o message source s = first_handled (callbacks (concat ls ++ [o])) s.
Proof.
  intros Ho Hk Hs Hks. simpl.
  rewrite (bind_ext _ (first_handled (callbacks (concat ls)))).
  - unfold callbacks. rewrite map_app, first_handled_app. unfold mbind, M_bind.
    destruct (first_handled (map _ (concat ls)) s) as [[[]|?|?] s1]; [done| |done..].
    simpl. unfold mbind, M_bind. by destruct (cb o message source s1) as [[[]|?|?] ?].
  - rewrite (dispatch_all_stable _ _ _ _ (λ s, heap s = h) (oo_objects ob)) with (objs := ks).
    + unfold callbacks. rewrite concat_map, first_handled_concat.
      apply (first_handled_ext (λ s, heap s = h)); [|done]. rewrite map_map.
      clear Hk. induction Hks as [|k l ks ls [Hkeep Hk] _ IH]; constructor; [|done].
      intros s0 Hs0. split; [by apply Hk|]. intros s1. rewrite (Hk _ Hs0). by apply callbacks_keep.
    + intros s0 <-. by apply run_objects_of.
    + done.
    + done.
    + intros k s0 s1 Hin Hs0.
      apply list_elem_of_lookup in Hin as [i Hi].
      destruct (Forall2_lookup_l _ _ _ _ _ Hks Hi) as (l & _ & Hkeep & Hkl).
      rewrite (Hkl _ Hs0). by apply callbacks_keep.
Qed.

Lemma processOsc_visits :
  (∀ o l d, visits h o l d → Forall keeps_heap l → ∀ n s, d ≤ n → heap s = h →
     processOsc cb n o message source s = first_handled (callbacks l) s) ∧
  (∀ ks l d, visits_list h ks l d → Forall keeps_heap l → ∀ n, d ≤ n →
     ∃ ls, l = concat ls ∧ Forall2 (λ k l, Forall keeps_heap l ∧ ∀ s, heap s = h →
       processOsc cb n k message source s = first_handled (callbacks l) s) ks ls).
Proof.
  apply visits_mutind.
  - intros o ob ks l d Ho Hk _ IH Hkeep [|n] s Hn Hs; [lia|].
    apply Forall_app in Hkeep as [Hkeep _].
    destruct (IH Hkeep n ltac:(lia)) as (ls & -> & Hls). by eapply processOsc_unfold.
  - intros _ n _. exists []. by split.
  - intros k ks l1 l2 d1 d2 _ IH1 _ IH2 [Hk1 Hk2]%Forall_app n Hn.
    destruct (IH2 Hk2 n ltac:(lia)) as (ls & -> & Hls).
    exists (l1 :: ls). split; [done|]. constructor; [|done]. split; [done|].
    intros s Hs. apply IH1; [done|lia|done].
Qed.

(** *** Without callbacks that handle, a cycle is never left *)

Definition silent : Prop := ∀ o s, heap s = h →
  ∃ s', cb o message source s = (Ret false, s') ∧ heap s' = h.

Lemma silent_callbacks l s : silent → heap s = h →
  ∃ s', first_handled (callbacks l) s = (Ret false, s') ∧ heap s' = h.
Proof.
  intros Hq. revert s. induction l as [|o l IH]; intros s Hs; simpl; [by eauto|].
  destruct (Hq o s Hs) as (s1 & Hr & Hs1). unfold mbind, M_bind. rewrite Hr. by apply IH.
Qed.

Lemma silent_keeps l : silent → Forall keeps_heap l.
Proof.
  intros Hq. apply Forall_forall. intros o _ s s' Hs Hr. destruct (Hq o s Hs) as (? & ? & ?).
  congruence.
Qed.

(** A first object of the list that overflows, after others that are done. *)
Lemma overflow_in_list ks n : silent →
  (∀ k s, k ∈ ks → heap s = h →
     (∃ l d, d ≤ n ∧ visits h k l d) ∨
     ∃ s', processOsc cb n k message source s = (Undef StackOverflow, s')) →
  ∀ s, heap s = h →
  (∃ l d, d ≤ n ∧ visits_list h ks l d) ∨
  ∃ s', first_handled (map (λ k, processOsc cb n k message source) ks) s
        = (Undef StackOverflow, s').
Proof.
  intros Hq. induction ks as [|k ks IH]; intros Hk s Hs.
  - left. exists [], 0. split; [lia|constructor].
  - destruct (Hk k s) as [(l1 & d1 & Hd1 & Hv1)|[s' Hr]]; [set_solver|done| |].
    + assert (∃ s', processOsc cb n k message source s = (Ret false, s') ∧ heap s' = h)
        as (s1 & Hr & Hs1).
      { destruct (silent_callbacks l1 s Hq Hs) as (s1 & Hr & Hs1). exists s1. split; [|done].
        rewrite <- Hr. eapply (proj1 processOsc_visits); [done|by apply silent_keeps|done..]. }
      cbn [map first_handled]. rewrite (bind_step _ _ _ _ _ Hr).
      destruct (IH (λ k s Hin, Hk k s (list_elem_of_further _ _ _ Hin)) s1 Hs1)
        as [(l2 & d2 & Hd2 & Hv2)|Hr2]; [left|by right].
      exists (l1 ++ l2), (d1 `max` d2). split; [lia|by constructor].
    + right. exists s'. simpl. by rewrite (bind_undef _ _ _ _ _ Hr).
Qed.

(** Every depth is enough, or overflows. *)
Lemma silent_visits_or_overflow n : silent → no_null h →
  ∀ o s, closed_below h o → heap s = h →
  (∃ l d, d ≤ n ∧ visits h o l d) ∨
  ∃ s', processOsc cb n o message source s = (Undef StackOverflow, s').
Proof.
  intros Hq Hnn. induction n as [|n IH]; intros o s Hcl Hs; [right; by eexists|].
  destruct (Hcl o ltac:(done)) as [ob Ho]. destruct (all_Some _ (Hnn _ _ Ho)) as [ks Hk].
  destruct (overflow_in_list ks n Hq) with (s := s) as [(l & d & Hd & Hl)|[s' Hr]]; [|done|..].
  - intros k s1 Hin Hs1. apply IH; [|done]. intros x Hx. apply Hcl.
    apply rtc_l with k; [|done]. by apply (child_kids _ _ _ _ _ Ho Hk).
  - left. exists (l ++ [o]), (S d). split; [lia|by apply visits_object with ob ks].
  - right. exists s'. simpl. apply bind_undef. rewrite <- Hr.
    apply (dispatch_all_stable _ _ _ _ (λ s, heap s = h) (oo_objects ob)); [|done..|].
    + intros s0 <-. by apply run_objects_of.
    + intros k s0 s1 Hin Hs0 Hr1.
      destruct (IH k s0) as [(l & d & Hd & Hv)|[? Hr2]]; [| done | |by rewrite Hr2 in Hr1].
      * intros x Hx. apply Hcl. apply rtc_l with k; [|done]. by apply (child_kids _ _ _ _ _ Ho Hk).
      * rewrite (proj1 processOsc_visits _ _ _ Hv) in Hr1 by (done || by apply silent_keeps).
        revert Hr1. apply callbacks_keep; [by apply silent_keeps|done].
Qed.
End processing.
