(* ===== verification/ObjectTheorems.v ===== *)
(** * Theorems about objects

    The order in which an object and those attached to it are given a message,
    the depth it takes, and what attaching and removing do to the graph. *)
From S2P Require Import Prelude Exceptions Effects Machine Floats Liblo Log ReceivedMessage Vectors OscObject ObjectProps.
Open Scope nat_scope.

Definition acyclic (h : gmap ptr OscObject) : Prop := ∀ k, ¬ tc (child h) k k.

(** ** Attaching an object adds one edge *)

Definition attach (this k : ptr) (ob : OscObject) (h : gmap ptr OscObject) : gmap ptr OscObject :=
  <[this := OscObject.set_objects (vec_push_back (Some k) (oo_objects ob)) ob]> h.

Lemma child_attach h this ob k x y : h !! this = Some ob →
  child (attach this k ob h) x y ↔ child h x y ∨ (x = this ∧ y = k).
Proof.
  intros Ho. unfold child, attach. destruct (decide (x = this)) as [->|Hne].
  - rewrite lookup_insert_eq. split.
    + intros (? & [= <-] & Hin). simpl in Hin.
      apply elem_of_app in Hin as [Hin|[= ->]%list_elem_of_singleton]; [|by right].
      left. by exists ob.
    + intros [(ob' & Ho' & Hin)|[_ ->]]; eexists; (split; [done|]); simpl; [|set_solver].
      rewrite Ho in Ho'. simplify_eq. set_solver.
  - rewrite lookup_insert_ne by done. naive_solver.
Qed.

Lemma tc_attach h this ob k x y : h !! this = Some ob →
  tc (child (attach this k ob h)) x y →
  tc (child h) x y ∨ (rtc (child h) x this ∧ rtc (child h) k y).
Proof.
  intros Ho. induction 1 as [x y Hc|x z y Hc _ IH]; rewrite (child_attach _ _ _ _ _ _ Ho) in Hc.
  - destruct Hc as [?|[-> ->]]; [left; by apply tc_once|by right].
  - destruct Hc as [Hc|[-> ->]], IH as [IH|[IH1 IH2]].
    + left. by apply tc_l with z.
    + right. split; [by apply rtc_l with z|done].
    + right. split; [done|by apply tc_rtc].
    + by right.
Qed.

(** ** Order and depth *)

(** C5: an object gives a message to the callbacks of the objects below it in
    post-order, attached objects first and in the order they were attached,
    and stops at the first that handles it; the list names every object below,
    each after those attached to it.  For a graph of live objects without
    cycles a stack of as many calls as there are objects is enough. *)
Theorem processOsc_post_order {X} (cb : ptr → ReceivedMessage → MessageSource → M (env X) bool)
    message source h o :
  no_null h → closed_below h o → acyclic_below h o →
  ∃ l d, visits h o l d ∧ d ≤ base.size h ∧
    (∀ x, x ∈ l ↔ rtc (child h) o x) ∧ children_first h l ∧
    (Forall (keeps_heap cb message source h) l →
     ∀ n s, base.size h ≤ n → heap s = h →
       processOsc cb n o message source s = first_handled (callbacks cb message source l) s).
Proof.
  intros Hnn Hcl Hac. destruct (visits_acyclic_exists h o Hnn Hcl Hac) as (l & d & Hv & Hd).
  exists l, d. split_all.
  - intros x. by apply visits_elements with d.
  - by apply (proj1 (visits_children_first h) _ _ _ Hv).
  - intros Hk n s Hn Hs. apply (proj1 (processOsc_visits cb message source h) _ _ _ Hv); [done|lia|done].
Qed.

(** C25: with callbacks that do not handle the message, processing overflows
    any call stack exactly when the graph below the object has a cycle. *)
Theorem processOsc_overflows_iff_cyclic {X}
    (cb : ptr → ReceivedMessage → MessageSource → M (env X) bool) message source h o s :
  silent cb message source h → no_null h → closed_below h o → heap s = h →
  (∀ n, (processOsc cb n o message source s).1 = Undef StackOverflow) ↔
  ∃ k, rtc (child h) o k ∧ tc (child h) k k.
Proof.
  intros Hq Hnn Hcl Hs. split.
  - intros Hn. destruct (visits_or_cycle h o Hnn Hcl) as [(l & d & Hv & Hd)|]; [|done].
    specialize (Hn d). rewrite (proj1 (processOsc_visits cb message source h) _ _ _ Hv) in Hn
      by (done || by apply silent_keeps).
    destruct (silent_callbacks cb message source h l s Hq Hs) as (s' & Hr & _). by rewrite Hr in Hn.
  - intros (k & Hr & Hc) n.
    destruct (silent_visits_or_overflow cb message source h n Hq Hnn o s Hcl Hs)
      as [(l & d & _ & Hv)|[s' ->]]; [|done].
    by destruct (visits_acyclic h o l d Hv k Hr).
Qed.

(** C32: attaching an object to another keeps the graph free of cycles exactly
    when the other is not below it; nothing in the code tests this. *)
Theorem addOscObject_acyclic_iff {X} (s : env X) this ob k :
  heap s !! this = Some ob → acyclic (heap s) →
  ∃ s', addOscObject this (Some k) s = (Ret tt, s') ∧
    (∀ x y, child (heap s') x y ↔ child (heap s) x y ∨ (x = this ∧ y = k)) ∧
    (acyclic (heap s') ↔ ¬ rtc (child (heap s)) k this).
Proof.
  intros Ho Hac. eexists. split; [by apply run_update|]. simpl.
  change (<[this := _]> (heap s)) with (attach this k ob (heap s)).
  split; [intros; by apply child_attach|]. split.
  - intros Hac' Hr. apply (Hac' this).
    apply tc_rtc_r with k; [apply tc_once|].
    + apply child_attach; [done|by right].
    + eapply rtc_subrel; [|done]. intros x y Hc. apply child_attach; [done|by left].
  - intros Hn x [Hx|[Hx1 Hx2]]%(tc_attach _ _ _ _ _ _ Ho); [by apply (Hac x)|].
    apply Hn. by transitivity x.
Qed.

(** ** Attaching and removing *)

(** C40: [removeOscObject] drops the first occurrence of the object and keeps
    the order of the others, so an object attached twice stays attached; it
    changes nothing if the object is not there. *)
Theorem removeOscObject_first {X} (s : env X) this ob k :
  heap s !! this = Some ob →
  ∃ ob', removeOscObject this (Some k) s
         = (Ret tt, Env (<[this := ob']> (heap s)) (con s) (rest s)) ∧
    oscRootAddress ob' = oscRootAddress ob ∧
    ((Some k ∉ elems (oo_objects ob) ∧ ob' = ob) ∨
     ∃ l1 l2, elems (oo_objects ob) = l1 ++ Some k :: l2 ∧ Some k ∉ l1 ∧
              elems (oo_objects ob') = l1 ++ l2).
Proof.
  intros Ho. eexists. split; [by apply run_update|]. simpl. split; [done|].
  destruct (decide (Some k ∈ elems (oo_objects ob))) as [Hin|Hout].
  - right. apply list_elem_of_split_l in Hin as (l1 & l2 & Hl & Hn). exists l1, l2. split_all.
    destruct ob as [r [es st]]. simpl in *. subst es. by rewrite elems_remove_first.
  - left. split; [done|]. rewrite elems_remove_out by done. by destruct ob.
Qed.

(** *** An object that removes itself

    While [this] gives a message to the objects attached to it, [k], one of them,
    removes itself from [this]; the other callbacks leave the objects alone, and
    none handles the message. *)
Section removing.
Context {X : Type} (cb : ptr → ReceivedMessage → MessageSource → M (env X) bool).
Context (message : ReceivedMessage) (source : MessageSource) (h : gmap ptr OscObject).
Context (this k : ptr) (ob : OscObject).
Implicit Types s : env X.

Definition quiet (o : ptr) : Prop :=
  ∀ s, ∃ s', cb o message source s = (Ret false, s') ∧ heap s' = heap s.
Definition removes_itself : Prop :=
  cb k message source = (_ ← removeOscObject this (Some k); mret false).

Context (Ho : h !! this = Some ob) (Hin : Some k ∈ elems (oo_objects ob)).
Context (Hquiet : ∀ o, o ≠ k → quiet o) (Hk : removes_itself).

(** What the objects are in the meantime: [this] has changed ([removed]) or not. *)
Definition removed s : Prop := ∃ ob', heap s !! this = Some ob' ∧
  stamp (oo_objects ob) < stamp (oo_objects ob').
Definition meanwhile s : Prop :=
  (∀ o, o ≠ this → heap s !! o = h !! o) ∧ (heap s !! this = Some ob ∨ removed s).

Lemma callback_meanwhile o s : meanwhile s →
  ∃ s', cb o message source s = (Ret false, s') ∧ meanwhile s' ∧
    (removed s → removed s') ∧ (o = k → removed s').
Proof.
  intros [Hs Ht]. destruct (decide (o = k)) as [->|Hne].
  2: { destruct (Hquiet o Hne s) as (s' & Hr & Hh). exists s'. unfold meanwhile, removed.
       rewrite Hh. by split_all. }
  assert (∃ ob', heap s !! this = Some ob' ∧ (ob' = ob ∨ stamp (oo_objects ob) < stamp (oo_objects ob')))
    as (ob' & Ho' & Hob') by (destruct Ht as [?|(? & ? & ?)]; eauto).
  eexists. unfold removes_itself in Hk. rewrite Hk. unfold removeOscObject.
  rewrite (bind_step _ _ _ _ _ (run_update _ _ _ _ Ho')).
  match goal with |- context [Env ?h' _ _] => set (h1 := h') end.
  assert (∃ ob1, h1 !! this = Some ob1 ∧ stamp (oo_objects ob) < stamp (oo_objects ob1)) as Hg.
  { eexists. split; [apply lookup_insert_eq|]. simpl. unfold vec_remove.
    case_bool_decide as Hf; destruct Hob' as [->|Hlt]; simpl; try lia.
    by apply find_index_length in Hf. }
  split; [done|]. split; [split; [|by right]|done].
  intros o Hne. unfold h1. simpl. rewrite lookup_insert_ne by done. by apply Hs.
Qed.

(** An object below which [this] is not returns, and has removed [k] if it is below. *)
Lemma processOsc_meanwhile :
  (∀ o l d, visits h o l d → this ∉ l → ∀ n s, d ≤ n → meanwhile s →
     ∃ s', processOsc cb n o message source s = (Ret false, s') ∧ meanwhile s' ∧
       (removed s → removed s') ∧ (k ∈ l → removed s')) ∧
  (∀ ks l d, visits_list h ks l d → this ∉ l → ∀ n s, d ≤ n → meanwhile s →
     (∃ s', first_handled (map (λ o, processOsc cb n o message source) ks) s = (Ret false, s') ∧
       meanwhile s' ∧ (removed s → removed s') ∧ (k ∈ l → removed s')) ∧
     (∀ o s s', o ∈ ks → meanwhile s → processOsc cb n o message source s = (Ret false, s') →
       meanwhile s')).
Proof.
  apply visits_mutind.
  - intros o ob1 ks l d Ho1 Hks _ IH [Hl Hne]%not_elem_of_app [|n] s Hn Hs; [lia|].
    rewrite list_elem_of_singleton in Hne.
    destruct (IH Hl n s ltac:(lia) Hs) as [(s1 & Hr1 & Hs1 & Hm1 & Hk1) Hkeep].
    destruct (callback_meanwhile o s1 Hs1) as (s2 & Hr2 & Hs2 & Hm2 & Hk2).
    exists s2. split; [|split_all; [auto|intros [?|Hx]%elem_of_app; [by auto|]; apply list_elem_of_singleton in Hx as ->; auto]].
    simpl. rewrite (bind_step _ _ _ _ _ (eq_trans (dispatch_all_stable _ _ _ _ meanwhile
      (oo_objects ob1) (λ s Hs, run_objects_of s o ob1 (eq_trans (proj1 Hs o (not_eq_sym Hne)) Ho1))
      ks s Hks Hs (λ o s s' Ho Hs, Hkeep o s s' Ho Hs)) Hr1)). exact Hr2.
  - intros _ n s _ Hs. split; [exists s; split_all; set_solver|set_solver].
  - intros o ks l1 l2 d1 d2 _ IH1 _ IH2 [Hl1 Hl2]%not_elem_of_app n s Hn Hs.
    destruct (IH1 Hl1 n s ltac:(lia) Hs) as (s1 & Hr1 & Hs1 & Hm1 & Hk1).
    destruct (IH2 Hl2 n s1 ltac:(lia) Hs1) as [(s2 & Hr2 & Hs2 & Hm2 & Hk2) Hkeep]. split.
    + exists s2. cbn [map first_handled]. rewrite (bind_step _ _ _ _ _ Hr1).
      split_all; [auto|intros [?|?]%elem_of_app; auto].
    + intros o' s3 s4 [->|Ho']%elem_of_cons Hs3 Hr; [|by apply (Hkeep o' s3)].
      destruct (IH1 Hl1 n s3 ltac:(lia) Hs3) as (s5 & Hr5 & Hs5 & _). congruence.
Qed.

(** The loop over the objects of [this] comes to [k] or to an object above it. *)
Lemma dispatch_removed n ks pre l d m s :
  visits_list h ks l d → this ∉ l → k ∈ ks → d ≤ n → length ks ≤ m →
  elems (oo_objects ob) = pre ++ map Some ks → meanwhile s → heap s !! this = Some ob →
  ∃ s', dispatch (objects_of this) (λ v, update this (OscObject.set_objects v))
    "OscObject: removed NULL object" (λ o, processOsc cb n o message source) m (length pre)
    (stamp (oo_objects ob)) s = (Undef IteratorInvalidated, s').
Proof.
  intros Hv. revert pre m s. induction Hv as [|o ks l1 l2 d1 d2 Hv1 _ IH]; [set_solver|].
  intros pre [|m] s [Hl1 Hl2]%not_elem_of_app Hkin Hd Hm He Hs Ht; [simpl in Hm; lia|].
  destruct (proj1 processOsc_meanwhile _ _ _ Hv1 Hl1 n s ltac:(lia) Hs) as (s1 & Hr1 & Hs1 & _ & Hk1).
  cbn [dispatch]. rewrite (bind_step _ _ _ _ _ (run_objects_of _ _ _ Ht)).
  rewrite bool_decide_false by naive_solver.
  rewrite bool_decide_false by (rewrite He, length_app; simpl; lia).
  rewrite He. simpl. rewrite lookup_app_cons, (bind_step _ _ _ _ _ Hr1).
  destruct (proj2 Hs1) as [Ht1|(ob1 & Ht1 & Hst)].
  - replace (S (length pre)) with (length (pre ++ [Some o])) by (rewrite length_app; simpl; lia).
    apply elem_of_cons in Hkin as [<-|Hkin].
    + destruct (Hk1 (visits_self _ _ _ _ Hv1)) as (ob1 & Ht2 & Hlt). simplify_eq. lia.
    + simpl in Hm. apply IH; try done; [lia..|by rewrite <- app_assoc].
  - eexists. eapply dispatch_invalid; [by apply run_objects_of|lia].
Qed.
End removing.


(** ** Checking a concrete graph *)

Definition edges_ok (P : ptr → ptr → Prop) (h : gmap ptr OscObject) : Prop :=
  map_Forall (λ o ob, Forall (λ k, match k with Some k => P o k | None => False end)
                        (elems (oo_objects ob))) h.

#[export] Instance edges_ok_dec P h `{∀ o k, Decision (P o k)} : Decision (edges_ok P h).
Proof.
  apply map_Forall_dec. intros o ob. apply Forall_dec. intros [k|]; apply _.
Defined.

Lemma edges_no_null P h : edges_ok P h → no_null h.
Proof.
  intros H o ob Ho Hin. specialize (H o ob Ho). rewrite Forall_forall in H. by apply (H None).
Qed.

Lemma edges_child P h o k : edges_ok P h → child h o k → P o k.
Proof.
  intros H (ob & Ho & Hin). specialize (H o ob Ho). rewrite Forall_forall in H.
  by apply (H (Some k)).
Qed.

Lemma edges_closed h o : edges_ok (λ _ k, is_Some (h !! k)) h → is_Some (h !! o) → closed_below h o.
Proof.
  intros H Ho k Hk. revert Ho. induction Hk as [|x y z Hc _ IH]; [done|].
  intros _. apply IH. by apply (edges_child _ _ _ _ H Hc).
Qed.

Lemma edges_acyclic h : edges_ok (λ o k, (o < k)%positive) h → acyclic h.
Proof.
  intros H.
  assert (∀ x y, tc (child h) x y → (x < y)%positive) as Ht.
  { induction 1 as [x y Hc|x y z Hc _ IH]; pose proof (edges_child _ _ _ _ H Hc); simpl in *; lia. }
  intros k Hk%Ht. lia.
Qed.

(** ** Applications *)

(** Callbacks that record the objects they are called on; [handler] handles. *)
Definition trace_cb (handler : option ptr) (o : ptr) (_ : ReceivedMessage) (_ : MessageSource)
    : M (env (list ptr)) bool :=
  λ s, (Ret (bool_decide (handler = Some o)), Env (heap s) (con s) (rest s ++ [o])).

Definition node (ks : list ptr) : OscObject := mkObject "" (mkVec (map Some ks) 0).

(** [4] is attached to both [2] and [3], and these to [1]. *)
Definition diamond : gmap ptr OscObject :=
  {[ 1%positive := node [2; 3]%positive; 2%positive := node [4%positive];
     3%positive := node [4%positive]; 4%positive := node [] ]}.
Definition loop : gmap ptr OscObject :=
  {[ 1%positive := node [2%positive]; 2%positive := node [1%positive] ]}.
Definition no_message : ReceivedMessage := mkReceived "/a" None.
Definition no_source : MessageSource := mkSource None.
Definition on_heap (h : gmap ptr OscObject) : env (list ptr) := Env h (Console [] []) [].

Example diamond_order :
  processOsc (trace_cb None) 3 1%positive no_message no_source (on_heap diamond)
  = (Ret false, Env diamond (Console [] []) [4; 2; 4; 3; 1]%positive).
Proof. vm_compute. reflexivity. Qed.

Example diamond_stops :
  processOsc (trace_cb (Some 2%positive)) 3 1%positive no_message no_source (on_heap diamond)
  = (Ret true, Env diamond (Console [] []) [4; 2]%positive).
Proof. vm_compute. reflexivity. Qed.

Lemma processOsc_post_order_witness :
  ∃ l d, visits diamond 1%positive l d ∧ d ≤ base.size diamond ∧
    (∀ x, x ∈ l ↔ rtc (child diamond) 1%positive x) ∧ children_first diamond l ∧
    (Forall (keeps_heap (trace_cb None) no_message no_source diamond) l →
     ∀ n s, base.size diamond ≤ n → heap s = diamond →
       processOsc (trace_cb None) n 1%positive no_message no_source s
       = first_handled (callbacks (trace_cb None) no_message no_source l) s).
Proof.
  apply (processOsc_post_order (trace_cb None) no_message no_source diamond 1%positive).
  - apply (edges_no_null (λ o k, (o < k)%positive)). by apply (bool_decide_unpack _).
  - apply edges_closed; by apply (bool_decide_unpack _).
  - intros k _. apply edges_acyclic. by apply (bool_decide_unpack _).
Defined.

Lemma processOsc_overflows_iff_cyclic_witness :
  (∀ n, (processOsc (trace_cb None) n 1%positive no_message no_source (on_heap loop)).1
        = Undef StackOverflow) ↔
  ∃ k, rtc (child loop) 1%positive k ∧ tc (child loop) k k.
Proof.
  apply (processOsc_overflows_iff_cyclic (trace_cb None) no_message no_source loop).
  - intros o s Hs. by eexists.
  - apply (edges_no_null (λ _ k, is_Some (loop !! k))). by apply (bool_decide_unpack _).
  - apply edges_closed; by apply (bool_decide_unpack _).
  - done.
Defined.

Lemma addOscObject_acyclic_iff_witness :
  ∃ s', addOscObject 4%positive (Some 1%positive) (on_heap diamond) = (Ret tt, s') ∧
    (∀ x y, child (heap s') x y ↔ child diamond x y ∨ (x = 4%positive ∧ y = 1%positive)) ∧
    (acyclic (heap s') ↔ ¬ rtc (child diamond) 1%positive 4%positive).
Proof.
  apply (addOscObject_acyclic_iff (on_heap diamond) 4%positive (node [])); [reflexivity|].
  apply edges_acyclic. by apply (bool_decide_unpack _).
Defined.

Lemma removeOscObject_first_witness :
  ∃ ob', removeOscObject 1%positive (Some 2%positive) (on_heap diamond)
         = (Ret tt, Env (<[1%positive := ob']> diamond) (Console [] []) []) ∧
    oscRootAddress ob' = "" ∧
    ((Some 2%positive ∉ [Some 2%positive; Some 3%positive] ∧ ob' = node [2; 3]%positive) ∨
     ∃ l1 l2, [Some 2%positive; Some 3%positive] = l1 ++ Some 2%positive :: l2 ∧
              Some 2%positive ∉ l1 ∧ elems (oo_objects ob') = l1 ++ l2).
Proof. by apply (removeOscObject_first (on_heap diamond) 1%positive (node [2; 3]%positive)). Defined.

