(* ===== verification/OscReceiver.v ===== *)
(** * OscReceiver: receiving messages

    One definition per member function of [OscReceiver.cpp], over the receiver,
    liblo and the objects of the program.  The server thread and the callbacks
    act on the same state: [processMessage] is what the thread runs for each
    message, [handleMessages] runs it on the calling thread. *)
From S2P Require Import Prelude Exceptions Effects Machine Floats Liblo OscTypes Log ReceivedMessage Vectors OscObject.
Open Scope Z_scope.

Record OscReceiver : Type := mkReceiver {
  m_oscRootAddress : string;
  m_serverThread : option ptr;
  m_isMulticast : bool;
  m_isRunning : bool;
  m_ignoreMessages : bool;
  m_objects : vec (option ptr)
}.

Definition set_oscRootAddress (x : string) (r : OscReceiver) : OscReceiver :=
  mkReceiver x (m_serverThread r) (m_isMulticast r) (m_isRunning r) (m_ignoreMessages r)
    (m_objects r).
Definition set_serverThread (x : option ptr) (r : OscReceiver) : OscReceiver :=
  mkReceiver (m_oscRootAddress r) x (m_isMulticast r) (m_isRunning r) (m_ignoreMessages r)
    (m_objects r).
Definition set_isMulticast (x : bool) (r : OscReceiver) : OscReceiver :=
  mkReceiver (m_oscRootAddress r) (m_serverThread r) x (m_isRunning r) (m_ignoreMessages r)
    (m_objects r).
Definition set_isRunning (x : bool) (r : OscReceiver) : OscReceiver :=
  mkReceiver (m_oscRootAddress r) (m_serverThread r) (m_isMulticast r) x (m_ignoreMessages r)
    (m_objects r).
Definition set_ignoreMessages (x : bool) (r : OscReceiver) : OscReceiver :=
  mkReceiver (m_oscRootAddress r) (m_serverThread r) (m_isMulticast r) (m_isRunning r) x
    (m_objects r).
Definition set_vector (x : vec (option ptr)) (r : OscReceiver) : OscReceiver :=
  mkReceiver (m_oscRootAddress r) (m_serverThread r) (m_isMulticast r) (m_isRunning r)
    (m_ignoreMessages r) x.

(** The members after the initialiser list of the constructors. *)
Definition OscReceiver_init (rootAddress : string) : OscReceiver :=
  mkReceiver rootAddress None false false false vec_empty.

(** ** The error callback *)

(** A C string that may be null, after a colon. *)
Definition colon (s : cptr) : outcome string :=
  match s with
  | CNull => Ret ""
  | _ => t ← std_string s; Ret (": " +:+ t)
  end.

Definition errorCB : err_handler := λ num msg where_,
  m ← colon msg; w ← colon where_;
  Throw (receiveException ("OscReceiver: liblo server thread error " +:+ dec num +:+ m +:+ w)).

Section operations.
Context {L : Liblo} {A : Type}.

(** What the callbacks may touch besides the objects and the console: the
    receiver, liblo, and the program's own data. *)
Record app : Type := App { receiver : OscReceiver; net : world; user : A }.

Definition rstate : Type := env app.

Definition on_receiver (f : OscReceiver → OscReceiver) (s : rstate) : rstate :=
  Env (heap s) (con s) (App (f (receiver (rest s))) (net (rest s)) (user (rest s))).
Definition on_net (w : world) (s : rstate) : rstate :=
  Env (heap s) (con s) (App (receiver (rest s)) w (user (rest s))).

Definition field {B} (f : OscReceiver → B) : M rstate B := gets (λ s, f (receiver (rest s))).
Definition assign (f : OscReceiver → OscReceiver) : M rstate unit := modify (on_receiver f).
Definition lo {B} (m : M world B) : M rstate B := λ s,
  let '(o, w) := m (net (rest s)) in (o, on_net w s).
Definition ask {B} (q : world → outcome B) : M rstate B := λ s, (q (net (rest s)), s).

(** ** Thread control *)

Definition start : M rstate unit :=
  t ← field m_serverThread;
  if bool_decide (t = None) then LOG_ERROR "OscReceiver: cannot start thread, address not set"
  else
    _ ← lo (lo_server_thread_start t);
    assign (set_isRunning true).

Definition stop : M rstate unit :=
  t ← field m_serverThread;
  if bool_decide (t = None) then mret tt
  else
    _ ← lo (lo_server_thread_stop t);
    _ ← assign (set_isRunning false);
    assign (set_ignoreMessages false).

(** ** Set up *)

Definition setup (port : Z) : M rstate bool :=
  t ← field m_serverThread;
  if bool_decide (t ≠ None) then
    _ ← LOG_WARN "OscReceiver: cannot set port while thread is running"; mret false
  else
    t' ← lo (lo_server_thread_new (c_str (dec port)) errorCB);
    _ ← assign (set_serverThread t');
    if bool_decide (t' = None) then
      _ ← LOG_ERROR "OscReceiver: could not create server"; mret false
    else
      _ ← lo (lo_server_thread_add_method t' CNull CNull);
      _ ← assign (set_isMulticast false);
      mret true.

Definition setupMulticast (group : string) (port : Z) : M rstate bool :=
  t ← field m_serverThread;
  if bool_decide (t ≠ None) then
    _ ← LOG_WARN "OscReceiver: cannot set multicast group & port while thread is running";
    mret false
  else
    t' ← lo (lo_server_thread_new_multicast (c_str group) (c_str (dec port)) errorCB);
    _ ← assign (set_serverThread t');
    if bool_decide (t' = None) then
      _ ← LOG_ERROR "OscReceiver: could not create server"; mret false
    else
      _ ← lo (lo_server_thread_add_method t' CNull CNull);
      _ ← assign (set_isMulticast true);
      mret true.

(** The handle is forgotten; liblo is not told. *)
Definition clear : M rstate unit :=
  _ ← stop;
  t ← field m_serverThread;
  _ ← when (bool_decide (t ≠ None)) (assign (set_serverThread None));
  assign (set_isMulticast false).

(** The constructors, on the storage of the new object, and the destructor. *)
Definition OscReceiver_new (rootAddress : string) : M rstate unit :=
  assign (λ _, OscReceiver_init rootAddress).
Definition OscReceiver_port (port : Z) (rootAddress : string) : M rstate unit :=
  _ ← OscReceiver_new rootAddress; _ ← setup port; mret tt.
Definition OscReceiver_group (group : string) (port : Z) (rootAddress : string) : M rstate unit :=
  _ ← OscReceiver_new rootAddress; _ ← setupMulticast group port; mret tt.
Definition OscReceiver_destroy : M rstate unit := clear.

(** ** Objects *)

Definition addOscObject (object : option ptr) : M rstate unit :=
  match object with
  | None => LOG_WARN "OscReceiver: cannot add NULL object"
  | Some _ => assign (λ r, set_vector (vec_push_back object (m_objects r)) r)
  end.

Definition removeOscObject (object : option ptr) : M rstate unit :=
  match object with
  | None => LOG_WARN "OscReceiver: cannot remove NULL object"
  | Some _ => assign (λ r, set_vector (vec_remove object (m_objects r)) r)
  end.

Definition removeAllOscObjects : M rstate unit :=
  assign (λ r, set_vector (vec_clear (m_objects r)) r).

(** ** Util *)

Definition isListening : M rstate bool := mret true.
Definition setOscRootAddress (rootAddress : string) : M rstate unit :=
  assign (set_oscRootAddress rootAddress).
Definition getOscRootAddress : M rstate string := field m_oscRootAddress.
Definition ignoreMessages (yesno : bool) : M rstate unit := assign (set_ignoreMessages yesno).
Definition isMulticast : M rstate bool := field m_isMulticast.

(** [m_serverThread ? q(server) : dflt] *)
Definition from_server {B} (dflt : B) (q : option ptr → world → outcome B) : M rstate B :=
  t ← field m_serverThread;
  if bool_decide (t = None) then mret dflt
  else sv ← ask (lo_server_thread_get_server t); ask (q sv).

Definition getUrl : M rstate string :=
  p ← from_server (CStr "") lo_server_get_url; liftO (std_string p).
Definition getHostname : M rstate string :=
  p ← from_server (CStr "") (λ sv w, u ← lo_server_get_url sv w; lo_url_get_hostname u);
  liftO (std_string p).
(** The cast to [unsigned int]. *)
Definition getPort : M rstate Z :=
  from_server 0 (λ sv w, n ← lo_server_get_port sv w; Ret (wrap 32 n)).

Definition print : M rstate unit :=
  t ← field m_serverThread;
  when (bool_decide (t ≠ None)) (u ← getUrl; cout_put [T_str u; T_endl]).

(** ** Receiving *)

(** [process] of a class that does not override it. *)
Definition process_default (message : ReceivedMessage) (source : MessageSource) : M rstate bool :=
  mret false.

(** The virtual functions of the objects and of the receiver, and the depth of
    the call stack. *)
Context (processOscMessage : ptr → ReceivedMessage → MessageSource → M rstate bool).
Context (process : ReceivedMessage → MessageSource → M rstate bool).
Context (depth : nat).

Definition processMessage (message : ReceivedMessage) (source : MessageSource) : M rstate bool :=
  ignore ← field m_ignoreMessages;
  if (ignore : bool) then mret false
  else
    handled ← dispatch_all (field m_objects) (λ v, assign (set_vector v))
      "OscReceiver: removed NULL object"
      (λ o, processOsc processOscMessage depth o message source);
    if (handled : bool) then mret true
    else
      b ← process message source;
      if (b : bool) then mret true else mret false.

(** The method registered with liblo; [true] converts to 1. *)
Definition messageCB (path : string) (msg : option ptr) : M rstate Z :=
  message ← lo (ReceivedMessage_new path msg);
  source ← ask (lo_message_get_source msg);
  b ← processMessage message (MessageSource_new source);
  mret (if (b : bool) then 1 else 0).

(** liblo calls the method for a message it received, and drops its own
    reference when the method returns. *)
Definition lo_dispatch (d : string * option ptr) : M rstate unit :=
  _ ← messageCB d.1 d.2; lo (lo_message_free d.2).

Fixpoint lo_dispatch_all (ds : list (string * option ptr)) : M rstate unit :=
  match ds with
  | [] => mret tt
  | d :: ds => _ ← lo_dispatch d; lo_dispatch_all ds
  end.

Definition handleMessages (timeoutMS : Z) : M rstate Z :=
  t ← field m_serverThread;
  if bool_decide (t = None) then
    _ ← LOG_ERROR "OscReceiver: cannot handle messages, address not set"; mret 0
  else
    running ← field m_isRunning;
    if (running : bool) then
      _ ← log_statement false LOG_LEVEL_WARN
            [T_str "OscReceiver: you don't need to handle messages manually ";
             T_str "when the thread is already running"];
      mret 0
    else
      server ← ask (lo_server_thread_get_server t);
      '(n, ds) ← lo (lo_server_recv_noblock server timeoutMS);
      _ ← lo_dispatch_all ds;
      mret n.
End operations.
Arguments app {L} A.
Arguments rstate {L} A.
Arguments App {L A} receiver net user.
