(* ===== verification/ReceiverProps.v ===== *)
(** * The receiver: runs of its operations and the invariant

    What each member function does on a receiver in a good state, over any
    liblo that satisfies the laws, and the states a receiver can reach when its
    callbacks keep the invariant and the messages of liblo. *)
From S2P Require Import Prelude Exceptions Effects Machine Floats Liblo OscTypes Log ReceivedMessage Vectors OscObject ObjectProps OscReceiver.
Open Scope Z_scope.

Section preserves.
Context {S : Type} (P : S → Prop).
Context {C : Lens S console} (Hcon : ∀ c s, P s → P (lset c s)).

Lemma preserves_log debug level vs : preserves P (log_statement debug level vs).
Proof.
  intros s Hs. rewrite run_log_statement. destruct level, debug; simpl; first [done|by apply Hcon].
Qed.

(** The loop, if the calls and the removal of null entries do. *)
Lemma preserves_dispatch read write removed call :
  (∀ s, (read s).2 = s) →
  (∀ s v i, P s → read s = (Ret v, s) → P (write (vec_erase i v) s).2) →
  (∀ o, preserves P (call o)) →
  ∀ n i st, preserves P (dispatch read write removed call n i st).
Proof.
  intros Hr Hw Hc n. induction n as [|n IH]; intros i st s Hs; simpl;
    unfold mbind at 1, M_bind at 1; pose proof (Hr s) as Hrs;
    destruct (read s) as [[v|?|?] s1] eqn:E; simpl in Hrs; subst s1; try done;
    (destruct (bool_decide (stamp v ≠ st)); [done|]);
    (destruct (bool_decide (i = length (elems v))); [done|]); [done|].
  destruct (elems v !! i) as [[o|]|]; [| |done].
  - apply preserves_bind; [apply Hc| |done]. intros [].
    + apply preserves_ret.
    + apply IH.
  - pose proof (Hw s v i Hs E) as Hw'. unfold mbind at 1, M_bind at 1.
    destruct (write (vec_erase i v) s) as [[[]|?|?] s2]; simpl in *; [|done..].
    apply preserves_bind; [apply preserves_log|intros _; apply IH|done].
Qed.

Lemma preserves_dispatch_all read write removed call :
  (∀ s, (read s).2 = s) →
  (∀ s v i, P s → read s = (Ret v, s) → P (write (vec_erase i v) s).2) →
  (∀ o, preserves P (call o)) →
  preserves P (dispatch_all read write removed call).
Proof.
  intros Hr Hw Hc. apply preserves_bind; [by apply preserves_same|].
  intros v. by apply preserves_dispatch.
Qed.
End preserves.

(** ** Properties of the receiver and of liblo *)

Section receiver.
Context {L : Liblo} {LL : LibloLaws L} {A : Type}.
Implicit Types s : rstate A.

Definition view_of s : lview := view (net (rest s)).
Definition rcv s : OscReceiver := receiver (rest s).

(** The invariant: no null object; no thread, no flag; a thread is a live server
    of liblo, the flags are its state, and it reports errors to [errorCB]. *)
Definition rinv s : Prop :=
  None ∉ elems (m_objects (rcv s)) ∧
  match m_serverThread (rcv s) with
  | None => m_isRunning (rcv s) = false ∧ m_isMulticast (rcv s) = false
  | Some t => ∃ x, v_servers (view_of s) !! t = Some x ∧
                   m_isRunning (rcv s) = srv_running x ∧
                   m_isMulticast (rcv s) = bool_decide (srv_group x ≠ None) ∧
                   srv_handler x = errorCB
  end.

(** A property that does not look at the objects or the console. *)
Definition of_app (P : rstate A → Prop) : Prop := ∀ s s', rest s' = rest s → P s → P s'.

Lemma rinv_of_app : of_app rinv.
Proof. intros s s' Hr. unfold rinv, rcv, view_of. by rewrite Hr. Qed.

(** *** Runs *)

Lemma run_field {B C} (f : OscReceiver → B) (k : B → M (rstate A) C) s :
  (field f ≫= k) s = k (f (rcv s)) s.
Proof. done. Qed.

Lemma run_assign {C} f (k : unit → M (rstate A) C) s :
  (assign f ≫= k) s = k tt (on_receiver f s).
Proof. done. Qed.

Lemma run_net {B C} (m : M world B) (k : B → M (rstate A) C) s w0 b w :
  m w0 = (Ret b, w) → net (rest s) = w0 → (lo m ≫= k) s = k b (on_net w s).
Proof. intros Hm <-. unfold lo, mbind, M_bind. by rewrite Hm. Qed.

(** Dispatching to the objects. *)
Lemma preserves_processOsc (P : rstate A → Prop) cb depth o message source :
  of_app P → (∀ o, preserves P (cb o message source)) →
  preserves P (processOsc cb depth o message source).
Proof.
  intros HP Hcb. revert o. induction depth as [|n IH]; intros o; [by intros s Hs|].
  assert (∀ o' s, (objects_of (X := app A) o' s).2 = s) as Hr.
  { intros o' s. unfold objects_of, deref, mbind, M_bind. by destruct (heap s !! o'). }
  apply preserves_bind; [|intros []; [apply preserves_ret|apply Hcb]].
  apply preserves_dispatch_all; [|apply Hr| |done].
  - intros c s. by apply HP.
  - intros s v i Hs _. eapply HP; [|done]. unfold update, deref, mbind, M_bind.
    by destruct (heap s !! o).
Qed.

Lemma preserves_processMessage (P : rstate A → Prop) cb process depth message source :
  of_app P → (∀ o, preserves P (cb o message source)) → preserves P (process message source) →
  (∀ s i, P s → P (on_receiver (λ r, set_vector (vec_erase i (m_objects r)) r) s)) →
  preserves P (processMessage cb process depth message source).
Proof.
  intros HP Hcb Hp He. apply preserves_bind; [apply preserves_gets|]. intros [].
  { apply preserves_ret. }
  apply preserves_bind.
  - apply preserves_dispatch_all; [|done| |].
    + intros c s. by apply HP.
    + intros s v i Hs [= <-]. by apply He.
    + intros o. by apply preserves_processOsc.
  - intros []; [apply preserves_ret|].
    apply preserves_bind; [done|]. intros []; apply preserves_ret.
Qed.

(** *** The operations from a good state *)

Lemma errorCB_throws n m wh : m ≠ CDangling → wh ≠ CDangling →
  ∃ text, errorCB n m wh = Throw (ReceiveException text).
Proof. destruct m, wh; try done; by eexists. Qed.

Lemma run_stop_None s : m_serverThread (rcv s) = None → stop s = (Ret tt, s).
Proof. intros Ht. unfold stop. rewrite run_field, Ht. done. Qed.

Lemma run_stop s t x : m_serverThread (rcv s) = Some t → v_servers (view_of s) !! t = Some x →
  ∃ w', stop s = (Ret tt, on_receiver (set_ignoreMessages false ∘ set_isRunning false) (on_net w' s)) ∧
        view w' = on_servers <[t := Server (srv_port x) (srv_group x) (srv_handler x) false]> (view_of s).
Proof.
  intros Ht Hx. destruct (law_server_thread_stop t x _ Hx) as (z & w' & Hr & Hv).
  exists w'. split; [|done]. unfold stop. rewrite run_field, Ht. simpl.
  by rewrite (run_net _ _ _ _ _ _ Hr) by done.
Qed.

Lemma run_start s t x : m_serverThread (rcv s) = Some t → v_servers (view_of s) !! t = Some x →
  ∃ w', start s = (Ret tt, on_receiver (set_isRunning true) (on_net w' s)) ∧
        view w' = on_servers <[t := Server (srv_port x) (srv_group x) (srv_handler x) true]> (view_of s).
Proof.
  intros Ht Hx. destruct (law_server_thread_start t x _ Hx) as (z & w' & Hr & Hv).
  exists w'. split; [|done]. unfold start. rewrite run_field, Ht. simpl.
  by rewrite (run_net _ _ _ _ _ _ Hr) by done.
Qed.

Lemma run_start_None s : m_serverThread (rcv s) = None →
  start s = (Ret tt, lset (errored "OscReceiver: cannot start thread, address not set" (con s)) s).
Proof. intros Ht. unfold start. rewrite run_field, Ht. simpl. by rewrite run_LOG_ERROR. Qed.

(** Setting up ends in a new server, or in an exception that changes nothing. *)
Definition set_up (g : option string) (p : Z) (m : M (rstate A) bool) s : Prop :=
  (∃ t w', m s = (Ret true, on_receiver (set_isMulticast (bool_decide (g ≠ None)) ∘
                                         set_serverThread (Some t)) (on_net w' s)) ∧
     v_servers (view_of s) !! t = None ∧
     (g = None → 0 < p < 65536 →
        ∀ t' x, v_servers (view_of s) !! t' = Some x → srv_port x ≠ dec p) ∧
     view w' = on_servers <[t := Server (dec p) g errorCB false]> (view_of s)) ∨
  (∃ text w', m s = (Throw (ReceiveException text), on_net w' s) ∧ view w' = view_of s).

Lemma run_setup s p : m_serverThread (rcv s) = None → set_up None p (setup p) s.
Proof.
  intros Ht. unfold set_up, setup. rewrite run_field, Ht. simpl.
  rewrite c_str_id by apply dec_nul_free.
  destruct (law_server_thread_new (dec p) errorCB (net (rest s)))
    as [(t & w1 & Hr & Hf & Hp & Hv)|(n & m & wh & w1 & Hr & Hm & Hwh & Hv)].
  - left. rewrite (run_net _ _ _ _ _ _ Hr), run_assign by done. simpl.
    destruct (law_server_thread_add_method t (Server (dec p) None errorCB false) CNull CNull w1)
      as (z & w2 & Hr2 & Hv2); [rewrite Hv; simpl; apply lookup_insert_eq|].
    exists t, w2. rewrite (run_net _ _ _ _ _ _ Hr2), run_assign by done. split_all; [|by rewrite Hv2, Hv].
    intros _ Hn. by apply (Hp p).
  - right. destruct (errorCB_throws n m wh Hm Hwh) as [text He]. rewrite He in Hr. simpl in Hr.
    exists text, w1. split; [|done]. apply bind_throw. unfold lo. by rewrite Hr.
Qed.

Lemma run_setupMulticast s g p : m_serverThread (rcv s) = None →
  set_up (Some (c_str g)) p (setupMulticast g p) s.
Proof.
  intros Ht. unfold set_up, setupMulticast. rewrite run_field, Ht. simpl.
  rewrite (c_str_id (dec p)) by apply dec_nul_free.
  destruct (law_server_thread_new_multicast (c_str g) (dec p) errorCB (net (rest s)))
    as [(t & w1 & Hr & Hf & Hv)|(n & m & wh & w1 & Hr & Hm & Hwh & Hv)].
  - left. rewrite (run_net _ _ _ _ _ _ Hr), run_assign by done. simpl.
    destruct (law_server_thread_add_method t (Server (dec p) (Some (c_str g)) errorCB false) CNull CNull w1)
      as (z & w2 & Hr2 & Hv2); [rewrite Hv; simpl; apply lookup_insert_eq|].
    exists t, w2. rewrite (run_net _ _ _ _ _ _ Hr2), run_assign by done. split_all. by rewrite Hv2, Hv.
  - right. destruct (errorCB_throws n m wh Hm Hwh) as [text He]. rewrite He in Hr. simpl in Hr.
    exists text, w1. split; [|done]. apply bind_throw. unfold lo. by rewrite Hr.
Qed.

Lemma run_setup_again s p t : m_serverThread (rcv s) = Some t →
  setup p s
  = (Ret false, lset (warned "OscReceiver: cannot set port while thread is running" (con s)) s).
Proof.
  intros Ht. unfold setup. rewrite run_field, Ht. simpl.
  by rewrite (bind_step _ _ _ _ _ (run_LOG_WARN _ _)).
Qed.

Lemma run_setupMulticast_again s g p t : m_serverThread (rcv s) = Some t →
  setupMulticast g p s
  = (Ret false, lset (warned
       "OscReceiver: cannot set multicast group & port while thread is running" (con s)) s).
Proof.
  intros Ht. unfold setupMulticast. rewrite run_field, Ht. simpl.
  by rewrite (bind_step _ _ _ _ _ (run_LOG_WARN _ _)).
Qed.

(** [clear] stops the server, forgets it, and leaves it to liblo. *)
Lemma clear_run s t x : m_serverThread (rcv s) = Some t → v_servers (view_of s) !! t = Some x →
  ∃ w', clear s = (Ret tt, on_receiver (set_isMulticast false ∘ set_serverThread None ∘
                             set_ignoreMessages false ∘ set_isRunning false) (on_net w' s)) ∧
        view w' = on_servers <[t := Server (srv_port x) (srv_group x) (srv_handler x) false]> (view_of s).
Proof.
  intros Ht Hx. destruct (run_stop s t x Ht Hx) as (w' & Hr & Hv). exists w'. split; [|done].
  unfold clear. rewrite (bind_step _ _ _ _ _ Hr), run_field. unfold rcv in *. simpl.
  by rewrite Ht.
Qed.

Lemma clear_run_None s : m_serverThread (rcv s) = None →
  clear s = (Ret tt, on_receiver (set_isMulticast false) s).
Proof.
  intros Ht. unfold clear. rewrite (bind_step _ _ _ _ _ (run_stop_None s Ht)), run_field.
  by rewrite Ht.
Qed.

(** *** Polling *)

Lemma run_handleMessages_None cb process depth s t : m_serverThread (rcv s) = None →
  handleMessages cb process depth t s
  = (Ret 0, lset (errored "OscReceiver: cannot handle messages, address not set" (con s)) s).
Proof.
  intros Ht. unfold handleMessages. rewrite run_field, Ht, bool_decide_true by done.
  by rewrite (bind_step _ _ _ _ _ (run_LOG_ERROR _ _)).
Qed.

Lemma run_handleMessages_running cb process depth s t th :
  m_serverThread (rcv s) = Some th → m_isRunning (rcv s) = true →
  handleMessages cb process depth t s
  = (Ret 0, lset (Console (cout (con s)) (cerr (con s) ++
      [T_str "Warn: "; T_str "OscReceiver: you don't need to handle messages manually ";
       T_str "when the thread is already running"; T_endl])) s).
Proof.
  intros Ht Hr. unfold handleMessages. rewrite run_field, Ht, bool_decide_false by done.
  rewrite run_field, Hr. by rewrite (bind_step _ _ _ _ _ (run_warn_line _ _)).
Qed.

Lemma run_handleMessages cb process depth s t th x :
  m_serverThread (rcv s) = Some th → m_isRunning (rcv s) = false →
  v_servers (view_of s) !! th = Some x → srv_handler x = errorCB →
  (∃ n ds w',
    (∃ sv, lo_server_thread_get_server (Some th) (net (rest s)) = Ret sv ∧
           lo_server_recv_noblock sv t (net (rest s)) = (Ret (n, ds), w')) ∧
    handleMessages cb process depth t s
    = (_ ← lo_dispatch_all cb process depth ds; mret n) (on_net w' s) ∧
    v_servers (view w') = v_servers (view_of s) ∧
    Forall (λ d, ∃ m args, d.2 = Some m ∧ v_msgs (view_of s) !! m = None ∧
                           v_msgs (view w') !! m = Some (Msg args 0)) ds) ∨
  (∃ text w',
    (∃ sv, lo_server_thread_get_server (Some th) (net (rest s)) = Ret sv ∧
           lo_server_recv_noblock sv t (net (rest s)) = (Throw (ReceiveException text), w')) ∧
    handleMessages cb process depth t s = (Throw (ReceiveException text), on_net w' s) ∧
    view w' = view_of s).
Proof.
  intros Ht Hr Hx Hh.
  destruct (law_server_thread_get_server th x _ Hx) as (sv & Hsv & _ & _ & Hrecv).
  assert (∀ o w', lo_server_recv_noblock (Some sv) t (net (rest s)) = (o, w') →
    handleMessages cb process depth t s = ('(n, ds) ← liftO o;
      _ ← lo_dispatch_all cb process depth ds; mret n) (on_net w' s)) as Hrun.
  { intros o w' Hr'. unfold handleMessages. rewrite run_field, Ht, bool_decide_false by done.
    rewrite run_field, Hr. unfold ask at 1, mbind at 1, M_bind at 1. rewrite Hsv.
    unfold lo, liftO, mbind, M_bind. rewrite Hr'. by destruct o. }
  destruct (Hrecv t) as [(n & ds & w' & Hr' & Hv & Hf)|(n & m & wh & k & w' & Hr' & Hm & Hwh & Hv)].
  - left. exists n, ds, w'. split; [by exists (Some sv)|]. split; [|done]. by rewrite (Hrun _ _ Hr').
  - right. rewrite Hh in Hr'. destruct (errorCB_throws n m wh Hm Hwh) as [text He].
    rewrite He in Hr'. exists text, w'. split; [by exists (Some sv)|]. by rewrite (Hrun _ _ Hr').
Qed.
End receiver.
