(* ===== verification/ReceiverReach.v ===== *)
(** * The states a receiver can reach

    The calls on a receiver, by the program and by the server thread, as a step
    relation, and the proof that each keeps the invariant when the callbacks
    do. *)
From S2P Require Import Prelude Exceptions Effects Machine Floats Liblo OscTypes Log ReceivedMessage Vectors OscObject ObjectProps OscReceiver ReceiverProps.
Open Scope Z_scope.

(** [R_incoming] is the server thread giving a message to its method. *)
Inductive rcall : Type :=
  | R_setup (port : Z) | R_setupMulticast (group : string) (port : Z)
  | R_clear | R_start | R_stop
  | R_handleMessages (timeoutMS : Z)
  | R_addOscObject (object : option ptr) | R_removeOscObject (object : option ptr)
  | R_removeAllOscObjects
  | R_ignoreMessages (yesno : bool) | R_setOscRootAddress (rootAddress : string)
  | R_incoming (path : string) (msg : ptr).

(** The calls that run callbacks. *)
Definition dispatches (c : rcall) : bool :=
  match c with R_handleMessages _ | R_incoming _ _ => true | _ => false end.

Section reach.
Context {L : Liblo} {LL : LibloLaws L} {A : Type}.
Context (cb : ptr → ReceivedMessage → MessageSource → M (rstate A) bool).
Context (process : ReceivedMessage → MessageSource → M (rstate A) bool) (depth : nat).
Implicit Types s : rstate A.

Definition rexec (c : rcall) : M (rstate A) unit :=
  match c with
  | R_setup port => _ ← setup port; mret tt
  | R_setupMulticast group port => _ ← setupMulticast group port; mret tt
  | R_clear => clear
  | R_start => start
  | R_stop => stop
  | R_handleMessages timeoutMS => _ ← handleMessages cb process depth timeoutMS; mret tt
  | R_addOscObject object => addOscObject object
  | R_removeOscObject object => removeOscObject object
  | R_removeAllOscObjects => removeAllOscObjects
  | R_ignoreMessages yesno => ignoreMessages yesno
  | R_setOscRootAddress rootAddress => setOscRootAddress rootAddress
  | R_incoming path msg => lo_dispatch cb process depth (path, Some msg)
  end.

(** *** Messages *)

(** Every live message is still there, as it was. *)
Definition keeps s s' : Prop :=
  ∀ m x, v_msgs (view_of s) !! m = Some x → v_msgs (view_of s') !! m = Some x.

(** What is asked of a callback: it keeps the invariant, and the messages it
    has not created. *)
Definition polite (m : M (rstate A) bool) : Prop := ∀ s, rinv s → rinv (m s).2 ∧ keeps s (m s).2.

Definition live s (d : string * option ptr) : Prop :=
  ∃ m args r, d.2 = Some m ∧ v_msgs (view_of s) !! m = Some (Msg args r).

Lemma rinv_on_net s w : rinv s → v_servers (view w) = v_servers (view_of s) → rinv (on_net w s).
Proof. intros [Hn Ht] Hw. split; [done|]. unfold view_of, rcv in *. simpl. by rewrite Hw. Qed.

Context (Hcb : ∀ o message source, polite (cb o message source)).
Context (Hprocess : ∀ message source, polite (process message source)).

Lemma processMessage_polite message source : polite (processMessage cb process depth message source).
Proof.
  intros s Hs.
  assert (∀ m, polite m → preserves (λ s', rinv s' ∧ keeps s s') m) as Hp.
  { intros m Hm s1 [Hs1 Hk]. destruct (Hm s1 Hs1) as [? Hk']. split; [done|].
    intros p x Hx. by apply Hk', Hk. }
  apply (preserves_processMessage (λ s', rinv s' ∧ keeps s s')); [|by intros; apply Hp|by apply Hp| |].
  - intros s1 s2 Hr [Hs1 Hk]. split; [by apply (rinv_of_app s1)|].
    unfold keeps, view_of in *. by rewrite Hr.
  - intros s1 i [[Hn Ht] Hk]. split; [|done]. split; [|done]. simpl.
    intros Hin. by eapply Hn, elem_of_delete.
  - split; [done|by intros m x].
Qed.

(** A dispatched message keeps its references: the one the [ReceivedMessage]
    takes is there when liblo drops its own. *)
Lemma lo_dispatch_inv d s o s' : rinv s → live s d → lo_dispatch cb process depth d s = (o, s') →
  rinv s' ∧ (o = Ret tt → keeps s s').
Proof.
  destruct d as [path msg]. intros Hs (m & args & r & Hd & Hm). simpl in Hd. subst msg.
  destruct (law_message_incref m args r _ Hm) as (z & w1 & Hr1 & Hv1).
  assert (ReceivedMessage_new path (Some m) (net (rest s)) = (Ret (mkReceived path (Some m)), w1))
    as Hr0 by (unfold ReceivedMessage_new; by rewrite (bind_step _ _ _ _ _ Hr1)).
  set (s1 := on_net w1 s).
  assert (rinv s1) as Hs1 by (apply rinv_on_net; [done|by rewrite Hv1]).
  assert (v_msgs (view_of s1) !! m = Some (Msg args (S r))) as Hm1
    by (unfold s1, view_of; simpl; rewrite Hv1; apply lookup_insert_eq).
  unfold lo_dispatch, messageCB. simpl. rewrite bind_assoc, (run_net _ _ _ _ _ _ Hr0) by done.
  fold s1. rewrite bind_assoc. unfold ask, mbind at 1, M_bind at 1.
  destruct (lo_message_get_source (Some m) (net (rest s1))) as [src|?|?];
    [|by intros [= <- <-]..].
  rewrite bind_assoc. unfold mbind at 1, M_bind at 1.
  destruct (processMessage_polite (mkReceived path (Some m)) (mkSource src) s1 Hs1) as [Hs2 Hk].
  destruct (processMessage _ _ _ _ _ s1) as [[b|?|?] s2]; simpl in *; [|by intros [= <- <-]..].
  destruct (law_message_free_ref m args r _ (Hk _ _ Hm1)) as (z' & w3 & Hr3 & Hv3).
  rewrite bind_ret_l. unfold lo. rewrite Hr3. intros [= <- <-]. split.
  - apply rinv_on_net; [done|by rewrite Hv3].
  - intros _ m' x Hx. unfold view_of. simpl. rewrite Hv3. simpl.
    destruct (decide (m' = m)) as [->|Hne].
    + rewrite lookup_insert_eq. congruence.
    + rewrite lookup_insert_ne by done. apply Hk. unfold s1, view_of. simpl. rewrite Hv1. simpl.
      by rewrite lookup_insert_ne by done.
Qed.

Lemma live_keeps s s' d : keeps s s' → live s d → live s' d.
Proof. intros Hk (m & args & r & ? & Hm). exists m, args, r. split; [done|by apply Hk]. Qed.

Lemma lo_dispatch_all_inv ds s o s' : rinv s → Forall (live s) ds →
  lo_dispatch_all cb process depth ds s = (o, s') → rinv s' ∧ (o = Ret tt → keeps s s').
Proof.
  revert s. induction ds as [|d ds IH]; intros s Hs Hds Hr.
  - injection Hr as <- <-. split; [done|by intros _ m x].
  - apply Forall_cons in Hds as [Hd Hds]. simpl in Hr. unfold mbind, M_bind in Hr.
    destruct (lo_dispatch cb process depth d s) as [[[]|?|?] s1] eqn:E;
      destruct (lo_dispatch_inv _ _ _ _ Hs Hd E) as [Hs1 Hk]; [|by injection Hr as <- <-..].
    specialize (Hk eq_refl). destruct (IH s1 Hs1) as [Hs' Hk']; [|done|].
    { eapply Forall_impl; [done|]. intros d'. by apply live_keeps. }
    split; [done|]. intros Ho m x Hx. by apply (Hk' Ho), Hk.
Qed.

(** *** Every call keeps the invariant *)

Lemma set_up_inv g p m s : rinv s → m_serverThread (rcv s) = None → set_up g p m s → rinv (m s).2.
Proof.
  intros Hs Ht [(t & w' & -> & _ & _ & Hv)|(text & w' & -> & Hv)].
  - destruct Hs as [Hn Hs]. rewrite Ht in Hs. destruct Hs as [Hr _].
    split; [done|]. unfold view_of, rcv in *. simpl. rewrite Hv, Hr.
    eexists. split; [apply lookup_insert_eq|]. by destruct g.
  - apply rinv_on_net; [done|by rewrite Hv].
Qed.

(** The state of a running or stopped server. *)
Lemma rinv_server s t x f w' b : rinv s → m_serverThread (rcv s) = Some t →
  v_servers (view_of s) !! t = Some x →
  view w' = on_servers <[t := Server (srv_port x) (srv_group x) (srv_handler x) b]> (view_of s) →
  m_objects (f (rcv s)) = m_objects (rcv s) → m_serverThread (f (rcv s)) = Some t →
  m_isRunning (f (rcv s)) = b → m_isMulticast (f (rcv s)) = m_isMulticast (rcv s) →
  rinv (on_receiver f (on_net w' s)).
Proof.
  intros [Hn Hs] Ht Hx Hv Ho Hth Hr Hm. rewrite Ht in Hs. destruct Hs as (x' & Hx' & _ & Hg & Hh).
  rewrite Hx in Hx'. injection Hx' as <-.
  split; unfold view_of, rcv in *; simpl; rewrite ?Ho, ?Hth, ?Hr, ?Hm; [done|].
  rewrite Hv. eexists. split; [apply lookup_insert_eq|done].
Qed.

Lemma start_inv s : rinv s → rinv (start s).2.
Proof.
  intros Hs. destruct (m_serverThread (rcv s)) as [t|] eqn:Ht.
  - pose proof Hs as [_ Hx]. rewrite Ht in Hx. destruct Hx as (x & Hx & _).
    destruct (run_start s t x Ht Hx) as (w' & -> & Hv). by eapply rinv_server.
  - by rewrite (run_start_None s Ht).
Qed.

Lemma stop_inv s : rinv s → rinv (stop s).2.
Proof.
  intros Hs. destruct (m_serverThread (rcv s)) as [t|] eqn:Ht.
  - pose proof Hs as [_ Hx]. rewrite Ht in Hx. destruct Hx as (x & Hx & _).
    destruct (run_stop s t x Ht Hx) as (w' & -> & Hv). by eapply rinv_server.
  - by rewrite (run_stop_None s Ht).
Qed.

Lemma clear_inv s : rinv s → rinv (clear s).2.
Proof.
  intros Hs. pose proof Hs as [Hn Hx]. destruct (m_serverThread (rcv s)) as [t|] eqn:Ht.
  - destruct Hx as (x & Hx & _). by destruct (clear_run s t x Ht Hx) as (w' & -> & Hv).
  - rewrite (clear_run_None s Ht). destruct Hx. split; [done|]. unfold rcv in *. simpl. by rewrite Ht.
Qed.

(** Changes of the list of objects. *)
Lemma rinv_vector s v : rinv s → None ∉ elems v → rinv (on_receiver (set_vector v) s).
Proof. by intros [_ Hs] Hn. Qed.

Lemma objects_inv s object : rinv s →
  rinv (addOscObject object s).2 ∧ rinv (removeOscObject object s).2 ∧ rinv (removeAllOscObjects s).2.
Proof.
  clear Hcb Hprocess. intros Hs. pose proof Hs as [Hn _]. split_all.
  - unfold addOscObject. destruct object as [k|]; [|by rewrite run_LOG_WARN].
    apply (rinv_vector s (vec_push_back (Some k) (m_objects (rcv s)))); [done|]. simpl.
    rewrite elem_of_app, list_elem_of_singleton. naive_solver.
  - unfold removeOscObject. destruct object as [k|]; [|by rewrite run_LOG_WARN].
    apply (rinv_vector s (vec_remove (Some k) (m_objects (rcv s)))); [done|].
    unfold vec_remove. case_bool_decide; [|done]. simpl. intros Hin.
    by eapply Hn, elem_of_delete.
  - apply (rinv_vector s (vec_clear (m_objects (rcv s)))); [done|]. simpl. set_solver.
Qed.

Lemma handleMessages_inv s t : rinv s → rinv (handleMessages cb process depth t s).2.
Proof.
  intros Hs. pose proof Hs as [Hn Hx]. destruct (m_serverThread (rcv s)) as [th|] eqn:Ht.
  - destruct (m_isRunning (rcv s)) eqn:Hrun; [by rewrite (run_handleMessages_running _ _ _ _ _ _ Ht Hrun)|].
    destruct Hx as (x & Hx & _ & _ & Hh).
    destruct (run_handleMessages cb process depth s t th x Ht Hrun Hx Hh)
      as [(n & ds & w' & _ & Hr & Hv & Hf)|(text & w' & _ & Hr & Hv)]; rewrite Hr;
      [|apply rinv_on_net; [done|by rewrite Hv]]. unfold mbind, M_bind.
    destruct (lo_dispatch_all cb process depth ds (on_net w' s)) as [o s'] eqn:E.
    eapply lo_dispatch_all_inv in E as [Hs' _]; [by destruct o|by apply rinv_on_net|].
    eapply Forall_impl; [done|]. intros d (m & args & ? & _ & ?). by exists m, args, 0%nat.
  - by rewrite (run_handleMessages_None _ _ _ _ _ Ht).
Qed.

(** *** Reachable states *)

Definition rcall_ok (c : rcall) s : Prop :=
  match c with
  | R_incoming path msg =>
      m_serverThread (rcv s) ≠ None ∧ m_isRunning (rcv s) = true ∧ live s (path, Some msg)
  | _ => True
  end.

(** From a constructed receiver, by calls on it, the caller catching what they
    throw, and by steps of the program that leave it and the servers alone. *)
Inductive receiver_reach : rstate A → Prop :=
  | receiver_reach_new s root : receiver_reach (OscReceiver_new root s).2
  | receiver_reach_call s c :
      receiver_reach s → rcall_ok c s → receiver_reach (rexec c s).2
  | receiver_reach_other s s' :
      receiver_reach s → rcv s' = rcv s → v_servers (view_of s') = v_servers (view_of s) →
      receiver_reach s'.

Lemma bind_ret_state {B} (m : M (rstate A) B) s : ((_ ← m; mret tt) s).2 = (m s).2.
Proof. unfold mbind, M_bind. by destruct (m s) as [[] ?]. Qed.

Lemma rexec_quiet_inv c s : dispatches c = false → rinv s → rinv (rexec c s).2.
Proof.
  clear Hcb Hprocess. intros Hd Hs. destruct c; try done; simpl rexec; rewrite ?bind_ret_state.
  - destruct (m_serverThread (rcv s)) as [t|] eqn:Ht; [by rewrite (run_setup_again _ _ _ Ht)|].
    by eapply set_up_inv, run_setup.
  - destruct (m_serverThread (rcv s)) as [t|] eqn:Ht;
      [by rewrite (run_setupMulticast_again _ _ _ _ Ht)|].
    by eapply set_up_inv, run_setupMulticast.
  - by apply clear_inv.
  - by apply start_inv.
  - by apply stop_inv.
  - by apply (objects_inv s object).
  - by apply (objects_inv s object).
  - by apply (objects_inv s None).
Qed.

Lemma rexec_inv c s : rinv s → rcall_ok c s → rinv (rexec c s).2.
Proof.
  intros Hs Hc. destruct (dispatches c) eqn:Hd; [|by apply rexec_quiet_inv].
  destruct c; try done; simpl rexec; rewrite ?bind_ret_state.
  - by apply handleMessages_inv.
  - destruct Hc as (_ & _ & Hl). destruct (lo_dispatch cb process depth (path, Some msg) s) as [o s'] eqn:E.
    by apply (lo_dispatch_inv _ _ _ _ Hs Hl E).
Qed.

Lemma reach_rinv s : receiver_reach s → rinv s.
Proof.
  induction 1 as [s root|s c _ IH Hc|s s' _ IH Hrc Hsv].
  - split; [|done]. simpl. set_solver.
  - by apply rexec_inv.
  - unfold rinv in *. by rewrite Hrc, Hsv.
Qed.

(** *** Ports are never given back *)

Definition held (p : string) s : Prop := ∃ t x, v_servers (view_of s) !! t = Some x ∧ srv_port x = p.

Lemma held_update p s w' t x b : held p s → v_servers (view_of s) !! t = Some x →
  view w' = on_servers <[t := Server (srv_port x) (srv_group x) (srv_handler x) b]> (view_of s) →
  ∃ t' x', v_servers (view w') !! t' = Some x' ∧ srv_port x' = p.
Proof.
  intros (t' & x' & Hx' & Hp) Hx Hv. rewrite Hv. simpl. destruct (decide (t' = t)) as [->|Hne].
  - eexists t, _. split; [apply lookup_insert_eq|]. simpl. congruence.
  - exists t', x'. by rewrite lookup_insert_ne by done.
Qed.

Lemma set_up_held q g p m s : set_up g p m s → held q s → held q (m s).2.
Proof.
  intros [(t & w' & -> & Hf & _ & Hv)|(text & w' & -> & Hv)] (t' & x' & Hx' & Hq).
  - exists t', x'. split; [|done]. unfold view_of. simpl. rewrite Hv. simpl.
    rewrite lookup_insert_ne; [done|]. intros <-. by rewrite Hf in Hx'.
  - exists t', x'. split; [|done]. unfold view_of. simpl. by rewrite Hv.
Qed.

Lemma rexec_held c s p : rinv s → dispatches c = false → held p s → held p (rexec c s).2.
Proof.
  intros [Hn Hs] Hd Hh.
  assert (∀ f, held p (on_receiver f s)) as Hr by done.
  destruct c; try done; simpl rexec; rewrite ?bind_ret_state.
  - destruct (m_serverThread (rcv s)) as [t|] eqn:Ht; [by rewrite (run_setup_again _ _ _ Ht)|].
    by eapply set_up_held, Hh; apply run_setup.
  - destruct (m_serverThread (rcv s)) as [t|] eqn:Ht;
      [by rewrite (run_setupMulticast_again _ _ _ _ Ht)|].
    by eapply set_up_held, Hh; apply run_setupMulticast.
  - destruct (m_serverThread (rcv s)) as [t|] eqn:Ht; [|by rewrite (clear_run_None s Ht)].
    destruct Hs as (x & Hx & _), (clear_run s t x Ht Hx) as (w' & -> & Hv). by eapply held_update.
  - destruct (m_serverThread (rcv s)) as [t|] eqn:Ht; [|by rewrite (run_start_None s Ht)].
    destruct Hs as (x & Hx & _), (run_start s t x Ht Hx) as (w' & -> & Hv). by eapply held_update.
  - destruct (m_serverThread (rcv s)) as [t|] eqn:Ht; [|by rewrite (run_stop_None s Ht)].
    destruct Hs as (x & Hx & _), (run_stop s t x Ht Hx) as (w' & -> & Hv). by eapply held_update.
  - unfold addOscObject. destruct object; [done|by rewrite run_LOG_WARN].
  - unfold removeOscObject. destruct object; [done|by rewrite run_LOG_WARN].
Qed.
End reach.
