(* ===== verification/ReceiverTheorems.v ===== *)
(** * Theorems about the receiver

    The invariant of the receiver, the dispatch of a message to the objects and
    to the receiver, what each call does on every branch, and the server the
    receiver does not give back.  Each theorem with hypotheses is followed, at
    the end, by an application to the reference liblo. *)
From S2P Require Import Prelude Exceptions Effects Machine Floats Liblo LibloModel OscTypes Log ReceivedMessage Vectors OscObject ObjectProps ObjectTheorems OscReceiver ReceiverProps ReceiverReach.
Open Scope Z_scope.

Section theorems.
Context {L : Liblo} {LL : LibloLaws L} {A : Type}.
Implicit Types s : rstate A.

(** ** The invariant *)

(** C15: whatever the sequence of calls on a receiver and of messages given to
    it by its server thread, as long as its callbacks keep the same, the
    receiver holds no null object; without a server it is neither running nor
    multicast; its server is a live server of liblo, which runs exactly when
    [m_isRunning] is set, is in a group exactly when [m_isMulticast] is, and
    reports its errors to [errorCB]. *)
Theorem receiver_invariant cb process depth s :
  (∀ o message source, polite (cb o message source)) →
  (∀ message source, polite (process message source)) →
  receiver_reach cb process depth s →
  None ∉ elems (m_objects (rcv s)) ∧
  (m_serverThread (rcv s) = None → m_isRunning (rcv s) = false ∧ m_isMulticast (rcv s) = false) ∧
  (∀ t, m_serverThread (rcv s) = Some t → ∃ x,
     v_servers (view_of s) !! t = Some x ∧ m_isRunning (rcv s) = srv_running x ∧
     m_isMulticast (rcv s) = bool_decide (srv_group x ≠ None) ∧ srv_handler x = errorCB).
Proof.
  intros Hcb Hp Hr.
  destruct (reach_rinv cb process depth Hcb Hp s Hr) as [Hn Hs].
  split; [done|]. split; [intros Ht|intros t Ht]; by rewrite Ht in Hs.
Qed.

(** ** Dispatch *)

Definition keeps_objects (m : M (rstate A) bool) : Prop := ∀ s s',
  m s = (Ret false, s') → m_objects (rcv s') = m_objects (rcv s).

Lemma unfold_all h os : no_null h → (∀ o, o ∈ os → closed_below h o ∧ acyclic_below h o) →
  ∃ ls, Forall2 (λ o l, ∃ d, visits h o l d ∧ (d ≤ base.size h)%nat) os ls.
Proof.
  intros Hnn. induction os as [|o os IH]; intros Ho; [by exists []|].
  destruct (Ho o) as [Hcl Hac]; [set_solver|].
  destruct (visits_acyclic_exists h o Hnn Hcl Hac) as (l & d & ? & ?).
  destruct IH as [ls ?]; [set_solver|]. exists (l :: ls). constructor; [by exists d|done].
Qed.

(** The callbacks run, given the unfolding of the graph below each object. *)
Lemma run_processMessage cb process depth message source s os ls :
  m_ignoreMessages (rcv s) = false → elems (m_objects (rcv s)) = map Some os →
  Forall2 (λ o l, ∃ d, visits (heap s) o l d ∧ (d ≤ depth)%nat) os ls →
  (∀ o, keeps_heap cb message source (heap s) o ∧ keeps_objects (cb o message source)) →
  processMessage cb process depth message source s
  = first_handled (callbacks cb message source (concat ls) ++ [process message source]) s.
Proof.
  intros Hi Hos Hls Hcb.
  set (Q := λ s' : rstate A, heap s' = heap s ∧ m_objects (rcv s') = m_objects (rcv s)).
  assert (∀ l s1 s2, Q s1 → first_handled (callbacks cb message source l) s1 = (Ret false, s2) → Q s2)
    as HQ.
  { intros l s1 s2. apply (first_handled_inv Q). apply Forall_map, Forall_forall.
    intros o _ s3 s4 [Hh Ho] Hr. destruct (Hcb o) as [Hk1 Hk2].
    split; [by eapply Hk1|]. by rewrite <- Ho, (Hk2 _ _ Hr). }
  assert (∀ o l, (∃ d, visits (heap s) o l d ∧ (d ≤ depth)%nat) → ∀ s1, Q s1 →
    processOsc cb depth o message source s1 = first_handled (callbacks cb message source l) s1) as Hrun.
  { intros o l (d & Hv & Hle) s1 [Hh _].
    apply (proj1 (processOsc_visits cb message source (heap s)) _ _ _ Hv); [|lia|done].
    apply Forall_forall. intros o' _. apply Hcb. }
  unfold processMessage. rewrite run_field, Hi, first_handled_app. apply bind_ext.
  rewrite (dispatch_all_stable _ _ _ _ Q (m_objects (rcv s))) with (objs := os).
  - unfold callbacks. rewrite concat_map, first_handled_concat.
    apply (first_handled_ext Q); [|by split]. rewrite map_map.
    clear Hos. induction Hls as [|o l os ls Ho _ IH]; constructor; [|done].
    intros s1 Hs1. split; [by apply Hrun|]. intros s2. rewrite (Hrun o l Ho s1 Hs1). by apply HQ.
  - intros s1 [_ Ho]. unfold field, gets. unfold rcv in Ho. by rewrite Ho.
  - done.
  - by split.
  - intros o s1 s2 Hin Hs1. apply list_elem_of_lookup in Hin as [i Hin].
    destruct (Forall2_lookup_l _ _ _ _ _ Hls Hin) as (l & _ & Ho).
    rewrite (Hrun o l Ho s1 Hs1). by apply HQ.
Qed.

(** C6: a receiver that does not ignore messages gives a message to its
    attached objects in the order they were attached, each in post-order, then
    to its own [process], and stops at the first that handles it. *)
Theorem processMessage_order cb process depth message source s os :
  m_ignoreMessages (rcv s) = false → elems (m_objects (rcv s)) = map Some os →
  no_null (heap s) → (∀ o, o ∈ os → closed_below (heap s) o ∧ acyclic_below (heap s) o) →
  (base.size (heap s) ≤ depth)%nat →
  (∀ o, keeps_heap cb message source (heap s) o ∧ keeps_objects (cb o message source)) →
  ∃ ls, Forall2 (λ o l, ∃ d, visits (heap s) o l d) os ls ∧
    processMessage cb process depth message source s
    = first_handled (callbacks cb message source (concat ls) ++ [process message source]) s.
Proof.
  intros Hi Hos Hnn Hob Hd Hcb. destruct (unfold_all (heap s) os Hnn Hob) as [ls Hls].
  exists ls. split; [by eapply Forall2_impl; [done|]; intros o l (d & ? & _); exists d|].
  apply run_processMessage with os; [done|done| |done].
  eapply Forall2_impl; [done|]. intros o l (d & ? & ?). exists d. split; [done|lia].
Qed.

(** ** Set up *)

(** C24: setting up a receiver that has a server warns, returns false and
    changes nothing else.  Otherwise it returns true, with a new stopped server
    on the port, whose number [getPort] gives back, or throws a
    [ReceiveException] with the receiver and liblo's objects as they were; a
    port from 1 to 65535 that a live server of liblo holds makes it throw (for
    port 0 the system picks a free one).  It never returns false. *)
Theorem setup_outcome s p :
  match m_serverThread (rcv s) with
  | Some t => setup p s = (Ret false,
      lset (warned "OscReceiver: cannot set port while thread is running" (con s)) s)
  | None =>
      (∃ t s', setup p s = (Ret true, s') ∧ (0 < p < 65536 → ¬ held (dec p) s) ∧
         rcv s' = set_isMulticast false (set_serverThread (Some t) (rcv s)) ∧
         v_servers (view_of s') = <[t := Server (dec p) None errorCB false]> (v_servers (view_of s)) ∧
         (0 < p < 65536 → getPort s' = (Ret p, s'))) ∨
      (∃ text s', setup p s = (Throw (ReceiveException text), s') ∧
         rcv s' = rcv s ∧ view_of s' = view_of s)
  end.
Proof.
  destruct (m_serverThread (rcv s)) as [t|] eqn:Ht; [by eapply run_setup_again|].
  destruct (run_setup s p Ht) as [(t & w' & Hr & Hf & Hp & Hv)|(text & w' & Hr & Hv)].
  - left. eexists t, _. split; [done|]. split_all.
    + intros Hrange (t' & x & Hx & Hq). by apply (Hp eq_refl Hrange t' x).
    + unfold view_of. simpl. by rewrite Hv.
    + intros Hrange. unfold getPort, from_server. rewrite run_field. simpl.
      destruct (law_server_thread_get_server t (Server (dec p) None errorCB false) w')
        as (sv & Hsv & _ & Hport & _); [rewrite Hv; apply lookup_insert_eq|].
      unfold ask, mbind, M_bind. simpl. rewrite Hsv, (Hport p) by done. simpl.
      by rewrite wrap_small by lia.
  - right. eexists text, _. split_all. 
Qed.

(** ** Thread control *)


(** Calls one after the other, whatever they throw. *)
Fixpoint run_calls cb process depth (cs : list rcall) s : rstate A :=
  match cs with
  | [] => s
  | c :: cs => run_calls cb process depth cs (rexec cb process depth c s).2
  end.


(** ** Calls that run no callback *)

(** C26: a call that runs no callback has no undefined behaviour, and only the
    two set up functions throw, a [ReceiveException], which leaves the receiver,
    its objects and liblo's objects as they were. *)
Theorem receiver_calls_defined cb process depth s c :
  rinv s → dispatches c = false →
  (rexec cb process depth c s).1 = Ret tt ∨
  (m_serverThread (rcv s) = None ∧
   (∃ p, c = R_setup p ∨ ∃ g, c = R_setupMulticast g p) ∧
   ∃ text w', rexec cb process depth c s = (Throw (ReceiveException text), on_net w' s) ∧
              view w' = view_of s).
Proof.
  intros [Hn Hs] Hd. destruct (m_serverThread (rcv s)) as [t|] eqn:Ht.
  - left. destruct Hs as (x & Hx & _). destruct c; try done; simpl rexec.
    + by rewrite (bind_step _ _ _ _ _ (run_setup_again _ _ _ Ht)).
    + by rewrite (bind_step _ _ _ _ _ (run_setupMulticast_again _ _ _ _ Ht)).
    + by destruct (clear_run s t x Ht Hx) as (w' & -> & _).
    + by destruct (run_start s t x Ht Hx) as (w' & -> & _).
    + by destruct (run_stop s t x Ht Hx) as (w' & -> & _).
    + unfold addOscObject. destruct object; [done|by rewrite run_LOG_WARN].
    + unfold removeOscObject. destruct object; [done|by rewrite run_LOG_WARN].
  - destruct c; try done; simpl rexec.
    + destruct (run_setup s port Ht) as [(t & w' & Hr & _)|(text & w' & Hr & Hv)].
      * left. by rewrite (bind_step _ _ _ _ _ Hr).
      * right. split; [done|]. split; [by exists port; left|].
        exists text, w'. by rewrite (bind_throw _ _ _ _ _ Hr).
    + destruct (run_setupMulticast s group port Ht) as [(t & w' & Hr & _)|(text & w' & Hr & Hv)].
      * left. by rewrite (bind_step _ _ _ _ _ Hr).
      * right. split; [done|]. split; [exists port; right; by exists group|].
        exists text, w'. by rewrite (bind_throw _ _ _ _ _ Hr).
    + left. by rewrite (clear_run_None s Ht).
    + left. by rewrite (run_start_None s Ht).
    + left. by rewrite (run_stop_None s Ht).
    + left. unfold addOscObject. destruct object; [done|by rewrite run_LOG_WARN].
    + left. unfold removeOscObject. destruct object; [done|by rewrite run_LOG_WARN].
    + by left.
    + by left.
    + by left.
Qed.

(** C31: polling a stopped server returns what liblo received, and every message
    it dispatched is still alive afterwards, with no reference but the one its
    [ReceivedMessage] took and never drops. *)
Theorem handleMessages_leaks cb process depth s timeoutMS n s' t :
  (∀ o message source, polite (cb o message source)) →
  (∀ message source, polite (process message source)) →
  rinv s → m_serverThread (rcv s) = Some t → m_isRunning (rcv s) = false →
  handleMessages cb process depth timeoutMS s = (Ret n, s') →
  ∃ sv ds w', lo_server_thread_get_server (Some t) (net (rest s)) = Ret sv ∧
    lo_server_recv_noblock sv timeoutMS (net (rest s)) = (Ret (n, ds), w') ∧
    Forall (λ d, ∃ m args, d.2 = Some m ∧ v_msgs (view_of s) !! m = None ∧
                           v_msgs (view_of s') !! m = Some (Msg args 0)) ds.
Proof.
  intros Hcb Hp Hs Ht Hrun Hr. pose proof Hs as [_ Hx]. rewrite Ht in Hx. destruct Hx as (x & Hx & _ & _ & Hh).
  destruct (run_handleMessages cb process depth s timeoutMS t x Ht Hrun Hx Hh)
    as [(n' & ds & w' & (sv & Hsv & Hrecv) & Hr' & Hv & Hf)|(text & w' & _ & Hr' & _)];
    [|by rewrite Hr' in Hr].
  rewrite Hr' in Hr. apply bind_Ret_inv in Hr as ([] & s1 & Hd & [= <- <-]).
  exists sv, ds, w'. split_all.
  eapply lo_dispatch_all_inv in Hd as [_ Hk]; [|done..|by apply rinv_on_net|].
  - eapply Forall_impl; [done|]. intros d (m & args & ? & ? & Hm). exists m, args. split_all.
    by apply (Hk eq_refl).
  - eapply Forall_impl; [done|]. intros d (m & args & ? & _ & ?). by exists m, args, 0%nat.
Qed.
End theorems.

(** ** Applications *)

(** Callbacks that record whom they were called for; the receiver is [1000]. *)
Definition note (o : ptr) (b : bool) : M (rstate (L := model) (list ptr)) bool := λ s,
  (Ret b, Env (heap s) (con s) (App (receiver (rest s)) (net (rest s)) (user (rest s) ++ [o]))).
Definition noting (o : ptr) (_ : ReceivedMessage) (_ : MessageSource) := note o false.
Definition handling (_ : ReceivedMessage) (_ : MessageSource) := note 1000%positive true.

(** A packet of one message waits at the socket. *)
Definition mw1 : mworld :=
  MWorld (View ∅ ∅ ∅ ∅ ∅ []) 0 [Datagram 20 [("/a", [AInt32 7])]] None.
Definition rs0 : rstate (L := model) (list ptr) :=
  Env diamond (Console [] []) (App (OscReceiver_init "") mw1 []).
Definition rs1 := (addOscObject (Some 3%positive) rs0).2.
Definition rs2 := (setup 9990 rs1).2.
Definition rs3 := (start rs2).2.

Lemma note_polite o b : polite (note o b).
Proof. intros s Hs. by split; [|intros m x]. Qed.

Lemma rs2_inv : rinv rs2.
Proof. split; [by apply (bool_decide_unpack _)|]. simpl. eexists. by split_all. Qed.

(** Polling runs the callbacks of the objects, then of the receiver. *)
Example polling : user (rest (handleMessages noting handling 4 0 rs2).2) = [4; 3; 1000]%positive.
Proof. vm_compute. reflexivity. Qed.

Lemma receiver_invariant_witness :
  None ∉ elems (m_objects (rcv rs3)) ∧
  (m_serverThread (rcv rs3) = None → m_isRunning (rcv rs3) = false ∧ m_isMulticast (rcv rs3) = false) ∧
  (∀ t, m_serverThread (rcv rs3) = Some t → ∃ x,
     v_servers (view_of rs3) !! t = Some x ∧ m_isRunning (rcv rs3) = srv_running x ∧
     m_isMulticast (rcv rs3) = bool_decide (srv_group x ≠ None) ∧ srv_handler x = errorCB).
Proof.
  apply (receiver_invariant (L := model) noting handling 4).
  - intros. apply note_polite.
  - intros. apply note_polite.
  - apply (receiver_reach_call noting handling 4 rs2 R_start); [|done].
    change rs2 with (rexec noting handling 4 (R_setup 9990) rs1).2.
    apply receiver_reach_call; [|done].
    apply (receiver_reach_call noting handling 4 rs0 (R_addOscObject (Some 3%positive))); [|done].
    apply (receiver_reach_new noting handling 4 rs0 "").
Defined.

Lemma processMessage_order_witness :
  ∃ ls, Forall2 (λ o l, ∃ d, visits diamond o l d) [3%positive] ls ∧
    processMessage noting handling 4 no_message no_source rs1
    = first_handled (callbacks noting no_message no_source (concat ls)
                     ++ [handling no_message no_source]) rs1.
Proof.
  apply (processMessage_order (L := model) noting handling 4 no_message no_source rs1);
    [reflexivity|reflexivity| | | |].
  - apply (edges_no_null (λ o k, (o < k)%positive)). by apply (bool_decide_unpack _).
  - intros o ->%list_elem_of_singleton. split.
    + apply edges_closed; by apply (bool_decide_unpack _).
    + intros k _. apply edges_acyclic. by apply (bool_decide_unpack _).
  - apply (bool_decide_unpack _). by vm_compute.
  - intros o. by split; [intros s s' Hs [= <-]|intros s s' [= <-]].
Defined.



Lemma receiver_calls_defined_witness :
  (rexec noting handling 4 R_clear rs2).1 = Ret tt ∨
  (m_serverThread (rcv rs2) = None ∧
   (∃ p, R_clear = R_setup p ∨ ∃ g, R_clear = R_setupMulticast g p) ∧
   ∃ text w', rexec noting handling 4 R_clear rs2 = (Throw (ReceiveException text), on_net w' rs2) ∧
              view w' = view_of rs2).
Proof. by apply (receiver_calls_defined (L := model) noting handling 4 rs2 R_clear rs2_inv). Defined.

Lemma handleMessages_leaks_witness :
  ∃ sv ds w', lo_server_thread_get_server (Liblo := model) (Some 2%positive) (net (rest rs2)) = Ret sv ∧
    lo_server_recv_noblock (Liblo := model) sv 0 (net (rest rs2)) = (Ret (20, ds), w') ∧
    Forall (λ d, ∃ m args, d.2 = Some m ∧ v_msgs (view_of rs2) !! m = None ∧
      v_msgs (view_of (handleMessages noting handling 4 0 rs2).2) !! m = Some (Msg args 0)) ds.
Proof.
  apply (handleMessages_leaks (L := model) noting handling 4 rs2 0 20 _ 2%positive).
  - intros. apply note_polite.
  - intros. apply note_polite.
  - apply rs2_inv.
  - reflexivity.
  - reflexivity.
  - apply injective_projections; [vm_compute; reflexivity|reflexivity].
Defined.

Lemma setup_outcome_witness :
  (∃ t s', setup 9990 rs1 = (Ret true, s') ∧ (0 < 9990 < 65536 → ¬ held (dec 9990) rs1) ∧
     rcv s' = set_isMulticast false (set_serverThread (Some t) (rcv rs1)) ∧
     v_servers (view_of s') = <[t := Server (dec 9990) None errorCB false]> (v_servers (view_of rs1)) ∧
     (0 < 9990 < 65536 → getPort s' = (Ret 9990, s'))) ∨
  (∃ text s', setup 9990 rs1 = (Throw (ReceiveException text), s') ∧
     rcv s' = rcv rs1 ∧ view_of s' = view_of rs1).
Proof. apply (setup_outcome (L := model) rs1 9990). Defined.
