(* ===== verification/Accesses.v ===== *)
(** * The accesses to shared memory

    The member functions of [OscReceiver] and [OscObject] once more, at the grain
    at which two threads meet: a program is a tree of accesses, each a read or a
    write of one member of the receiver or of one object, the construction or the
    destruction of an object, a call of liblo, a line on the console or a step on
    the program's own data.  [run] executes a program
    without interference; [call_run_equiv] shows that it is then the member
    function of [OscReceiver.v] or [OscObject.v].  [Threads] interleaves the
    programs of two threads. *)
From S2P Require Import Prelude Exceptions Effects Machine Floats Liblo OscTypes Log ReceivedMessage Vectors OscObject OscReceiver.
Open Scope Z_scope.

(** The data members of [OscReceiver]. *)
Inductive member : Type → Type :=
  | F_oscRootAddress : member string
  | F_serverThread : member (option ptr)
  | F_isMulticast : member bool
  | F_isRunning : member bool
  | F_ignoreMessages : member bool
  | F_objects : member (vec (option ptr)).

Definition member_get {B} (f : member B) : OscReceiver → B :=
  match f with
  | F_oscRootAddress => m_oscRootAddress
  | F_serverThread => m_serverThread
  | F_isMulticast => m_isMulticast
  | F_isRunning => m_isRunning
  | F_ignoreMessages => m_ignoreMessages
  | F_objects => m_objects
  end.

Definition member_set {B} (f : member B) : B → OscReceiver → OscReceiver :=
  match f with
  | F_oscRootAddress => set_oscRootAddress
  | F_serverThread => set_serverThread
  | F_isMulticast => set_isMulticast
  | F_isRunning => set_isRunning
  | F_ignoreMessages => set_ignoreMessages
  | F_objects => set_vector
  end.

Section accesses.
Context {L : Liblo} {A : Type}.

Inductive access : Type → Type :=
  | Read {B} (f : member B) : access B
  | Write {B} (f : member B) (x : B) : access unit
  | ReadObjects (o : ptr) : access (vec (option ptr))
  | WriteObjects (o : ptr) (v : vec (option ptr)) : access unit
  | ReadRoot (o : ptr) : access string
  | WriteRoot (o : ptr) (r : string) : access unit
  | NewObject (o : ptr) (ob : OscObject) : access unit
  | FreeObject (o : ptr) : access unit
  | OnConsole {B} (m : M console B) : access B
  | Lo {B} (m : M world B) : access B
  | Ask {B} (q : world → outcome B) : access B
  | ThreadStart (t : option ptr) : access Z
  | ThreadStop (t : option ptr) : access Z
  | User {B} (m : M A B) : access B.

Definition on_user {B} (m : M A B) : M (rstate A) B := λ s,
  let '(o, u) := m (user (rest s)) in
  (o, Env (heap s) (con s) (App (receiver (rest s)) (net (rest s)) u)).

(** What an access does to the memory. *)
Definition exec {B} (a : access B) : M (rstate A) B :=
  match a with
  | Read f => field (member_get f)
  | Write f x => assign (member_set f x)
  | ReadObjects o => objects_of o
  | WriteObjects o v => update o (set_objects v)
  | ReadRoot o => OscObject.getOscRootAddress o
  | WriteRoot o r => OscObject.setOscRootAddress o r
  | NewObject o ob => zoom (modify <[o := ob]>)
  | FreeObject o => zoom (modify (delete o))
  | OnConsole m => zoom m
  | Lo m => lo m
  | Ask q => ask q
  | ThreadStart t => lo (lo_server_thread_start t)
  | ThreadStop t => lo (lo_server_thread_stop t)
  | User m => on_user m
  end.

(** ** Programs *)

Inductive prog (R : Type) : Type :=
  | Done (o : outcome R)
  | Step {B} (a : access B) (k : B → prog R).
Arguments Done {R} o.
Arguments Step {R B} a k.

Fixpoint pbind {R R'} (f : R → prog R') (p : prog R) : prog R' :=
  match p with
  | Done (Ret r) => f r
  | Done (Throw e) => Done (Throw e)
  | Done (Undef u) => Done (Undef u)
  | Step a k => Step a (λ b, pbind f (k b))
  end.

#[export] Instance prog_ret : MRet prog := λ R r, Done (Ret r).
#[export] Instance prog_bind : MBind prog := @pbind.

Definition act {B} (a : access B) : prog B := Step a (λ b, Done (Ret b)).
Definition warn (s : string) : prog unit := act (OnConsole (LOG_WARN s)).
Definition error (s : string) : prog unit := act (OnConsole (LOG_ERROR s)).

(** A program alone. *)
Fixpoint run {R} (p : prog R) : M (rstate A) R :=
  match p with
  | Done o => liftO o
  | Step a k => b ← exec a; run (k b)
  end.

(** ** OscReceiver *)

Definition p_start : prog unit :=
  t ← act (Read F_serverThread);
  if bool_decide (t = None) then error "OscReceiver: cannot start thread, address not set"
  else
    _ ← act (ThreadStart t);
    act (Write F_isRunning true).

Definition p_stop : prog unit :=
  t ← act (Read F_serverThread);
  if bool_decide (t = None) then mret tt
  else
    _ ← act (ThreadStop t);
    _ ← act (Write F_isRunning false);
    act (Write F_ignoreMessages false).

(** What follows the creation of the server in both set up functions. *)
Definition p_set_up (create : M world (option ptr)) (multicast : bool) : prog bool :=
  t' ← act (Lo create);
  _ ← act (Write F_serverThread t');
  if bool_decide (t' = None) then
    _ ← error "OscReceiver: could not create server"; mret false
  else
    _ ← act (Lo (lo_server_thread_add_method t' CNull CNull));
    _ ← act (Write F_isMulticast multicast);
    mret true.

Definition p_setup (port : Z) : prog bool :=
  t ← act (Read F_serverThread);
  if bool_decide (t ≠ None) then
    _ ← warn "OscReceiver: cannot set port while thread is running"; mret false
  else p_set_up (lo_server_thread_new (c_str (dec port)) errorCB) false.

Definition p_setupMulticast (group : string) (port : Z) : prog bool :=
  t ← act (Read F_serverThread);
  if bool_decide (t ≠ None) then
    _ ← warn "OscReceiver: cannot set multicast group & port while thread is running";
    mret false
  else p_set_up (lo_server_thread_new_multicast (c_str group) (c_str (dec port)) errorCB) true.

Definition p_clear : prog unit :=
  _ ← p_stop;
  t ← act (Read F_serverThread);
  _ ← (if bool_decide (t ≠ None) then act (Write F_serverThread None) else mret tt);
  act (Write F_isMulticast false).

Definition p_addOscObject (object : option ptr) : prog unit :=
  match object with
  | None => warn "OscReceiver: cannot add NULL object"
  | Some _ =>
      v ← act (Read F_objects);
      act (Write F_objects (vec_push_back object v))
  end.

(** [erase] only writes the vector when the object was found. *)
Definition p_removeOscObject (object : option ptr) : prog unit :=
  match object with
  | None => warn "OscReceiver: cannot remove NULL object"
  | Some _ =>
      v ← act (Read F_objects);
      let i := find_index object (elems v) in
      if bool_decide (i ≠ length (elems v)) then act (Write F_objects (vec_erase i v))
      else mret tt
  end.

Definition p_removeAllOscObjects : prog unit :=
  v ← act (Read F_objects);
  act (Write F_objects (vec_clear v)).

Definition p_from_server {B} (dflt : B) (q : option ptr → world → outcome B) : prog B :=
  t ← act (Read F_serverThread);
  if bool_decide (t = None) then mret dflt
  else sv ← act (Ask (lo_server_thread_get_server t)); act (Ask (q sv)).

Definition p_getUrl : prog string :=
  p ← p_from_server (CStr "") lo_server_get_url; Done (std_string p).
Definition p_getHostname : prog string :=
  p ← p_from_server (CStr "") (λ sv w, u ← lo_server_get_url sv w; lo_url_get_hostname u);
  Done (std_string p).
Definition p_getPort : prog Z :=
  p_from_server 0 (λ sv w, n ← lo_server_get_port sv w; Ret (wrap 32 n)).

Definition p_print : prog unit :=
  t ← act (Read F_serverThread);
  if bool_decide (t ≠ None)
  then u ← p_getUrl; act (OnConsole (cout_put [T_str u; T_endl]))
  else mret tt.

(** ** OscObject *)

Definition p_oo_add (this : ptr) (object : option ptr) : prog unit :=
  match object with
  | None => warn "OscObject: cannot add NULL object"
  | Some _ =>
      v ← act (ReadObjects this);
      act (WriteObjects this (vec_push_back object v))
  end.

Definition p_oo_remove (this : ptr) (object : option ptr) : prog unit :=
  match object with
  | None => warn "OscObject: cannot remove NULL object"
  | Some _ =>
      v ← act (ReadObjects this);
      let i := find_index object (elems v) in
      if bool_decide (i ≠ length (elems v)) then act (WriteObjects this (vec_erase i v))
      else mret tt
  end.

Definition p_oo_removeAll (this : ptr) : prog unit :=
  v ← act (ReadObjects this);
  act (WriteObjects this (vec_clear v)).

Definition p_oo_prepend (this : ptr) (prepend : string) : prog unit :=
  r ← act (ReadRoot this);
  act (WriteRoot this (prepend +:+ r)).

(** ** Processing *)

Section dispatch.
Context (read : prog (vec (option ptr))) (write : vec (option ptr) → prog unit).
Context (removed : string) (call : ptr → prog bool).

(** The loop of [Vectors.dispatch]. *)
Fixpoint p_dispatch (n i st : nat) : prog bool :=
  v ← read;
  if bool_decide (stamp v ≠ st) then Done (Undef IteratorInvalidated)
  else if bool_decide (i = length (elems v)) then mret false
  else
    match n with
    | O => Done (Undef OutOfFuel)
    | Datatypes.S n =>
        match elems v !! i with
        | None => Done (Undef OutOfBounds)
        | Some (Some o) =>
            handled ← call o;
            if (handled : bool) then mret true else p_dispatch n (Datatypes.S i) st
        | Some None =>
            let v' := vec_erase i v in
            _ ← write v';
            _ ← warn removed;
            p_dispatch n i (stamp v')
        end
    end.

Definition p_dispatch_all : prog bool :=
  v ← read;
  p_dispatch (length (elems v)) 0 (stamp v).
End dispatch.

Section processing.
Context (processOscMessage : ptr → ReceivedMessage → MessageSource → prog bool).
Context (process : ReceivedMessage → MessageSource → prog bool).
Context (depth : nat).

Fixpoint p_processOsc (depth : nat) (this : ptr) (message : ReceivedMessage)
    (source : MessageSource) : prog bool :=
  match depth with
  | O => Done (Undef StackOverflow)
  | S depth =>
      handled ← p_dispatch_all (act (ReadObjects this))
        (λ v, act (WriteObjects this v)) "OscObject: removed NULL object"
        (λ o, p_processOsc depth o message source);
      if (handled : bool) then mret true else processOscMessage this message source
  end.

Definition p_processMessage (message : ReceivedMessage) (source : MessageSource) : prog bool :=
  ignore ← act (Read F_ignoreMessages);
  if (ignore : bool) then mret false
  else
    handled ← p_dispatch_all (act (Read F_objects)) (λ v, act (Write F_objects v))
      "OscReceiver: removed NULL object"
      (λ o, p_processOsc depth o message source);
    if (handled : bool) then mret true
    else
      b ← process message source;
      if (b : bool) then mret true else mret false.

Definition p_messageCB (path : string) (msg : option ptr) : prog Z :=
  message ← act (Lo (ReceivedMessage_new path msg));
  source ← act (Ask (lo_message_get_source msg));
  b ← p_processMessage message (MessageSource_new source);
  mret (if (b : bool) then 1 else 0).

(** The method, called by liblo for a message. *)
Definition p_lo_dispatch (d : string * option ptr) : prog unit :=
  _ ← p_messageCB d.1 d.2; act (Lo (lo_message_free d.2)).

Fixpoint p_lo_dispatch_all (ds : list (string * option ptr)) : prog unit :=
  match ds with
  | [] => mret tt
  | d :: ds => _ ← p_lo_dispatch d; p_lo_dispatch_all ds
  end.

Definition p_handleMessages (timeoutMS : Z) : prog Z :=
  t ← act (Read F_serverThread);
  if bool_decide (t = None) then
    _ ← error "OscReceiver: cannot handle messages, address not set"; mret 0
  else
    running ← act (Read F_isRunning);
    if (running : bool) then
      _ ← act (OnConsole (log_statement false LOG_LEVEL_WARN
            [T_str "OscReceiver: you don't need to handle messages manually ";
             T_str "when the thread is already running"]));
      mret 0
    else
      server ← act (Ask (lo_server_thread_get_server t));
      '(n, ds) ← act (Lo (lo_server_recv_noblock server timeoutMS));
      _ ← p_lo_dispatch_all ds;
      mret n.
End processing.
End accesses.
Arguments access {L} A B.
Arguments prog {L} A R.
Arguments Done {L A R} o.
Arguments Step {L A R B} a k.
