(* ===== verification/CallTheorems.v ===== *)
(** * The accesses are the member functions

    One lemma per member function, from the loops to the calls, and the theorem
    that every call, and the method run for a message, executed without
    interference is the definition of [OscReceiver.v] or [OscObject.v]. *)
From S2P Require Import Prelude Exceptions Effects Machine Floats Liblo LibloModel OscTypes Log ReceivedMessage Vectors OscObject OscReceiver ReceiverProps Accesses Calls.
Open Scope Z_scope.

Section runs.
Context {L : Liblo} {A : Type}.
Implicit Types s : rstate A.

Lemma run_p_dispatch read write removed call rd wr cl n i st s :
  (∀ s, run read s = rd s) → (∀ v s, run (write v) s = wr v s) →
  (∀ o s, run (call o) s = cl o s) →
  run (p_dispatch (A := A) read write removed call n i st) s = dispatch rd wr removed cl n i st s.
Proof.
  intros Hr Hw Hc. revert i st s. induction n as [|n IH]; intros i st s; simpl;
    (apply run_cong; [done|]); intros v s1; repeat case_bool_decide; try done.
  destruct (elems v !! i) as [[o|]|]; [| |done].
  - apply run_cong; [done|]. intros [] s2; [done|apply IH].
  - apply run_cong; [done|]. intros _ s2. apply (run_cong (warn removed)); [intros; apply run_warn|].
    intros _ s3. apply IH.
Qed.

Lemma run_p_dispatch_all read write removed call rd wr cl s :
  (∀ s, run read s = rd s) → (∀ v s, run (write v) s = wr v s) →
  (∀ o s, run (call o) s = cl o s) →
  run (p_dispatch_all (A := A) read write removed call) s = dispatch_all rd wr removed cl s.
Proof.
  intros Hr Hw Hc. apply run_cong; [done|]. intros v s1. by apply run_p_dispatch.
Qed.

Lemma run_p_setup port s : run (p_setup (A := A) port) s = setup port s.
Proof. unfold p_setup, setup, p_set_up. repeat run_step. Qed.

Lemma run_p_setupMulticast group port s :
  run (p_setupMulticast (A := A) group port) s = setupMulticast group port s.
Proof. unfold p_setupMulticast, setupMulticast, p_set_up. repeat run_step. Qed.

Lemma run_p_start s : run (p_start (A := A)) s = start s.
Proof. unfold p_start, start. repeat run_step. Qed.

Lemma run_p_stop s : run (p_stop (A := A)) s = stop s.
Proof. unfold p_stop, stop. repeat run_step. Qed.

Lemma run_p_clear s : run (p_clear (A := A)) s = clear s.
Proof.
  unfold p_clear, clear. apply run_cong; [apply run_p_stop|intros _ s1].
  unfold when. repeat run_step.
Qed.

(** A vector written back as it was is no change. *)
Lemma set_vector_same (s : rstate A) : on_receiver (set_vector (m_objects (rcv s))) s = s.
Proof. by destruct s as [h c [[] ? ?]]. Qed.

Lemma run_p_addOscObject object s : run (p_addOscObject (A := A) object) s = addOscObject object s.
Proof. by destruct object; [|apply run_warn]. Qed.

Lemma run_p_removeOscObject object s :
  run (p_removeOscObject (A := A) object) s = removeOscObject object s.
Proof.
  destruct object as [o|]; [|apply run_warn]. simpl.
  unfold assign, modify, on_receiver, vec_remove, mbind at 1, M_bind at 1. simpl.
  case_bool_decide; [done|]. simpl. unfold mret, M_ret. f_equal.
  symmetry. apply (set_vector_same s).
Qed.

Lemma run_p_removeAll s : run (p_removeAllOscObjects (A := A)) s = removeAllOscObjects s.
Proof. done. Qed.

(** *** Objects: a member read, then written *)

Lemma run_read_write {B} (this : ptr) (rd : access A B) (wr : B → access A unit) (g : OscObject → B)
    (set : B → OscObject → OscObject) (f : B → B) s :
  (∀ s, exec rd s = (o ← deref this; mret (g o)) s) →
  (∀ b s, exec (wr b) s = update this (set b) s) →
  run (b ← act rd; act (wr (f b))) s = update this (λ o, set (f (g o)) o) s.
Proof.
  intros Hr Hw. simpl. unfold mbind at 1, M_bind at 1. rewrite Hr.
  unfold update, deref, mbind, M_bind. destruct (heap s !! this) as [ob|] eqn:E; [|done]. simpl.
  unfold mbind, M_bind. rewrite Hw. unfold update, deref, mbind, M_bind. by rewrite E.
Qed.

Lemma run_p_oo_add this object s :
  run (p_oo_add (A := A) this object) s = OscObject.addOscObject this object s.
Proof.
  destruct object as [o|]; [|apply run_warn].
  by apply (run_read_write this _ (WriteObjects this) oo_objects set_objects).
Qed.

Lemma run_p_oo_remove this object s :
  run (p_oo_remove (A := A) this object) s = OscObject.removeOscObject this object s.
Proof.
  destruct object as [o|]; [|apply run_warn].
  unfold p_oo_remove, OscObject.removeOscObject. rewrite run_bind. simpl.
  unfold objects_of, update, deref, mbind, M_bind. simpl.
  destruct (heap s !! this) as [ob|] eqn:E; [|done]. simpl.
  unfold vec_remove. case_bool_decide.
  - simpl. unfold update, deref, mbind, M_bind. by rewrite E.
  - simpl. unfold mret, M_ret, zoom, modify. simpl.
    destruct ob, s as [h c r]. simpl in *. by rewrite insert_id.
Qed.

Lemma run_p_oo_removeAll this s :
  run (p_oo_removeAll (A := A) this) s = OscObject.removeAllOscObjects this s.
Proof. by apply (run_read_write this _ (WriteObjects this) oo_objects set_objects vec_clear). Qed.

Lemma run_p_oo_prepend this prepend s :
  run (p_oo_prepend (A := A) this prepend) s = prependOscRootAddress this prepend s.
Proof.
  by apply (run_read_write this _ (WriteRoot this) oscRootAddress set_root (λ r, prepend +:+ r)).
Qed.

(** *** Queries *)

Lemma run_p_from_server {B} (dflt : B) q s :
  run (p_from_server (A := A) dflt q) s = from_server dflt q s.
Proof. unfold p_from_server, from_server. repeat run_step. Qed.

Lemma run_p_getUrl s : run (p_getUrl (A := A)) s = getUrl s.
Proof. apply run_cong; [apply run_p_from_server|done]. Qed.

Lemma run_p_getHostname s : run (p_getHostname (A := A)) s = getHostname s.
Proof. apply run_cong; [apply run_p_from_server|done]. Qed.

Lemma run_p_getPort s : run (p_getPort (A := A)) s = getPort s.
Proof. apply run_p_from_server. Qed.

Lemma run_p_print s : run (p_print (A := A)) s = print s.
Proof.
  unfold p_print, print, when. apply run_cong; [run_access|]. intros t s1.
  case_bool_decide; [|done]. apply run_cong; [apply run_p_getUrl|]. run_access.
Qed.

(** *** Processing *)

Section processing.
Context (cb : ptr → ReceivedMessage → MessageSource → prog A bool).
Context (process : ReceivedMessage → MessageSource → prog A bool) (depth : nat).
Context (rcb : ptr → ReceivedMessage → MessageSource → M (rstate A) bool).
Context (rprocess : ReceivedMessage → MessageSource → M (rstate A) bool).
Context (Hcb : ∀ o message source s, run (cb o message source) s = rcb o message source s).
Context (Hprocess : ∀ message source s, run (process message source) s = rprocess message source s).

Lemma run_p_processOsc n this message source s :
  run (p_processOsc cb n this message source) s = processOsc rcb n this message source s.
Proof.
  revert this s. induction n as [|n IH]; intros this s; [done|].
  cbn [p_processOsc processOsc]. apply run_cong; [|by intros []]. intros s1.
  apply run_p_dispatch_all; [|run_access|intros; apply IH].
  run_access.
Qed.

Lemma run_p_processMessage message source s :
  run (p_processMessage cb process depth message source) s
  = processMessage rcb rprocess depth message source s.
Proof.
  unfold p_processMessage, processMessage. apply run_cong; [run_access|].
  intros [] s1; [done|]. apply run_cong.
  - intros s2. apply run_p_dispatch_all; [run_access..|intros; by apply run_p_processOsc].
  - intros [|] s2; [done|]. apply run_cong; [apply Hprocess|]. by intros [|].
Qed.

Lemma run_p_lo_dispatch d s :
  run (p_lo_dispatch cb process depth d) s = lo_dispatch rcb rprocess depth d s.
Proof.
  apply run_cong; [|run_access]. intros s1.
  apply run_cong; [run_access|]. intros message s2.
  apply run_cong; [run_access|]. intros source s3.
  apply run_cong; [apply run_p_processMessage|done].
Qed.

Lemma run_p_lo_dispatch_all ds s :
  run (p_lo_dispatch_all cb process depth ds) s = lo_dispatch_all rcb rprocess depth ds s.
Proof.
  revert s. induction ds as [|d ds IH]; intros s; [done|].
  apply run_cong; [apply run_p_lo_dispatch|]. intros _ s1. apply IH.
Qed.

Lemma run_p_handleMessages timeoutMS s :
  run (p_handleMessages cb process depth timeoutMS) s
  = handleMessages rcb rprocess depth timeoutMS s.
Proof.
  unfold p_handleMessages, handleMessages. repeat run_step. apply run_p_lo_dispatch_all.
Qed.
End processing.
End runs.

#[export] Hint Resolve run_p_setup run_p_setupMulticast run_p_start run_p_stop run_p_clear
  run_p_addOscObject run_p_removeOscObject run_p_removeAll run_p_oo_add run_p_oo_remove
  run_p_oo_removeAll run_p_oo_prepend run_p_from_server run_p_getUrl run_p_getHostname
  run_p_getPort run_p_print : lopack.

(** Every public member function of [OscReceiver] and [OscObject], on every
    argument and from every state, and the method liblo runs for a message, is
    what its sequence of accesses to memory computes when no other thread
    interferes: the definitions at the two grains agree, results, exceptions and
    undefined behaviour included. *)
Lemma call_run_equiv {L : Liblo} {A B} cb process depth (c : call B) d (s : rstate A) :
  let rcb o message source := run (cb o message source) in
  let rprocess message source := run (process message source) in
  run (call_prog cb process depth c) s = call_run rcb rprocess depth c s ∧
  run (p_lo_dispatch cb process depth d) s = lo_dispatch rcb rprocess depth d s.
Proof.
  intros rcb rprocess. split; [|by apply run_p_lo_dispatch].
  destruct c as [c|this c]; destruct c;
    cbn [call_prog call_run receiver_call_prog receiver_call_run object_call_prog object_call_run];
    first [solve [auto with lopack nocore]|by apply run_p_handleMessages|run_access|done].
Qed.
