(* ===== verification/Threads.v ===== *)
(** * Two threads

    The thread that owns a receiver and the server thread of liblo, each at some
    point of a program of [Accesses], over one memory.  A step is one access of one
    of them.  liblo is asked for two things: when its thread may hand a message to
    the method, and when a call to stop it may return.  A data race is a state in
    which the next accesses of the two threads meet at one member, and one of
    them writes. *)
From S2P Require Import Prelude Exceptions Effects Machine Floats Liblo OscTypes Log ReceivedMessage Vectors OscObject OscReceiver Accesses Calls.
Open Scope Z_scope.

(** ** Locations *)

Inductive loc : Type :=
  | At_oscRootAddress | At_serverThread | At_isMulticast | At_isRunning | At_ignoreMessages
  | At_objects
  | At_oo_objects (o : ptr) | At_oo_root (o : ptr)
  | At_object (o : ptr)
  | At_user.

#[export] Instance loc_eq_dec : EqDecision loc.
Proof. solve_decision. Defined.

Definition member_loc {B} (f : member B) : loc :=
  match f with
  | F_oscRootAddress => At_oscRootAddress
  | F_serverThread => At_serverThread
  | F_isMulticast => At_isMulticast
  | F_isRunning => At_isRunning
  | F_ignoreMessages => At_ignoreMessages
  | F_objects => At_objects
  end.

(** A write, or a read, of a location. *)
Definition touch : Type := bool * loc.

(** The storage of an object is that of its members. *)
Definition within (l l' : loc) : bool :=
  match l, l' with
  | At_oo_objects o, At_object o' | At_oo_root o, At_object o' => bool_decide (o = o')
  | _, _ => bool_decide (l = l')
  end.

Definition conflict (x y : touch) : bool :=
  (within x.2 y.2 || within y.2 x.2) && (x.1 || y.1).

Section footprint.
Context {L : Liblo} {A : Type}.

(** liblo and the console are not memory of the program; a step on its own data
    may write it. *)
Definition footprint {B} (a : access A B) : option touch :=
  match a with
  | Read f => Some (false, member_loc f)
  | Write f _ => Some (true, member_loc f)
  | ReadObjects o => Some (false, At_oo_objects o)
  | WriteObjects o _ => Some (true, At_oo_objects o)
  | ReadRoot o => Some (false, At_oo_root o)
  | WriteRoot o _ => Some (true, At_oo_root o)
  | NewObject o _ | FreeObject o => Some (true, At_object o)
  | User _ => Some (true, At_user)
  | _ => None
  end.

Definition next {R} (p : prog A R) : option touch :=
  match p with Done _ => None | Step a _ => footprint a end.

(** Starting and stopping the server thread. *)
Definition controls {B} (a : access A B) : bool :=
  match a with ThreadStart _ | ThreadStop _ => true | _ => false end.

(** One step of a program; an exception or undefined behaviour ends it. *)
Definition advance {R} (p : prog A R) (s : rstate A) : option (prog A R * rstate A) :=
  match p with
  | Done _ => None
  | Step a k =>
      Some (match exec a s with
            | (Ret b, s') => (k b, s')
            | (Throw e, s') => (Done (Throw e), s')
            | (Undef u, s') => (Done (Undef u), s')
            end)
  end.
End footprint.

(** ** The server thread of liblo *)

Inductive phase : Type := Stopped | Started | Stopping.

#[export] Instance phase_eq_dec : EqDecision phase.
Proof. solve_decision. Defined.

(** [delivers ph w d w']: in phase [ph] the thread may receive a message and call
    the method with [d].  [reports ph w e w']: it may fail to, and call the error
    handler with [e].  [stop_returns busy]: a call that stops the thread may
    return, [busy] telling whether the method is being run. *)
Class ServerThread {L : Liblo} : Type := {
  delivers : phase → world → string * option ptr → world → Prop;
  reports : phase → world → Z * cptr * cptr → world → Prop;
  stop_returns : bool → Prop
}.

(** The thread handles messages from its start until it is asked to stop, one
    after the other; stopping waits for the method and for nothing else. *)
Class ServerThreadLaws {L : Liblo} (T : ServerThread) : Prop := {
  law_delivers ph w d w' : delivers ph w d w' → ph = Started;
  law_reports ph w e w' : reports ph w e w' → ph = Started;
  law_stop_waits busy : stop_returns busy → busy = false;
  law_stop_returns : stop_returns false
}.

Section threads.
Context {L : Liblo} {T : ServerThread} {A : Type}.

(** The memory, the server thread, the call in progress of the program, and the
    method, or the error handler, being run by the server thread. *)
Record config : Type := Config {
  memory : rstate A;
  server_phase : phase;
  caller : option (prog A unit);
  method : option (prog A unit)
}.

Definition busy (j : option (prog A unit)) : bool := bool_decide (is_Some j).

Definition forget {B} (p : prog A B) : prog A unit := _ ← p; mret tt.

(** What a caller may survive. *)
Definition defined {B} (o : outcome B) : bool :=
  match o with Undef _ => false | _ => true end.

Section step.
Context (cb : ptr → ReceivedMessage → MessageSource → prog A bool).
Context (process : ReceivedMessage → MessageSource → prog A bool) (depth : nat).
Context (allowed : phase → ∀ B, call B → Prop).

Inductive step : config → config → Prop :=
  | step_call s ph j B (c : call B) :
      allowed ph B c →
      step (Config s ph None j) (Config s ph (Some (forget (call_prog cb process depth c))) j)
  | step_caller s s' ph B (a : access A B) k p' j :
      controls a = false → advance (Step a k) s = Some (p', s') →
      step (Config s ph (Some (Step a k)) j) (Config s' ph (Some p') j)
  | step_start s s' ph t k z j :
      exec (ThreadStart t) s = (Ret z, s') →
      step (Config s ph (Some (Step (ThreadStart t) k)) j) (Config s' Started (Some (k z)) j)
  | step_stop s t k j :
      step (Config s Started (Some (Step (ThreadStop t) k)) j)
           (Config s Stopping (Some (Step (ThreadStop t) k)) j)
  | step_stopped s s' ph t k p' j :
      ph ≠ Started → stop_returns (busy j) → advance (Step (ThreadStop t) k) s = Some (p', s') →
      step (Config s ph (Some (Step (ThreadStop t) k)) j) (Config s' Stopped (Some p') j)
  | step_return s ph o j :
      defined o = true → step (Config s ph (Some (Done o)) j) (Config s ph None j)
  | step_deliver s ph c d w' :
      delivers ph (net (rest s)) d w' →
      step (Config s ph c None)
           (Config (on_net w' s) ph c (Some (p_lo_dispatch cb process depth d)))
  | step_report s ph c e w' :
      reports ph (net (rest s)) e w' →
      step (Config s ph c None)
           (Config (on_net w' s) ph c (Some (Done (errorCB e.1.1 e.1.2 e.2))))
  | step_method s s' ph c q q' :
      advance q s = Some (q', s') → step (Config s ph c (Some q)) (Config s' ph c (Some q'))
  | step_finish s ph c :
      step (Config s ph c (Some (Done (Ret tt)))) (Config s ph c None).
End step.

(** ** Schedules *)

(** One thread moves, the program begins a call, or a message arrives. *)
Inductive turn : Type :=
  | Turn_call {B} (c : call B) | Turn_caller | Turn_method | Turn_deliver.

Section schedule.
Context (cb : ptr → ReceivedMessage → MessageSource → prog A bool).
Context (process : ReceivedMessage → MessageSource → prog A bool) (depth : nat).
Context (deliver : world → option ((string * option ptr) * world)).

(** A move of the caller at access [a]; stopping waits for the method. *)
Definition caller_access_turn {B} (a : access A B) (s : rstate A) (ph : phase)
    (j : option (prog A unit)) : (B → prog A unit) → option (config) :=
  match a with
  | ThreadStart t => λ k,
      match exec (ThreadStart t) s with
      | (Ret z, s') => Some (Config s' Started (Some (k z)) j)
      | _ => None
      end
  | ThreadStop t => λ k,
      if bool_decide (ph = Started) then Some (Config s Stopping (Some (Step (ThreadStop t) k)) j)
      else if busy j then None
      else '(p', s') ← advance (Step (ThreadStop t) k) s; Some (Config s' Stopped (Some p') j)
  | a => λ k, '(p', s') ← advance (Step a k) s; Some (Config s' ph (Some p') j)
  end.

Definition take_turn (t : turn) (c : config) : option config :=
  match t, c with
  | Turn_call d, Config s ph None j =>
      Some (Config s ph (Some (forget (call_prog cb process depth d))) j)
  | Turn_caller, Config s ph (Some (Step a k)) j => caller_access_turn a s ph j k
  | Turn_caller, Config s ph (Some (Done o)) j =>
      if defined o then Some (Config s ph None j) else None
  | Turn_method, Config s ph c (Some (Step a k)) =>
      '(q', s') ← advance (Step a k) s; Some (Config s' ph c (Some q'))
  | Turn_method, Config s ph c (Some (Done (Ret _))) => Some (Config s ph c None)
  | Turn_deliver, Config s Started c None =>
      '(d, w') ← deliver (net (rest s));
      Some (Config (on_net w' s) Started c (Some (p_lo_dispatch cb process depth d)))
  | _, _ => None
  end.

Fixpoint schedule (ts : list turn) (c : config) : option config :=
  match ts with
  | [] => Some c
  | t :: ts => c' ← take_turn t c; schedule ts c'
  end.
End schedule.

(** ** Races *)

Definition racy (c : config) : bool :=
  match caller c, method c with
  | Some p, Some q =>
      match next p, next q with Some x, Some y => conflict x y | _, _ => false end
  | _, _ => false
  end.

(** The calls that change what the server thread reads. *)
Definition mutates {B} (c : call B) : bool :=
  match c with
  | OnReceiver (C_addOscObject _) | OnReceiver (C_removeOscObject _)
  | OnReceiver C_removeAllOscObjects | OnReceiver (C_ignoreMessages _)
  | OnReceiver (C_setOscRootAddress _) => true
  | OnReceiver _ => false
  | OnObject _ O_getOscRootAddress => false
  | OnObject _ _ => true
  end.

(** A program that makes them only while the server thread is stopped. *)
Definition quiet (ph : phase) (B : Type) (c : call B) : Prop := ph = Stopped ∨ mutates c = false.

(** The calls that only look, or stop. *)
Definition watches {B} (c : call B) : bool :=
  match c with
  | OnReceiver C_clear | OnReceiver C_stop | OnReceiver C_isListening
  | OnReceiver C_getOscRootAddress | OnReceiver C_getHostname | OnReceiver C_getPort
  | OnReceiver C_getUrl | OnReceiver C_isMulticast | OnObject _ O_getOscRootAddress => true
  | _ => false
  end.

(** A program that makes no others while the server thread runs. *)
Definition watching (ph : phase) (B : Type) (c : call B) : Prop := ph = Stopped ∨ watches c = true.

Definition any_call (ph : phase) (B : Type) (c : call B) : Prop := True.

(** A user callback reads at most the root addresses, and does what it likes with the
    program's own data: it leaves the members of the receiver and of the objects
    alone, and does not start or stop the thread. *)
Definition callback_access {B} (a : access A B) : Prop :=
  controls a = false ∧
  match footprint a with
  | None => True
  | Some (w, l) =>
      match l with At_user => True | At_oscRootAddress | At_oo_root _ => w = false | _ => False end
  end.

Fixpoint all_access (P : ∀ B, access A B → Prop) {R} (p : prog A R) : Prop :=
  match p with
  | Done _ => True
  | Step a k => P _ a ∧ ∀ b, all_access P (k b)
  end.

Definition modest {R} (p : prog A R) : Prop := all_access (@callback_access) p.

(** ** What happens on every schedule

    [P] holds sooner or later, whichever way the steps [R] go. *)
Inductive inevitable {C} (R : C → C → Prop) (P : C → Prop) (c : C) : Prop :=
  | inevitable_now : P c → inevitable R P c
  | inevitable_later :
      (∃ c', R c c') → (∀ c', R c c' → inevitable R P c') → inevitable R P c.
End threads.
Arguments config {L} A.
