(* ===== verification/ThreadProps.v ===== *)
(** * The invariant of two threads

    [wp] computes what a program of accesses needs to keep the phase of the server
    thread in step with [m_isRunning] and [m_serverThread], and to stay clear of
    what the server thread touches while it may run.  Every call of a quiet program satisfies it,
    the method touches only its own part, and so every reachable state of the two
    threads satisfies [tinv]. *)
From S2P Require Import Prelude Exceptions Effects Machine Floats Liblo OscTypes Log ReceivedMessage Vectors OscObject OscReceiver ReceiverProps Accesses Calls Threads.
Open Scope Z_scope.

(** What the program may touch while the server thread is started. *)
Definition caller_touch (x : touch) : bool :=
  match x.2 with
  | At_serverThread | At_isMulticast | At_isRunning => true
  | At_oscRootAddress | At_ignoreMessages | At_oo_root _ => negb x.1
  | At_objects | At_oo_objects _ | At_object _ | At_user => false
  end.

(** What the method touches. *)
Definition method_touch (x : touch) : bool :=
  match x.2 with
  | At_objects | At_oo_objects _ | At_user => true
  | At_oscRootAddress | At_ignoreMessages | At_oo_root _ => negb x.1
  | _ => false
  end.

Lemma no_conflict x y : caller_touch x = true → method_touch y = true → conflict x y = false.
Proof.
  destruct x as [w l], y as [w' l']. unfold conflict. simpl. intros Hx Hy.
  destruct l, l'; try done; simpl; repeat case_bool_decide; simplify_eq; by destruct w, w'.
Qed.

Section props.
Context {L : Liblo} {A : Type}.
Implicit Types s : rstate A.

Definition caller_access (B : Type) (a : access A B) : Prop :=
  match footprint a with Some x => caller_touch x = true | None => True end.
(** What neither the method nor anything it reads can notice. *)
Definition silent_access (B : Type) (a : access A B) : Prop :=
  match a with
  | Read _ | ReadObjects _ | ReadRoot _ | Ask _ | ThreadStop _ => True
  | Write F_serverThread _ | Write F_isMulticast _ | Write F_isRunning _ => True
  | _ => False
  end.

Definition method_access {B} (a : access A B) : Prop :=
  controls a = false ∧ match footprint a with Some x => method_touch x = true | None => True end.

(** What a caller does to the phase and the flag is computed for any condition
    [ok] on the accesses it makes while the thread may run. *)
Context (ok : ∀ B, access A B → Prop).

(** *** [m_isRunning] and [m_serverThread] through an access *)

Record flags : Type := Flags { f_running : bool; f_thread : option ptr }.
Implicit Types r : flags.

Definition known {B} (f : member B) (r : flags) : B → Prop :=
  match f with
  | F_isRunning => λ b, b = f_running r
  | F_serverThread => λ t, t = f_thread r
  | _ => λ _, True
  end.
Definition written {B} (f : member B) (r : flags) : B → flags :=
  match f with
  | F_isRunning => λ b, Flags b (f_thread r)
  | F_serverThread => λ t, Flags (f_running r) t
  | _ => λ _, r
  end.

(** While the thread may run, the flag says so, and there is a handle to stop it. *)
Definition consistent (ph : phase) (r : flags) : Prop :=
  ph ≠ Stopped → f_running r = true ∧ f_thread r ≠ None.

(** What access [a] may give. *)
Definition possible {B} (a : access A B) (b : B) : Prop := ∃ s s', exec a s = (Ret b, s').

(** [after a ph r K]: access [a] may be made, and [K] holds of the phase, the flags
    and the value it gives. *)
Definition after {B} (a : access A B) (ph : phase) (r : flags) : (phase → flags → B → Prop) → Prop :=
  match a with
  | Read f => λ K, (ph ≠ Stopped → ok _ (Read f)) ∧ ∀ b, known f r b → K ph r b
  | Write f x => λ K, (ph ≠ Stopped → ok _ (Write f x)) ∧ K ph (written f r x) tt
  | ThreadStart t => λ K, consistent ph r ∧ (ph ≠ Stopped → ok _ (ThreadStart t)) ∧ ∀ z, K Started r z
  | ThreadStop t => λ K, consistent ph r ∧ ∀ z, K Stopped r z
  | a => λ K, consistent ph r ∧ (ph ≠ Stopped → ok _ a) ∧ ∀ b, possible a b → K ph r b
  end.

Fixpoint wp {R} (p : prog A R) (ph : phase) (r : flags) (Q : phase → flags → R → Prop) : Prop :=
  match p with
  | Done (Ret x) => Q ph r x
  | Done _ => consistent ph r
  | Step a k => after a ph r (λ ph' r' b, wp (k b) ph' r' Q)
  end.

Lemma after_mono {B} (a : access A B) ph r (K K' : phase → flags → B → Prop) :
  (∀ ph r b, K ph r b → K' ph r b) → after a ph r K → after a ph r K'.
Proof. intros HK. destruct a; simpl; naive_solver. Qed.

Lemma wp_bind {B C} (p : prog A B) (f : B → prog A C) ph r Q :
  wp p ph r (λ ph r b, wp (f b) ph r Q) → wp (p ≫= f) ph r Q.
Proof.
  revert ph r. induction p as [[b|e|u]|D a k IH]; intros ph r; [done..|]. simpl.
  apply after_mono. intros ph' r' d. apply IH.
Qed.

(** While the thread is stopped, everything but control is allowed. *)
Lemma wp_stopped {B} (p : prog A B) r Q :
  all_access (@method_access) p → (∀ b, Q Stopped r b) → wp p Stopped r Q.
Proof.
  intros Hp HQ. induction p as [[b|e|u]|D a k IH]; simpl; [done| | |].
  1-2: by intros [].
  destruct Hp as [[Hc Ha] Hk].
  assert (∀ d, wp (k d) Stopped r Q) as Hw by (intros d; by apply IH).
  assert (consistent Stopped r) as Hs by (by intros []).
  assert ((Stopped ≠ Stopped → ok _ a)) as Hn by (by intros []).
  destruct a; simpl in *; split_all.
  by destruct f.
Qed.

(** *** The method *)

Lemma all_access_bind (P : ∀ B, access A B → Prop) {B C} (p : prog A B) (f : B → prog A C) :
  all_access P p → (∀ b, all_access P (f b)) → all_access P (p ≫= f).
Proof. induction p as [[b|e|u]|D a k IH]; simpl; naive_solver. Qed.

Lemma all_access_mono (P Q : ∀ B, access A B → Prop) {B} (p : prog A B) :
  (∀ B a, P B a → Q B a) → all_access P p → all_access Q p.
Proof. intros HP. induction p as [|D a k IH]; simpl; naive_solver. Qed.

Lemma modest_method {B} (p : prog A B) : modest p → all_access (@method_access) p.
Proof.
  apply all_access_mono. intros D a [Hc Hf]. split; [done|].
  destruct (footprint a) as [[w l]|]; [|done]. destruct l; try done; by rewrite Hf.
Qed.

Lemma method_act {B} (a : access A B) : method_access a → all_access (@method_access) (act a).
Proof. by intros Ha. Qed.

Lemma method_warn str : all_access (@method_access) (warn (A := A) str).
Proof. by apply method_act. Qed.
End props.

#[export] Hint Resolve all_access_bind method_act method_warn modest_method : lopack.

Section method.
Context {L : Liblo} {A : Type}.

Lemma method_dispatch read write removed call n i st :
  all_access (@method_access L A) read → (∀ v, all_access (@method_access L A) (write v)) →
  (∀ o, all_access (@method_access L A) (call o)) →
  all_access (@method_access L A) (p_dispatch read write removed call n i st).
Proof.
  intros Hr Hw Hc. revert i st. induction n as [|n IH]; intros i st; cbn [p_dispatch];
    (apply all_access_bind; [done|]); intros v; repeat case_bool_decide; try done.
  destruct (elems v !! i) as [[o|]|]; [| |done]; (apply all_access_bind; [done|]).
  - intros []; [done|apply IH].
  - intros _. apply all_access_bind; [apply method_warn|]. intros _. apply IH.
Qed.

Context (cb : ptr → ReceivedMessage → MessageSource → prog A bool).
Context (process : ReceivedMessage → MessageSource → prog A bool) (depth : nat).
Context (Hcb : ∀ o message source, modest (cb o message source)).
Context (Hprocess : ∀ message source, modest (process message source)).

Lemma method_processOsc n this message source :
  all_access (@method_access L A) (p_processOsc cb n this message source).
Proof.
  revert this. induction n as [|n IH]; intros this; [done|]. cbn [p_processOsc].
  apply all_access_bind.
  - apply all_access_bind; [done|]. intros v. by apply method_dispatch.
  - intros []; [done|]. by apply modest_method.
Qed.

Lemma method_lo_dispatch d : all_access (@method_access L A) (p_lo_dispatch cb process depth d).
Proof.
  apply all_access_bind; [|done].
  apply all_access_bind; [done|]. intros message.
  apply all_access_bind; [done|]. intros source.
  apply all_access_bind; [|done].
  apply all_access_bind; [done|]. intros []; [done|]. apply all_access_bind.
  - apply all_access_bind; [done|]. intros v. apply method_dispatch; [done..|].
    intros o. apply method_processOsc.
  - intros []; [done|]. apply all_access_bind; [by apply modest_method|]. by intros [].
Qed.

Lemma method_lo_dispatch_all ds :
  all_access (@method_access L A) (p_lo_dispatch_all cb process depth ds).
Proof.
  induction ds as [|d ds IH]; [done|].
  apply all_access_bind; [apply method_lo_dispatch|done].
Qed.
End method.

(** *** The calls *)

Lemma consistent_true ph t : consistent ph (Flags true (Some t)).
Proof. done. Qed.

Lemma consistent_stopped r : consistent Stopped r.
Proof. by intros []. Qed.

#[export] Hint Resolve consistent_true consistent_stopped : lopack.

Definition ends_consistent {B} (ph : phase) (r : flags) (_ : B) : Prop := consistent ph r.

(** Run through the accesses of a call. *)
Ltac wp_go :=
  repeat (unfold mret, prog_ret in *; simpl in *; intros; simplify_eq;
          match goal with
          | |- _ ∧ _ => split
          | |- ends_consistent _ _ _ => unfold ends_consistent
          | |- consistent _ _ =>
              solve [done|auto with lopack nocore|unfold consistent in *; simpl in *; naive_solver]
          | |- wp _ (if bool_decide _ then _ else _) _ _ _ => case_bool_decide
          | |- wp _ ((if bool_decide _ then _ else _) ≫= _) _ _ _ => case_bool_decide
          | |- wp _ (prog_bind _ _ _ (if bool_decide _ then _ else _)) _ _ _ => case_bool_decide
          | |- wp _ (pbind _ (if bool_decide _ then _ else _)) _ _ _ => case_bool_decide
          | |- wp _ (if ?b then _ else _) _ _ _ => destruct b
          | |- wp _ ((if ?b then _ else _) ≫= _) _ _ _ => destruct b
          | |- wp _ (prog_bind _ _ _ (if ?b then _ else _)) _ _ _ => destruct b
          | |- wp _ (pbind _ (if ?b then _ else _)) _ _ _ => destruct b
          | |- match ?o with Ret _ => _ | _ => _ end => destruct o
          | |- wp _ match ?o with Ret _ => _ | _ => _ end _ _ _ => destruct o
          | |- _ => done
          end).

Section calls.
Context {L : Liblo} {A : Type} (ok : ∀ B, access A B → Prop).
Context (cb : ptr → ReceivedMessage → MessageSource → prog A bool).
Context (process : ReceivedMessage → MessageSource → prog A bool) (depth : nat).
Context (Hcb : ∀ o message source, modest (cb o message source)).
Context (Hprocess : ∀ message source, modest (process message source)).

Lemma wp_handleMessages t ph r : consistent ph r →
  (ph ≠ Stopped → ok _ (Read F_serverThread) ∧ ok _ (Read F_isRunning) ∧
     ∀ m : M console unit, ok _ (OnConsole m)) →
  wp ok (p_handleMessages cb process depth t) ph r ends_consistent.
Proof.
  intros Hr Hok. split; [naive_solver|]. intros th _. simpl. case_bool_decide; [wp_go; naive_solver|].
  simpl. split; [naive_solver|]. intros running ->. destruct (f_running r) eqn:E; [wp_go; naive_solver|].
  destruct (decide (ph = Stopped)) as [->|Hph]; [|destruct (Hr Hph); congruence].
  apply wp_stopped; [|intros; apply consistent_stopped]. split; [done|]. intros server.
  split; [done|]. intros [n ds].
  apply all_access_bind; [by apply method_lo_dispatch_all|done].
Qed.

(** A query of the server. *)
Lemma wp_from_server {B C} ph r (dflt : B) q (f : B → prog A C) Q : consistent ph r →
  (ph ≠ Stopped → ok _ (Read F_serverThread) ∧ ∀ D (q : world → outcome D), ok _ (Ask q)) →
  (∀ b, wp ok (f b) ph r Q) → wp ok (p_from_server dflt q ≫= f) ph r Q.
Proof. intros Hr Hok Hf. unfold p_from_server. wp_go; naive_solver. Qed.

(** While the thread is stopped, every call is in order. *)
Lemma wp_call_stopped r B (c : call B) : ok _ (Write F_isRunning true) →
  wp ok (call_prog cb process depth c) Stopped r ends_consistent.
Proof.
  intros Hok. destruct c as [c|this c]; destruct c;
    cbn [call_prog receiver_call_prog object_call_prog];
    first [apply wp_handleMessages; [apply consistent_stopped|done]|by wp_go
          |by destruct object; wp_go|idtac].
  apply (wp_bind ok (act (Read F_serverThread))). split; [done|]. intros t _. cbn [wp].
  case_bool_decide; [|apply consistent_stopped].
  apply wp_bind, wp_from_server; [apply consistent_stopped|done|]. intros [|u|]; by wp_go.
Qed.
End calls.

Section disciplines.
Context {L : Liblo} {A : Type}.
Context (cb : ptr → ReceivedMessage → MessageSource → prog A bool).
Context (process : ReceivedMessage → MessageSource → prog A bool) (depth : nat).
Context (Hcb : ∀ o message source, modest (cb o message source)).
Context (Hprocess : ∀ message source, modest (process message source)).

(** The calls of a quiet program stay clear of what the method touches. *)
Lemma wp_call_quiet ph r B (c : call B) : quiet ph B c → consistent ph r →
  wp caller_access (call_prog cb process depth c) ph r ends_consistent.
Proof.
  intros [->|Hm] Hr; [by apply wp_call_stopped|].
  destruct c as [c|this c]; destruct c; try done;
    cbn [call_prog receiver_call_prog object_call_prog];
    first [by apply wp_handleMessages|by wp_go|idtac].
  apply (wp_bind _ (act (Read F_serverThread))). split; [done|]. intros t _. cbn [wp].
  case_bool_decide; [|done].
  apply wp_bind, wp_from_server; [done|done|]. intros [|u|]; by wp_go.
Qed.

(** The calls of a watching program leave what the method reads as it is. *)
Lemma wp_call_watching ph r B (c : call B) : watching ph B c → consistent ph r →
  wp silent_access (call_prog cb process depth c) ph r ends_consistent.
Proof.
  intros [->|Hm] Hr; [by apply wp_call_stopped|].
  destruct c as [c|this c]; destruct c; try done;
    cbn [call_prog receiver_call_prog object_call_prog]; by wp_go.
Qed.
End disciplines.

(** ** Steps *)

Section steps.
Context {L : Liblo} {A : Type}.
Implicit Types s : rstate A.

Definition flags_of s : flags := Flags (m_isRunning (rcv s)) (m_serverThread (rcv s)).

#[local] Arguments flags_of : simpl never.

Definition writes_flags (x : option touch) : bool :=
  match x with Some (true, At_isRunning) | Some (true, At_serverThread) => true | _ => false end.

(** Only a write of the flags changes them. *)
Lemma exec_flags {B} (a : access A B) s : writes_flags (footprint a) = false →
  flags_of (exec a s).2 = flags_of s.
Proof.
  intros Ha. destruct a; simpl; unfold objects_of, update, OscObject.getOscRootAddress,
    OscObject.setOscRootAddress, update, deref, zoom, lo, on_user, mbind, M_bind; try done.
  - by destruct f.
  - by destruct (heap s !! o).
  - by destruct (heap s !! o).
  - by destruct (heap s !! o).
  - by destruct (heap s !! o).
  - by destruct (m (lget s)).
  - by destruct (m (net (rest s))).
  - by destruct (lo_server_thread_start t (net (rest s))).
  - by destruct (lo_server_thread_stop t (net (rest s))).
  - by destruct (m (user (rest s))).
Qed.

Lemma after_exec (ok : ∀ B, access A B → Prop) {B} (a : access A B) ph s K : controls a = false →
  after ok a ph (flags_of s) K →
  match exec a s with
  | (Ret b, s') => K ph (flags_of s') b
  | (_, s') => consistent ph (flags_of s')
  end.
Proof.
  intros Hc Ha. destruct a; try done;
    [destruct Ha as [_ Ha]; apply Ha; by destruct f|destruct Ha as [_ Ha]; by destruct f|..];
    destruct Ha as (Hr & _ & HK);
    match goal with |- context [exec ?a s] =>
      pose proof (exec_flags a s ltac:(done)) as He; destruct (exec a s) as [[|?|?] s'] eqn:E end;
    simpl in He; rewrite He; try done; apply HK; by exists s, s'.
Qed.

Lemma wp_advance (ok : ∀ B, access A B → Prop) {R B} (a : access A B) (k : B → prog A R) ph s p' s' Q :
  controls a = false → wp ok (Step a k) ph (flags_of s) Q → advance (Step a k) s = Some (p', s') →
  wp ok p' ph (flags_of s') Q.
Proof.
  intros Hc Hw [= He]. apply (after_exec ok a ph s) in Hw; [|done].
  destruct (exec a s) as [[b|?|?] s1]; by injection He as <- <-.
Qed.

(** A step of the method: it stays modest, and keeps the flag. *)
Lemma method_advance {R} (q : prog A R) s q' s' :
  all_access (@method_access L A) q → advance q s = Some (q', s') →
  all_access (@method_access L A) q' ∧ flags_of s' = flags_of s.
Proof.
  destruct q as [|B a k]; [done|]. intros [[Hc Hf] Hk] [= He].
  assert (writes_flags (footprint a) = false) as Hn
    by (destruct (footprint a) as [[[] []]|]; done).
  pose proof (exec_flags a s Hn) as Hr.
  destruct (exec a s) as [[b|?|?] s1]; by injection He as <- <-.
Qed.

Section invariant.
Context {T : ServerThread} {TL : ServerThreadLaws T}.
Context (cb : ptr → ReceivedMessage → MessageSource → prog A bool).
Context (process : ReceivedMessage → MessageSource → prog A bool) (depth : nat).
Context (Hcb : ∀ o message source, modest (cb o message source)).
Context (Hprocess : ∀ message source, modest (process message source)).

(** A discipline of the program, the accesses it allows while the thread runs, and
    what holds when a call returns. *)
Context (allowed : phase → ∀ B, call B → Prop) (ok : ∀ B, access A B → Prop).
Context (Q : phase → flags → Prop) (HQ : ∀ ph r, Q ph r → consistent ph r).
Context (Hcall : ∀ ph r B (c : call B), allowed ph B c → consistent ph r →
  wp ok (call_prog cb process depth c) ph r (λ ph r _, Q ph r)).

(** A stopped thread runs nothing; the method touches its part; what is left of the
    call in progress is in step with the thread. *)
Definition tinv (c : config A) : Prop :=
  (server_phase c = Stopped → method c = None) ∧
  (∀ q, method c = Some q → all_access (@method_access L A) q) ∧
  match caller c with
  | None => consistent (server_phase c) (flags_of (memory c))
  | Some p => wp ok p (server_phase c) (flags_of (memory c)) (λ ph r _, Q ph r)
  end.

Lemma tinv_step c c' : step cb process depth allowed c c' → tinv c → tinv c'.
Proof.
  intros Hs (Hj & Hm & Hp).
  destruct Hs as [s ph j B c Hq|s s' ph B a k p' j Hc Ha|s s' ph t k z j He|s t k j
    |s s' ph t k p' j Hph Hr Ha|s ph o j Ho|s ph c d w' Hd|s ph c e w' Hd|s s' ph c q q' Ha|s ph c];
    unfold tinv; simpl in Hj, Hm, Hp |- *; split_all.
  - by apply wp_bind, Hcall.
  - by eapply wp_advance.
  - pose proof (exec_flags (ThreadStart t) s ltac:(done)) as Hs. rewrite He in Hs.
    simpl in Hs. rewrite Hs. by apply Hp.
  - intros _. by apply Hp.
  - by apply Hp.
  - intros _. apply law_stop_waits in Hr. unfold busy in Hr. destruct j; [done|done].
  - destruct Hp as [_ Hp]. unfold advance in Ha.
    pose proof (exec_flags (ThreadStop t) s ltac:(done)) as Hs.
    destruct (exec (ThreadStop t) s) as [[z|?|?] s1]; injection Ha as <- <-; simpl in Hs;
      [rewrite Hs; apply Hp|apply consistent_stopped..].
  - destruct o; [by apply HQ|done..].
  - intros ->. by apply law_delivers in Hd.
  - intros q [= <-]. by apply method_lo_dispatch.
  - intros ->. by apply law_reports in Hd.
  - by intros q [= <-].
  - intros ->. by specialize (Hj eq_refl).
  - intros q0 [= <-]. by eapply method_advance, Ha; apply Hm.
  - destruct (method_advance q s q' s') as [_ ->]; [by apply Hm|done|]. done.
Qed.

(** At the start: no call in progress, or a program that is in order. *)
Lemma tinv_start s : tinv (Config s Stopped None None).
Proof. split; [done|]. split; [done|]. apply consistent_stopped. Qed.

Lemma tinv_program s p : wp ok p Stopped (flags_of s) (λ ph r _, Q ph r) →
  tinv (Config s Stopped (Some p) None).
Proof. by split; [|split]. Qed.

Lemma tinv_steps c c' : rtc (step cb process depth allowed) c c' → tinv c → tinv c'.
Proof. induction 1; eauto using tinv_step. Qed.

End invariant.

(** *** Schedules are sequences of steps *)

Section schedules.
Context {T : ServerThread} {TL : ServerThreadLaws T}.
Context (cb : ptr → ReceivedMessage → MessageSource → prog A bool).
Context (process : ReceivedMessage → MessageSource → prog A bool) (depth : nat).
Context (allowed : phase → ∀ B, call B → Prop).
Context (deliver : world → option ((string * option ptr) * world)).
Context (Hdeliver : ∀ w d w', deliver w = Some (d, w') → delivers Started w d w').

Definition turn_allowed (t : turn) : Prop :=
  match t with Turn_call c => ∀ ph, allowed ph _ c | _ => True end.

Lemma caller_access_step {B} (a : access A B) k s ph j c' :
  caller_access_turn a s ph j k = Some c' →
  step cb process depth allowed (Config s ph (Some (Step a k)) j) c'.
Proof.
  destruct (controls a) eqn:Hc.
  - destruct a as [| | | | | | | | | | |t|t|]; try done; unfold caller_access_turn.
    + destruct (exec (ThreadStart t) s) as [[z|?|?] s'] eqn:E; intros [= <-]. by constructor.
    + case_bool_decide as Hph; [intros [= <-]; subst; constructor|].
      destruct (busy j) eqn:Hb; [done|]. intros ((p' & s') & Ha & [= <-])%bind_Some.
      constructor; [done| |done]. rewrite Hb. apply law_stop_returns.
  - intros Ha.
    assert (∃ p' s', advance (Step a k) s = Some (p', s') ∧ c' = Config s' ph (Some p') j)
      as (p' & s' & Hadv & ->)
      by (destruct a; try done; apply bind_Some in Ha as ((p' & s') & Ha & [= <-]); by eexists _, _).
    by constructor.
Qed.

Lemma take_turn_step t c c' : turn_allowed t →
  take_turn cb process depth deliver t c = Some c' → step cb process depth allowed c c'.
Proof.
  intros Ht Hc. destruct t as [B d| | |], c as [s ph p q]; simpl in Hc.
  - destruct p; [done|]. injection Hc as <-. constructor. apply Ht.
  - destruct p as [[o|B a k]|]; [|by apply caller_access_step|done].
    destruct (defined o) eqn:Ho; [|done]. injection Hc as <-. by constructor.
  - destruct q as [[[[]|e|u]|B a k]|]; try done; [injection Hc as <-; constructor|].
    destruct (exec a s) as [[b|e|u] s'] eqn:E; injection Hc as <-;
      apply step_method; simpl; by rewrite E.
  - destruct ph, q; try done. apply bind_Some in Hc as ((d & w') & Hd & [= <-]).
    constructor. by apply Hdeliver.
Qed.

Lemma schedule_steps ts c c' : Forall turn_allowed ts →
  schedule cb process depth deliver ts c = Some c' → rtc (step cb process depth allowed) c c'.
Proof.
  intros Hts. revert c. induction Hts as [|t ts Ht _ IH]; intros c Hc.
  - by injection Hc as <-.
  - apply bind_Some in Hc as (c1 & Hc1 & Hc). eapply rtc_l; [by eapply take_turn_step|auto].
Qed.
End schedules.

Lemma wp_next {R} (p : prog A R) ph r Q x : wp caller_access p ph r Q → ph ≠ Stopped → next p = Some x →
  caller_touch x = true.
Proof.
  destruct p as [o|B a k]; [done|]. simpl. intros Ha Hph Hx.
  assert (caller_access _ a) as Hc by (destruct a; try done; naive_solver).
  unfold caller_access in Hc. by rewrite Hx in Hc.
Qed.

Lemma tinv_not_racy Q (c : config A) : tinv caller_access Q c → racy c = false.
Proof.
  intros (Hj & Hm & Hp). unfold racy. destruct (caller c) as [p|]; [|done].
  destruct (method c) as [q|]; [|done]. specialize (Hm q eq_refl).
  destruct (next p) as [x|] eqn:Hx; [|done]. destruct (next q) as [y|] eqn:Hy; [|done].
  apply no_conflict.
  - eapply wp_next; [done| |done]. intros E. by specialize (Hj E).
  - destruct q as [|B a k]; [done|]. destruct Hm as [[_ Ha] _]. simpl in Hy. by rewrite Hy in Ha.
Qed.
End steps.
