(* ===== verification/ThreadView.v ===== *)
(** * What the method sees

    The part of the memory the method run for a message can read: everything but
    the members the program may change while the server thread runs.  Two
    memories that agree on it give the method the same result and agree
    afterwards, and the accesses of a watching program leave it as it is: so a
    message is handled as if the server thread ran alone. *)
From S2P Require Import Prelude Exceptions Effects Machine Floats Liblo OscTypes Log ReceivedMessage Vectors OscObject OscReceiver ReceiverProps Accesses Calls Threads ThreadProps.
Open Scope Z_scope.

Section view.
Context {L : Liblo} {A : Type}.
Implicit Types s : rstate A.

Record sight : Type := Sight {
  v_heap : gmap ptr OscObject;
  v_con : console;
  v_net : world;
  v_user : A;
  v_oscRootAddress : string;
  v_ignoreMessages : bool;
  v_objects : vec (option ptr)
}.

Definition seen s : sight :=
  Sight (heap s) (con s) (net (rest s)) (user (rest s))
    (m_oscRootAddress (rcv s)) (m_ignoreMessages (rcv s)) (m_objects (rcv s)).

(** Two runs with the same outcome, in memories that look the same. *)
Definition same_run {B} (x y : outcome B * rstate A) : Prop := x.1 = y.1 ∧ seen x.2 = seen y.2.

Lemma same_run_bind {B C} (m m' : M (rstate A) B) (f g : B → M (rstate A) C) s s' :
  same_run (m s) (m' s') → (∀ b s s', seen s = seen s' → same_run (f b s) (g b s')) →
  same_run ((m ≫= f) s) ((m' ≫= g) s').
Proof.
  intros [Ho Hs] Hf. unfold mbind, M_bind.
  destruct (m s) as [o s1], (m' s') as [o' s1']. simpl in *. subst o'. by destruct o; [apply Hf|..].
Qed.

Lemma exec_seen {B} (a : access A B) s s' : method_access a → seen s = seen s' →
  same_run (exec a s) (exec a s').
Proof.
  intros [Hc Ha] [= Hh Hco Hn Hu Hr Hi Ho].
  destruct s as [h c [r n u]], s' as [h' c' [r' n' u']]. unfold rcv in *. simpl in *. subst.
  destruct a; try done; unfold same_run, seen, rcv; simpl;
    unfold objects_of, update, OscObject.getOscRootAddress, OscObject.setOscRootAddress, update,
      deref, zoom, lo, ask, on_user, field, gets, mbind, M_bind; simpl.
  - destruct f; try done; simpl; by rewrite ?Hr, ?Hi, ?Ho.
  - destruct f; try done; simpl; by rewrite ?Hr, ?Hi, ?Ho.
  - destruct (h' !! o); simpl; by rewrite ?Hr, ?Hi, ?Ho.
  - destruct (h' !! o); simpl; by rewrite ?Hr, ?Hi, ?Ho.
  - destruct (h' !! o); simpl; by rewrite ?Hr, ?Hi, ?Ho.
  - destruct (m c'); simpl; by rewrite ?Hr, ?Hi, ?Ho.
  - destruct (m n'); simpl; by rewrite ?Hr, ?Hi, ?Ho.
  - by rewrite Hr, Hi, Ho.
  - destruct (m u'); simpl; by rewrite ?Hr, ?Hi, ?Ho.
Qed.

Lemma run_seen {B} (p : prog A B) s s' : all_access (@method_access L A) p → seen s = seen s' →
  same_run (run p s) (run p s').
Proof.
  revert s s'. induction p as [o|D a k IH]; intros s s' Hp Hs; [done|]. destruct Hp as [Ha Hk].
  apply same_run_bind; [by apply exec_seen|]. intros b s1 s1' Hs1. by apply IH.
Qed.

(** An access of a watching program. *)
Lemma silent_seen {B} (a : access A B) s : silent_access _ a → controls a = false →
  seen (exec a s).2 = seen s.
Proof.
  intros Ha Hc. destruct a; try done; simpl;
    unfold objects_of, OscObject.getOscRootAddress, deref, mbind, M_bind.
  - by destruct f.
  - by destruct (heap s !! o).
  - by destruct (heap s !! o).
Qed.

Section atomic.
Context {T : ServerThread} {TL : ServerThreadLaws T}.
Context (cb : ptr → ReceivedMessage → MessageSource → prog A bool).
Context (process : ReceivedMessage → MessageSource → prog A bool) (depth : nat).
Context (Hcb : ∀ o message source, modest (cb o message source)).
Context (Hprocess : ∀ message source, modest (process message source)).

Definition watch_step : config A → config A → Prop := step cb process depth watching.

(** A step that leaves a method in progress: it is the same one. *)
Definition during (c c' : config A) : Prop := watch_step c c' ∧ is_Some (method c').

Lemma advance_run {B} (p p' : prog A B) s s' : advance p s = Some (p', s') → run p s = run p' s'.
Proof.
  destruct p as [|D a k]; [done|]. intros [= He]. simpl. unfold mbind, M_bind.
  destruct (exec a s) as [[b|?|?] s1]; by injection He as <- <-.
Qed.

Lemma advance_memory {B D} (a : access A D) (k : D → prog A B) s p' s' :
  advance (Step a k) s = Some (p', s') → s' = (exec a s).2.
Proof. intros [= He]. destruct (exec a s) as [[b|?|?] s1]; by injection He as <- <-. Qed.

Lemma during_step c c' q : tinv silent_access consistent c → method c = Some q → during c c' →
  ∃ q', method c' = Some q' ∧ same_run (run q (memory c)) (run q' (memory c')).
Proof.
  intros (Hj & Hm & Hp) Hq [Hs [q' Hq']]. exists q'. split; [done|].
  assert (∀ s, seen (memory c) = seen s → same_run (run q (memory c)) (run q s)) as Hrun
    by (intros s Hseen; apply run_seen; auto).
  destruct Hs as [s ph j B d Hd|s s' ph B a k p' j Hc Ha|s s' ph t k z j He|s t k j
    |s s' ph t k p' j Hph Hr Ha|s ph o j Ho|s ph d m w' Hd|s ph d e w' Hd|s s' ph d m m' Ha|s ph d];
    simpl in *; simplify_eq; try done.
  - assert (silent_access _ a) as Hsil.
    { assert (ph ≠ Stopped) as Hph by (intros E; by specialize (Hj E)).
      destruct a; try done; destruct Hp as (? & ?); naive_solver. }
    apply Hrun. rewrite (advance_memory a k s p' s' (f_equal Some Ha)). symmetry. by apply silent_seen.
  - assert (ph ≠ Stopped) as Hph by (intros E; by specialize (Hj E)). by destruct Hp as (_ & [] & _).
  - by apply law_stop_waits in Hr.
  - by rewrite (advance_run _ _ _ _ Ha).
Qed.

Lemma during_run c c' q : rtc during c c' → tinv silent_access consistent c → method c = Some q →
  ∃ q', method c' = Some q' ∧ same_run (run q (memory c)) (run q' (memory c')).
Proof.
  intros Hs. revert q. induction Hs as [c|c c1 c' Hd _ IH]; intros q Hi Hq; [by exists q|].
  destruct (during_step _ _ _ Hi Hq Hd) as (q1 & Hq1 & Ho & Hm).
  destruct (IH q1) as (q' & Hq' & Ho' & Hm'); [|done|].
  - eapply tinv_step; [apply Hcb|apply Hprocess| |by apply wp_call_watching|apply Hd|done]; done.
  - exists q'. split; [done|]. split; congruence.
Qed.
End atomic.
End view.
