(* ===== verification/ThreadTheorems.v ===== *)
(** * Two threads: races, atomicity, and stopping

    When the program may call what while the server thread runs, what goes wrong
    otherwise, and that a message is handled as [OscReceiver.v] says and the
    thread can always be stopped. *)
From S2P Require Import Prelude Exceptions Effects Machine Floats Liblo LibloModel OscTypes Log ReceivedMessage Vectors OscObject ObjectTheorems OscReceiver ReceiverProps ReceiverTheorems Accesses Calls CallTheorems Threads ThreadProps ThreadView.
Open Scope Z_scope.

Section theorems.
Context {L : Liblo} {T : ServerThread} {A : Type}.
Context (cb : ptr → ReceivedMessage → MessageSource → prog A bool).
Context (process : ReceivedMessage → MessageSource → prog A bool) (depth : nat).
Implicit Types s : rstate A.

(** C7: a program that changes the objects, the flag [m_ignoreMessages] and the root
    addresses only while the server thread is stopped never races with it: from
    any memory, after any interleaving of its calls (starting, stopping, polling
    and querying at any time) with the messages the thread handles, the next
    accesses of the two threads do not conflict.  The thread runs the method only
    between its start and the return of the call that stops it, and whenever it
    may run and no call is in progress, [m_isRunning] says so and [m_serverThread]
    is there to stop it.  The program's own data is part of this: the callbacks may
    write it. *)
Theorem quiet_program_race_free {TL : ServerThreadLaws T} s c :
  (∀ o message source, modest (cb o message source)) →
  (∀ message source, modest (process message source)) →
  rtc (step cb process depth quiet) (Config s Stopped None None) c →
  racy c = false ∧
  (server_phase c = Stopped → method c = None) ∧
  (caller c = None → server_phase c ≠ Stopped →
   m_isRunning (rcv (memory c)) = true ∧ m_serverThread (rcv (memory c)) ≠ None).
Proof.
  intros Hcb Hprocess Hc.
  assert (tinv caller_access consistent c) as Hi.
  { by eapply tinv_steps; [apply Hcb|apply Hprocess| |by apply wp_call_quiet|apply Hc|apply tinv_start]. }
  split; [by eapply tinv_not_racy|]. destruct Hi as (Hj & _ & Hp). split; [done|].
  intros Hn. by rewrite Hn in Hp.
Qed.

(** C10: while a program only looks at the receiver, or stops it, a message the server
    thread handles is handled as if the thread ran alone: when the method has
    ended, with a result or an exception, its outcome and the memory it can see
    are those of [lo_dispatch], run without interruption from the memory in which
    the message was delivered. *)
Theorem message_atomic {TL : ServerThreadLaws T} s c c1 c2 d o :
  (∀ o message source, modest (cb o message source)) →
  (∀ message source, modest (process message source)) →
  rtc (step cb process depth watching) (Config s Stopped None None) c →
  step cb process depth watching c c1 →
  method c = None → method c1 = Some (p_lo_dispatch cb process depth d) →
  rtc (during cb process depth) c1 c2 → method c2 = Some (Done o) →
  same_run (o, memory c2)
    (lo_dispatch (λ o message source, run (cb o message source))
       (λ message source, run (process message source)) depth d (memory c1)).
Proof.
  intros Hcb Hprocess Hc Hs _ Hd Hr Ho.
  assert (tinv silent_access consistent c1) as Hi.
  { eapply tinv_steps; [apply Hcb|apply Hprocess|done|by apply wp_call_watching| |apply tinv_start].
    eapply rtc_r; [apply Hc|apply Hs]. }
  destruct (during_run cb process depth Hcb Hprocess _ _ _ Hr Hi Hd) as (q & Hq & Hrun).
  rewrite Ho in Hq. injection Hq as <-.
  rewrite <- (run_p_lo_dispatch cb process) by done.
  destruct Hrun as [Hrun1 Hrun2]. by split.
Qed.

(** *** Calls that race *)

(** A program whose calls are all [c0]. *)
Inductive only (c0 : call unit) : phase → ∀ B : Type, call B → Prop :=
  | only_call ph : only c0 ph unit c0.

(** From a memory in which the thread waits for messages, some interleaving ends in
    a race. *)
Definition races (c0 : call unit) s : Prop := ∃ c,
  rtc (step cb process depth (only c0)) (Config s Started None None) c ∧ racy c = true.

(** liblo has a message for the method, and gives its source. *)
Definition receives s : Prop := ∃ d w' message w1 src,
  delivers Started (net (rest s)) d w' ∧
  ReceivedMessage_new d.1 d.2 w' = (Ret message, w1) ∧ lo_message_get_source d.2 w1 = Ret src.

(** The method comes to its test of [m_ignoreMessages]. *)
Lemma method_tests allowed s : receives s → ∃ q s1,
  rtc (step cb process depth allowed) (Config s Started None None)
    (Config s1 Started None (Some q)) ∧
  rcv s1 = rcv s ∧ next q = Some (false, At_ignoreMessages) ∧
  (m_ignoreMessages (rcv s) = false → ∃ q',
     step cb process depth allowed (Config s1 Started None (Some q)) (Config s1 Started None (Some q'))
     ∧ next q' = Some (false, At_objects)).
Proof.
  intros (d & w' & message & w1 & src & Hd & Hm & Hsrc).
  eexists _, (on_net w1 s). split.
  { eapply rtc_l; [by eapply step_deliver|].
    eapply rtc_l; [eapply step_method; simpl; unfold lo; simpl; rewrite Hm; reflexivity|].
    eapply rtc_l; [eapply step_method; simpl; unfold ask; simpl; rewrite Hsrc; reflexivity|].
    apply rtc_refl. }
  split; [done|]. split; [done|]. intros Hi. unfold rcv in Hi.
  eexists. split; [eapply step_method; simpl; unfold field, gets; simpl; rewrite Hi; reflexivity|].
  done.
Qed.

(** A call that begins with a read and then writes the list of objects. *)
Lemma list_change_races c0 s v : receives s → m_ignoreMessages (rcv s) = false →
  (∃ k, call_prog cb process depth c0 = Step (Read F_objects) k ∧
        k (m_objects (rcv s)) = act (Write F_objects v)) →
  races c0 s.
Proof.
  intros Hr Hi (k & Hk & Hw).
  destruct (method_tests (only c0) s Hr) as (q & s1 & Hs & Hrcv & _ & Hq).
  destruct (Hq Hi) as (q' & Hs' & Hn').
  exists (Config s1 Started (Some (forget (act (Write F_objects v)))) (Some q')). split.
  - etransitivity; [apply Hs|]. eapply rtc_l; [apply Hs'|].
    eapply rtc_l; [apply step_call, only_call|]. rewrite Hk. apply rtc_once.
    apply step_caller; [done|]. simpl. unfold field, gets, rcv in *. simpl.
    by rewrite Hrcv, Hw.
  - unfold racy. simpl. by rewrite Hn'.
Qed.

(** C18: once the server thread is started and a message comes in, each of the calls
    that change what it reads can race with it: [ignoreMessages], which is meant
    for a running thread, writes the flag while the method tests it, and adding
    or removing objects writes the vector while the method walks through it. *)
Theorem running_changes_race s o :
  receives s →
  (∀ yesno, races (OnReceiver (C_ignoreMessages yesno)) s) ∧
  (m_ignoreMessages (rcv s) = false →
     races (OnReceiver (C_addOscObject (Some o))) s ∧
     races (OnReceiver C_removeAllOscObjects) s ∧
     (Some o ∈ elems (m_objects (rcv s)) → races (OnReceiver (C_removeOscObject (Some o))) s)).
Proof.
  intros Hr. split.
  - intros yesno. destruct (method_tests (only (OnReceiver (C_ignoreMessages yesno))) s Hr)
      as (q & s1 & Hs & _ & Hn & _).
    eexists (Config s1 Started _ (Some q)). split.
    + eapply rtc_r; [apply Hs|]. apply step_call, only_call.
    + unfold racy. simpl. by rewrite Hn.
  - intros Hi. split_all; [by eapply list_change_races; eauto..|]. intros Ho.
    eapply list_change_races; [done..|]. eexists. split; [done|]. simpl.
    rewrite bool_decide_true; [done|]. intros E%find_index_length. done.
Qed.

(** *** Stopping *)

(** The method, or the call in progress, ended in an exception or in undefined
    behaviour. *)
Definition failed (p : option (prog A unit)) : Prop :=
  match p with Some (Done (Ret _)) => False | Some (Done _) => True | _ => False end.
Definition ended (c : config A) : Prop := failed (method c) ∨ failed (caller c).

(** The call has returned: the thread is stopped, and the receiver says so. *)
Definition stopped (c : config A) : Prop :=
  caller c = None ∧ server_phase c = Stopped ∧
  m_isRunning (rcv (memory c)) = false ∧ m_ignoreMessages (rcv (memory c)) = false.

Definition is_stop {B} (a : access A B) : bool := match a with ThreadStop _ => true | _ => false end.

(** What follows a stop: no start or stop, and alone it returns with both flags
    reset, from any memory. *)
Definition resets (p : prog A unit) : Prop :=
  all_access (λ _ a, controls a = false) p ∧
  ∀ s, ∃ s', run p s = (Ret tt, s') ∧
    m_isRunning (rcv s') = false ∧ m_ignoreMessages (rcv s') = false.

Fixpoint stops_well (p : prog A unit) : Prop :=
  match p with
  | Done _ => True
  | Step a k => (is_stop a = true → ∀ b, resets (k b)) ∧ ∀ b, stops_well (k b)
  end.

Lemma never_stops (p : prog A unit) : all_access (λ _ a, controls a = false) p → stops_well p.
Proof.
  induction p as [|B a k IH]; [done|]. intros [Ha Hk]. split; [by destruct a|auto].
Qed.

Lemma method_no_control {R} (p : prog A R) :
  all_access (@method_access L A) p → all_access (λ _ a, controls a = false) p.
Proof. apply all_access_mono. by intros B a [? _]. Qed.

Section stopping.
Context {TL : ServerThreadLaws T} (allowed : phase → ∀ B, call B → Prop).
Context (Hcb : ∀ o message source, modest (cb o message source)).
Context (Hprocess : ∀ message source, modest (process message source)).

#[local] Notation step := (step cb process depth allowed).

(** What follows the stop in [p_stop] and in [p_clear]. *)
Lemma writes_reset (p : prog A unit) :
  (∀ s, ∃ s', run p s = (Ret tt, s') ∧ m_isRunning (rcv s') = m_isRunning (rcv s) ∧
     m_ignoreMessages (rcv s') = m_ignoreMessages (rcv s)) →
  all_access (λ _ a, controls a = false) p →
  resets (Step (Write F_isRunning false) (λ _, Step (Write F_ignoreMessages false) (λ _, p))).
Proof.
  intros Hp Hc. split; [done|]. intros s.
  destruct (Hp (on_receiver (set_ignoreMessages false) (on_receiver (set_isRunning false) s)))
    as (s' & Hr & H1 & H2). exists s'. split; [exact Hr|]. by rewrite H1, H2.
Qed.

Lemma stop_stops_well : stops_well (forget p_stop).
Proof.
  split; [done|]. intros t. simpl. case_bool_decide; [done|].
  assert (resets (Step (Write F_isRunning false)
    (λ _, Step (Write F_ignoreMessages false) (λ _, Done (Ret tt))))) as Hr
    by (apply writes_reset; [intros s; by exists s|done]).
  split; [by intros|]. intros z. apply never_stops, Hr.
Qed.

Lemma clear_stops_well : stops_well (forget p_clear).
Proof.
  assert (resets (Step (Write F_isRunning false)
    (λ _, Step (Write F_ignoreMessages false) (λ _, forget (
      t ← act (Read F_serverThread);
      _ ← (if bool_decide (t ≠ None) then act (Write F_serverThread None) else mret tt);
      act (Write F_isMulticast false)))))) as Hr.
  { apply writes_reset.
    - intros s. exists (on_receiver (set_isMulticast false)
        (if bool_decide (m_serverThread (rcv s) ≠ None) then on_receiver (set_serverThread None) s else s)).
      unfold rcv. simpl. unfold mbind at 1, M_bind at 1. simpl. by case_bool_decide.
    - split; [done|]. intros t. simpl. by case_bool_decide. }
  split; [done|]. intros t. simpl. case_bool_decide.
  - split; [done|]. intros t'. simpl. by case_bool_decide.
  - split; [by intros|]. intros z. apply never_stops, Hr.
Qed.

(** The other calls stop nothing. *)
Ltac no_control := repeat first
  [ done
  | match goal with
    | |- all_access _ (_ ≫= _) => apply all_access_bind; [|intros]
    | |- all_access _ (if bool_decide _ then _ else _) => case_bool_decide
    | |- all_access _ (if ?b then _ else _) => destruct b
    | |- all_access _ (let '(_, _) := ?x in _) => destruct x
    | |- all_access _ (p_lo_dispatch_all _ _ _ _) =>
        by apply method_no_control, method_lo_dispatch_all
    | |- all_access _ match ?o with Some _ => _ | None => _ end => destruct o
    end ].

Lemma call_stops_well {B} (c : call B) : stops_well (forget (call_prog cb process depth c)).
Proof.
  destruct c as [c|o c]; destruct c; try apply stop_stops_well; try apply clear_stops_well;
    try (split; [done|]; intros t; simpl; case_bool_decide; done).
  all: apply never_stops, all_access_bind; [|done]; cbn [call_prog receiver_call_prog object_call_prog];
    unfold p_setup, p_setupMulticast, p_set_up, p_handleMessages, p_addOscObject, p_removeOscObject,
      p_removeAllOscObjects, p_getHostname, p_getUrl, p_print, p_getUrl, p_from_server, p_oo_add,
      p_oo_remove, p_oo_removeAll, p_oo_prepend, warn, error; no_control.
Qed.

Lemma stops_well_step c c' : step c c' →
  (∀ p, caller c = Some p → stops_well p) → ∀ p, caller c' = Some p → stops_well p.
Proof.
  intros Hs H. destruct Hs as [s ph j B d _|s s' ph B a k p' j _ Ha|s s' ph t k z j _|
    |s s' ph t k p' j _ _ Ha|s ph o j _| | | |]; simpl in *; try done.
  - intros p [= <-]. apply call_stops_well.
  - intros p [= <-]. destruct (H _ eq_refl) as [_ Hk].
    destruct (exec a s) as [[b|?|?] s1]; injection Ha as <- <-; [apply Hk|done..].
  - intros p [= <-]. by apply (H _ eq_refl).
  - intros p [= <-]. destruct (H _ eq_refl) as [_ Hk].
    destruct (lo _ s) as [[b|?|?] s1]; injection Ha as <- <-; [apply Hk|done..].
Qed.

(** *** The thread asked to stop *)

(** Its caller waits. *)
Definition waits (p : prog A unit) : bool :=
  match p with Step a _ => is_stop a | _ => false end.

Lemma stopping_waits s c : rtc step (Config s Stopped None None) c →
  (∀ p, caller c = Some p → stops_well p) ∧
  (server_phase c = Stopping → ∃ p, caller c = Some p ∧ waits p = true).
Proof.
  intros Hr. remember (Config s Stopped None None) as c0 eqn:E.
  assert ((∀ p, caller c0 = Some p → stops_well p) ∧
    (server_phase c0 = Stopping → ∃ p, caller c0 = Some p ∧ waits p = true)) as H0 by (by subst).
  clear E. induction Hr as [|c0 c1 c Hs _ IH]; [done|]. apply IH. destruct H0 as [Hw H0]. split.
  { by apply (stops_well_step c0). }
  clear IH Hw. destruct Hs; simpl in *; intros Hph; try specialize (H0 Hph); try done; try by eauto.
  all: destruct H0 as (p0 & [= <-] & Hp0); first [done|by destruct a].
Qed.

(** What can happen meanwhile. *)
Lemma stopping_step s p j c' : waits p = true → step (Config s Stopping (Some p) j) c' →
  (∃ p' s', advance p s = Some (p', s') ∧ c' = Config s' Stopped (Some p') None) ∨
  ∃ s' j', c' = Config s' Stopping (Some p) j' ∧
    ((∃ q q', j = Some q ∧ j' = Some q' ∧ advance q s = Some (q', s')) ∨
     j = Some (Done (Ret tt)) ∧ j' = None).
Proof.
  intros Hp Hs. remember (Config s Stopping (Some p) j) as c eqn:E.
  destruct Hs as [? ? ? B d _|? s' ? B a k p' ? Hc Ha| |
    |? s' ? t k p' j' _ Hb Ha|? ? o ? _|? ? ? ? ? Hd|? ? ? ? ? Hd|? s' ? ? q q' Ha|]; 
    injection E; intros; subst; try done.
  - by destruct a.
  - left. exists p', s'. split; [done|]. apply law_stop_waits in Hb. by destruct j.
  - by apply law_delivers in Hd.
  - by apply law_reports in Hd.
  - right. eexists _, _. split; [done|]. left. by eexists _, _.
  - right. eexists _, _. split; [done|]. by right.
Qed.

(** Once the thread is stopped, the caller is alone. *)
Definition begins_control (p : prog A unit) : bool :=
  match p with Step a _ => controls a | _ => false end.

Lemma alone_step s p c' : begins_control p = false → step (Config s Stopped (Some p) None) c' →
  (∃ p' s', advance p s = Some (p', s') ∧ c' = Config s' Stopped (Some p') None) ∨
  ∃ o, p = Done o ∧ c' = Config s Stopped None None.
Proof.
  intros Hp Hs. remember (Config s Stopped (Some p) None) as c eqn:E.
  destruct Hs as [|? s2 ? D a' k' p' ? Hc' Ha'| |
    | |? ? o ? _|? ? ? ? ? Hd|? ? ? ? ? Hd| |]; injection E; intros; subst; try done.
  - left. by exists p', s2.
  - right. by exists o.
  - by apply law_delivers in Hd.
  - by apply law_reports in Hd.
Qed.

Lemma stopped_alone s p s' : all_access (λ _ a, controls a = false) p → run p s = (Ret tt, s') →
  m_isRunning (rcv s') = false → m_ignoreMessages (rcv s') = false →
  inevitable step (λ c, stopped c ∨ ended c) (Config s Stopped (Some p) None).
Proof.
  intros Hc Hr H1 H2. revert s Hr. induction p as [o|B a k IH]; intros s Hr.
  - injection Hr as -> ->. apply inevitable_later; [eexists; by constructor|].
    intros c' [(? & ? & [=] & _)|(? & _ & ->)]%alone_step; [|done].
    apply inevitable_now. by left.
  - destruct Hc as [Ha Hk]. apply bind_Ret_inv in Hr as (b & s1 & Hr1 & Hr).
    assert (advance (Step a k) s = Some (k b, s1)) as Hadv by (simpl; by rewrite Hr1).
    apply inevitable_later; [eexists; by apply step_caller|].
    intros c' [(p' & s2 & Hadv' & ->)|(? & [=] & _)]%alone_step; [|done].
    rewrite Hadv in Hadv'. injection Hadv' as <- <-. by apply IH.
Qed.

(** The stop returns. *)
Lemma stop_returned s p p' s' : waits p = true → stops_well p → advance p s = Some (p', s') →
  inevitable step (λ c, stopped c ∨ ended c) (Config s' Stopped (Some p') None).
Proof.
  destruct p as [|B a k]; [done|]. intros Hp [Hk _] [= Ha]. specialize (Hk Hp).
  destruct (exec a s) as [[b|e|u] s1]; injection Ha as <- <-;
    [|by apply inevitable_now; right; right..].
  destruct (Hk b) as [Hc Hr]. destruct (Hr s1) as (s2 & ? & ? & ?). by eapply stopped_alone.
Qed.

Lemma waits_advance p s ph c : waits p = true → stop_returns false → ph ≠ Started →
  c = Config s ph (Some p) None → ∃ c', step c c'.
Proof.
  intros Hp Hb Hph ->. destruct p as [|B a k]; [done|].
  destruct (advance (Step a k) s) as [[p' s']|] eqn:E; [|done].
  destruct a; try done. eexists. by eapply step_stopped.
Qed.

(** The method is a finite tree of accesses. *)
Lemma stopping_ends s p j : waits p = true → stops_well p →
  inevitable step (λ c, stopped c ∨ ended c) (Config s Stopping (Some p) j).
Proof.
  intros Hp Hw.
  assert (∀ s, inevitable step (λ c, stopped c ∨ ended c) (Config s Stopping (Some p) None)) as Hidle.
  { clear s. intros s. apply inevitable_later.
    - by eapply waits_advance; [..|done]; [|apply law_stop_returns|].
    - intros c' Hs. destruct (stopping_step _ _ _ _ Hp Hs)
        as [(p' & s' & Ha & ->)|(? & ? & _ & [(? & ? & [=] & _)|[[=] _]])]. by eapply stop_returned. }
  destruct j as [q|]; [|apply Hidle]. revert s.
  induction q as [o|B a kq IH]; intros s.
  - destruct o as [[]|e|u]; [|by apply inevitable_now; right; left..].
    apply inevitable_later; [eexists; apply step_finish|]. intros c' Hs.
    destruct (stopping_step _ _ _ _ Hp Hs)
      as [(p' & s' & Ha & ->)|(? & ? & -> & [(? & ? & [= <-] & _ & [=])|[_ ->]])];
      [by eapply stop_returned|apply Hidle].
  - apply inevitable_later.
    + destruct (advance (Step a kq) s) as [[q' s']|] eqn:E; [|done].
      eexists. by eapply step_method.
    + intros c' Hs. destruct (stopping_step _ _ _ _ Hp Hs)
        as [(p' & s' & Ha & ->)|(s' & ? & -> & [(q & q' & Hq & -> & Ha)|[[=] _]])];
        [by eapply stop_returned|].
      injection Hq as <-. injection Ha as Ha.
      destruct (exec a s) as [[b|e|u] s1]; injection Ha as <- <-;
        [apply IH|by apply inevitable_now; right; left..].
Qed.
End stopping.

(** C17: stopping the receiver always comes to an end, and leaves it stopped: once
    [stop] or [clear] has asked the server thread to stop, in any state two
    threads can reach, under any discipline of the program, every schedule leads
    to a state where the call has returned, no thread runs, and [m_isRunning] and
    [m_ignoreMessages] are reset; unless the message being handled, or the call
    itself, ends in an exception or in undefined behaviour.  No schedule gets
    stuck before or goes on forever.  The callbacks only make the accesses of
    [modest], and, as programs are finite trees, end whatever they read: a callback
    that waits for ever is not covered. *)
Theorem stop_inevitable {TL : ServerThreadLaws T} allowed s c :
  (∀ o message source, modest (cb o message source)) →
  (∀ message source, modest (process message source)) →
  rtc (step cb process depth allowed) (Config s Stopped None None) c →
  server_phase c = Stopping →
  inevitable (step cb process depth allowed) (λ c', stopped c' ∨ ended c') c.
Proof.
  intros Hcb Hprocess Hr Hph. destruct (stopping_waits allowed Hcb Hprocess s c Hr) as [Hw Hp].
  destruct (Hp Hph) as (p & Hc & Hpw). destruct c as [s' ph q j]. simpl in *. subst.
  apply stopping_ends; [done|by apply Hw].
Qed.

End theorems.


(** ** Applications *)

(** The server thread of the reference liblo takes the messages that wait at the
    socket, one packet of one message at a time. *)
Definition model_deliver (w : mworld) : option ((string * option ptr) * mworld) :=
  match m_recv None 0 w with
  | (Ret (_, [d]), w') => Some (d, w')
  | _ => None
  end.

(** Bytes that are no packet are reported. *)
Definition model_report (w : mworld) : option ((Z * cptr * cptr) * mworld) :=
  match mw_inbox w with
  | Malformed :: xs => Some ((9911, CStr "Invalid message received", CNull),
                             MWorld (mw_view w) (mw_clock w) xs (mw_source w))
  | _ => None
  end.

#[export] Instance model_server : ServerThread (L := model) :=
  { delivers ph w d w' := ph = Started ∧ model_deliver w = Some (d, w');
    reports ph w e w' := ph = Started ∧ model_report w = Some (e, w');
    stop_returns busy := busy = false }.

#[export] Instance model_server_laws : ServerThreadLaws model_server.
Proof.
  split; [| |done|done].
  - intros ph w d w' [Hph _]. exact Hph.
  - intros ph w e w' [Hph _]. exact Hph.
Qed.

(** The callbacks of [ReceiverTheorems], as programs. *)
Definition p_note (o : ptr) (b : bool) : prog (L := model) (list ptr) bool :=
  _ ← act (User (λ u, (Ret tt, u ++ [o]))); mret b.
Definition p_noting (o : ptr) (_ : ReceivedMessage) (_ : MessageSource) := p_note o false.
Definition p_handling (_ : ReceivedMessage) (_ : MessageSource) := p_note 1000%positive true.

Lemma p_note_modest o b : modest (p_note o b).
Proof. split; [by split|done]. Qed.

Definition model_schedule := schedule (L := model) p_noting p_handling 4 model_deliver.
Definition idle (s : rstate (L := model) (list ptr)) : config (list ptr) := Config s Stopped None None.
Definition calls (c : receiver_call unit) (n : nat) : list turn :=
  Turn_call (OnReceiver c) :: repeat Turn_caller n.

(** The start is called; its accesses follow. *)
Definition starting : config (L := model) (list ptr) :=
  Config rs2 Stopped (Some (forget (call_prog p_noting p_handling 4 (OnReceiver C_start)))) None.
Definition reached (ts : list turn) : config (list ptr) := default starting (model_schedule ts starting).

(** The thread runs and has a message; the program asks for the url meanwhile. *)
Definition delivered : list turn := repeat Turn_caller 4 ++ [Turn_deliver].
Definition watched : list turn :=
  [Turn_method; Turn_call (OnReceiver C_getUrl); Turn_caller; Turn_method; Turn_caller;
   Turn_method; Turn_caller; Turn_caller] ++ Turn_call (OnReceiver C_stop) :: repeat Turn_caller 2.
Definition finishing : list turn := repeat Turn_method 12.

Lemma starting_reached (allowed : phase → ∀ B : Type, call B → Prop) ts : allowed Stopped unit (OnReceiver C_start) →
  Forall (turn_allowed allowed) ts → bool_decide (is_Some (model_schedule ts starting)) = true →
  rtc (step p_noting p_handling 4 allowed) (idle rs2) (reached ts).
Proof.
  intros Ha Hts [c Hc]%bool_decide_eq_true. eapply rtc_l; [by apply step_call|].
  eapply (schedule_steps p_noting p_handling 4 allowed model_deliver); [|done|].
  - intros w d w' Hd. by split.
  - unfold reached. unfold model_schedule in *. by rewrite Hc.
Qed.

(** What the schedule comes to: the message has been handled, and the thread stops. *)
Example schedule_stops :
  let c := reached (delivered ++ watched ++ finishing ++ Turn_method :: repeat Turn_caller 4) in
  (server_phase c, bool_decide (is_Some (method c)), user (rest (memory c)), m_isRunning (rcv (memory c)))
  = (Stopped, false, [4; 3; 1000]%positive, false).
Proof. vm_compute. reflexivity. Qed.

(** Does the method stay in progress along a schedule? *)
Fixpoint stays_busy (ts : list turn) (c : config (L := model) (list ptr)) : bool :=
  match ts with
  | [] => true
  | t :: ts =>
      match take_turn p_noting p_handling 4 model_deliver t c with
      | Some c' => busy (method c') && stays_busy ts c'
      | None => false
      end
  end.

Lemma schedule_during ts c : Forall (turn_allowed watching) ts → stays_busy ts c = true →
  ∃ c', model_schedule ts c = Some c' ∧ rtc (during p_noting p_handling 4) c c'.
Proof.
  intros Hts. revert c. induction Hts as [|t ts Ht _ IH]; intros c Hc; [by exists c|].
  unfold model_schedule in *. simpl in *.
  destruct (take_turn _ _ _ _ t c) as [c1|] eqn:E; [|done]. simpl.
  apply andb_true_iff in Hc as [Hb Hc]. destruct (IH c1 Hc) as (c' & Hc' & Hr).
  exists c'. split; [done|]. eapply rtc_l; [split|apply Hr].
  - eapply (take_turn_step p_noting p_handling 4 watching model_deliver); [|done|done].
    intros w d w' Hd. by split.
  - unfold busy in Hb. by apply bool_decide_eq_true in Hb.
Qed.

Lemma schedule_app ts ts' c :
  model_schedule (ts ++ ts') c = c' ← model_schedule ts c; model_schedule ts' c'.
Proof.
  revert c. induction ts as [|t ts IH]; intros c; [done|]. unfold model_schedule in *. simpl.
  by destruct (take_turn _ _ _ _ t c); [apply IH|].
Qed.

Lemma reached_app ts ts' : bool_decide (is_Some (model_schedule ts starting)) = true →
  model_schedule ts' (reached ts) = model_schedule (ts ++ ts') starting.
Proof.
  intros [c Hc]%bool_decide_eq_true. rewrite schedule_app. unfold reached. by rewrite Hc.
Qed.

Lemma reached_step (allowed : phase → ∀ B : Type, call B → Prop) ts t : turn_allowed allowed t →
  bool_decide (is_Some (model_schedule (ts ++ [t]) starting)) = true →
  step p_noting p_handling 4 allowed (reached ts) (reached (ts ++ [t])).
Proof.
  intros Ht [c' Hc']%bool_decide_eq_true. unfold reached. rewrite Hc'. rewrite schedule_app in Hc'.
  apply bind_Some in Hc' as (c & -> & Hc). apply bind_Some in Hc as (c1 & Hc & [= ->]).
  eapply (take_turn_step p_noting p_handling 4 allowed model_deliver); [|done|done].
  intros w d w' Hd. by split.
Qed.

(** No method, or one that has returned. *)
Lemma not_busy (j : option (prog (L := model) (list ptr) unit)) : busy j = false → j = None.
Proof. by destruct j. Qed.

Definition returned (j : option (prog (L := model) (list ptr) unit)) : bool :=
  match j with Some (Done (Ret tt)) => true | _ => false end.

Lemma returned_Some j : returned j = true → j = Some (Done (Ret tt)).
Proof. by destruct j as [[[[]|e|u]|B a k]|]. Qed.

(** The method a delivery begins. *)
Lemma reached_deliver ts d : bool_decide (is_Some (model_schedule (ts ++ [Turn_deliver]) starting)) = true →
  option_map fst (model_deliver (net (rest (memory (reached ts))))) = Some d →
  method (reached (ts ++ [Turn_deliver])) = Some (p_lo_dispatch p_noting p_handling 4 d).
Proof.
  intros [c' Hc']%bool_decide_eq_true. unfold reached. rewrite Hc'. rewrite schedule_app in Hc'.
  apply bind_Some in Hc' as (c & -> & Hc). apply bind_Some in Hc as (c1 & Hc & [= ->]). simpl in *.
  destruct c as [s [] p [q|]]; try done.
  apply bind_Some in Hc as ([d' w'] & Hd & [= <-]). change (net (rest s)) with (@net model _ (rest s)) in *.
  setoid_rewrite Hd. by intros [= ->].
Qed.

(** The calls of the schedules above are allowed in every phase. *)
Ltac turns_allowed :=
  unfold delivered, watched, finishing; simpl;
  repeat (apply Forall_cons_2; [first [exact I|intros ?; by right|done]|]); apply Forall_nil_2.

Lemma quiet_program_race_free_witness :
  let c := reached (delivered ++ [Turn_method; Turn_call (OnReceiver C_getUrl)]) in
  racy c = false ∧ (server_phase c = Stopped → method c = None) ∧
  (caller c = None → server_phase c ≠ Stopped →
   m_isRunning (rcv (memory c)) = true ∧ m_serverThread (rcv (memory c)) ≠ None).
Proof.
  apply (quiet_program_race_free (L := model) p_noting p_handling 4 rs2).
  - intros. apply p_note_modest.
  - intros. apply p_note_modest.
  - apply starting_reached; [by left|turns_allowed|by vm_compute].
Defined.

Lemma message_atomic_witness :
  same_run (Ret tt, memory (reached (delivered ++ watched ++ finishing)))
    (lo_dispatch (λ o message source, run (p_noting o message source))
       (λ message source, run (p_handling message source)) 4 ("/a", Some 2%positive)
       (memory (reached delivered))).
Proof.
  apply (message_atomic (L := model) p_noting p_handling 4 rs2 (reached (repeat Turn_caller 4))
           (reached delivered)).
  - intros. apply p_note_modest.
  - intros. apply p_note_modest.
  - apply starting_reached; [by left|turns_allowed|by vm_compute].
  - by apply (reached_step watching (repeat Turn_caller 4) Turn_deliver); [|by vm_compute].
  - apply not_busy. by vm_compute.
  - by apply (reached_deliver (repeat Turn_caller 4)); vm_compute.
  - destruct (schedule_during (watched ++ finishing) (reached delivered)) as (c' & Hc' & Hr);
      [turns_allowed|by vm_compute|].
    rewrite reached_app in Hc' by (by vm_compute). unfold reached at 2. by rewrite Hc'.
  - apply returned_Some. by vm_compute.
Defined.

Lemma running_changes_race_witness : 
  (∀ yesno, races p_noting p_handling 4 (OnReceiver (C_ignoreMessages yesno)) rs3) ∧
  (m_ignoreMessages (rcv rs3) = false →
     races p_noting p_handling 4 (OnReceiver (C_addOscObject (Some 3%positive))) rs3 ∧
     races p_noting p_handling 4 (OnReceiver C_removeAllOscObjects) rs3 ∧
     (Some 3%positive ∈ elems (m_objects (rcv rs3)) →
        races p_noting p_handling 4 (OnReceiver (C_removeOscObject (Some 3%positive))) rs3)).
Proof.
  apply (running_changes_race (L := model)).
  eexists ("/a", Some 2%positive), _, _, _, _.
  split; [split; [reflexivity|vm_compute; reflexivity]|].
  split; [vm_compute; reflexivity|reflexivity].
Defined.

Lemma stop_inevitable_witness :
  inevitable (step p_noting p_handling 4 any_call) (λ c, stopped c ∨ ended c)
    (reached (delivered ++ watched)).
Proof.
  apply (stop_inevitable (L := model) p_noting p_handling 4 any_call rs2).
  - intros. apply p_note_modest.
  - intros. apply p_note_modest.
  - apply starting_reached; [done|turns_allowed|by vm_compute].
  - by vm_compute.
Defined.
