(* ===== verification/Delivery.v ===== *)
(** * From a sender to the callbacks of a receiver

    The parts of the library together: packets written to an [OscSender] and
    brought by the network to the socket of an [OscReceiver] are given, message by
    message, to the callbacks of its objects and to its own, and read back there
    with the arguments that were written. *)
From S2P Require Import Prelude Exceptions Effects Machine Floats Liblo LibloModel OscTypes OscSender SenderSpec SenderRefine SenderProps SenderTheorems Log ReceivedMessage ReceivedProps ReceivedTheorems Vectors OscObject ObjectProps ObjectTheorems OscReceiver ReceiverProps ReceiverReach ReceiverTheorems.
Open Scope Z_scope.

(** The messages of a packet, in the order liblo dispatches them. *)
Fixpoint messages_of (p : packet) : list (string * list atom) :=
  match p with
  | PMessage path args => [(path, args)]
  | PBundle _ ps => concat (map messages_of ps)
  end.

Lemma messages_of_ok p : packet_ok p → Forall (λ x, Forall atom_ok x.2) (messages_of p).
Proof.
  induction p as [path args|t ps IH] using packet_nested_ind; intros Hok; simpl.
  - destruct Hok. by repeat constructor.
  - rewrite packet_ok_bundle in Hok. apply Forall_concat, Forall_map.
    rewrite Forall_forall in IH, Hok |- *. auto.
Qed.

(** ** The network *)

(** [arrives w t p w']: between [w] and [w'], packet [p] has come to the socket of
    server [t], is the next to be read there, and its bundles are due. *)
Class Network {L : Liblo} : Type := { arrives : world → ptr → packet → world → Prop }.

(** No packet comes that was not sent to the port; a datagram has less than 2^16
    bytes, one of them for the tag of each argument; receiving gives the messages
    of the packet. *)
Class NetworkLaws {L : Liblo} (N : Network) : Prop := {
  law_arrives_sent w t p w' : arrives w t p w' → ∃ x host,
    v_servers (view w) !! t = Some x ∧ ((host, srv_port x), p) ∈ v_sent (view w);
  law_arrives_view w t p w' : arrives w t p w' → view w' = view w;
  law_arrives_small w t p w' : arrives w t p w' →
    Forall (λ x, Z.of_nat (length x.2) < 2 ^ 16) (messages_of p);
  law_arrives_received w t p w' timeoutMS : arrives w t p w' → ∃ sv n ds w1,
    lo_server_thread_get_server (Some t) w' = Ret sv ∧
    lo_server_recv_noblock sv timeoutMS w' = (Ret (n, ds), w1) ∧
    Forall2 (λ d x, d.1 = x.1 ∧ ∃ m, d.2 = Some m ∧ v_msgs (view w1) !! m = Some (Msg x.2 0))
      ds (messages_of p)
}.

Section delivery.
Context {L : Liblo} {LL : LibloLaws L} {A : Type}.
Context (cb : ptr → ReceivedMessage → MessageSource → M (rstate A) bool).
Context (process : ReceivedMessage → MessageSource → M (rstate A) bool) (depth : nat).
Implicit Types s : rstate A.

(** ** Offering messages to the callbacks *)

(** A message is wrapped, offered to the callbacks of the objects [l], then to that
    of the receiver, until one of them handles it, and let go. *)
Definition offer (l : list ptr) (d : string * option ptr) : M (rstate A) unit :=
  message ← lo (ReceivedMessage_new d.1 d.2);
  source ← ask (lo_message_get_source d.2);
  _ ← first_handled (callbacks cb message (MessageSource_new source) l
                     ++ [process message (MessageSource_new source)]);
  lo (lo_message_free d.2).

Fixpoint offer_all (l : list ptr) (ds : list (string * option ptr)) : M (rstate A) unit :=
  match ds with
  | [] => mret tt
  | d :: ds => _ ← offer l d; offer_all l ds
  end.

(** A callback that keeps the invariant and the live messages, and leaves the
    objects and the ignore flag alone. *)
Definition steady (m : M (rstate A) bool) : Prop := polite m ∧ ∀ s,
  heap (m s).2 = heap s ∧ m_objects (rcv (m s).2) = m_objects (rcv s) ∧
  m_ignoreMessages (rcv (m s).2) = m_ignoreMessages (rcv s).

Context (Hcb : ∀ o message source, steady (cb o message source)).
Context (Hprocess : ∀ message source, steady (process message source)).

(** What the order of dispatch depends on. *)
Definition alike s s' : Prop :=
  heap s' = heap s ∧ m_objects (rcv s') = m_objects (rcv s) ∧
  m_ignoreMessages (rcv s') = m_ignoreMessages (rcv s).

Lemma preserves_alike s m : steady m → preserves (alike s) m.
Proof. intros [_ Hm] s' (H1 & H2 & H3). destruct (Hm s') as (? & ? & ?). unfold alike. split_all; congruence. Qed.

Lemma preserves_lo {B} s (m : M world B) : preserves (alike s) (lo m).
Proof. intros s' H. unfold lo. by destruct (m (net (rest s'))). Qed.

Lemma preserves_offer s l d : preserves (alike s) (offer l d).
Proof.
  apply preserves_bind; [apply preserves_lo|]. intros message.
  apply preserves_bind; [by intros s'|]. intros source.
  apply preserves_bind; [|intros _; apply preserves_lo].
  apply preserves_first_handled, Forall_app. split.
  - apply Forall_map, Forall_forall. intros o _. apply preserves_alike, Hcb.
  - constructor; [apply preserves_alike, Hprocess|done].
Qed.

(** Dispatching is offering, while the receiver is as in [s]. *)
Section order.
Context (s : rstate A) (os : list ptr) (ls : list (list ptr)).
Context (Hignore : m_ignoreMessages (rcv s) = false).
Context (Hos : elems (m_objects (rcv s)) = map Some os).
Context (Hls : Forall2 (λ o l, ∃ d, visits (heap s) o l d ∧ (d ≤ depth)%nat) os ls).

Lemma run_callbacks message source s1 : alike s s1 →
  processMessage cb process depth message source s1
  = first_handled (callbacks cb message source (concat ls) ++ [process message source]) s1.
Proof.
  intros (Hh & Ho & Hi). apply run_processMessage with os; rewrite ?Hi, ?Ho, ?Hh; [done..|].
  intros o. split; intros s2 s3; [intros Hs2 Hr|intros Hr];
    destruct (Hcb o message source) as [_ H]; destruct (H s2) as (H1 & H2 & _);
    rewrite Hr in H1, H2; [by rewrite <- Hs2|done].
Qed.

Lemma lo_dispatch_offer d s1 : alike s s1 →
  lo_dispatch cb process depth d s1 = offer (concat ls) d s1.
Proof.
  intros Hs1. unfold lo_dispatch, messageCB, offer.
  rewrite bind_assoc. apply bind_ext_at. intros message s2 Hm.
  pose proof (preserves_lo s (ReceivedMessage_new d.1 d.2) s1 Hs1) as Hs2. rewrite Hm in Hs2.
  rewrite bind_assoc. apply bind_ext_at. intros source s3 [= _ <-].
  rewrite bind_assoc. etransitivity; [by apply bind_ext, run_callbacks|]. done.
Qed.

Lemma lo_dispatch_all_offer ds s1 : alike s s1 →
  lo_dispatch_all cb process depth ds s1 = offer_all (concat ls) ds s1.
Proof.
  revert s1. induction ds as [|d ds IH]; intros s1 Hs1; [done|]. simpl.
  rewrite (bind_ext _ _ _ _ (lo_dispatch_offer d s1 Hs1)).
  apply bind_ext_at. intros u s2 Hr. apply IH.
  pose proof (preserves_offer s (concat ls) d s1 Hs1) as H. by rewrite Hr in H.
Qed.
End order.

(** ** End to end *)

(** The messages liblo hands over are held when their turn comes. *)
Lemma offered_holds s n x xs ds w i d s' :
  rinv s → v_servers (view w) = v_servers (view_of s) →
  Forall2 (λ d x, d.1 = x.1 ∧ ∃ m, d.2 = Some m ∧ v_msgs (view w) !! m = Some (Msg x.2 0)) ds xs →
  Forall (λ x, Forall atom_ok x.2) xs → Forall (λ x, Z.of_nat (length x.2) < 2 ^ 16) xs →
  ds !! i = Some d → xs !! i = Some x →
  lo_dispatch_all cb process n (take i ds) (on_net w s) = (Ret tt, s') →
  d.1 = x.1 ∧ ∃ m, d.2 = Some m ∧ holds (net (rest s')) m x.2.
Proof.
  intros Hs Hw Hds Hok Hsmall Hd Hx Hr.
  destruct (Forall2_lookup_lr _ _ _ _ _ _ Hds Hd Hx) as (Hp & m & Hm & Hl).
  split; [done|]. exists m. split; [done|].
  eapply lo_dispatch_all_inv in Hr as [_ Hk]; [|apply Hcb|apply Hprocess|by apply rinv_on_net|].
  - split; [exists 0%nat; by apply (Hk eq_refl)|]. split; [by eapply (Forall_lookup_1 _ _ _ _ Hok)|].
    pose proof (Forall_lookup_1 _ _ _ _ Hsmall Hx) as H. simpl in H. lia.
  - apply Forall_take, Forall_forall. intros d' [j Hj]%list_elem_of_lookup.
    destruct (Forall2_lookup_l _ _ _ _ _ Hds Hj) as (y & _ & _ & m' & Hm' & Hl').
    by exists m', y.2, 0%nat.
Qed.

(** What arrives was written, and sending and arriving leave the servers alone. *)
Lemma sent_arrives {N : Network} {NL : NetworkLaws N} s h port ps st t p w :
  (∀ x y, v_servers (view_of s) !! t = Some x → y ∈ v_sent (view_of s) → y.1.2 ≠ srv_port x) →
  is_u32 port → Forall packet_ok ps →
  exec_all (C_setup h port :: send_all ps) (OscSender_init, net (rest s)) = (Ret tt, st) →
  arrives st.2 t p w →
  p ∈ ps ∧ ∃ x, v_servers (view_of s) !! t = Some x ∧ v_servers (view w) = v_servers (view_of s).
Proof.
  clear Hcb Hprocess. intros Hold Hport Hps Hsend Harr.
  destruct (run_setup_send_all (net (rest s)) h port ps Hport Hps) as (st' & Hst & HR).
  rewrite Hsend in Hst. injection Hst as <-.
  apply Rel_idle in HR as (_ & _ & Hrest & Hsent). apply rest_of_all in Hrest as (_ & _ & _ & Hsrv & _).
  destruct (law_arrives_sent _ _ _ _ Harr) as (x & host & Hx & Hin). rewrite Hsrv in Hx. split.
  - rewrite Hsent in Hin. apply elem_of_app in Hin as [Hin|Hin]; [by destruct (Hold _ _ Hx Hin)|].
    by apply list_elem_of_fmap in Hin as (p' & [= _ _ ->] & ?).
  - exists x. split; [done|]. by rewrite (law_arrives_view _ _ _ _ Harr).
Qed.

(** C3: a packet written to a sender and brought by the network to a receiver that
    polls is one of those written, and each of its messages, in order, is offered
    to the callbacks of the attached objects in post-order and then to that of the
    receiver, until one handles it; when its turn comes the message it wraps is
    alive and holds the arguments that were written, each a value of its type.
    Nothing else is processed, and no message is lost or given twice. *)
Theorem sent_packets_processed {N : Network} {NL : NetworkLaws N} s h port ps st t p w timeoutMS os :
  rinv s → m_serverThread (rcv s) = Some t → m_isRunning (rcv s) = false →
  m_ignoreMessages (rcv s) = false → elems (m_objects (rcv s)) = map Some os →
  no_null (heap s) → (∀ o, o ∈ os → closed_below (heap s) o ∧ acyclic_below (heap s) o) →
  (base.size (heap s) ≤ depth)%nat →
  (∀ x y, v_servers (view_of s) !! t = Some x → y ∈ v_sent (view_of s) → y.1.2 ≠ srv_port x) →
  is_u32 port → Forall packet_ok ps →
  exec_all (C_setup h port :: send_all ps) (OscSender_init, net (rest s)) = (Ret tt, st) →
  arrives st.2 t p w →
  p ∈ ps ∧ ∃ ls n ds w1,
    Forall2 (λ o l, ∃ d, visits (heap s) o l d) os ls ∧
    handleMessages cb process depth timeoutMS (on_net w s)
    = (_ ← offer_all (concat ls) ds; mret n) (on_net w1 s) ∧
    length ds = length (messages_of p) ∧
    ∀ i d x s', ds !! i = Some d → messages_of p !! i = Some x →
      offer_all (concat ls) (take i ds) (on_net w1 s) = (Ret tt, s') →
      d.1 = x.1 ∧ ∃ m, d.2 = Some m ∧ holds (net (rest s')) m x.2.
Proof.
  intros Hs Ht Hrun Hi Hos Hnn Hob Hd Hold Hport Hps Hsend Harr.
  destruct (sent_arrives _ _ _ _ _ _ _ _ Hold Hport Hps Hsend Harr) as (Hp & x & Hx & Hw).
  split; [done|].
  assert (rinv (on_net w s)) as Hs1 by by apply rinv_on_net.
  destruct (unfold_all (heap s) os Hnn Hob) as [ls Hls].
  destruct (law_arrives_received _ _ _ _ timeoutMS Harr) as (sv' & n' & ds' & w1' & Hsv' & Hrecv' & Hds).
  assert (srv_handler x = errorCB) as Hh.
  { destruct Hs as [_ Hs]. rewrite Ht in Hs. destruct Hs as (x' & Hx' & _ & _ & Hh). congruence. }
  destruct (run_handleMessages cb process depth (on_net w s) timeoutMS t x Ht Hrun)
    as [(n & ds & w1 & (sv & Hsv & Hrecv) & Hr & Hv & _)|(text & w1 & (sv & Hsv & Hrecv) & _)];
    [by rewrite <- Hx; unfold view_of; simpl; rewrite Hw|done| |];
    simpl in Hsv, Hrecv; rewrite Hsv in Hsv'; injection Hsv' as <-; rewrite Hrecv in Hrecv'; [|done].
  injection Hrecv' as <- <- <-.
  assert (∀ ds, lo_dispatch_all cb process depth ds (on_net w1 s) = offer_all (concat ls) ds (on_net w1 s))
    as Hall.
  { intros ds'. apply (lo_dispatch_all_offer s os ls Hi Hos); [|done].
    eapply Forall2_impl; [done|]. intros o l (d & ? & ?). exists d. split; [done|lia]. }
  exists ls, n, ds, w1. split_all.
  - eapply Forall2_impl; [done|]. intros o l (d & ? & _). by exists d.
  - rewrite Hr. by apply bind_ext.
  - by eapply Forall2_length.
  - intros i d y s' Hdi Hyi Ho. rewrite <- Hall in Ho.
    assert (packet_ok p) as Hpok by (by eapply Forall_forall in Hps).
    eapply (offered_holds s depth y (messages_of p) ds w1); try done.
    + by rewrite Hv.
    + by apply messages_of_ok.
    + by eapply law_arrives_small.
Qed.
End delivery.

(** ** Applications *)

(** The reference network: a packet sent to the port of the server, whose messages
    liblo accepts, is the one that waits at the sockets. *)

#[export] Instance model_network : Network (L := model) := {
  arrives w t p w' := (∃ x host,
      v_servers (mw_view w) !! t = Some x ∧ ((host, srv_port x), p) ∈ v_sent (mw_view w)) ∧
    Forall accepted (messages_of p) ∧
    w' = MWorld (mw_view w) (mw_clock w) [Datagram 16 (messages_of p)] (mw_source w)
}.

#[export] Instance model_network_laws : NetworkLaws model_network.
Proof.
  split.
  - by intros w t p w' (H & _).
  - by intros w t p w' (_ & _ & ->).
  - intros w t p w' (_ & Hs & _). eapply Forall_impl; [done|]. by intros x [_ H].
  - intros w t p w' timeoutMS (_ & Hs & ->). simpl. unfold m_recv, m_incoming. simpl.
    rewrite filter_Forall by done.
    destruct (m_receive (messages_of p) _) as [ms v'] eqn:E.
    do 4 eexists. split; [done|]. split; [done|]. by eapply m_receive_incoming.
Qed.

(** A receiver with one object attached polls a bundle of two messages. *)
Definition ds0 : rstate (L := model) (list ptr) :=
  (setup 9990 (addOscObject (Some 3%positive)
     (Env diamond (Console [] []) (App (OscReceiver_init "") mw0 []))).2).2.
Definition sending : list command := C_setup "localhost" 9990 :: send_all [sample_bundle].
Definition sent : state (L := model) := (exec_all sending (OscSender_init, net (rest ds0))).2.
Definition arrived : mworld := MWorld (mw_view sent.2) (mw_clock sent.2)
  [Datagram 16 (messages_of sample_bundle)] (mw_source sent.2).

Lemma ds0_inv : rinv ds0.
Proof. split; [by apply (bool_decide_unpack _)|]. simpl. eexists. by split_all. Qed.

Lemma arrives_arrived : arrives (Network := model_network) sent.2 2%positive sample_bundle arrived.
Proof.
  split; [|split; [by apply (bool_decide_unpack _)|reflexivity]]. eexists (Server (dec 9990) None errorCB false), "localhost".
  split; [by vm_compute|].
  assert (v_sent (mw_view sent.2) = [(("localhost", "9990"), sample_bundle)]) as -> by by vm_compute.
  apply list_elem_of_here.
Qed.

Lemma sent_all : exec_all sending (OscSender_init, net (rest ds0)) = (Ret tt, sent).
Proof.
  assert ((exec_all sending (OscSender_init, net (rest ds0))).1 = Ret tt) as H by by vm_compute.
  rewrite <- H. unfold sent. apply surjective_pairing.
Qed.

Lemma note_steady o b : steady (note o b).
Proof. split; [apply note_polite|done]. Qed.

(** Both messages of the bundle go through the objects and the receiver. *)
Example delivered_twice :
  user (rest (handleMessages noting handling 4 0 (on_net arrived ds0)).2)
  = [4; 3; 1000; 4; 3; 1000]%positive.
Proof. vm_compute. reflexivity. Qed.

Lemma sent_packets_processed_witness :
  sample_bundle ∈ [sample_bundle] ∧ ∃ ls n ds w1,
    Forall2 (λ o l, ∃ d, visits (heap ds0) o l d) [3%positive] ls ∧
    handleMessages noting handling 4 0 (on_net arrived ds0)
    = (_ ← offer_all noting handling (concat ls) ds; mret n) (on_net w1 ds0) ∧
    length ds = length (messages_of sample_bundle) ∧
    ∀ i d x s', ds !! i = Some d → messages_of sample_bundle !! i = Some x →
      offer_all noting handling (concat ls) (take i ds) (on_net w1 ds0) = (Ret tt, s') →
      d.1 = x.1 ∧ ∃ m, d.2 = Some m ∧ holds (net (rest s')) m x.2.
Proof.
  apply (sent_packets_processed (L := model) noting handling 4) with
    (N := model_network) (s := ds0) (h := "localhost") (port := 9990) (st := sent) (t := 2%positive).
  - intros. apply note_steady.
  - intros. apply note_steady.
  - apply model_network_laws.
  - apply ds0_inv.
  - reflexivity.
  - reflexivity.
  - reflexivity.
  - reflexivity.
  - apply (edges_no_null (λ o k, (o < k)%positive)). by apply (bool_decide_unpack _).
  - intros o ->%list_elem_of_singleton. split.
    + apply edges_closed; by apply (bool_decide_unpack _).
    + intros k _. apply edges_acyclic. by apply (bool_decide_unpack _).
  - apply (bool_decide_unpack _). by vm_compute.
  - intros x y _ Hy. simpl in Hy. by apply not_elem_of_nil in Hy.
  - unfold is_u32. lia.
  - pose proof samples_ok as H. by apply Forall_cons in H as [_ H].
  - exact sent_all.
  - exact arrives_arrived.
Defined.
