(* ===== verification/Lptest.v ===== *)
(** * lptest: the test program

    The receiver subclass of [TestReceiver.h], the object subclass and the
    functions of [main.cpp].  The program's own data is the flag [done] of the
    receiver.  Sleeping is an argument: the time in which packets travel and the
    server thread runs.  [storage] is what uninitialised memory holds.  Values
    are printed in the order they are inserted, each one read just before. *)
From S2P Require Import Prelude Exceptions Effects Machine Floats Liblo OscTypes OscSender Log ReceivedMessage Vectors OscObject OscReceiver.
Open Scope Z_scope.

Record TestReceiver : Type := mkTest { done : bool }.

Definition quote : token := T_char "034".

(** Decimal literals, correctly rounded: [n / d] for exact [n] and [d]. *)
Definition float_lit (n d : Z) : float := SFdiv 24 128 (float_of_Z n) (float_of_Z d).
Definition double_lit (n d : Z) : double := SFdiv 53 1024 (double_of_Z n) (double_of_Z d).

(** The bytes of a C string with its terminator. *)
Definition c_bytes (s : string) : list Z := string_bytes s ++ [0].

Section receiving.
Context {L : Liblo}.

Definition tstate : Type := rstate TestReceiver.

#[export] Instance lens_printing : Lens tstate (console * world) :=
  { lget s := (con s, net (rest s));
    lset p s := Env (heap s) p.1 (App (receiver (rest s)) p.2 (user (rest s))) }.

Definition out (ts : list token) : M tstate unit := cout_put ts.
(** Insert a value read from a message. *)
Definition out_value {B} (f : B → token) (q : world → outcome B) : M tstate unit :=
  v ← ask q; out [f v].

Definition set_done (b : bool) : M tstate unit := modify (λ s,
  Env (heap s) (con s) (App (receiver (rest s)) (net (rest s)) (mkTest b))).
Definition get_done : M tstate bool := gets (λ s, done (user (rest s))).

(** ** class Object *)

Definition Object_new : OscObject := OscObject_new "/object".

Definition Object_processOscMessage (this : ptr) (message : ReceivedMessage)
    (source : MessageSource) : M tstate bool :=
  root ← OscObject.getOscRootAddress this;
  matches ← ask (λ w, checkAddressAndTypes w message root "ifs");
  if (matches : bool) then
    _ ← out [T_str "Object: received message "; T_str (address message); T_str " "];
    _ ← out_value T_str (λ w, types w message);
    _ ← out [T_str " from "];
    _ ← out_value T_str (MessageSource_getUrl source);
    _ ← out [T_endl; T_str "  "];
    _ ← out_value T_int (λ w, asInt32 w message 0);
    _ ← out [T_str " "];
    _ ← out_value T_float (λ w, asFloat w message 1);
    _ ← out [T_str " "];
    _ ← out_value T_str (λ w, asString w message 2);
    _ ← out [T_endl];
    mret true
  else mret false.

(** ** class TestReceiver *)

Definition TestReceiver_new : M tstate unit := _ ← OscReceiver_new ""; set_done false.

(** The string at a blob's data pointer. *)
Definition blob_string (b : Blob) : outcome string :=
  match data b with Some d => std_string (cstr_at d) | None => Undef NullString end.

(** The report on a message with all the types. *)
Definition print_test3 (message : ReceivedMessage) : M tstate unit :=
  _ ← out [T_str "/test3 parsing all message types"; T_str " "];
  _ ← out_value T_char (λ w, typeTag w message 0);
  _ ← out [T_endl; T_str "  bool T: "]; _ ← out_value T_bool (λ w, asBool w message 0);
  _ ← out [T_endl; T_str "  bool F: "]; _ ← out_value T_bool (λ w, asBool w message 1);
  _ ← out [T_endl; T_str "  char: '"];
  _ ← out_value (λ c, T_char (ascii_of_byte c)) (λ w, asChar w message 2);
  _ ← out [T_str "'"; T_endl; T_str "  nil"; T_endl; T_str "  infinitum"; T_endl;
           T_str "  int32: "];
  _ ← out_value T_int (λ w, asInt32 w message 5);
  _ ← out [T_endl; T_str "  int64: "]; _ ← out_value T_int (λ w, asInt64 w message 6);
  _ ← out [T_endl; T_str "  float: "]; _ ← out_value T_float (λ w, asFloat w message 7);
  _ ← out [T_endl; T_str "  double: "]; _ ← out_value T_double (λ w, asDouble w message 8);
  _ ← out [T_endl; T_str "  string: "; quote]; _ ← out_value T_str (λ w, asString w message 9);
  _ ← out [quote; T_endl; T_str "  symbol: "; quote];
  _ ← out_value T_str (λ w, s ← asSymbol w message 10; std_string (Symbol_cstr s));
  _ ← out [quote; T_endl; T_str "  midi: "];
  _ ← out_value (λ m, T_hex (MidiMessage_value m)) (λ w, asMidiMessage w message 11);
  _ ← out [T_endl; T_str "  timetag: "];
  _ ← out_value (λ t, T_int (sec t)) (λ w, asTimeTag w message 12);
  _ ← out [T_str " "];
  _ ← out_value (λ t, T_int (frac t)) (λ w, asTimeTag w message 12);
  _ ← out [T_endl; T_str "  blob: "; quote];
  _ ← out_value T_str (λ w, b ← asBlob w message 13; blob_string b);
  out [quote; T_endl].

(** The loop over the arguments, [n] of them left at most. *)
Fixpoint print_args (n : nat) (message : ReceivedMessage) (i : Z) : M tstate unit :=
  num ← ask (λ w, numArgs w message);
  if decide (i < num) then
    match n with
    | O => undef OutOfFuel
    | S n =>
        _ ← out [T_str "  arg "; T_int i; T_str " '"];
        _ ← out_value T_char (λ w, typeTag w message i);
        _ ← out [T_str "' "];
        _ ← zoom (L := lens_printing) (printArg message i);
        _ ← out [T_endl];
        print_args n message (i + 1)
    end
  else mret tt.

Definition TestReceiver_process (message : ReceivedMessage) (source : MessageSource)
    : M tstate bool :=
  _ ← out [T_str "TestReceiver: received message "; T_str (address message)];
  _ ← out_value T_str (λ w, t ← types w message;
        if bool_decide (0 < String.length t)%nat
        then t' ← types w message; Ret (" " +:+ t') else Ret "");
  _ ← out_value T_str (λ w, types w message);
  _ ← out [T_str " from "];
  _ ← out_value T_str (MessageSource_getUrl source);
  _ ← out [T_endl];
  if bool_decide (address message = "/quit") then
    _ ← set_done true; mret true
  else
    all ← ask (λ w, checkAddressAndTypes w message "/test3" "TFcNIihfdsSmtb");
    _ ← (if (all : bool) then print_test3 message
         else n ← ask (λ w, numArgs w message); print_args (Z.to_nat n) message 0);
    mret true.

Context (depth : nat).

(** [while(!done)], with [fuel] turns at most. *)
Fixpoint poll_loop (fuel : nat) : M tstate unit :=
  d ← get_done;
  if (d : bool) then mret tt
  else
    match fuel with
    | O => undef OutOfFuel
    | S fuel =>
        num ← handleMessages Object_processOscMessage TestReceiver_process depth 0;
        _ ← (if bool_decide (0 < num)
             then out [T_str "TestReceiver: received "; T_int num; T_str " bytes"; T_endl]
             else out [T_str "TestReceiver: still waiting ..."; T_endl]);
        poll_loop fuel
    end.

Definition poll (fuel : nat) : M tstate unit := _ ← set_done false; poll_loop fuel.
End receiving.

Section sending.
Context {L : Liblo} (storage : lo_timetag).

(** ** testSender *)

(** The local sender, liblo and the console. *)
Definition sstate : Type := (state * console)%type.

Definition on_sender {B} (m : M state B) : M sstate B := zoom m.
Definition on_clock {B} (m : M world B) : M sstate B := zoom (zoom m).

Definition test1 : list item :=
  [I_BeginMessage (mkBeginMessage "/test1");
   I_bool true; I_float (float_lit 40 1); I_float (float_of_double (double_lit 10243434 10000));
   I_Nil mkNil; I_string "string one"; I_cstr (CStr "string two"); I_EndMessage mkEndMessage].

Definition midi : MidiMessage := mkMidi [127; 144; 62; 96].
Definition blobData : string := "this is some blob data".
Definition test_blob : Blob :=
  Blob_of (Some (c_bytes blobData)) (Z.of_nat (String.length blobData + 1)).

Definition test2 : list item :=
  [I_BeginMessage (mkBeginMessage "/test2"); I_MidiMessage midi; I_Blob test_blob;
   I_EndMessage mkEndMessage].

Definition test3 (t : TimeTag) : list item :=
  [I_BeginMessage (mkBeginMessage "/test3");
   I_bool true; I_bool false; I_char "c"; I_Nil mkNil; I_Infinitum mkInfinitum;
   I_int32 100; I_int64 200; I_float (float_of_double (double_lit 12345 100));
   I_double (double_lit 67890 100); I_cstr (CStr "a string");
   I_Symbol (Symbol_of_cstr (CStr "a symbol")); I_MidiMessage midi; I_TimeTag t;
   I_Blob test_blob; I_EndMessage mkEndMessage].

Definition test4 (t : TimeTag) : list item :=
  [I_BeginMessage (mkBeginMessage "/test4"); I_bool false; I_int32 100;
   I_float (float_lit 200 1); I_cstr (CStr "kraaa"); I_EndMessage mkEndMessage;
   I_BeginBundle (mkBeginBundle t);
   I_BeginMessage (mkBeginMessage "/test5"); I_cstr (CStr "foo"); I_cstr (CStr "bar");
   I_EndMessage mkEndMessage; I_EndBundle mkEndBundle].

Definition test_object : list item :=
  [I_BeginMessage (mkBeginMessage "/object"); I_int32 123; I_float (float_lit 45678 100);
   I_cstr (CStr "foo bar"); I_EndMessage mkEndMessage].

Definition test_quit : list item :=
  [I_BeginMessage (mkBeginMessage "/quit"); I_EndMessage mkEndMessage].

Definition testSender_messages : M sstate unit :=
  _ ← on_sender (OscSender.setup "127.0.0.1" 9990);
  u ← on_sender OscSender.getUrl;
  _ ← cout_put [T_str "sending to "; T_str u; T_endl];
  _ ← on_sender (stream test1);
  _ ← on_sender send;
  _ ← on_sender (stream test2);
  _ ← on_sender send;
  now ← on_clock (TimeTag_default storage);
  _ ← on_sender (stream (test3 now));
  on_sender send.

Definition testSender_bundle : M sstate unit :=
  outer ← on_clock (BeginBundle_default storage);
  _ ← on_sender (operator_in (I_BeginBundle outer));
  later ← on_clock (TimeTag_ms storage 10);
  _ ← on_sender (stream (test4 later));
  _ ← on_sender (operator_in (I_EndBundle mkEndBundle));
  on_sender send.

Definition testSender_last : M sstate unit :=
  _ ← on_sender (stream test_object);
  _ ← on_sender send;
  _ ← on_sender (stream test_quit);
  on_sender send.

Definition testSender_body : M sstate unit :=
  _ ← testSender_messages; _ ← testSender_bundle; testSender_last.

(** The sender is destroyed when the function is left, also by an exception. *)
Definition testSender : M tstate unit := λ s,
  let '(o, st) := testSender_body ((OscSender_init, net (rest s)), con s) in
  let '(o', st') := match o with
                    | Undef u => (Undef u, st)
                    | _ => on_sender OscSender_destroy st
                    end in
  (_ ← o'; o, lset (Lens := lens_printing) (st'.2, st'.1.2) s).

(** ** testTimeTag and main *)

Context (sleep : Z → M tstate unit).

Definition clock {B} (m : M world B) : M tstate B := lo m.
Definition print_tag (name : string) (t : TimeTag) (after : list token) : M tstate unit :=
  cout_put ([T_str name; T_int (sec t); T_str " "; T_int (frac t)] ++ after).

Definition testTimeTag : M tstate unit :=
  tagA ← clock (TimeTag_default storage);
  _ ← print_tag "tagA is " tagA [T_str " (now)"; T_endl];
  _ ← cout_put [T_str "sleeping ~20 milliseconds ..."; T_endl];
  _ ← sleep 20000;
  tagB ← clock (TimeTag_default storage);
  _ ← print_tag "tagB is " tagB [T_str " (now)"; T_endl];
  _ ← cout_put [T_str "tagB-tagA = "; T_double (TimeTag_minus tagB tagA); T_str "s"; T_endl];
  tagB ← clock (TimeTag_now tagB);
  tagC ← clock (TimeTag_ms storage 25);
  _ ← print_tag "tagC is " tagC [T_endl];
  cout_put [T_str "tagC-tagB = "; T_double (TimeTag_minus tagC tagB); T_str "s"; T_endl].

(** [try m catch(ReceiveException e) h] *)
Definition catch_receive (m : M tstate unit) (h : string → M tstate unit) : M tstate unit := λ s,
  match m s with
  | (Throw (ReceiveException w), s') => h w s'
  | r => r
  end.

(** The object lives at [object], free before. *)
Definition main (depth fuel : nat) (object : ptr) : M tstate Z :=
  _ ← cout_put [T_endl; T_str "TIMETAG TEST"; T_endl];
  _ ← testTimeTag;
  _ ← cout_put [T_str "DONE"; T_endl; T_endl];
  _ ← TestReceiver_new;
  _ ← OscReceiver.setup 9990;
  u ← OscReceiver.getUrl;
  _ ← cout_put [T_str "receiver started: "; T_str u; T_endl];
  _ ← zoom (modify <[object := Object_new]>);
  _ ← OscReceiver.addOscObject (Some object);
  _ ← sleep 2000000;
  _ ← catch_receive
        (_ ← cout_put [T_str "RECEIVER TEST (NO THREAD)"; T_endl];
         _ ← testSender;
         _ ← sleep 1000000;
         _ ← poll depth fuel;
         _ ← cout_put [T_str "DONE"; T_endl; T_endl];
         _ ← cout_put [T_str "RECEIVER TEST (THREAD)"; T_endl];
         _ ← start;
         _ ← testSender;
         _ ← sleep 1000000;
         _ ← stop;
         cout_put [T_str "DONE"; T_endl; T_endl])
        (λ w, cout_put [T_str "CAUGHT EXCEPTION: "; T_str w; T_endl]);
  _ ← zoom (modify (delete object));
  _ ← OscReceiver_destroy;
  mret 0.
End sending.
