(* ===== verification/LptestProps.v ===== *)
(** * Lemmas about the test program

    What [testSender] sends, and that the callbacks of the test program change
    nothing but the console and the flag [done]. *)
From S2P Require Import Prelude Exceptions Effects Machine Floats Liblo LibloModel OscTypes TimeTagTheorems OscSender SenderSpec SenderRefine SenderProps SenderLife Log ReceivedMessage Vectors OscObject OscReceiver ReceiverProps ReceiverReach Lptest Delivery.
Open Scope Z_scope.

(** ** The packets of testSender *)

Definition blob_bytes : list Z := c_bytes blobData.

Definition packet1 : packet := PMessage "/test1"
  [ATrue; AFloat (float_lit 40 1); AFloat (float_of_double (double_lit 10243434 10000)); ANil;
   AString "string one"; AString "string two"].
Definition packet2 : packet := PMessage "/test2" [AMidi [127; 144; 62; 96]; ABlob blob_bytes].
Definition packet3 (now : TimeTag) : packet := PMessage "/test3"
  [ATrue; AFalse; AChar "c"; ANil; AInfinitum; AInt32 100; AInt64 200;
   AFloat (float_of_double (double_lit 12345 100)); ADouble (double_lit 67890 100);
   AString "a string"; ASymbol "a symbol"; AMidi [127; 144; 62; 96]; ATimetag (tag now);
   ABlob blob_bytes].
Definition packet4 (outer later : TimeTag) : packet := PBundle (tag outer)
  [PMessage "/test4" [AFalse; AInt32 100; AFloat (float_lit 200 1); AString "kraaa"];
   PBundle (tag later) [PMessage "/test5" [AString "foo"; AString "bar"]]].
Definition packet_object : packet := PMessage "/object"
  [AInt32 123; AFloat (float_lit 45678 100); AString "foo bar"].
Definition packet_quit : packet := PMessage "/quit" [].

Section sending.
Context {L : Liblo} {LL : LibloLaws L}.

Lemma stream_exec its (st : state) : stream its st = exec_all (map C_item its) st.
Proof.
  revert st. induction its as [|i its IH]; intros st; simpl; [done|].
  unfold mbind, M_bind. by destruct (operator_in i st) as [[[]|?|?] ?].
Qed.

Lemma exec_all_app cs cs' (st : state) :
  exec_all (cs ++ cs') st = (_ ← exec_all cs; exec_all cs') st.
Proof.
  revert st. induction cs as [|c cs IH]; intros st; simpl; [done|].
  unfold mbind, M_bind in *. destruct (exec c st) as [[[]|?|?] ?]; [apply IH|done..].
Qed.

Lemma stream_app its its' (st : state) : stream (its ++ its') st = (_ ← stream its; stream its') st.
Proof.
  revert st. induction its as [|i its IH]; intros st; simpl; [done|].
  unfold mbind, M_bind in *. destruct (operator_in i st) as [[[]|?|?] ?]; [apply IH|done..].
Qed.

Lemma run_on_sender {B C} (m : M state B) (k : B → M sstate C) st c b st' :
  m st = (Ret b, st') → (on_sender m ≫= k) (st, c) = k b (st', c).
Proof. intros Hm. unfold on_sender, zoom, mbind, M_bind. simpl. by rewrite Hm. Qed.

Lemma run_on_clock {B C} (m : M world B) (k : B → M sstate C) s w c b w' :
  m w = (Ret b, w') → (on_clock m ≫= k) ((s, w), c) = k b ((s, w'), c).
Proof. intros Hm. unfold on_clock, zoom, mbind, M_bind. simpl. by rewrite Hm. Qed.

Lemma run_cout {B} ts (k : unit → M sstate B) st c :
  (cout_put (S := sstate) ts ≫= k) (st, c) = k tt (st, Console (cout c ++ ts) (cerr c)).
Proof. done. Qed.

(** Items and then [send]: one packet more. *)
Definition sends_packet (x : string * string) (its : list item) (p : packet) : Prop :=
  ∀ sent, clean_run (map C_item its ++ [C_send]) (idle (Some x) sent) (idle (Some x) (sent ++ [(x, p)])).

Lemma run_packet F x sent p its st c :
  Rel F (idle (Some x) sent) st → Forall item_ok its → sends_packet x its p →
  ∃ st', Rel F (idle (Some x) (sent ++ [(x, p)])) st' ∧
    (_ ← on_sender (stream its); on_sender send) (st, c) = (Ret tt, (st', c)).
Proof.
  intros HR Hits Hp. destruct (Hp sent) as [Ha Hl].
  assert (Forall command_ok (map C_item its ++ [C_send])) as Hok
    by (apply Forall_app; split; [by apply Forall_map|by repeat constructor]).
  destruct (sim_commands F _ st _ Hok HR _ _ Ha) as (F' & st' & Hr & HR' & HF); [done|].
  exists st'. split; [by rewrite <- (HF Hl)|].
  rewrite exec_all_app in Hr. apply bind_Ret_inv in Hr as ([] & st1 & Hr1 & Hr2).
  rewrite <- stream_exec in Hr1. rewrite (run_on_sender _ _ _ _ _ _ Hr1).
  simpl in Hr2. apply bind_Ret_inv in Hr2 as ([] & st2 & Hr2 & [= <-]). unfold on_sender, zoom. simpl. by rewrite Hr2.
Qed.

(** Regrouping: the two statements of a packet, then the rest. *)
Lemma bind_assoc2 {B} (m1 m2 : M sstate unit) (k : unit → M sstate B) s :
  (_ ← m1; r ← m2; k r) s = (r ← (_ ← m1; m2); k r) s.
Proof. by rewrite bind_assoc. Qed.

(** The clock said [t] when it was read after the packets [sent] had been sent. *)
Definition clock_read (sent : list (string * string * packet)) (t : TimeTag) : Prop :=
  ∃ w w', v_sent (view w) = sent ∧ lo_timetag_now w = (Ret (tag t), w').

Lemma run_now storage w : ∃ t w', TimeTag_default storage w = (Ret t, w') ∧
  view w' = view w ∧ TimeTag_ok t ∧ clock_read (v_sent (view w)) t.
Proof.
  destruct (law_timetag_now w) as (t & w' & Hr & Hv & Hs & Hf).
  exists (mkTimeTag t), w'. split; [|split_all; by exists w, w']. unfold TimeTag_default, TimeTag_now.
  by rewrite (bind_step _ _ _ _ _ Hr).
Qed.

Lemma Rel_v_sent F a (st : state) : Rel F a st → v_sent (view st.2) = a_sent a.
Proof. by intros (hs & ms & bs & []). Qed.

(** Destroying a sender between packets gives back what it took. *)
Lemma run_destroy v x l s w : Rel (rest_of v ∅ ∅ ∅) (idle (Some x) l) (s, w) →
  ∃ st', OscSender_destroy (s, w) = (Ret tt, st') ∧ v_sent (view st'.2) = l ∧
    v_addrs (view st'.2) = v_addrs v ∧ v_msgs (view st'.2) = v_msgs v ∧
    v_bundles (view st'.2) = v_bundles v ∧ v_blobs (view st'.2) = v_blobs v ∧
    v_servers (view st'.2) = v_servers v.
Proof.
  intros HR. destruct (run_destructor _ _ _ _ HR) as (st' & Hr & Hs & Hn & _).
  apply Rel_idle in HR as (Hm & Hb & _ & Hl). simpl in *. exists st'.
  rewrite Hb, Hs in *. specialize (Hn eq_refl). rewrite !rest_nothing in Hn.
  injection Hn as ?????. by split_all.
Qed.

Definition dest : string * string := ("127.0.0.1", "9990").

(** Validity of the items of a concrete list. *)
Ltac item_valid :=
  first [ done
        | apply c_str_nul_free
        | unfold is_float, is_double; vm_compute; reflexivity
        | eexists; reflexivity
        | by apply (bool_decide_unpack _)
        | eexists; (split; [reflexivity|]); by apply (bool_decide_unpack _) ].
Ltac items_valid := repeat (apply Forall_cons; split); [item_valid..|apply Forall_nil; done].

Lemma test_items_ok now : TimeTag_ok now →
  Forall item_ok test1 ∧ Forall item_ok test2 ∧ Forall item_ok (test3 now) ∧
  Forall item_ok (test4 now) ∧ Forall item_ok test_object ∧ Forall item_ok test_quit.
Proof. intros Hn. do 5 (split; [unfold test1, test2, test3, test4, test_object; items_valid|]). items_valid. Qed.

Lemma run_messages storage w c : ∃ st c' now F,
  testSender_messages storage ((OscSender_init, w), c) = (Ret tt, (st, c')) ∧
  TimeTag_ok now ∧ clock_read (v_sent (view w) ++ map (pair dest) [packet1; packet2]) now ∧
  rest_of (view w) ∅ ∅ ∅ = F ∧
  Rel F (idle (Some dest) (v_sent (view w) ++ map (pair dest) [packet1; packet2; packet3 now])) st.
Proof.
  destruct (sim_command _ _ _ (C_setup "127.0.0.1" 9990) ltac:(by apply (bool_decide_unpack _))
    (Rel_init w) (Ret tt) (idle (Some dest) (v_sent (view w)))) as (F & st & Hr & HR & HF);
    [reflexivity|done|]. specialize (HF eq_refl). simpl in Hr.
  unfold testSender_messages. rewrite (run_on_sender _ _ _ _ _ _ Hr).
  assert (∃ u, OscSender.getUrl st = (Ret u, st)) as [u Hu].
  { destruct HR as (hs & ms & bs & [Ha _ _ _ _ _ _ _ _ _]). simpl in Ha.
    unfold OscSender.getUrl, address_string. destruct (m_address st.1) as [a|]; [|done].
    destruct (law_address_get_url _ _ _ Ha) as [u Hu]. rewrite Hu. by eexists. }
  rewrite (run_on_sender _ _ _ _ _ _ Hu). 
  rewrite run_cout. set (c1 := Console _ _).
  destruct (test_items_ok (mkTimeTag (Timetag 0 0))) as (Hok1 & Hok2 & _); [done|].
  destruct (run_packet F dest _ packet1 test1 st c1 HR Hok1) as (st1 & HR1 & Hr1); [by split|].
  rewrite bind_assoc2, (bind_step _ _ _ _ _ Hr1).
  destruct (run_packet F dest _ packet2 test2 st1 c1 HR1 Hok2) as (st2 & HR2 & Hr2); [by split|].
  rewrite bind_assoc2, (bind_step _ _ _ _ _ Hr2).
  destruct st2 as [s2 w2]. destruct (run_now storage w2) as (now & w3 & Hn & Hv & Hok & Hc).
  rewrite (Rel_v_sent _ _ _ HR2 : v_sent (view w2) = _) in Hc. simpl in Hc. rewrite <- app_assoc in Hc.
  rewrite (run_on_clock _ _ _ _ _ _ _ Hn).
  apply (Rel_view _ _ _ _ w3) in HR2; [|done].
  destruct (test_items_ok now Hok) as (_ & _ & Hok3 & _).
  destruct (run_packet F dest _ (packet3 now) (test3 now) (s2, w3) c1 HR2 Hok3)
    as (st3 & HR3 & Hr3); [by split|].
  exists st3, c1, now, F. split; [exact Hr3|]. split_all. by rewrite <- !app_assoc in HR3.
Qed.

Lemma run_items F a st its a' : Rel F a st → Forall item_ok its →
  clean_run (map C_item its) a a' → ∃ st', stream its st = (Ret tt, st') ∧ Rel F a' st'.
Proof.
  intros HR Hits [Ha Hl].
  destruct (sim_commands F a st (map C_item its) ltac:(by apply Forall_map) HR _ _ Ha)
    as (F' & st' & Hr & HR' & HF); [done|].
  exists st'. rewrite stream_exec. by rewrite <- (HF Hl).
Qed.

Lemma run_sends F a st a' : Rel F a st → clean_run [C_send] a a' →
  ∃ st', send st = (Ret tt, st') ∧ Rel F a' st'.
Proof.
  intros HR [Ha Hl]. apply bind_Ret_inv in Ha as ([] & a1 & Ha & [= <-]).
  destruct (sim_command F a st C_send I HR (Ret tt) a1 Ha) as (F' & st' & Hr & HR' & HF); [done|].
  exists st'. split; [done|]. rewrite <- HF; [done|]. by destruct (orb_false_elim _ _ Hl).
Qed.

(** The rest of the bundle, once it is open. *)
Lemma run_packet_in F outer later sent st c :
  Rel F (mkBuilder (Some dest) None "" false [(tag outer, [])] true sent) st →
  Forall item_ok (test4 later) →
  ∃ st', (_ ← on_sender (stream (test4 later));
          _ ← on_sender (operator_in (I_EndBundle mkEndBundle)); on_sender send) (st, c)
         = (Ret tt, (st', c)) ∧
    Rel F (idle (Some dest) (sent ++ [(dest, packet4 outer later)])) st'.
Proof.
  intros HR Hits.
  destruct (run_items F _ st (test4 later ++ [I_EndBundle mkEndBundle])
    (mkBuilder (Some dest) None "" false [(tag outer, match packet4 outer later with
       PBundle _ ps => ps | _ => [] end)] false sent) HR) as (st1 & Hr1 & HR1);
    [by apply Forall_app; split; [|repeat constructor]|by split|].
  destruct (run_sends F _ st1 (idle (Some dest) (sent ++ [(dest, packet4 outer later)])) HR1)
    as (st2 & Hr2 & HR2); [by split|].
  exists st2. split; [|done]. rewrite stream_app in Hr1.
  apply bind_Ret_inv in Hr1 as ([] & st0 & Hr0 & Hr1). simpl in Hr1.
  apply bind_Ret_inv in Hr1 as ([] & st3 & Hr1 & [= ->]).
  rewrite (run_on_sender _ _ _ _ _ _ Hr0), (run_on_sender _ _ _ _ _ _ Hr1).
  unfold on_sender, zoom. simpl. by rewrite Hr2.
Qed.

Lemma TimeTag_add_no_throw t ms e : TimeTag_add t ms ≠ Throw e.
Proof.
  unfold TimeTag_add, to_uint, int_of_float. destruct (truncate _); simpl; [|done].
  by destruct (decide _).
Qed.

(** The bundle: undefined exactly when adding ten milliseconds is. *)
Lemma run_bundle storage F sent s w c : Rel F (idle (Some dest) sent) (s, w) →
  ∃ outer tn st, TimeTag_ok tn ∧ clock_read sent outer ∧ clock_read sent tn ∧
  match TimeTag_add tn 10 with
  | Ret later =>
      testSender_bundle storage ((s, w), c) = (Ret tt, (st, c)) ∧
      Rel F (idle (Some dest) (sent ++ [(dest, packet4 outer later)])) st
  | Throw _ => False
  | Undef u => ∃ st', testSender_bundle storage ((s, w), c) = (Undef u, st')
  end.
Proof.
  intros HR. destruct (run_now storage w) as (outer & w1 & Hn & Hv & Hok & Hc).
  rewrite (Rel_v_sent _ _ _ HR : v_sent (view w) = sent) in Hc.
  apply (Rel_view _ _ _ _ w1) in HR; [|done].
  destruct (sim_command F _ _ (C_item (I_BeginBundle (mkBeginBundle outer))) I HR (Ret tt)
    (mkBuilder (Some dest) None "" false [(tag outer, [])] true sent) eq_refl)
    as (F' & [s2 w2] & Hr2 & HR2 & HF); [done|]. rewrite (HF eq_refl) in HR2. simpl in Hr2.
  destruct (run_now storage w2) as (tn & w3 & Hn3 & Hv3 & Hok3 & Hc3).
  rewrite (Rel_v_sent _ _ _ HR2 : v_sent (view w2) = sent) in Hc3.
  assert (BeginBundle_default storage w = (Ret (mkBeginBundle outer), w1)) as Hb
    by (unfold BeginBundle_default; by rewrite (bind_step _ _ _ _ _ Hn)).
  assert (TimeTag_ms storage 10 w2 = (TimeTag_add tn 10, w3)) as Hms.
  { unfold TimeTag_ms. by rewrite (bind_step _ _ _ _ _ Hn3). }
  assert (∀ k, testSender_bundle storage ((s, w), c) = k →
    (later ← on_clock (TimeTag_ms storage 10); _ ← on_sender (stream (test4 later));
     _ ← on_sender (operator_in (I_EndBundle mkEndBundle)); on_sender send) ((s2, w2), c) = k) as Hb4.
  { intros k <-. unfold testSender_bundle. rewrite (run_on_clock _ _ _ _ _ _ _ Hb).
    by rewrite (run_on_sender _ _ _ _ _ _ Hr2). }
  specialize (Hb4 _ eq_refl). apply (Rel_view _ _ _ _ w3) in HR2; [|done].
  destruct (TimeTag_add tn 10) as [later|e|u] eqn:Hadd.
  - destruct (test_items_ok later) as (_ & _ & _ & Hok4 & _).
    { unfold TimeTag_add in Hadd. apply outcome_bind_Ret_inv in Hadd as (f & Hf & [= <-]).
      split; simpl; [apply (wrap_range 32); lia|]. unfold to_uint, int_of_float in Hf.
      destruct (truncate _); [|done]. destruct (decide _); [|done]. injection Hf as <-.
      unfold is_u32. change (frac (TimeTag_of_sec_frac _ ?z)) with z. lia. }
    destruct (run_packet_in F outer later sent (s2, w3) c HR2 Hok4) as (st & Hr & HR').
    exists outer, tn, st. do 3 (split; [done|]). rewrite Hadd. split; [|done].
    rewrite <- Hb4, (run_on_clock _ _ _ _ _ _ _ Hms). exact Hr.
  - by apply TimeTag_add_no_throw in Hadd.
  - exists outer, tn, (s2, w3). do 3 (split; [done|]). rewrite Hadd. eexists. rewrite <- Hb4.
    apply bind_undef. unfold on_clock, zoom. simpl. by rewrite Hms.
Qed.

Lemma run_last F sent st c : Rel F (idle (Some dest) sent) st →
  ∃ st', testSender_last (st, c) = (Ret tt, (st', c)) ∧
    Rel F (idle (Some dest) (sent ++ map (pair dest) [packet_object; packet_quit])) st'.
Proof.
  intros HR. destruct (test_items_ok (mkTimeTag (Timetag 0 0))) as (_ & _ & _ & _ & Hok5 & Hok6); [done|].
  destruct (run_packet F dest _ packet_object test_object st c HR Hok5) as (st1 & HR1 & Hr1); [by split|].
  destruct (run_packet F dest _ packet_quit test_quit st1 c HR1 Hok6) as (st2 & HR2 & Hr2); [by split|].
  exists st2. unfold testSender_last. rewrite bind_assoc2, (bind_step _ _ _ _ _ Hr1).
  split; [exact Hr2|]. by rewrite <- app_assoc in HR2.
Qed.

Lemma run_testSender storage (s : tstate) : ∃ now outer tn,
  TimeTag_ok now ∧ TimeTag_ok tn ∧
  clock_read (v_sent (view_of s) ++ map (pair dest) [packet1; packet2]) now ∧
  clock_read (v_sent (view_of s) ++ map (pair dest) [packet1; packet2; packet3 now]) outer ∧
  clock_read (v_sent (view_of s) ++ map (pair dest) [packet1; packet2; packet3 now]) tn ∧
  match TimeTag_add tn 10 with
  | Ret later => ∃ s', testSender storage s = (Ret tt, s') ∧
      heap s' = heap s ∧ rcv s' = rcv s ∧ user (rest s') = user (rest s) ∧
      v_sent (view_of s') = v_sent (view_of s) ++ map (pair dest)
        [packet1; packet2; packet3 now; packet4 outer later; packet_object; packet_quit] ∧
      v_msgs (view_of s') = v_msgs (view_of s) ∧ v_bundles (view_of s') = v_bundles (view_of s) ∧
      v_blobs (view_of s') = v_blobs (view_of s) ∧ v_servers (view_of s') = v_servers (view_of s) ∧
      v_addrs (view_of s') = v_addrs (view_of s)
  | Throw _ => False
  | Undef u => ∃ s', testSender storage s = (Undef u, s')
  end.
Proof.
  destruct (run_messages storage (net (rest s)) (con s)) as ([s1 w1] & c1 & now & F & Hr1 & Hok & Hc & HF & HR1).
  destruct (run_bundle storage F _ s1 w1 c1 HR1) as (outer & tn & st2 & Htn & Hco & Hct & Hb).
  exists now, outer, tn. do 5 (split; [done|]).
  destruct (TimeTag_add tn 10) as [later|e|u]; [|done|].
  - destruct Hb as [Hr2 HR2]. destruct (run_last F _ st2 c1 HR2) as ([s3 w3] & Hr3 & HR3).
    assert (testSender_body storage ((OscSender_init, net (rest s)), con s) = (Ret tt, ((s3, w3), c1)))
      as Hr by (unfold testSender_body; by rewrite (bind_step _ _ _ _ _ Hr1), (bind_step _ _ _ _ _ Hr2)).
    rewrite <- HF in HR3.
    destruct (run_destroy _ dest _ s3 w3 HR3) as ([s4 w4] & Hr4 & Hs4 & Ha4 & Hm4 & Hb4 & Hbl4 & Hsv4).
    unfold testSender. rewrite Hr. unfold on_sender, zoom. simpl lget. rewrite Hr4.
    eexists. split; [done|]. unfold view_of, rcv. simpl in *. split_all.
    by rewrite Hs4, <- !app_assoc.
  - destruct Hb as [st3 Hr2]. eexists. unfold testSender.
    replace (testSender_body storage ((OscSender_init, net (rest s)), con s))
      with ((Undef u, st3) : outcome unit * sstate); [done|].
    unfold testSender_body. rewrite (bind_step _ _ _ _ _ Hr1). symmetry. by apply bind_undef.
Qed.
End sending.

(** ** The callbacks *)

Section callbacks.
Context {L : Liblo} {LL : LibloLaws L}.
Implicit Types s : tstate.

(** Nothing changed but the console and what liblo hides. *)
Definition same s0 s : Prop :=
  heap s = heap s0 ∧ rcv s = rcv s0 ∧ view_of s = view_of s0 ∧ user (rest s) = user (rest s0).

Lemma same_refl s : same s s.
Proof. done. Qed.

(** Properties that printing, and setting the flag, do not change. *)
Definition printing (P : tstate → Prop) : Prop :=
  (∀ s c, P s → P (Env (heap s) c (rest s))) ∧
  (∀ s t mem, P s → P (on_net (lo_arg_pp t mem (net (rest s))).2 s)).
Definition flagging (P : tstate → Prop) : Prop :=
  ∀ s b, P s → P (Env (heap s) (con s) (App (receiver (rest s)) (net (rest s)) (mkTest b))).

Lemma printing_same s0 : printing (same s0).
Proof.
  split; [done|]. intros s t mem (Hh & Hr & Hv & Hu). unfold same, view_of in *. simpl.
  by rewrite law_arg_pp.
Qed.

Section printing.
Context (P : tstate → Prop) (HP : printing P).

Lemma preserves_out ts : preserves P (out ts).
Proof. intros s Hs. by apply HP. Qed.

Lemma preserves_ask {B} (q : world → outcome B) : preserves P (ask q : M tstate B).
Proof. by intros s Hs. Qed.

Lemma preserves_out_value {B} (f : B → token) q : preserves P (out_value f q).
Proof. apply preserves_bind; [apply preserves_ask|]. intros v. apply preserves_out. Qed.

Lemma preserves_printArg message i :
  preserves P (zoom (L := lens_printing) (printArg message i)).
Proof.
  intros [h c [q w u]] Hs. unfold zoom, printArg. simpl. unfold gets, mbind, M_bind, liftO. simpl.
  destruct (typeTag _ message i) as [t|?|?]; [|done..].
  destruct (arg _ message i) as [mem|?|?]; [|done..].
  unfold zoom. simpl. pose proof (proj2 HP _ t mem Hs) as Hl. simpl in Hl.
  by destruct (lo_arg_pp t mem w) as [o w'].
Qed.

#[local] Hint Resolve preserves_out preserves_ask preserves_out_value preserves_printArg : lopack.
Ltac steps := repeat first [ solve [auto 2 with lopack] | apply preserves_bind; [|intros ?] ].

Lemma preserves_print_test3 message : preserves P (print_test3 message).
Proof. unfold print_test3. steps. Qed.

Lemma preserves_print_args n message i : preserves P (print_args n message i).
Proof.
  revert i. induction n as [|n IH]; intros i; simpl; (apply preserves_bind; [apply preserves_ask|]);
    intros num; destruct (decide (i < num)); auto 2 with lopack.
  - by intros s Hs.
  - steps.
Qed.

Lemma preserves_Object o message source : preserves P (Object_processOscMessage o message source).
Proof.
  unfold Object_processOscMessage. apply preserves_bind.
  { unfold OscObject.getOscRootAddress, deref. apply preserves_same. intros s.
    unfold mbind, M_bind. by destruct (heap s !! o). }
  intros root. apply preserves_bind; [apply preserves_ask|]. intros [].
  - steps.
  - apply preserves_ret.
Qed.

Lemma preserves_TestReceiver message source : flagging P →
  preserves P (TestReceiver_process message source).
Proof.
  intros HF. unfold TestReceiver_process.
  do 6 (apply preserves_bind; [auto 2 with lopack|intros _]).
  case_bool_decide; [apply preserves_bind; [|intros; apply preserves_ret]; intros s Hs; by apply HF|].
  apply preserves_bind; [apply preserves_ask|]. intros all.
  apply preserves_bind; [|intros; apply preserves_ret]. destruct all.
  - apply preserves_print_test3.
  - apply preserves_bind; [apply preserves_ask|intros n; apply preserves_print_args].
Qed.
End printing.

Lemma callbacks_polite message source :
  (∀ o, polite (Object_processOscMessage o message source)) ∧
  polite (TestReceiver_process message source).
Proof.
  set (Q := λ s s' : tstate, rcv s' = rcv s ∧ view_of s' = view_of s).
  assert (∀ s, printing (Q s)) as HQ.
  { intros s. split; [done|]. intros s1 t mem [? Hv]. split; [done|]. unfold view_of in *. simpl.
    by rewrite law_arg_pp. }
  assert (∀ s, Q s s) as Hrefl by done.
  assert (∀ s s' : tstate, Q s s' → rinv s → rinv s' ∧ keeps s s') as Hp.
  { intros s s' [Hr Hv] Hs. unfold rinv, keeps in *. by rewrite Hr, Hv. }
  split; [intros o|]; intros s Hs; (apply Hp; [|done]).
  - exact (preserves_Object (Q s) (HQ s) o message source s (Hrefl s)).
  - exact (preserves_TestReceiver (Q s) (HQ s) message source (λ _ _ H, H) s (Hrefl s)).
Qed.
End callbacks.
