(* ===== verification/LptestCallbacks.v ===== *)
(** * The callbacks of the test program on a message

    On a live message of well typed arguments from a live address, both callbacks
    return, but for one read: the receiver prints the blob of [/test3] as a C
    string, which is undefined when its memory has no terminator. *)
From S2P Require Import Prelude Exceptions Effects Triples Machine Floats Liblo OscTypes OscSender Log ReceivedMessage ReceivedProps ReceivedTheorems ReceivedCalls Vectors OscObject OscReceiver ReceiverProps Lptest LptestProps.
Open Scope Z_scope.

Definition test3_types : string := "TFcNIihfdsSmtb".

Definition is_test3 (path : string) (args : list atom) : bool :=
  bool_decide (path = "/test3") && bool_decide (tags args = test3_types).

Lemma test3_shape args : tags args = test3_types → ∃ c i h f d st sy mi t bl,
  args = [ATrue; AFalse; AChar c; ANil; AInfinitum; AInt32 i; AInt64 h; AFloat f; ADouble d;
          AString st; ASymbol sy; AMidi mi; ATimetag t; ABlob bl].
Proof.
  unfold test3_types. intros Ht.
  do 14 (destruct args as [|[] args]; try discriminate Ht; injection Ht as Ht).
  destruct args; [|discriminate Ht]. by repeat eexists.
Qed.

Lemma ifs_shape args : tags args = "ifs" → ∃ i f st, args = [AInt32 i; AFloat f; AString st].
Proof.
  intros Ht. do 3 (destruct args as [|[] args]; try discriminate Ht; injection Ht as Ht).
  destruct args; [|discriminate Ht]. by repeat eexists.
Qed.

Section callbacks.
Context {L : Liblo} {LL : LibloLaws L}.
Implicit Types s : tstate.

(** The text of the blob of [/test3]. *)
Definition blob_text (w : world) (message : ReceivedMessage) : outcome string :=
  b ← asBlob w message 13; blob_string b.

Section message.
Context (s0 : tstate) (path : string) (m a : ptr) (args : list atom) (r : nat) (x : string * string).
Context (Hm : v_msgs (view_of s0) !! m = Some (Msg args r)).
Context (Hok : Forall atom_ok args) (Hlen : Z.of_nat (length args) < 2 ^ 32).
Context (Ha : v_addrs (view_of s0) !! a = Some x).

#[local] Notation message := (mkReceived path (Some m)).
#[local] Notation source := (mkSource (Some a)).

(** A value that can be read in every world with the objects of [s0]. *)
Definition readable {B} (q : world → outcome B) : Prop :=
  ∀ w, view w = view_of s0 → ∃ b, q w = Ret b.

Lemma total_ask {B} (q : world → outcome B) : readable q →
  total (same s0) (ask q : M tstate B) (λ _, same s0).
Proof.
  intros Hq s Hs. unfold ask. destruct Hs as (? & ? & Hv & ?).
  destruct (Hq (net (rest s)) Hv) as [b ->]. by split_all.
Qed.

Lemma total_out ts : total (same s0) (out ts) (λ _, same s0).
Proof. by intros s Hs. Qed.

Lemma total_value {B} (f : B → token) q : readable q →
  total (same s0) (out_value f q) (λ _, same s0).
Proof. intros Hq. eapply triple_bind; [by apply total_ask|]. intros b. apply total_out. Qed.

Lemma readable_url : readable (MessageSource_getUrl source).
Proof.
  intros w Hw. unfold MessageSource_getUrl, MessageSource_string. simpl.
  destruct (law_address_get_url a x w) as [u ->]; [by rewrite Hw|]. by eexists.
Qed.

Lemma live_in w : view w = view_of s0 → v_msgs (view w) !! m = Some (Msg args r).
Proof. by intros ->. Qed.

Lemma readable_types : readable (λ w, types w message).
Proof. intros w Hw. eexists. by eapply run_types, live_in. Qed.
Lemma readable_typeTag i : 0 ≤ i → readable (λ w, typeTag w message i).
Proof. intros Hi w Hw. eexists. by eapply run_typeTag; [apply live_in|..]. Qed.

Lemma total_printArg i : 0 ≤ i < Z.of_nat (length args) →
  total (same s0) (zoom (L := lens_printing) (printArg message i)) (λ _, same s0).
Proof.
  intros Hi s Hs. pose proof Hs as (Hh & Hr & Hv & Hu).
  destruct (lookup_lt_is_Some_2 args (Z.to_nat i)) as [y Hy]; [lia|].
  destruct (run_printArg path m args r Hok Hlen (con s, net (rest s)) i y) as (b & s' & Hp & Hv');
    [by apply live_in|lia|done|].
  unfold zoom. simpl. rewrite Hp. unfold same, view_of in *. simpl in *. split_all. congruence.
Qed.

Lemma total_print_args n i : 0 ≤ i → i + Z.of_nat n = Z.of_nat (length args) →
  total (same s0) (print_args n message i) (λ _, same s0).
Proof.
  revert i. induction n as [|n IH]; intros i Hi Hn s Hs; pose proof Hs as (_ & _ & Hv & _).
  all: simpl; unfold ask at 1, mbind at 1, M_bind at 1;
    rewrite (run_numArgs _ _ _ _ _ (live_in _ Hv) Hlen).
  - by rewrite decide_False by lia.
  - rewrite decide_True by lia. revert s Hs Hv.
    enough (total (same s0) (_ ← out [T_str "  arg "; T_int i; T_str " '"];
        _ ← out_value T_char (λ w, typeTag w message i); _ ← out [T_str "' "];
        _ ← zoom (L := lens_printing) (printArg message i); _ ← out [T_endl];
        print_args n message (i + 1)) (λ _, same s0)) as H by (intros s Hs ?; exact (H s Hs)).
    eapply triple_bind; [apply total_out|intros []].
    eapply triple_bind; [apply total_value, readable_typeTag, Hi|intros []].
    eapply triple_bind; [apply total_out|intros []].
    eapply triple_bind; [apply total_printArg; lia|intros []].
    eapply triple_bind; [apply total_out|intros []]. apply IH; lia.
Qed.

(** *** The report on a message of all types *)

(** Only the console has changed since [s1]. *)
Definition quiet_since s1 s : Prop := same s1 s ∧ net (rest s) = net (rest s1).

Lemma step_out {C} s1 ts (k : unit → M tstate C) E Q :
  triple (quiet_since s1) (k tt) E Q → triple (quiet_since s1) (out ts ≫= k) E Q.
Proof. intros Hk. apply triple_bind with (λ _, quiet_since s1); [by intros s Hs|by intros []]. Qed.

Lemma step_value {B C} s1 (f : B → token) q (k : unit → M tstate C) E Q :
  (∃ b, q (net (rest s1)) = Ret b) →
  triple (quiet_since s1) (k tt) E Q → triple (quiet_since s1) (out_value f q ≫= k) E Q.
Proof.
  intros [b Hq] Hk. apply triple_bind with (λ _, quiet_since s1); [|by intros []].
  intros s Hs. pose proof Hs as [_ Hn]. unfold out_value, ask, mbind, M_bind. rewrite Hn, Hq. done.
Qed.

(** The blob is read as a string whatever its bytes. *)
Lemma run_blob_text w bl : args !! 13%nat = Some (ABlob bl) → v_msgs (view w) !! m = Some (Msg args r) →
  ∃ k, blob_text w message = std_string (cstr_at (bl ++ k)).
Proof.
  intros H13 Hw. pose proof (run_asBlob w path m args r Hw Hok Hlen 13) as H.
  change (Z.to_nat 13) with 13%nat in H. rewrite H13 in H. destruct H as (mem & [Hsz [k' Hd]] & Hb); [lia|].
  exists k'. unfold blob_text. rewrite Hb, Hd. simpl. by rewrite Hsz.
Qed.

Lemma blob_text_Undef w u : is_test3 path args = true → v_msgs (view w) !! m = Some (Msg args r) →
  blob_text w message = Undef u → u = DanglingPointer.
Proof.
  intros [_ H3%bool_decide_eq_true]%andb_true_iff Hw Hu.
  destruct (test3_shape _ H3) as (c & i & h & f & d & st & sy & mi & t & bl & Hargs).
  destruct (run_blob_text w bl) as [k Hb]; [by rewrite Hargs|done|]. rewrite Hb in Hu.
  unfold cstr_at in Hu. destruct (read_cstr (bl ++ k)); simpl in Hu; congruence.
Qed.

Lemma triple_print_test3 s1 : view_of s1 = view_of s0 → tags args = test3_types →
  triple (quiet_since s1) (print_test3 message)
    (λ x _, ∃ u, blob_text (net (rest s1)) message = Undef u ∧ x = inr u)
    (λ _ s, quiet_since s1 s ∧ ∃ t, blob_text (net (rest s1)) message = Ret t).
Proof.
  intros Hv Ht. pose proof (live_in _ Hv) as Hw. pose proof (test3_shape _ Ht) as Hargs.
  destruct Hargs as (c & i & h & f & d & st & sy & mi & t & bl & Hargs).
  assert (∀ n, 0 ≤ n → typeTag (net (rest s1)) message n = Ret (tag_at args n)) as Htag
    by (intros; by eapply run_typeTag).
  unfold print_test3.
  repeat first
    [ apply step_out
    | apply step_value; [eexists; first
        [ apply Htag; lia
        | erewrite run_asBool by done; rewrite Hargs; reflexivity
        | erewrite run_asChar by done; rewrite Hargs; reflexivity
        | erewrite run_asInt32 by done; rewrite Hargs; reflexivity
        | erewrite run_asInt64 by done; rewrite Hargs; reflexivity
        | erewrite run_asFloat by done; rewrite Hargs; reflexivity
        | erewrite run_asDouble by done; rewrite Hargs; reflexivity
        | erewrite run_asString by done; rewrite Hargs; reflexivity
        | erewrite run_asSymbol by done; rewrite Hargs; reflexivity
        | erewrite run_asMidiMessage by done; rewrite Hargs; reflexivity
        | erewrite run_asTimeTag by done; rewrite Hargs; reflexivity ]|] ].
  destruct (run_blob_text (net (rest s1)) bl) as [k Hb]; [by rewrite Hargs|done|].
  intros s [Hs Hn]. change (λ w, b ← asBlob w message 13; blob_string b) with (λ w, blob_text w message).
  unfold out_value, ask, mbind, M_bind. rewrite Hn, Hb.
  destruct (cstr_at (bl ++ k)) as [|str|]; simpl; [by eexists| |by eexists].
  by split; [|eexists].
Qed.

(** *** The two callbacks *)

Lemma run_Object_processOscMessage this ob : heap s0 !! this = Some ob →
  ∃ s', Object_processOscMessage this message source s0
        = (Ret (bool_decide (oscRootAddress ob = path ∧ tags args = "ifs")), s') ∧ same s0 s'.
Proof.
  intros Ho. unfold Object_processOscMessage, OscObject.getOscRootAddress, deref.
  rewrite bind_assoc. unfold mbind at 1, M_bind at 1. rewrite Ho, bind_ret_l.
  unfold ask at 1, mbind at 1, M_bind at 1. rewrite (run_checkAddressAndTypes _ path m args r) by done.
  replace (bool_decide (oscRootAddress ob = path) && bool_decide ("ifs"%string = tags args))
    with (bool_decide (oscRootAddress ob = path ∧ tags args = "ifs"))
    by (rewrite bool_decide_and; f_equal; by apply bool_decide_ext).
  case_bool_decide as Hh; [|by exists s0; split; [|apply same_refl]].
  destruct (ifs_shape _ (proj2 Hh)) as (i & f & st & Hargs).
  match goal with |- ∃ s', ?c s0 = _ ∧ _ =>
    enough (total (same s0) c (λ b s, b = true ∧ same s0 s)) as Hc end.
  { specialize (Hc s0 (same_refl s0)). match type of Hc with match ?c with _ => _ end =>
      destruct c as [[b|?|?] s'] end; [|done..]. destruct Hc as [-> ?]. by exists s'. }
  assert (∀ w, view w = view_of s0 →
    asInt32 w message 0 = Ret i ∧ asFloat w message 1 = Ret f ∧ asString w message 2 = Ret st) as Hread.
  { intros w Hw%live_in. by erewrite run_asInt32, run_asFloat, run_asString, Hargs by done. }
  do 11 (eapply triple_bind; [first
    [ apply total_out | apply total_value, readable_types | apply total_value, readable_url
    | apply total_value; intros w Hw; destruct (Hread w Hw) as (H1 & H2 & H3); by eexists ]|intros []]).
  apply triple_ret. by intros s.
Qed.

(** The receiver handles the message, unless the blob of [/test3] has no end. *)
Lemma run_TestReceiver_process :
  triple (λ s, s = s0) (TestReceiver_process message source)
    (λ e _, is_test3 path args = true ∧ ∃ u, blob_text (net (rest s0)) message = Undef u ∧ e = inr u)
    (λ b s', b = true ∧
       done (user (rest s')) = done (user (rest s0)) || bool_decide (path = "/quit") ∧
       heap s' = heap s0 ∧ rcv s' = rcv s0 ∧ view_of s' = view_of s0 ∧
       (is_test3 path args = true → ∃ t, blob_text (net (rest s0)) message = Ret t)).
Proof.
  pose proof (run_types (net (rest s0)) path m args r Hm) as Ht.
  destruct (readable_url (net (rest s0)) eq_refl) as [url Hurl].
  apply triple_pre with (quiet_since s0); [by intros s ->|]. unfold TestReceiver_process. simpl.
  apply step_out. apply step_value; [rewrite Ht; simpl; case_bool_decide; by eexists|].
  apply step_value; [by eexists|]. apply step_out. apply step_value; [by eexists|]. apply step_out.
  case_bool_decide as Hq.
  { intros s [(Hh & Hr & Hv & Hu) Hn]. rewrite orb_true_r. split_all.
    unfold is_test3. by rewrite Hq. }
  apply triple_bind with (λ b s, quiet_since s0 s ∧ b = is_test3 path args).
  { intros s [Hs Hn]. unfold ask. rewrite Hn, (run_checkAddressAndTypes _ path m args r) by done.
    split; [done|]. unfold is_test3. f_equal; by apply bool_decide_ext. }
  intros b. destruct (is_test3 path args) eqn:H3.
  - apply triple_bind with (λ _ s, quiet_since s0 s ∧ ∃ t, blob_text (net (rest s0)) message = Ret t).
    + apply triple_pre with (λ s, quiet_since s0 s ∧ b = true); [by intros s|].
      apply triple_at. intros s [Hs ->]. unfold is_test3 in H3. apply andb_true_iff in H3 as [_ H3].
      apply bool_decide_eq_true in H3. eapply triple_mono; [by apply (triple_print_test3 s0)| |..]; simpl.
      * by intros s' ->.
      * by intros e ? (u & Hu & ->); split; [|exists u].
      * done.
    + intros []. apply triple_ret. intros s [[(Hh & Hr & Hv & Hu) Hn] Hb]. split_all.
      by rewrite Hu, orb_false_r.
  - apply triple_bind with (λ _, same s0).
    + apply triple_at. intros s [Hs ->]. apply triple_total.
      apply triple_pre with (same s0); [by intros s' ->; destruct Hs|].
      apply triple_bind with (λ n s, same s0 s ∧ n = Z.of_nat (length args)).
      * intros s' Hs'. pose proof Hs' as (_ & _ & Hv & _). unfold ask.
        by rewrite (run_numArgs _ _ _ _ _ (live_in _ Hv) Hlen).
      * intros n. apply triple_at. intros s' [Hs' ->]. rewrite Nat2Z.id.
        apply triple_pre with (same s0); [by intros ? ->|]. by apply total_print_args.
    + intros []. apply triple_ret. intros s (Hh & Hr & Hv & Hu). split_all. by rewrite Hu, orb_false_r.
Qed.
End message.
End callbacks.
