(* ===== verification/LptestTheorems.v ===== *)
(** * Theorems about the test program

    What [testSender] sends, and what the callbacks of the test program do to the
    state. *)
From S2P Require Import Prelude Exceptions Effects Triples Machine Floats Liblo LibloModel OscTypes TimeTagTheorems OscSender SenderSpec SenderRefine SenderProps Log ReceivedMessage ReceivedTheorems Vectors OscObject OscReceiver ReceiverProps ReceiverReach Lptest Delivery LptestProps LptestCallbacks.
Open Scope Z_scope.

Section theorems.
Context {L : Liblo} {LL : LibloLaws L}.
Implicit Types s : tstate.

(** ** What the test sends *)

(** C22: [testSender] either sends exactly six packets to port 9990 of the local
    host, one of each of its messages and the two nested bundles, and leaves
    liblo's other objects as they were, or is undefined; which of the two is
    decided by the tag ten milliseconds ahead of the clock.  The times in the
    packets are what liblo's clock gave when it was read, the one of the third
    packet once the first two had been sent, and the two of the bundles once the
    third had. *)
Theorem testSender_packets storage (s : tstate) : ∃ now outer tn,
  TimeTag_ok now ∧ TimeTag_ok tn ∧
  clock_read (v_sent (view_of s) ++ map (pair dest) [packet1; packet2]) now ∧
  clock_read (v_sent (view_of s) ++ map (pair dest) [packet1; packet2; packet3 now]) outer ∧
  clock_read (v_sent (view_of s) ++ map (pair dest) [packet1; packet2; packet3 now]) tn ∧
  match TimeTag_add tn 10 with
  | Ret later => ∃ s', testSender storage s = (Ret tt, s') ∧
      heap s' = heap s ∧ rcv s' = rcv s ∧
      v_sent (view_of s') = v_sent (view_of s) ++ map (pair dest)
        [packet1; packet2; packet3 now; packet4 outer later; packet_object; packet_quit] ∧
      v_msgs (view_of s') = v_msgs (view_of s) ∧ v_bundles (view_of s') = v_bundles (view_of s) ∧
      v_blobs (view_of s') = v_blobs (view_of s) ∧ v_servers (view_of s') = v_servers (view_of s) ∧
      v_addrs (view_of s') = v_addrs (view_of s)
  | Throw _ => False
  | Undef u => ∃ s', testSender storage s = (Undef u, s')
  end.
Proof.
  destruct (run_testSender storage s) as (now & outer & tn & Hn & Ht & H1 & H2 & H3 & H). exists now, outer, tn.
  split_all. destruct (TimeTag_add tn 10); [|done..]. destruct H as (s' & H).
  exists s'. by destruct_and! H.
Qed.

(** ** The callbacks *)

(** C27: on a live message of well typed arguments from a live address, the object
    of the test returns, and handles exactly the messages with its root address
    and the types [ifs]; the receiver handles every message, and ends the polling
    exactly on [/quit], but when a [/test3] message has a blob that liblo's memory
    does not terminate, which it reads as a C string: then it has undefined
    behaviour.  Neither changes anything but the console and the flag. *)
Theorem test_callbacks_outcome s path m a args x this ob :
  holds (net (rest s)) m args → v_addrs (view_of s) !! a = Some x → heap s !! this = Some ob →
  let message := mkReceived path (Some m) in
  let source := mkSource (Some a) in
  (∃ s', Object_processOscMessage this message source s
         = (Ret (bool_decide (oscRootAddress ob = path ∧ tags args = "ifs")), s') ∧ same s s') ∧
  ((∃ s', TestReceiver_process message source s = (Ret true, s') ∧
      done (user (rest s')) = done (user (rest s)) || bool_decide (path = "/quit") ∧
      heap s' = heap s ∧ rcv s' = rcv s ∧ view_of s' = view_of s ∧
      (is_test3 path args = true → ∃ t, blob_text (net (rest s)) message = Ret t)) ∨
   (is_test3 path args = true ∧ ∃ u s', blob_text (net (rest s)) message = Undef u ∧
      TestReceiver_process message source s = (Undef u, s'))).
Proof.
  intros ([r Hm] & Hok & Hlen) Ha Ho message source. split.
  - by apply (run_Object_processOscMessage s path m a args r x).
  - destruct (TestReceiver_process message source s) as [o s'] eqn:E.
    pose proof (run_TestReceiver_process s path m a args r x Hm Hok Hlen Ha) as H.
    destruct (triple_run _ _ _ _ _ _ _ H eq_refl E)
      as [(b & -> & -> & Hs)|[(e & -> & _ & u & _ & [=])|(u & -> & H3 & u' & Hu & [= <-])]].
    + left. by exists s'.
    + right. split; [done|]. by exists u, s'.
Qed.

(** The invariant of the receiver in the test program, whatever messages it
    is sent: its callbacks are harmless. *)
Theorem lptest_invariant depth s :
  receiver_reach Object_processOscMessage TestReceiver_process depth s → rinv s.
Proof.
  apply reach_rinv; [intros o message source|intros message source]; apply callbacks_polite.
Qed.
End theorems.

(** ** Applications *)

(** A network in the reference liblo: while the program sleeps, the packets it
    sent are dispatched by the server thread if it runs, and wait at the socket
    (with a nominal size) otherwise. *)
Definition model_sleep (us : Z) : M (tstate (L := model)) unit := λ s,
  let w := net (rest s) in
  let ps := map snd (v_sent (mw_view w)) in
  let v := on_sent (λ _, []) (mw_view w) in
  if bool_decide (Some true = srv_running <$> (m_serverThread (rcv s) ≫= (v_servers v !!.))) then
    let '(ms, w') := m_incoming (concat (map messages_of ps)) (set_view v w) in
    lo_dispatch_all Object_processOscMessage TestReceiver_process 4 ms (on_net w' s)
  else
    (Ret tt, on_net (MWorld v (mw_clock w) (mw_inbox w ++ map (λ p, Datagram 16 (messages_of p)) ps)
                       (mw_source w)) s).

(** A message for the object, and the address messages come from. *)
Definition test_world : mworld :=
  MWorld (View {[ 1%positive := Msg [AInt32 123; AFloat (float_lit 45678 100); AString "foo bar"] 0 ]}
            ∅ {[ 9%positive := ("127.0.0.1", "5") ]} ∅ ∅ []) 1000 [] (Some 9%positive).
Definition ts0 : tstate (L := model) :=
  Env {[ 1%positive := Object_new ]} (Console [] []) (App (OscReceiver_init "") test_world (mkTest false)).
Definition test_source : MessageSource := mkSource (Some 9%positive).

(** The whole program runs to its end, and its object gets its message twice. *)
Definition main_run := main (L := model) (Timetag 0 0) model_sleep 4 20 2%positive ts0.

Example main_returns : main_run.1 = Ret 0.
Proof. vm_compute. reflexivity. Qed.

Example main_objects :
  length (filter (λ t, t = T_str "Object: received message ") (cout (con main_run.2))) = 2%nat.
Proof. vm_compute. reflexivity. Qed.

Lemma lptest_invariant_witness :
  rinv (rexec (L := model) Object_processOscMessage TestReceiver_process 4 (R_setup 9990)
          (OscReceiver_new (L := model) "" ts0).2).2.
Proof.
  apply (lptest_invariant (L := model) 4).
  apply receiver_reach_call; [apply receiver_reach_new|done].
Defined.

Lemma testSender_packets_witness : ∃ now outer tn later s',
  clock_read (L := model) (map (pair dest) [packet1; packet2]) now ∧
  TimeTag_add tn 10 = Ret later ∧ testSender (L := model) (Timetag 0 0) ts0 = (Ret tt, s') ∧
  v_sent (view_of s') = map (pair dest)
    [packet1; packet2; packet3 now; packet4 outer later; packet_object; packet_quit].
Proof.
  destruct (testSender_packets (L := model) (Timetag 0 0) ts0)
    as (now & outer & tn & _ & _ & Hn & _ & _ & H). exists now, outer, tn.
  destruct (TimeTag_add tn 10) as [later|e|u]; [|done|].
  - destruct H as (s' & Hr & _ & _ & Hs & _). exists later, s'. by split_all.
  - exfalso. destruct H as [s' H]. apply (f_equal fst) in H. by vm_compute in H.
Defined.

Example test_sends : (testSender (L := model) (Timetag 0 0) ts0).1 = Ret tt.
Proof. vm_compute. reflexivity. Qed.


Lemma test_callbacks_outcome_witness :
  let message := mkReceived "/object" (Some 1%positive) in
  holds (L := model) (net (rest ts0)) 1 [AInt32 123; AFloat (float_lit 45678 100); AString "foo bar"] ∧
  (∃ s', Object_processOscMessage (L := model) 1 message test_source ts0 = (Ret true, s') ∧ same ts0 s') ∧
  ∃ s', TestReceiver_process (L := model) message test_source ts0 = (Ret true, s') ∧
    done (user (rest s')) = false.
Proof.
  assert (holds (L := model) (net (rest ts0)) 1
    [AInt32 123; AFloat (float_lit 45678 100); AString "foo bar"]) as H.
  { split; [by eexists|]. split; [|done]. by apply (bool_decide_unpack _). }
  destruct (test_callbacks_outcome (L := model) ts0 "/object" 1 9
    [AInt32 123; AFloat (float_lit 45678 100); AString "foo bar"] ("127.0.0.1", "5") 1 Object_new H
    eq_refl eq_refl) as [Ho [(s' & Hr & Hd & _)|[H3 _]]]; [|by vm_compute in H3].
  split; [exact H|]. split.
  - destruct Ho as (s1 & Hr1 & Hs1). exists s1. split; [|exact Hs1].
    eapply eq_trans; [exact Hr1|]. do 2 f_equal.
  - exists s'. split; [exact Hr|]. rewrite Hd. by apply (bool_decide_unpack _).
Defined.
