(* ===== verification/LptestPolling.v ===== *)
(** * Polling in the test program

    What the messages the test program receives do to it, turn by turn: how
    [TestReceiver::poll] ends, when it does not, and that an error of reception
    is the one exception it throws. *)
From S2P Require Import Prelude Exceptions Effects Triples Machine Floats Liblo LibloModel OscTypes OscSender Log ReceivedMessage ReceivedProps ReceivedTheorems Vectors OscObject ObjectProps OscReceiver ReceiverProps ReceiverReach ReceiverTheorems Lptest Delivery LptestProps LptestCallbacks LptestTheorems.
Open Scope Z_scope.

Section program.
Context {L : Liblo} {LL : LibloLaws L} {I : Incoming} {IL : IncomingLaws I}.
Context (depth : nat) (Hdepth : (1 ≤ depth)%nat) (object : ptr).
Implicit Types s : tstate.

(** ** Dispatch *)

(** The receiver has the object of the test attached, or nothing. *)
Definition attached s : Prop :=
  elems (m_objects (rcv s)) = [] ∨
  (elems (m_objects (rcv s)) = [Some object] ∧ heap s !! object = Some Object_new).

(** Dispatching leaves the objects, the receiver and the servers alone. *)
Definition calm s0 s : Prop :=
  heap s = heap s0 ∧ rcv s = rcv s0 ∧ v_servers (view_of s) = v_servers (view_of s0).

(** The messages received still know where they come from. *)
Definition sources s0 s : Prop :=
  ∀ m, sourced (net (rest s0)) m → sourced (net (rest s)) m.

Lemma printing_sources s0 : printing (sources s0).
Proof. split; [done|]. intros s t mem Hs m Hm. simpl. by apply law_sourced_arg_pp, Hs. Qed.

(** The callbacks a message goes through. *)
Definition handlers s : list ptr := if decide (elems (m_objects (rcv s)) = []) then [] else [object].

Lemma run_handlers s message source : attached s → m_ignoreMessages (rcv s) = false →
  processMessage Object_processOscMessage TestReceiver_process depth message source s
  = first_handled (callbacks Object_processOscMessage message source (handlers s)
                   ++ [TestReceiver_process message source]) s.
Proof.
  intros Ha Hi.
  assert (∀ o s s' b, Object_processOscMessage o message source s = (b, s') → same s s') as Hsame.
  { intros o s1 s2 b Hr.
    pose proof (preserves_Object (same s1) (printing_same s1) o message source s1 (same_refl s1)) as H.
    by rewrite Hr in H. }
  assert (∀ o, keeps_heap Object_processOscMessage message source (heap s) o ∧
               keeps_objects (Object_processOscMessage o message source)) as Hcb.
  { intros o. split; intros s1 s2; [intros Hh Hr|intros Hr];
      destruct (Hsame _ _ _ _ Hr) as (H1 & H2 & _); [by rewrite <- Hh|by rewrite H2]. }
  unfold handlers. destruct Ha as [Hnil|[Ho Hh]].
  - rewrite decide_True by done.
    apply (run_processMessage _ _ depth message source s [] []); [done|done|constructor|done].
  - rewrite decide_False by (by rewrite Ho).
    apply (run_processMessage _ _ depth message source s [object] [[object]]); [done|done| |done].
    constructor; [|constructor]. exists 1%nat. split; [|done].
    eapply (visits_object _ _ _ [] []); [done|done|constructor].
Qed.

Lemma preserves_handlers s message source (P : tstate → Prop) : printing P → flagging P →
  preserves P (first_handled (callbacks Object_processOscMessage message source (handlers s)
                              ++ [TestReceiver_process message source])).
Proof.
  intros HP HF. apply preserves_first_handled, Forall_app. split.
  - apply Forall_map, Forall_forall. intros o _. by apply preserves_Object.
  - constructor; [by apply preserves_TestReceiver|done].
Qed.

(** The undefined behaviour a message may cause. *)
Definition unterminated : failure → tstate → Prop := λ e _, e = inr DanglingPointer.

Lemma handlers_total s0 path m a args r x : attached s0 →
  v_msgs (view_of s0) !! m = Some (Msg args r) → Forall atom_ok args →
  Z.of_nat (length args) < 2 ^ 32 → v_addrs (view_of s0) !! a = Some x →
  let message := mkReceived path (Some m) in let source := mkSource (Some a) in
  triple (λ s, s = s0)
    (first_handled (callbacks Object_processOscMessage message source (handlers s0)
                    ++ [TestReceiver_process message source]))
    unterminated (λ _ s, (heap s = heap s0 ∧ rcv s = rcv s0 ∧ view_of s = view_of s0) ∧
      done (user (rest s)) = done (user (rest s0)) || bool_decide (path = "/quit")).
Proof.
  intros Hatt Hm Hok Hlen Hx message source.
  set (Q := λ (_ : bool) s, (heap s = heap s0 ∧ rcv s = rcv s0 ∧ view_of s = view_of s0) ∧
    done (user (rest s)) = done (user (rest s0)) || bool_decide (path = "/quit")).
  assert (∀ s1, same s0 s1 → triple (λ s, s = s1) (TestReceiver_process message source) unterminated Q)
    as Htest.
  { intros s1 (Hh & Hr & Hv & Hu1). rewrite <- Hv in Hm, Hx.
    eapply triple_mono; [by apply (run_TestReceiver_process s1 path m a args r x)|done|..].
    - intros e ? (H3 & u & Hu & ->). unfold unterminated. f_equal.
      by eapply blob_text_Undef in Hu.
    - intros b s. unfold Q. intros (_ & Hd & -> & -> & -> & _). by rewrite Hd, Hv, Hu1. }
  assert (∀ s1, same s0 s1 → triple (λ s, s = s1) (first_handled [TestReceiver_process message source])
    unterminated Q) as Hlast.
  { intros s1 Hs1. simpl. eapply triple_bind; [by apply Htest|]. intros []; by apply triple_ret. }
  unfold handlers. destruct Hatt as [Hnil|[Hos Ho]]; [rewrite decide_True by done|rewrite decide_False by (by rewrite Hos)].
  - by apply Hlast.
  - intros s ->. unfold callbacks. cbn [map Datatypes.app first_handled].
    destruct (run_Object_processOscMessage s0 path m a args r x Hm Hok Hlen Hx object Object_new Ho)
      as (s1 & Hr & Hs1).
    rewrite (bind_step _ _ _ _ _ Hr). case_bool_decide as Hp; [|by apply (Hlast s1 Hs1)].
    destruct Hs1 as (? & ? & ? & Hu). destruct Hp as [<- _]. split; [done|]. by rewrite Hu, orb_false_r.
Qed.

Lemma processMessage_total s0 path m a args r x : attached s0 →
  v_msgs (view_of s0) !! m = Some (Msg args r) → Forall atom_ok args →
  Z.of_nat (length args) < 2 ^ 32 → v_addrs (view_of s0) !! a = Some x →
  triple (λ s, s = s0)
    (processMessage Object_processOscMessage TestReceiver_process depth
       (mkReceived path (Some m)) (mkSource (Some a)))
    unterminated
    (λ _ s, ((heap s = heap s0 ∧ rcv s = rcv s0 ∧ view_of s = view_of s0) ∧
             done (user (rest s)) = done (user (rest s0)) ||
               (negb (m_ignoreMessages (rcv s0)) && bool_decide (path = "/quit"))) ∧ sources s0 s).
Proof.
  intros Hatt Hm Hok Hlen Hx s ->. destruct (m_ignoreMessages (rcv s0)) eqn:Hi.
  - unfold processMessage. rewrite run_field, Hi. simpl. rewrite orb_false_r. by split; [|intros m' Hm'].
  - rewrite run_handlers by done.
    pose proof (handlers_total s0 path m a args r x Hatt Hm Hok Hlen Hx s0 eq_refl) as H.
    pose proof (preserves_handlers s0 (mkReceived path (Some m)) (mkSource (Some a)) (sources s0)
      (printing_sources s0) (λ _ _ H, H) s0 (λ _ H, H)) as Hsrc.
    cbv zeta beta in H. revert H Hsrc.
    match goal with |- context [first_handled ?ms s0] => destruct (first_handled ms s0) as [[b|e|u] s'] end;
      [by split|done..].
Qed.

(** Is there a message that ends the polling? *)
Definition quits (ds : list (string * option ptr)) : bool :=
  existsb (λ d, bool_decide (d.1 = "/quit")) ds.

(** The flag [done], from [b], once the messages [ds] have been given to a receiver
    that listens to them or ignores them. *)
Definition done_after s0 (b : bool) ds s : Prop :=
  done (user (rest s)) = b || (negb (m_ignoreMessages (rcv s0)) && quits ds).

(** One message handed over: the others wait as they did. *)
Lemma dispatch_incoming s0 b d ds : attached s0 →
  triple (λ s, (calm s0 s ∧ done (user (rest s)) = b) ∧ Forall (incoming (net (rest s))) (d :: ds))
    (lo_dispatch Object_processOscMessage TestReceiver_process depth d) unterminated
    (λ _ s, (calm s0 s ∧ done_after s0 b [d] s) ∧ Forall (incoming (net (rest s))) ds).
Proof.
  intros Hatt s [[(Hh & Hr & Hsv) Hdb] Hin]. apply Forall_cons in Hin as [(m & args & Hd & Hm & Hok & Hlen & Hsrc) Hds].
  destruct d as [path msg]. simpl in Hd. subst msg.
  destruct (law_message_incref m args 0 _ Hm) as (z & w1 & Hr1 & Hv1).
  assert (ReceivedMessage_new path (Some m) (net (rest s)) = (Ret (mkReceived path (Some m)), w1))
    as Hr0 by (unfold ReceivedMessage_new; by rewrite (bind_step _ _ _ _ _ Hr1)).
  assert (∀ m', sourced (net (rest s)) m' → sourced w1 m') as Hs1.
  { intros m' Hm'. pose proof (law_sourced_incref _ _ (Some m) Hm') as H. by rewrite Hr1 in H. }
  assert (v_msgs (view w1) !! m = Some (Msg args 1)) as Hm1 by (rewrite Hv1; apply lookup_insert_eq).
  destruct (law_sourced w1 m args 1 (Hs1 _ Hsrc) Hm1) as (a & x & Hg & Hx).
  unfold lo_dispatch, messageCB. simpl. rewrite bind_assoc, (run_net _ _ _ _ _ _ Hr0) by done.
  rewrite bind_assoc. unfold ask, mbind at 1, M_bind at 1. simpl. rewrite Hg, bind_assoc.
  unfold mbind at 1, M_bind at 1.
  assert (attached (on_net w1 s)) as Hatt1
    by (unfold attached, rcv in *; simpl; by rewrite Hh, Hr).
  pose proof (processMessage_total (on_net w1 s) path m a args 1 x Hatt1 Hm1 Hok ltac:(lia) Hx _ eq_refl) as H.
  destruct (processMessage _ _ _ _ _ _) as [[b'|e|u] s2]; [|done..].
  destruct H as [[(Hh2 & Hr2 & Hv2) Hd2] Hs2]. simpl in Hh2. unfold view_of in Hv2. simpl in Hv2.
  destruct (law_message_free_ref m args 0 (net (rest s2))) as (z' & w3 & Hr3 & Hv3); [by rewrite Hv2|].
  assert (v_msgs (view w3) = v_msgs (view (net (rest s)))) as Hmsgs.
  { rewrite Hv3, Hv2, Hv1. simpl. rewrite insert_insert_eq. by apply insert_id. }
  rewrite bind_ret_l. unfold lo. rewrite Hr3. split; [split|].
  - unfold calm, rcv, view_of in *. simpl in *. rewrite Hh2, Hr2, Hv3, <- Hsv. simpl.
    by rewrite Hv2, Hv1.
  - unfold done_after, rcv in *. simpl in *. rewrite Hd2, Hr, <- Hdb. by rewrite orb_false_r.
  - eapply Forall_impl; [done|]. intros d (m' & args' & ? & Hm' & ? & ? & Hsrc').
    exists m', args'. split_all; simpl; [by rewrite Hmsgs|].
    pose proof (law_sourced_free _ _ (Some m) (Hs2 _ (Hs1 _ Hsrc'))) as Hs3. by rewrite Hr3 in Hs3.
Qed.

Lemma dispatch_all_incoming s0 b ds : attached s0 →
  triple (λ s, (calm s0 s ∧ done (user (rest s)) = b) ∧ Forall (incoming (net (rest s))) ds)
    (lo_dispatch_all Object_processOscMessage TestReceiver_process depth ds) unterminated
    (λ _ s, calm s0 s ∧ done_after s0 b ds s).
Proof.
  intros Hatt. revert b. induction ds as [|d ds IH]; intros b.
  - apply triple_ret. intros s [[? Hb] _]. split; [done|]. unfold done_after. simpl.
    by rewrite Hb, andb_false_r, orb_false_r.
  - eapply triple_bind; [by apply dispatch_incoming|]. intros [] s [[Hc Hd] Hin].
    pose proof (IH (done (user (rest s))) s (conj (conj Hc eq_refl) Hin)) as H.
    fold (lo_dispatch_all Object_processOscMessage TestReceiver_process depth).
    destruct (lo_dispatch_all _ _ _ ds s) as [[a|e|u] s']; [|done..].
    destruct H as [Hc' Hd']. split; [done|]. unfold done_after in *. rewrite Hd', Hd. simpl.
    destruct b, (negb (m_ignoreMessages (rcv s0))), (bool_decide (d.1 = "/quit")), (quits ds); done.
Qed.

(** The receiver is bound to its port and listens, and its thread runs or not. *)
Definition bound (b : bool) s : Prop := ∃ t x,
  m_serverThread (rcv s) = Some t ∧ m_isRunning (rcv s) = b ∧
  v_servers (view_of s) !! t = Some x ∧ srv_port x = dec 9990 ∧ srv_running x = b ∧
  srv_handler x = errorCB ∧ m_ignoreMessages (rcv s) = false.

Definition up (b : bool) s : Prop := attached s ∧ bound b s.

(** A property of the heap, the receiver and the servers. *)
Definition stable (P : tstate → Prop) : Prop := ∀ s0 s, calm s0 s → P s0 → P s.

Lemma calm_refl s : calm s s.
Proof. done. Qed.

Lemma stable_up b : stable (up b).
Proof.
  intros s0 s (Hh & Hr & Hv) [Ha Hb]. unfold up, attached, bound in *. by rewrite Hh, Hr, Hv.
Qed.

(** ** Polling *)

(** One turn of the loop of [poll] that returns: the messages [ds] are received,
    and given to the callbacks. *)
Definition poll_turn ds s s' : Prop :=
  done (user (rest s)) = false ∧ ∃ sv num w s1,
    lo_server_thread_get_server (m_serverThread (rcv s)) (net (rest s)) = Ret sv ∧
    lo_server_recv_noblock sv 0 (net (rest s)) = (Ret (num, ds), w) ∧
    lo_dispatch_all Object_processOscMessage TestReceiver_process depth ds (on_net w s) = (Ret tt, s1) ∧
    s' = (out (if bool_decide (0 < num)
               then [T_str "TestReceiver: received "; T_int num; T_str " bytes"; T_endl]
               else [T_str "TestReceiver: still waiting ..."; T_endl]) s1).2.

(** Turns one after the other, with what each received. *)
Inductive polls : list (list (string * option ptr)) → tstate → tstate → Prop :=
  | polls_nil s : polls [] s s
  | polls_cons ds dss s s1 s' : poll_turn ds s s1 → polls dss s1 s' → polls (ds :: dss) s s'.

(** What came in is not a message: liblo calls the error callback. *)
Definition reception_fails s (text : string) (w : world) : Prop := ∃ sv,
  lo_server_thread_get_server (m_serverThread (rcv s)) (net (rest s)) = Ret sv ∧
  lo_server_recv_noblock sv 0 (net (rest s)) = (Throw (ReceiveException text), w).

Lemma up_out b ts s : up b s → up b (out ts s).2.
Proof. by apply stable_up. Qed.

Lemma poll_body fuel s : done (user (rest s)) = false → poll_loop depth (S fuel) s = (num ←
    handleMessages Object_processOscMessage TestReceiver_process depth 0;
  _ ← (if bool_decide (0 < num)
       then out [T_str "TestReceiver: received "; T_int num; T_str " bytes"; T_endl]
       else out [T_str "TestReceiver: still waiting ..."; T_endl]);
  poll_loop depth fuel) s.
Proof. intros Hd. cbn [poll_loop]. unfold get_done at 1, gets at 1, mbind at 1, M_bind at 1. by rewrite Hd. Qed.

(** The callbacks leave the receiver as it was, and [/quit] sets [done]. *)
Lemma dispatched_up ds w s : up false s → done (user (rest s)) = false →
  v_servers (view w) = v_servers (view_of s) → Forall (incoming w) ds →
  match lo_dispatch_all Object_processOscMessage TestReceiver_process depth ds (on_net w s) with
  | (Ret _, s1) => up false s1 ∧ done (user (rest s1)) = quits ds
  | (Throw e, _) => False
  | (Undef u, _) => u = DanglingPointer
  end.
Proof.
  intros [Ha Hb] Hd Hv Hin. pose proof Hb as (t & x & _ & _ & _ & _ & _ & _ & Hi).
  assert (calm s (on_net w s)) as Hc by done.
  pose proof (dispatch_all_incoming s false ds Ha (on_net w s) (conj (conj Hc Hd) Hin)) as H.
  destruct (lo_dispatch_all _ _ _ ds (on_net w s)) as [[[]|e|u] s2]; [|done|by injection H].
  destruct H as [Hc1 Hd1]. unfold done_after in Hd1. rewrite Hi in Hd1.
  split; [by apply (stable_up false s)|done].
Qed.

(** What [handleMessages] does with what a reception that succeeds gives it. *)
Lemma received sv n ds w s : up false s →
  lo_server_thread_get_server (m_serverThread (rcv s)) (net (rest s)) = Ret sv →
  lo_server_recv_noblock sv 0 (net (rest s)) = (Ret (n, ds), w) →
  handleMessages Object_processOscMessage TestReceiver_process depth 0 s
  = (_ ← lo_dispatch_all Object_processOscMessage TestReceiver_process depth ds; mret n) (on_net w s) ∧
  v_servers (view w) = v_servers (view_of s) ∧ Forall (incoming w) ds.
Proof.
  intros [_ (t & x & Ht & Hrun & Hx & _ & _ & Hh & _)] Hsv Hrecv.
  pose proof (law_recv_incoming _ _ _ _ _ _ _ Hsv Hrecv) as Hin. rewrite Ht in Hsv.
  destruct (run_handleMessages Object_processOscMessage TestReceiver_process depth s 0 t x Ht Hrun Hx Hh)
    as [(n' & ds' & w' & (sv' & Hsv' & Hr') & H & Hv & _)|(text & w' & (sv' & Hsv' & Hr') & _)];
    rewrite Hsv in Hsv'; injection Hsv' as <-; rewrite Hrecv in Hr'; [by injection Hr' as <- <- <-|done].
Qed.

(** A turn leaves the receiver as it was, sets [done] on [/quit], and is the body
    of the loop. *)
Lemma poll_turn_up ds s s' : up false s → poll_turn ds s s' →
  up false s' ∧ done (user (rest s')) = quits ds ∧
  ∀ fuel, poll_loop depth (S fuel) s = poll_loop depth fuel s'.
Proof.
  intros Hs (Hd & sv & n & w & s1 & Hsv & Hrecv & Hds & ->).
  destruct (received sv n ds w s Hs Hsv Hrecv) as (Hr & Hv & Hin).
  pose proof (dispatched_up ds w s Hs Hd Hv Hin) as H. rewrite Hds in H. destruct H as [Hs1 Hd1].
  split; [by apply up_out|]. split; [done|].
  intros fuel. rewrite poll_body by done. unfold mbind at 1, M_bind at 1. rewrite Hr.
  rewrite (bind_step _ _ _ _ _ Hds). unfold mret, M_ret. by case_bool_decide.
Qed.

(** A turn ends in one of three ways. *)
Lemma poll_step s : up false s → done (user (rest s)) = false →
  (∃ ds s1, poll_turn ds s s1) ∨
  (∃ text w, reception_fails s text w ∧
     ∀ fuel, poll_loop depth (S fuel) s = (Throw (ReceiveException text), on_net w s)) ∨
  (∃ s1, ∀ fuel, poll_loop depth (S fuel) s = (Undef DanglingPointer, s1)).
Proof.
  intros Hs Hd. pose proof Hs as [Ha (t & x & Ht & Hrun & Hx & _ & _ & Hh & Hi)].
  destruct (run_handleMessages Object_processOscMessage TestReceiver_process depth s 0 t x Ht Hrun Hx Hh)
    as [(n & ds & w & (sv & Hsv & Hrecv) & Hr & Hv & _)|(text & w & (sv & Hsv & Hrecv) & Hr & Hv)].
  - pose proof (dispatched_up ds w s Hs Hd Hv (law_recv_incoming _ _ _ _ _ _ _ Hsv Hrecv)) as H.
    destruct (lo_dispatch_all _ _ _ ds (on_net w s)) as [[[]|e|u] s1] eqn:Hds; [left|done|right; right].
    + exists ds. eexists. split; [done|]. exists sv, n, w, s1. rewrite Ht. by split_all.
    + exists s1. intros fuel. rewrite poll_body by done. apply bind_undef. rewrite Hr.
      apply bind_undef. by rewrite Hds, H.
  - right; left. exists text, w. split; [exists sv; by rewrite Ht|].
    intros fuel. rewrite poll_body by done. by apply bind_throw.
Qed.

Lemma reception_fails_up s text w : reception_fails s text w → up false s → up false (on_net w s).
Proof.
  intros (sv & Hsv & Hrecv) Hs. apply (stable_up false s); [|done].
  destruct Hs as [_ (t & x & Ht & Hrun & Hx & _ & _ & Hh & _)]. rewrite Ht in Hsv.
  destruct (run_handleMessages Object_processOscMessage TestReceiver_process depth s 0 t x Ht Hrun Hx Hh)
    as [(n & ds & w' & (sv' & Hsv' & Hr') & _)|(text' & w' & (sv' & Hsv' & Hr') & _ & Hv)];
    rewrite Hsv in Hsv'; injection Hsv' as <-; rewrite Hrecv in Hr'; [done|].
  injection Hr' as <- <-. unfold calm, view_of in *. simpl. by rewrite Hv.
Qed.

Lemma polls_up dss s s' : polls dss s s' → up false s → up false s'.
Proof. induction 1 as [|ds dss s s1 s' Ht _ IH]; [done|]. intros Hs. by apply IH, (poll_turn_up ds s s1). Qed.

Lemma polls_done dss ds s s' : polls (dss ++ [ds]) s s' → up false s → done (user (rest s')) = quits ds.
Proof.
  revert s. induction dss as [|ds' dss IH]; intros s Hp Hs; inversion Hp as [|? ? ? s1 ? Ht Hp']; subst.
  - inversion Hp'; subst. by destruct (poll_turn_up _ _ _ Hs Ht) as (_ & ? & _).
  - apply (IH s1); [done|]. by destruct (poll_turn_up _ _ _ Hs Ht).
Qed.

(** None of these turns ends the polling. *)
Definition no_quit (dss : list (list (string * option ptr))) : Prop := Forall (λ ds, quits ds = false) dss.

(** How the polling of at most [fuel] turns ends: with the first turn that
    receives [/quit]; with the exception of a reception that fails; still waiting,
    after [fuel] turns without [/quit]; or on a blob that is not ended. *)
Definition poll_result (fuel : nat) s (r : outcome unit * tstate) : Prop :=
  match r with
  | (Ret _, s') => ∃ dss ds, polls (dss ++ [ds]) s s' ∧ no_quit dss ∧ quits ds = true ∧ (length dss < fuel)%nat
  | (Throw e, s') => ∃ dss s1 text w, polls dss s s1 ∧ no_quit dss ∧ (length dss < fuel)%nat ∧
      reception_fails s1 text w ∧ e = ReceiveException text ∧ s' = on_net w s1
  | (Undef OutOfFuel, s') => ∃ dss, polls dss s s' ∧ no_quit dss ∧ length dss = fuel
  | (Undef u, _) => u = DanglingPointer
  end.

Lemma poll_result_cons fuel ds s s1 r : poll_turn ds s s1 → quits ds = false →
  poll_result fuel s1 r → poll_result (S fuel) s r.
Proof.
  intros Ht Hq. destruct r as [[[]|e|u] s']; simpl.
  - intros (dss & ds' & Hp & Hn & Hl & ?). exists (ds :: dss), ds'.
    split_all; [by eapply polls_cons|by constructor|simpl; lia].
  - intros (dss & s2 & text & w & Hp & Hn & ? & Hf). exists (ds :: dss), s2, text, w.
    split_all; [by eapply polls_cons|by constructor|simpl; lia|apply Hf..].
  - destruct u; try done. intros (dss & Hp & Hn & <-). exists (ds :: dss).
    split_all; [by eapply polls_cons|by constructor].
Qed.

Lemma poll_loop_done fuel s : done (user (rest s)) = true → poll_loop depth fuel s = (Ret tt, s).
Proof.
  intros Hd. destruct fuel; cbn [poll_loop];
    unfold get_done at 1, gets at 1, mbind at 1, M_bind at 1; by rewrite Hd.
Qed.

Lemma run_poll_loop fuel s : up false s → done (user (rest s)) = false →
  poll_result fuel s (poll_loop depth fuel s).
Proof.
  revert s. induction fuel as [|fuel IH]; intros s Hs Hd.
  - cbn [poll_loop]. unfold get_done at 1, gets at 1, mbind at 1, M_bind at 1. rewrite Hd.
    exists []. split_all; constructor.
  - destruct (poll_step s Hs Hd) as [(ds & s1 & Ht)|[(text & w & Hf & ->)|[s1 ->]]].
    + destruct (poll_turn_up _ _ _ Hs Ht) as (Hs1 & Hd1 & ->). destruct (quits ds) eqn:Hq.
      * rewrite poll_loop_done by done. exists [], ds.
        split_all; [by eapply polls_cons, polls_nil|constructor|simpl; lia].
      * eapply poll_result_cons; [done..|]. by apply IH.
    + exists [], s, text, w. split_all; [constructor|constructor|simpl; lia].
    + done.
Qed.

(** The same turns, run by the loop. *)
Lemma run_polls dss s s' fuel : polls dss s s' → up false s → poll_loop depth (length dss + fuel) s
  = poll_loop depth fuel s'.
Proof.
  induction 1 as [|ds dss s s1 s' Ht _ IH]; [done|]. intros Hs. simpl length. rewrite Nat.add_succ_l.
  destruct (poll_turn_up _ _ _ Hs Ht) as (Hs1 & _ & ->). by apply IH.
Qed.

End program.

(** ** Application: the reference liblo

    A receiver that an earlier run left done, with a packet for the object, one
    that ends the polling, and one that is no message waiting at the socket. *)
Definition poll_world : mworld :=
  MWorld (View ∅ ∅ ∅ ∅ ∅ []) 0
    [Datagram 20 [("/object", [AInt32 123])]; Datagram 16 [("/quit", [])]; Malformed] None.
Definition poll_start : tstate (L := model) :=
  (OscReceiver.addOscObject (Some 2%positive)
     (OscReceiver.setup 9990
        (Env {[ 2%positive := Object_new ]} (Console [] [])
           (App (OscReceiver_init "") poll_world (mkTest true)))).2).2.

Lemma poll_start_up : up (L := model) 2 false poll_start.
Proof. split; [by right|]. simpl. do 2 eexists. by split_all. Qed.

Example poll_returns : (poll (L := model) 4 2 poll_start).1 = Ret tt.
Proof. vm_compute. reflexivity. Qed.

