(* ===== verification/LptestMain.v ===== *)
(** * The test program as a whole

    [main] from its first line to its end: on any liblo, whatever is sent to it
    and whenever, it ends, is still polling, or fails in one of the ways its parts
    are known to. *)
From S2P Require Import Prelude Exceptions Effects Triples Machine Floats Liblo LibloModel OscTypes TimeTagTheorems OscSender SenderSpec SenderRefine SenderProps Log ReceivedMessage ReceivedProps ReceivedTheorems Vectors OscObject ObjectProps OscReceiver ReceiverProps ReceiverReach ReceiverTheorems Lptest Delivery LptestProps LptestCallbacks LptestTheorems LptestPolling.
Open Scope Z_scope.

Section program.
Context {L : Liblo} {LL : LibloLaws L} {I : Incoming} {IL : IncomingLaws I}.
Context (depth : nat) (Hdepth : (1 ≤ depth)%nat) (object : ptr).
Implicit Types s : tstate.

(** ** Sleeping

    While the program sleeps, the server thread hands over what it received, if
    it runs; else nothing happens.  The servers stay as they are.  What the thread
    receives and is not a message ends the program: [errorCB] throws in a thread
    nobody catches it in. *)
Definition listening s : Prop :=
  ∃ t x, m_serverThread (rcv s) = Some t ∧ v_servers (view_of s) !! t = Some x ∧ srv_running x = true.

Definition sleeps (sleep : Z → M tstate unit) : Prop := ∀ us s,
  (∃ ds w,
     sleep us s = lo_dispatch_all Object_processOscMessage TestReceiver_process depth ds (on_net w s) ∧
     v_servers (view w) = v_servers (view_of s) ∧ Forall (incoming w) ds ∧ (listening s ∨ ds = [])) ∨
  (listening s ∧ ∃ s', sleep us s = (Undef Terminated, s')).

(** Before there is a receiver. *)
Definition unborn s : Prop := m_serverThread (rcv s) = None.

(** The port is still held, by a server nobody runs. *)
Definition held s : Prop := ∃ t x,
  v_servers (view_of s) !! t = Some x ∧ srv_port x = dec 9990 ∧ srv_running x = false.

Lemma stable_unborn : stable unborn.
Proof. intros s0 s (_ & Hr & _) H. unfold unborn in *. by rewrite Hr. Qed.

(** How the program may fail: the conversion of a fraction of a time tag that does
    not fit, a blob that is not ended, and a thread that throws. *)
Definition dies : failure → Prop := λ e,
  e = inr FloatToInt ∨ e = inr DanglingPointer ∨ e = inr Terminated.

(** It is still polling: [fuel] turns have passed, and none received [/quit]. *)
Definition waiting (fuel : nat) s : Prop := ∃ s0 dss, up object false s0 ∧
  done (user (rest s0)) = false ∧ polls depth dss s0 s ∧ no_quit dss ∧ length dss = fuel.

Lemma TimeTag_add_Undef t ms u : TimeTag_add t ms = Undef u → u = FloatToInt.
Proof.
  unfold TimeTag_add, to_uint, int_of_float. destruct (truncate _); simpl; [|congruence].
  destruct (decide _); simpl; congruence.
Qed.

Section parts.
Context (E : failure → tstate → Prop) (HE : ∀ e s, dies e → E e s).
Context (storage : lo_timetag) (sleep : Z → M tstate unit) (Hsleep : sleeps sleep).

Section stable.
Context (P : tstate → Prop) (HP : stable P).

Lemma stable_out ts : triple P (cout_put ts) E (λ _, P).
Proof. intros s Hs. by apply (HP s). Qed.

(** A call of liblo that does not touch the servers. *)
Lemma stable_lo {B} (m : M world B) (Q : B → Prop) :
  (∀ w, ∃ b w', m w = (Ret b, w') ∧ v_servers (view w') = v_servers (view w) ∧ Q b) →
  triple P (lo m) E (λ b s, P s ∧ Q b).
Proof.
  intros Hm s Hs. destruct (Hm (net (rest s))) as (b & w' & Hr & Hv & Hb). unfold lo. rewrite Hr.
  split; [|done]. by apply (HP s).
Qed.

Lemma stable_dispatch ds s0 s : attached object s → P s → calm s0 s → Forall (incoming (net (rest s))) ds →
  match lo_dispatch_all Object_processOscMessage TestReceiver_process depth ds s with
  | (Ret _, s') => P s' ∧ calm s0 s'
  | (Throw e, _) => False
  | (Undef u, _) => u = DanglingPointer
  end.
Proof.
  intros Ha Hs Hc Hin.
  pose proof (dispatch_all_incoming depth Hdepth object s _ ds Ha s
    (conj (conj (calm_refl s) eq_refl) Hin)) as H.
  destruct (lo_dispatch_all _ _ _ ds s) as [[[]|e|u] s']; [|done|by injection H]. destruct H as [H _].
  split; [by apply (HP s)|].
  destruct Hc as (? & ? & ?), H as (? & ? & ?). repeat split; congruence.
Qed.

Lemma stable_sleep us : (∀ s, P s → attached object s ∨ unborn s) → triple P (sleep us) E (λ _, P).
Proof.
  intros Ha s Hs. specialize (Ha s Hs).
  destruct (Hsleep us s) as [(ds & w & -> & Hv & Hin & Hl)|[_ [s' ->]]]; [|apply HE; by right; right].
  assert (calm s (on_net w s)) as Hc by done.
  assert (P (on_net w s)) as Hs' by (by apply (HP s)).
  destruct Ha as [Ha|Hu].
  - assert (attached object (on_net w s)) as Ha' by done.
    pose proof (stable_dispatch ds s _ Ha' Hs' Hc Hin) as H.
    destruct (lo_dispatch_all _ _ _ ds _) as [[[]|e|u] s']; [by destruct H|done|].
    rewrite H. apply HE. by right; left.
  - destruct Hl as [(t & x & Ht & _)| ->]; [unfold unborn in Hu; congruence|done].
Qed.

Lemma stable_now tt : triple P (lo (TimeTag_now tt)) E (λ _, P).
Proof.
  eapply triple_post; [apply (stable_lo _ (λ _, True))|by intros a s []].
  intros w. destruct (law_timetag_now w) as (t & w' & Hr & Hv & _).
  exists (mkTimeTag t), w'. unfold TimeTag_now. by rewrite (bind_step _ _ _ _ _ Hr), Hv.
Qed.

Lemma stable_ms ms : triple P (lo (TimeTag_ms storage ms)) E (λ _, P).
Proof.
  intros s Hs. unfold lo, TimeTag_ms.
  destruct (law_timetag_now (net (rest s))) as (t & w' & Hr & Hv & _).
  assert (TimeTag_now (mkTimeTag storage) (net (rest s)) = (Ret (mkTimeTag t), w')) as Hn
    by (unfold TimeTag_now; by rewrite (bind_step _ _ _ _ _ Hr)).
  rewrite (bind_step _ _ _ _ _ Hn). unfold liftO.
  destruct (TimeTag_add (mkTimeTag t) ms) as [?|e|u] eqn:Ha.
  - apply (HP s); [|done]. unfold calm, view_of. simpl. by rewrite Hv.
  - by apply TimeTag_add_no_throw in Ha.
  - apply TimeTag_add_Undef in Ha as ->. apply HE. by left.
Qed.

Lemma stable_testSender : triple P (testSender storage) E (λ _, P).
Proof.
  intros s Hs. destruct (run_testSender storage s) as (now & outer & tn & _ & _ & _ & _ & _ & H).
  destruct (TimeTag_add tn 10) as [later|e|u] eqn:Ha; [|done|].
  - destruct H as (s' & -> & Hh & Hr & _ & _ & _ & _ & _ & Hv & _). by apply (HP s).
  - destruct H as [s' ->]. apply TimeTag_add_Undef in Ha as ->. apply HE. by left.
Qed.
End stable.

(** ** The parts of main *)

Lemma triple_testTimeTag : triple unborn (testTimeTag storage sleep) E (λ _, unborn).
Proof.
  pose proof stable_unborn as HP. unfold testTimeTag, clock, print_tag, TimeTag_default.
  repeat first [ apply stable_out, HP
               | eapply triple_bind;
                   [ first [ apply stable_out, HP | apply stable_now, HP | apply stable_ms, HP
                           | apply stable_sleep; [apply HP|by right] ]
                   | intros ? ] ].
Qed.

(** A receiver just made. *)
Definition born s : Prop :=
  elems (m_objects (rcv s)) = [] ∧ m_serverThread (rcv s) = None ∧ m_isRunning (rcv s) = false ∧
  m_ignoreMessages (rcv s) = false.

Lemma triple_new P : triple P TestReceiver_new E (λ _, born).
Proof. by intros s _. Qed.

Definition ready s : Prop := elems (m_objects (rcv s)) = [] ∧ bound false s.

Lemma triple_setup : (∀ text s, unborn s → E (inl (ReceiveException text)) s) →
  triple born (OscReceiver.setup 9990) E (λ _, ready).
Proof.
  intros HT s (He & Ht & Hr & Hi).
  destruct (run_setup s 9990 Ht) as [(t & w' & -> & _ & _ & Hv)|(text & w' & -> & _)]; [|by apply HT].
  split; [done|]. exists t, (Server (dec 9990) None errorCB false). unfold view_of. simpl. rewrite Hv.
  split_all. apply lookup_insert_eq.
Qed.

Lemma triple_getUrl b P : (∀ s, P s → bound b s) → triple P OscReceiver.getUrl E (λ _, P).
Proof.
  intros HP s Hs. destruct (HP s Hs) as (t & x & Ht & _ & Hx & _).
  destruct (law_server_thread_get_server t x _ Hx) as (sv & Hsv & (url & host & Hu & _) & _).
  unfold OscReceiver.getUrl, from_server. rewrite bind_assoc, run_field, Ht. simpl.
  unfold ask, mbind, M_bind. rewrite Hsv, Hu. done.
Qed.

Lemma triple_add_object : triple ready
  (_ ← zoom (modify <[object := Object_new]>); OscReceiver.addOscObject (Some object)) E (λ _, up object false).
Proof.
  intros s [He Hb]. simpl. split; [|done]. right. unfold rcv in *. simpl. rewrite He.
  split; [done|apply lookup_insert_eq].
Qed.

Lemma triple_start : triple (up object false) start E (λ _, up object true).
Proof.
  intros s [Ha (t & x & Ht & _ & Hx & Hp & _ & Hh & Hi)].
  destruct (run_start s t x Ht Hx) as (w' & -> & Hv).
  split; [done|]. exists t, (Server (srv_port x) (srv_group x) (srv_handler x) true).
  unfold view_of in *. simpl. rewrite Hv. split_all. apply lookup_insert_eq.
Qed.

Lemma triple_stop : triple (up object true) stop E (λ _, up object false).
Proof.
  intros s [Ha (t & x & Ht & _ & Hx & Hp & _ & Hh & Hi)].
  destruct (run_stop s t x Ht Hx) as (w' & -> & Hv).
  split; [done|]. exists t, (Server (srv_port x) (srv_group x) (srv_handler x) false).
  unfold view_of in *. simpl. rewrite Hv. split_all. apply lookup_insert_eq.
Qed.

(** Polling leaves the receiver set up, and may catch an error of reception. *)
Lemma triple_poll fuel : (∀ text s, up object false s → E (inl (ReceiveException text)) s) →
  (∀ s, waiting fuel s → E (inr OutOfFuel) s) →
  triple (up object false) (poll depth fuel) E (λ _, up object false).
Proof.
  intros HT HW s Hs. pose proof (run_poll_loop depth Hdepth object fuel (set_done false s).2 Hs eq_refl) as H.
  change (poll depth fuel s) with (poll_loop depth fuel (set_done false s).2).
  destruct (poll_loop _ _ _) as [[[]|e|u] s'].
  - destruct H as (dss & ds & Hp & _). by apply (polls_up depth Hdepth object _ _ _ Hp).
  - destruct H as (dss & s1 & text & w & Hp & _ & _ & Hf & -> & ->). apply HT.
    apply (reception_fails_up depth object s1 text w); [done|]. by apply (polls_up depth Hdepth object _ _ _ Hp).
  - destruct u; try (injection H as ->; apply HE; by right; left); try done.
    + apply HE. by right; left.
    + destruct H as (dss & Hp & Hn & Hl). apply HW. exists (set_done false s).2, dss. by split_all.
Qed.

(** The end: the object is destroyed, then the receiver. *)
Definition ended s : Prop := unborn s ∧ held s ∧ heap s !! object = None.

Lemma triple_end : triple (up object false)
  (_ ← zoom (modify (delete object)); _ ← OscReceiver_destroy; mret 0) E (λ n s, n = 0 ∧ ended s).
Proof.
  intros s [_ (t & x & Ht & _ & Hx & Hp & _)].
  set (s' := Env (delete object (heap s)) (con s) (rest s)).
  destruct (clear_run s' t x Ht Hx) as (w' & Hr & Hv).
  assert ((_ ← zoom (modify (delete object)); _ ← OscReceiver_destroy; mret 0) s
    = (_ ← OscReceiver_destroy; mret 0) s') as -> by done.
  unfold OscReceiver_destroy. rewrite (bind_step _ _ _ _ _ Hr). split; [done|]. split; [done|].
  split; [|apply lookup_delete_eq]. exists t, (Server (srv_port x) (srv_group x) (srv_handler x) false).
  unfold view_of in *. simpl. rewrite Hv. split_all. apply lookup_insert_eq.
Qed.
End parts.

(** How the program may fail, or still be polling. *)
Definition fails (fuel : nat) : failure → tstate → Prop := λ e s,
  dies e ∨ (e = inr OutOfFuel ∧ waiting fuel s).

(** How the tests proper may: [main] catches the error of a reception. *)
Definition tests_fail (fuel : nat) : failure → tstate → Prop := λ e s,
  fails fuel e s ∨ ∃ text, e = inl (ReceiveException text) ∧ up object false s.

(** How [main] may: it does not catch the exception of [setup]. *)
Definition main_fails (fuel : nat) : failure → tstate → Prop := λ e s,
  fails fuel e s ∨ ∃ text, e = inl (ReceiveException text) ∧ unborn s.

Lemma triple_catch fuel P m (Q : unit → tstate → Prop) :
  triple P m (tests_fail fuel) Q → (∀ ts s, up object false s → Q tt (lset (Console ts (cerr (con s))) s)) →
  triple P (catch_receive m (λ w, cout_put [T_str "CAUGHT EXCEPTION: "; T_str w; T_endl])) (fails fuel) Q.
Proof.
  intros Hm HQ s Hs. specialize (Hm s Hs). unfold catch_receive.
  destruct (m s) as [[a|e|u] s']; [done| |].
  - destruct Hm as [[[|[]]|[? _]]|(text & [= ->] & Hu)]; [done..|]. by apply HQ.
  - by destruct Hm as [?|(text & ? & _)].
Qed.

Ltac next := eapply triple_bind; [|intros ?].

Lemma triple_tests storage sleep fuel : sleeps sleep →
  triple (up object false)
    (_ ← cout_put [T_str "RECEIVER TEST (NO THREAD)"; T_endl];
     _ ← testSender storage;
     _ ← sleep 1000000;
     _ ← poll depth fuel;
     _ ← cout_put [T_str "DONE"; T_endl; T_endl];
     _ ← cout_put [T_str "RECEIVER TEST (THREAD)"; T_endl];
     _ ← start;
     _ ← testSender storage;
     _ ← sleep 1000000;
     _ ← stop;
     cout_put [T_str "DONE"; T_endl; T_endl]) (tests_fail fuel) (λ _, up object false).
Proof.
  intros Hsl. pose proof (stable_up object) as HP.
  assert (∀ b s, up object b s → attached object s ∨ unborn s) as Hup by (intros b s [? _]; by left).
  assert (∀ e s, dies e → tests_fail fuel e s) as HE by (intros e s He; by left; left).
  next; [apply stable_out, HP|]. next; [by apply stable_testSender|].
  next; [by eapply stable_sleep; eauto|].
  next; [apply triple_poll; [done|intros text s Hs; right; by exists text|intros s Hs; by left; right]|].
  do 2 (next; [apply stable_out, HP|]). next; [apply triple_start|].
  next; [by apply stable_testSender|]. next; [by eapply stable_sleep; eauto|].
  next; [apply triple_stop|]. apply stable_out, HP.
Qed.

Lemma triple_main storage sleep fuel : sleeps sleep →
  triple unborn (main storage sleep depth fuel object) (main_fails fuel) (λ n s, n = 0 ∧ ended s).
Proof.
  intros Hsl. pose proof (stable_up object) as HP. pose proof stable_unborn as HU.
  assert (∀ e s, dies e → main_fails fuel e s) as HE by (intros e s He; by left; left).
  assert (∀ s, ready s → bound false s) as Hready by (by intros s []).
  assert (stable ready) as HR.
  { intros s0 s (_ & Hr & Hv) [He Hb]. unfold ready, bound in *. by rewrite Hr, Hv. }
  next; [apply stable_out, HU|]. next; [by apply triple_testTimeTag|].
  next; [apply stable_out, HU|]. next; [apply triple_new|].
  next; [apply triple_setup; intros text s Hs; right; by exists text|].
  next; [by apply (triple_getUrl _ false)|]. next; [apply stable_out, HR|].
  assert (∀ {B} (m1 m2 : M tstate unit) (k : unit → M tstate B), 
    (∀ s, (_ ← m1; r ← m2; k r) s = (r ← (_ ← m1; m2); k r) s)) as Hassoc
    by (intros; by rewrite bind_assoc).
  intros s Hs. rewrite Hassoc. revert s Hs. next; [apply triple_add_object|].
  next; [by eapply stable_sleep; [..|intros s [? _]; left]|].
  next; [|apply triple_end].
  eapply triple_mono; [apply triple_catch; [by apply triple_tests|intros ts s' Hs'; by apply (HP false s')]|done|by left|done].
Qed.

(** C4: the whole test program, however long it sleeps and whatever its receiver is
    sent meanwhile, messages or not.  It returns 0, with its receiver shut and its
    object gone, and port 9990 still held by a server nobody runs; in particular
    when a reception fails while it polls, the error of which it catches.  Or it
    throws the exception of [setup], which nothing catches, and has no receiver
    then.  Or, with [fuel] turns of polling allowed, it is still polling after
    [fuel] turns that received no [/quit].  Or it converts a fraction of a time tag
    that does not fit, reads a blob past its end, or is terminated by the error of
    a reception on the server thread.  It has no other failure: no null or dangling
    handle, no exception of the sender or of the messages, no invalid iterator. *)
Theorem main_outcome storage sleep fuel s : sleeps sleep → m_serverThread (rcv s) = None →
  match main storage sleep depth fuel object s with
  | (Ret n, s') =>
      n = 0 ∧ m_serverThread (rcv s') = None ∧ heap s' !! object = None ∧
      ∃ t x, v_servers (view_of s') !! t = Some x ∧ srv_port x = "9990" ∧ srv_running x = false
  | (Throw e, s') => (∃ text, e = ReceiveException text) ∧ m_serverThread (rcv s') = None
  | (Undef OutOfFuel, s') => waiting fuel s'
  | (Undef u, _) => u = FloatToInt ∨ u = DanglingPointer ∨ u = Terminated
  end.
Proof.
  intros Hsl Hs. pose proof (triple_main storage sleep fuel Hsl s Hs) as H.
  destruct (main _ _ _ _ _ s) as [[n|e|u] s'].
  - destruct H as (-> & ? & (t & x & ? & Hp & ?) & ?). split_all. exists t, x.
    rewrite Hp. split_all.
  - destruct H as [[[|[]]|[? _]]|(text & [= ->] & Hu)]; [done..|]. split; [by exists text|done].
  - destruct H as [[Hd|[[= ->] Hw]]|(? & ? & _)]; [|done..].
    destruct Hd as [[= ->]|[[= ->]|[= ->]]]; tauto.
Qed.
End program.

(** ** Application: the reference liblo *)

Lemma model_sleeps : sleeps (L := model) 4 model_sleep.
Proof.
  intros us [h c [r [v k i a] u]]. unfold model_sleep. cbn -[m_incoming lo_dispatch_all on_sent].
  set (v' := on_sent _ v). set (ps := map snd _).
  case_bool_decide as Hl.
  - destruct (m_incoming _ _) as [ms w'] eqn:E. left. exists ms, w'.
    split; [done|]. split; [by apply m_incoming_live in E as [-> _]|].
    split; [by eapply m_incoming_incoming|]. left. unfold listening, rcv, view_of. simpl.
    destruct (m_serverThread r) as [t|]; [|done]. simpl in Hl.
    destruct (v_servers v !! t) as [x|] eqn:Hx; [|done]. injection Hl as Hl. by exists t, x.
  - left. exists []. eexists. split; [done|]. split; [done|]. split; [constructor|by right].
Qed.

Lemma main_outcome_witness :
  match main (L := model) (Timetag 0 0) model_sleep 4 20 2%positive ts0 with
  | (Ret n, s') =>
      n = 0 ∧ m_serverThread (rcv s') = None ∧ heap s' !! 2%positive = None ∧
      ∃ t x, v_servers (view_of s') !! t = Some x ∧ srv_port x = "9990" ∧ srv_running x = false
  | (Throw e, s') => (∃ text, e = ReceiveException text) ∧ m_serverThread (rcv s') = None
  | (Undef OutOfFuel, s') => waiting (L := model) 4 2 20 s'
  | (Undef u, _) => u = FloatToInt ∨ u = DanglingPointer ∨ u = Terminated
  end.
Proof. apply (main_outcome (L := model) 4); [lia|apply model_sleeps|reflexivity]. Defined.
