(* ===== verification/LptestPrograms.v ===== *)
(** * The test program as accesses to memory

    [main], the functions it calls and the callbacks of the test, each a program
    of [Accesses]: what the thread of [main] and the server thread do one access
    at a time.  The sender of [testSender] is a local object, so a call of one of
    its members is one access, of liblo.  Sleeping is nothing: it is the time in
    which the other thread moves.  [LptestAlone] shows that each program, run
    alone, is the function of [Lptest]. *)
From S2P Require Import Prelude Exceptions Effects Machine Floats Liblo OscTypes OscSender Log ReceivedMessage Vectors OscObject OscReceiver Accesses Lptest.
Open Scope Z_scope.

(** ** Handlers *)

Section catching.
Context {L : Liblo} {A : Type}.

(** A computation whose [ReceiveException] is a result. *)
Definition attempt {S B} (m : M S B) : M S (B + string) := λ s,
  match m s with
  | (Ret b, s') => (Ret (inl b), s')
  | (Throw (ReceiveException w), s') => (Ret (inr w), s')
  | (Throw e, s') => (Throw e, s')
  | (Undef u, s') => (Undef u, s')
  end.

Definition attempt_ask {B} (q : world → outcome B) (w : world) : outcome (B + string) :=
  (attempt (λ w, (q w, w)) w).1.

(** An access that may throw, with its exception as a result; reads, writes and
    control of the thread throw nothing. *)
Definition attempted {B} (a : access A B) : { C : Type & (access A C * (C → B + string))%type } :=
  match a in access _ B return { C : Type & (access A C * (C → B + string))%type } with
  | OnConsole m => existT _ (OnConsole (attempt m), id)
  | Lo m => existT _ (Lo (attempt m), id)
  | Ask q => existT _ (Ask (attempt_ask q), id)
  | User m => existT _ (User (attempt m), id)
  | a => existT _ (a, inl)
  end.

(** [try p catch(ReceiveException e) h], and then [f]. *)
Fixpoint p_try {B R} (p : prog A B) (h : string → prog A R) (f : B → prog A R) : prog A R :=
  match p with
  | Done (Ret b) => f b
  | Done (Throw (ReceiveException w)) => h w
  | Done (Throw e) => Done (Throw e)
  | Done (Undef u) => Done (Undef u)
  | Step a k =>
      let x := attempted a in
      Step (projT2 x).1 (λ c,
        match (projT2 x).2 c with inl b => p_try (k b) h f | inr w => h w end)
  end.
End catching.

Section programs.
Context {L : Liblo}.

#[local] Notation tprog := (prog TestReceiver).

Definition p_out (ts : list token) : tprog unit := act (OnConsole (cout_put ts)).
Definition p_out_value {B} (f : B → token) (q : world → outcome B) : tprog unit :=
  v ← act (Ask q); p_out [f v].

(** ** class Object *)

Definition p_Object_processOscMessage (this : ptr) (message : ReceivedMessage)
    (source : MessageSource) : tprog bool :=
  root ← act (ReadRoot this);
  matches ← act (Ask (λ w, checkAddressAndTypes w message root "ifs"));
  if (matches : bool) then
    _ ← p_out [T_str "Object: received message "; T_str (address message); T_str " "];
    _ ← p_out_value T_str (λ w, types w message);
    _ ← p_out [T_str " from "];
    _ ← p_out_value T_str (MessageSource_getUrl source);
    _ ← p_out [T_endl; T_str "  "];
    _ ← p_out_value T_int (λ w, asInt32 w message 0);
    _ ← p_out [T_str " "];
    _ ← p_out_value T_float (λ w, asFloat w message 1);
    _ ← p_out [T_str " "];
    _ ← p_out_value T_str (λ w, asString w message 2);
    _ ← p_out [T_endl];
    mret true
  else mret false.

(** ** class TestReceiver *)

(** The flag is a member of the program's own class. *)
Definition p_set_done (b : bool) : tprog unit := act (User (modify (λ _, mkTest b))).
Definition p_get_done : tprog bool := act (User (gets done)).

Definition p_TestReceiver_new : tprog unit :=
  _ ← act (Write F_oscRootAddress "");
  _ ← act (Write F_serverThread None);
  _ ← act (Write F_isMulticast false);
  _ ← act (Write F_isRunning false);
  _ ← act (Write F_ignoreMessages false);
  _ ← act (Write F_objects vec_empty);
  p_set_done false.

Definition p_print_test3 (message : ReceivedMessage) : tprog unit :=
  _ ← p_out [T_str "/test3 parsing all message types"; T_str " "];
  _ ← p_out_value T_char (λ w, typeTag w message 0);
  _ ← p_out [T_endl; T_str "  bool T: "]; _ ← p_out_value T_bool (λ w, asBool w message 0);
  _ ← p_out [T_endl; T_str "  bool F: "]; _ ← p_out_value T_bool (λ w, asBool w message 1);
  _ ← p_out [T_endl; T_str "  char: '"];
  _ ← p_out_value (λ c, T_char (ascii_of_byte c)) (λ w, asChar w message 2);
  _ ← p_out [T_str "'"; T_endl; T_str "  nil"; T_endl; T_str "  infinitum"; T_endl;
             T_str "  int32: "];
  _ ← p_out_value T_int (λ w, asInt32 w message 5);
  _ ← p_out [T_endl; T_str "  int64: "]; _ ← p_out_value T_int (λ w, asInt64 w message 6);
  _ ← p_out [T_endl; T_str "  float: "]; _ ← p_out_value T_float (λ w, asFloat w message 7);
  _ ← p_out [T_endl; T_str "  double: "]; _ ← p_out_value T_double (λ w, asDouble w message 8);
  _ ← p_out [T_endl; T_str "  string: "; quote];
  _ ← p_out_value T_str (λ w, asString w message 9);
  _ ← p_out [quote; T_endl; T_str "  symbol: "; quote];
  _ ← p_out_value T_str (λ w, s ← asSymbol w message 10; std_string (Symbol_cstr s));
  _ ← p_out [quote; T_endl; T_str "  midi: "];
  _ ← p_out_value (λ m, T_hex (MidiMessage_value m)) (λ w, asMidiMessage w message 11);
  _ ← p_out [T_endl; T_str "  timetag: "];
  _ ← p_out_value (λ t, T_int (sec t)) (λ w, asTimeTag w message 12);
  _ ← p_out [T_str " "];
  _ ← p_out_value (λ t, T_int (frac t)) (λ w, asTimeTag w message 12);
  _ ← p_out [T_endl; T_str "  blob: "; quote];
  _ ← p_out_value T_str (λ w, b ← asBlob w message 13; blob_string b);
  p_out [quote; T_endl].

(** [printArg] reads the tag and the argument, and has liblo print it. *)
Definition p_printArg (message : ReceivedMessage) (at_ : Z) : tprog unit :=
  t ← act (Ask (λ w, typeTag w message at_));
  mem ← act (Ask (λ w, arg w message at_));
  act (Lo (lo_arg_pp t mem)).

Fixpoint p_print_args (n : nat) (message : ReceivedMessage) (i : Z) : tprog unit :=
  num ← act (Ask (λ w, numArgs w message));
  if decide (i < num) then
    match n with
    | O => Done (Undef OutOfFuel)
    | S n =>
        _ ← p_out [T_str "  arg "; T_int i; T_str " '"];
        _ ← p_out_value T_char (λ w, typeTag w message i);
        _ ← p_out [T_str "' "];
        _ ← p_printArg message i;
        _ ← p_out [T_endl];
        p_print_args n message (i + 1)
    end
  else mret tt.

Definition p_TestReceiver_process (message : ReceivedMessage) (source : MessageSource)
    : tprog bool :=
  _ ← p_out [T_str "TestReceiver: received message "; T_str (address message)];
  _ ← p_out_value T_str (λ w, t ← types w message;
        if bool_decide (0 < String.length t)%nat
        then t' ← types w message; Ret (" " +:+ t') else Ret "");
  _ ← p_out_value T_str (λ w, types w message);
  _ ← p_out [T_str " from "];
  _ ← p_out_value T_str (MessageSource_getUrl source);
  _ ← p_out [T_endl];
  if bool_decide (address message = "/quit") then
    _ ← p_set_done true; mret true
  else
    all ← act (Ask (λ w, checkAddressAndTypes w message "/test3" "TFcNIihfdsSmtb"));
    _ ← (if (all : bool) then p_print_test3 message
         else n ← act (Ask (λ w, numArgs w message)); p_print_args (Z.to_nat n) message 0);
    mret true.

Context (depth : nat).

Fixpoint p_poll_loop (fuel : nat) : tprog unit :=
  d ← p_get_done;
  if (d : bool) then mret tt
  else
    match fuel with
    | O => Done (Undef OutOfFuel)
    | S fuel =>
        num ← p_handleMessages p_Object_processOscMessage p_TestReceiver_process depth 0;
        _ ← (if bool_decide (0 < num)
             then p_out [T_str "TestReceiver: received "; T_int num; T_str " bytes"; T_endl]
             else p_out [T_str "TestReceiver: still waiting ..."; T_endl]);
        p_poll_loop fuel
    end.

Definition p_poll (fuel : nat) : tprog unit := _ ← p_set_done false; p_poll_loop fuel.

(** ** testSender *)

(** A program with a local sender; the sender survives an exception, to be
    destroyed. *)
Definition sprog (B : Type) : Type := OscSender → tprog (outcome B * OscSender).

#[local] Instance sprog_ret : MRet sprog := λ B b sender, mret (Ret b, sender).
#[local] Instance sprog_bind : MBind sprog := λ B C f p sender,
  '(o, sender') ← p sender;
  match o with
  | Ret b => f b sender'
  | Throw e => mret (Throw e, sender')
  | Undef u => Done (Undef u)
  end.

(** A call of a member of the sender: liblo sees it. *)
Definition on_local {B} (m : M state B) (sender : OscSender) : M world (outcome B * OscSender) := λ w,
  let '(o, (sender', w')) := m (sender, w) in
  (match o with Undef u => Undef u | _ => Ret (o, sender') end, w').

Definition p_sender {B} (m : M state B) : sprog B := λ sender, act (Lo (on_local m sender)).
Definition p_clock {B} (m : M world B) : sprog B := p_sender (zoom m).
Definition s_print (ts : list token) : sprog unit := λ sender, _ ← p_out ts; mret (Ret tt, sender).

Fixpoint p_stream (its : list item) : sprog unit :=
  match its with
  | [] => mret tt
  | i :: its => _ ← p_sender (operator_in i); p_stream its
  end.

Context (storage : lo_timetag).

Definition p_testSender_messages : sprog unit :=
  _ ← p_sender (OscSender.setup "127.0.0.1" 9990);
  u ← p_sender OscSender.getUrl;
  _ ← s_print [T_str "sending to "; T_str u; T_endl];
  _ ← p_stream test1;
  _ ← p_sender send;
  _ ← p_stream test2;
  _ ← p_sender send;
  now ← p_clock (TimeTag_default storage);
  _ ← p_stream (test3 now);
  p_sender send.

Definition p_testSender_bundle : sprog unit :=
  outer ← p_clock (BeginBundle_default storage);
  _ ← p_sender (operator_in (I_BeginBundle outer));
  later ← p_clock (TimeTag_ms storage 10);
  _ ← p_stream (test4 later);
  _ ← p_sender (operator_in (I_EndBundle mkEndBundle));
  p_sender send.

Definition p_testSender_last : sprog unit :=
  _ ← p_stream test_object;
  _ ← p_sender send;
  _ ← p_stream test_quit;
  p_sender send.

Definition p_testSender_body : sprog unit :=
  _ ← p_testSender_messages; _ ← p_testSender_bundle; p_testSender_last.

Definition p_testSender : tprog unit :=
  '(o, sender) ← p_testSender_body OscSender_init;
  '(o', _) ← p_sender OscSender_destroy sender;
  Done (_ ← o'; o).

(** ** testTimeTag and main *)

Definition p_now {B} (m : M world B) : tprog B := act (Lo m).
Definition p_print_tag (name : string) (t : TimeTag) (after : list token) : tprog unit :=
  p_out ([T_str name; T_int (sec t); T_str " "; T_int (frac t)] ++ after).

Definition p_testTimeTag : tprog unit :=
  tagA ← p_now (TimeTag_default storage);
  _ ← p_print_tag "tagA is " tagA [T_str " (now)"; T_endl];
  _ ← p_out [T_str "sleeping ~20 milliseconds ..."; T_endl];
  tagB ← p_now (TimeTag_default storage);
  _ ← p_print_tag "tagB is " tagB [T_str " (now)"; T_endl];
  _ ← p_out [T_str "tagB-tagA = "; T_double (TimeTag_minus tagB tagA); T_str "s"; T_endl];
  tagB ← p_now (TimeTag_now tagB);
  tagC ← p_now (TimeTag_ms storage 25);
  _ ← p_print_tag "tagC is " tagC [T_endl];
  p_out [T_str "tagC-tagB = "; T_double (TimeTag_minus tagC tagB); T_str "s"; T_endl].

Context (fuel : nat) (object : ptr).

(** The block of [main] with the handler. *)
Definition p_tests : tprog unit :=
  _ ← p_out [T_str "RECEIVER TEST (NO THREAD)"; T_endl];
  _ ← p_testSender;
  _ ← p_poll fuel;
  _ ← p_out [T_str "DONE"; T_endl; T_endl];
  _ ← p_out [T_str "RECEIVER TEST (THREAD)"; T_endl];
  _ ← p_start;
  _ ← p_testSender;
  _ ← p_stop;
  p_out [T_str "DONE"; T_endl; T_endl].

(** The end of [main]: the object is destroyed, then the receiver. *)
Definition p_end : tprog Z :=
  _ ← act (FreeObject object);
  _ ← p_clear;
  mret 0.

Definition p_main : tprog Z :=
  _ ← p_out [T_endl; T_str "TIMETAG TEST"; T_endl];
  _ ← p_testTimeTag;
  _ ← p_out [T_str "DONE"; T_endl; T_endl];
  _ ← p_TestReceiver_new;
  _ ← p_setup 9990;
  u ← p_getUrl;
  _ ← p_out [T_str "receiver started: "; T_str u; T_endl];
  _ ← act (NewObject object Object_new);
  _ ← p_addOscObject (Some object);
  p_try p_tests
    (λ w, _ ← p_out [T_str "CAUGHT EXCEPTION: "; T_str w; T_endl]; p_end)
    (λ _, p_end).
End programs.
