(* ===== verification/LptestAlone.v ===== *)
(** * The test program alone

    Each program of [LptestPrograms], run without interference, is the function of
    [Lptest] it stands for, statement by statement, on any liblo that throws
    nothing from the start and the stop of a thread. *)
From S2P Require Import Prelude Exceptions Effects Machine Floats Liblo LibloModel OscTypes OscSender Log ReceivedMessage Vectors OscObject OscReceiver Accesses Calls CallTheorems Lptest LptestPrograms.
Open Scope Z_scope.

Section callbacks.
Context {L : Liblo}.
Implicit Types s : tstate.

(** ** The callbacks *)

Lemma run_p_out ts s : run (p_out ts) s = out ts s.
Proof. unfold p_out. by rewrite run_act. Qed.

Lemma run_p_out_value {B} (f : B → token) q s : run (p_out_value f q) s = out_value f q s.
Proof. apply run_cong; [run_access|]. intros v s1. apply run_p_out. Qed.

Lemma run_p_set_done b s : run (p_set_done b) s = set_done b s.
Proof. unfold p_set_done. by rewrite run_act. Qed.

Lemma run_p_get_done s : run p_get_done s = get_done s.
Proof. unfold p_get_done. rewrite run_act. by destruct s as [h c [r w u]]. Qed.

#[local] Hint Resolve run_p_out run_p_out_value run_p_set_done run_p_get_done : lopack.

(** Statement by statement, with the lemmas of the functions called. *)
Ltac alone := repeat first [solve [auto 2 with lopack nocore] | run_step].

Lemma run_p_Object this message source s :
  run (p_Object_processOscMessage this message source) s
  = Object_processOscMessage this message source s.
Proof. unfold p_Object_processOscMessage, Object_processOscMessage. alone. Qed.

Lemma run_p_TestReceiver_new s : run p_TestReceiver_new s = TestReceiver_new s.
Proof. by destruct s as [h c [[] w u]]. Qed.

Lemma run_p_print_test3 message s : run (p_print_test3 message) s = print_test3 message s.
Proof. unfold p_print_test3, print_test3. alone. Qed.

Lemma run_p_printArg message at_ s :
  run (p_printArg message at_) s = zoom (L := lens_printing) (printArg message at_) s.
Proof.
  destruct s as [h c [r w u]]. unfold p_printArg, printArg, zoom. simpl.
  unfold gets, liftO, ask, mbind, M_bind. simpl.
  destruct (typeTag w message at_) as [t|?|?]; [|done..]. simpl.
  destruct (arg w message at_) as [mem|?|?]; [|done..]. simpl.
  unfold lo, zoom. simpl. by destruct (lo_arg_pp t mem w) as [[[]|?|?] w'].
Qed.

#[local] Hint Resolve run_p_print_test3 run_p_printArg : lopack.

Lemma run_p_print_args n message i s : run (p_print_args n message i) s = print_args n message i s.
Proof.
  revert i s. induction n as [|n IH]; intros i s; cbn [p_print_args print_args];
    (apply run_cong; [run_access|]); intros num s1; destruct (decide (i < num)); try done.
  alone.
Qed.

#[local] Hint Resolve run_p_print_args : lopack.

Lemma run_p_TestReceiver message source s :
  run (p_TestReceiver_process message source) s = TestReceiver_process message source s.
Proof. unfold p_TestReceiver_process, TestReceiver_process. alone. Qed.

#[local] Hint Resolve run_p_Object run_p_TestReceiver : lopack.

Lemma run_p_poll_loop depth fuel s : run (p_poll_loop depth fuel) s = poll_loop depth fuel s.
Proof.
  revert s. induction fuel as [|fuel IH]; intros s; cbn [p_poll_loop poll_loop];
    (apply run_cong; [apply run_p_get_done|]); intros [] s1; try done.
  apply run_cong; [by intros; apply run_p_handleMessages; auto 2 with lopack|].
  intros num s2. alone.
Qed.

Lemma run_p_poll depth fuel s : run (p_poll depth fuel) s = poll depth fuel s.
Proof. apply run_cong; [apply run_p_set_done|]. intros _ s1. apply run_p_poll_loop. Qed.
End callbacks.

#[export] Hint Resolve run_p_out run_p_set_done run_p_get_done run_p_TestReceiver_new
  run_p_poll : lopack.

(** ** testSender *)

Section sending.
Context {L : Liblo}.
Implicit Types s : tstate.

#[local] Existing Instance sprog_ret.
#[local] Existing Instance sprog_bind.

(** A program with a local sender does what a computation on the sender, liblo and
    the console does. *)
Definition performs {B} (p : sprog B) (m : M sstate B) : Prop := ∀ sender s,
  run (p sender) s =
    let '(o, st) := m ((sender, net (rest s)), con s) in
    (match o with Undef u => Undef u | _ => Ret (o, st.1.1) end,
     lset (Lens := lens_printing) (st.2, st.1.2) s).

Lemma performs_bind {B C} (p : sprog B) (m : M sstate B) (f : B → sprog C) g :
  performs p m → (∀ b, performs (f b) (g b)) → performs (p ≫= f) (m ≫= g).
Proof.
  intros Hp Hf sender s. unfold mbind at 1, sprog_bind. rewrite run_bind.
  unfold mbind, M_bind. rewrite Hp.
  destruct (m (sender, net (rest s), con s)) as [[b|e|u] [[sender' w] c]]; [|done..].
  by rewrite Hf.
Qed.

Lemma performs_ret {B} (b : B) : performs (mret b) (mret b).
Proof. by intros sender [h c [r w u]]. Qed.

Lemma performs_ext {B} (p : sprog B) (m m' : M sstate B) :
  (∀ st, m st = m' st) → performs p m → performs p m'.
Proof. intros Hm Hp sender s. by rewrite <- Hm, Hp. Qed.

Lemma performs_sender {B} (m : M state B) : performs (p_sender m) (on_sender m).
Proof.
  intros sender [h c [r w u]]. unfold p_sender. rewrite run_act. simpl. unfold lo, on_local, on_sender, zoom.
  simpl. by destruct (m (sender, w)) as [[] []].
Qed.

Lemma performs_clock {B} (m : M world B) : performs (p_clock m) (on_clock m).
Proof. apply performs_sender. Qed.

Lemma performs_print ts : performs (s_print ts) (cout_put ts).
Proof. by intros sender [h c [r w u]]. Qed.

Lemma performs_stream its : performs (p_stream its) (on_sender (stream its)).
Proof.
  induction its as [|i its IH]; [by intros sender [h c [r w u]]|].
  eapply performs_ext; [|apply (performs_bind (p_sender (operator_in i)) _ (λ _, p_stream its)
    (λ _, on_sender (stream its)) (performs_sender _)); by intros []].
  intros [st c]. unfold on_sender, zoom, mbind, M_bind. simpl.
  unfold mbind, M_bind. by destruct (operator_in i st) as [[[]|e|u] st'].
Qed.

Ltac perform := repeat first
  [ apply performs_stream | apply performs_clock | apply performs_print | apply performs_sender
  | apply performs_bind; [|intros ?] ].

Lemma performs_testSender storage : performs (p_testSender_body storage) (testSender_body storage).
Proof.
  apply performs_bind; [unfold p_testSender_messages, testSender_messages; perform|intros _].
  apply performs_bind; [unfold p_testSender_bundle, testSender_bundle; perform|intros _].
  unfold p_testSender_last, testSender_last. perform.
Qed.

Lemma run_p_testSender storage s : run (p_testSender storage) s = testSender storage s.
Proof.
  unfold p_testSender, testSender. rewrite run_bind. unfold mbind at 1, M_bind at 1.
  rewrite (performs_testSender storage OscSender_init s).
  destruct (testSender_body storage _) as [o [[sender w] c]].
  assert (∀ o : outcome unit,
    run ('(o', _) ← p_sender OscSender_destroy sender; Done (_ ← o'; o))
      (lset (Lens := lens_printing) (c, w) s) =
    let '(o', st') := on_sender OscSender_destroy ((sender, w), c) in
    (_ ← o'; o, lset (Lens := lens_printing) (st'.2, st'.1.2) s)) as H.
  { intros o1. rewrite run_bind. unfold mbind at 1, M_bind at 1. rewrite performs_sender.
    simpl. by destruct (on_sender OscSender_destroy (sender, w, c)) as [[] st]. }
  destruct o as [[]|e|u]; [apply H..|done].
Qed.
End sending.

#[export] Hint Resolve run_p_testSender : lopack.

(** ** The handler *)

Section catching.
Context {L : Liblo} {LC : LibloC L} {A : Type}.
Implicit Types s : rstate A.

(** An access whose exception is a result. *)
Definition caught {B C} (r : outcome B * rstate A) (r' : outcome C * rstate A) (g : C → B + string) : Prop :=
  match r with
  | (Ret b, s') => ∃ c, r' = (Ret c, s') ∧ g c = inl b
  | (Throw (ReceiveException w), s') => ∃ c, r' = (Ret c, s') ∧ g c = inr w
  | (Throw e, s') => r' = (Throw e, s')
  | (Undef u, s') => r' = (Undef u, s')
  end.

(** One that throws nothing of its own. *)
Lemma caught_same {B} (m : M (rstate A) B) s : no_throw m → caught (m s) (m s) inl.
Proof.
  intros Hm. specialize (Hm s). unfold caught. destruct (m s) as [[b|e|u] s']; [by eexists| |done].
  by destruct (Hm e s').
Qed.

Lemma throws_update (P : exn → Prop) {X} (o : ptr) (f : OscObject → OscObject) :
  throws P (update (X := X) o f).
Proof. intros s e s'. unfold update, deref, mbind, M_bind. by destruct (heap s !! o). Qed.

Lemma caught_exec {B} (a : access A B) s :
  caught (exec a s) (exec (projT2 (attempted a)).1 s) (projT2 (attempted a)).2.
Proof.
  destruct a; try (apply caught_same; first [done|apply throws_update
    |intros st e st'; simpl; unfold objects_of, OscObject.getOscRootAddress, deref, mbind, M_bind;
     by destruct (heap st !! o)]).
  - unfold attempted, attempt, caught. simpl. unfold zoom.
    destruct (m (lget s)) as [[b|[]|u] c]; try done; by eexists.
  - unfold attempted, attempt, caught. simpl. unfold lo.
    destruct (m (net (rest s))) as [[b|[]|u] w]; try done; by eexists.
  - unfold attempted, attempt_ask, attempt, caught. simpl. unfold ask.
    destruct (q (net (rest s))) as [b|[]|u]; try done; by eexists.
  - apply caught_same. intros st e st'. simpl. unfold lo.
    destruct (lo_server_thread_start t _) as [[]] eqn:E; intros [=]; subst.
    by apply c_server_thread_start in E.
  - apply caught_same. intros st e st'. simpl. unfold lo.
    destruct (lo_server_thread_stop t _) as [[]] eqn:E; intros [=]; subst.
    by apply c_server_thread_stop in E.
  - unfold attempted, attempt, caught. simpl. unfold on_user.
    destruct (m (user (rest s))) as [[b|[]|u] x]; try done; by eexists.
Qed.

Lemma run_p_try {B R} (p : prog A B) (h : string → prog A R) (f : B → prog A R) s :
  run (p_try p h f) s =
    match run p s with
    | (Ret b, s') => run (f b) s'
    | (Throw (ReceiveException w), s') => run (h w) s'
    | (Throw e, s') => (Throw e, s')
    | (Undef u, s') => (Undef u, s')
    end.
Proof.
  revert s. induction p as [[b|[]|u]|D a k IH]; intros s; try done.
  cbn [p_try run]. pose proof (caught_exec a s) as Hc. unfold caught in Hc.
  unfold mbind, M_bind.
  destruct (exec a s) as [[d|e|u] s'].
  - destruct Hc as (c & -> & ->). apply IH.
  - destruct e; try (by rewrite Hc). by destruct Hc as (c & -> & ->).
  - by rewrite Hc.
Qed.
End catching.

(** ** main *)

Section main.
Context {L : Liblo} {LC : LibloC L}.
Implicit Types s : tstate.
Context (depth : nat) (storage : lo_timetag).

Ltac alone := repeat first [solve [auto 2 with lopack nocore] | run_step].

Lemma run_p_now {B} (m : M world B) s : run (p_now m) s = clock m s.
Proof. unfold p_now. by rewrite run_act. Qed.

Lemma run_p_print_tag name t after s : run (p_print_tag name t after) s = print_tag name t after s.
Proof. apply run_p_out. Qed.

#[local] Hint Resolve run_p_now run_p_print_tag : lopack.

Lemma run_p_testTimeTag s : run (p_testTimeTag storage) s = testTimeTag storage (λ _, mret tt) s.
Proof. unfold p_testTimeTag, testTimeTag. alone. Qed.

#[local] Hint Resolve run_p_testTimeTag : lopack.

Context (fuel : nat) (object : ptr).

Definition tests : M tstate unit :=
  _ ← cout_put [T_str "RECEIVER TEST (NO THREAD)"; T_endl];
  _ ← testSender storage;
  _ ← poll depth fuel;
  _ ← cout_put [T_str "DONE"; T_endl; T_endl];
  _ ← cout_put [T_str "RECEIVER TEST (THREAD)"; T_endl];
  _ ← start;
  _ ← testSender storage;
  _ ← stop;
  cout_put [T_str "DONE"; T_endl; T_endl].

Lemma run_p_tests s : run (p_tests depth storage fuel) s = tests s.
Proof. unfold p_tests, tests. alone. Qed.

Lemma run_p_end s :
  run (p_end object) s = (_ ← zoom (modify (delete object)); _ ← OscReceiver_destroy; mret 0) s.
Proof. unfold p_end, OscReceiver_destroy. alone. Qed.

(** The test program as the accesses of its main thread is the test program: run
    without a server thread, and with no time passing while it sleeps, [p_main]
    computes what [main] does, results, exceptions (those [main] catches and those
    that end it) and undefined behaviour included, from every state and on any
    liblo that throws nothing of its own. *)
Lemma main_alone s :
  run (p_main depth storage fuel object) s = main storage (λ _, mret tt) depth fuel object s.
Proof.
  unfold p_main, main.
  do 9 (apply run_cong; [solve [alone]|intros ? ?]).
  rewrite run_p_try, run_p_tests.
  match goal with |- _ = _ ?s' => transitivity
    ((_ ← catch_receive tests (λ w, cout_put [T_str "CAUGHT EXCEPTION: "; T_str w; T_endl]);
      _ ← zoom (modify (delete object)); _ ← OscReceiver_destroy; mret 0) s') end; [|done].
  unfold catch_receive, mbind at 2, M_bind at 1.
  destruct (tests _) as [[[]|[]|] s9]; try done; [apply run_p_end|].
  rewrite run_bind. unfold mbind at 1, M_bind at 1. rewrite run_p_out. apply run_p_end.
Qed.
End main.

(** ** Applications *)

(** Two packets wait at the socket of the reference liblo: the first ends the poll,
    the second is for the object. *)
Definition inbox : list datagram :=
  [Datagram 16 [("/quit", [])];
   Datagram 44 [("/object", [AInt32 123; AFloat (float_lit 45678 100); AString "foo bar"])]].
Definition main_state : tstate (L := model) :=
  Env ∅ (Console [] [])
    (App (OscReceiver_init "") (MWorld (View ∅ ∅ ∅ ∅ ∅ []) 1000 inbox None) (mkTest false)).

(** Alone, the program polls until it is told to quit, and ends. *)
Definition main_prog : prog (L := model) TestReceiver Z := p_main 4 (Timetag 0 0) 20 1%positive.

Example main_alone_returns : (run main_prog main_state).1 = Ret 0.
Proof. vm_compute. reflexivity. Qed.
