(* ===== verification/LptestThreads.v ===== *)
(** * The test program with its server thread

    [main] on one thread, the callbacks of the test on the server thread of liblo,
    in any interleaving.  What [main] does between starting the thread and
    stopping it is sending: it touches no memory the callbacks touch, and throws
    no exception [main] catches, so that the handler, and the destruction of the
    object and of the receiver after it, only run when the thread is stopped. *)
From S2P Require Import Prelude Exceptions Effects Machine Floats Liblo LibloModel OscTypes OscSender Log ReceivedMessage Vectors OscObject OscReceiver ReceiverProps Accesses Calls Threads ThreadProps ThreadTheorems Lptest LptestProps LptestPrograms LptestAlone.
Open Scope Z_scope.

(** ** What the sender throws *)

(** Not an exception [main] catches. *)
Definition uncaught (e : exn) : Prop := match e with ReceiveException _ => False | _ => True end.

Section uncaught.
Context {L : Liblo} {LC : LibloC L}.
Implicit Types st : state.

Lemma lo_message_add_throws m : 
  no_throw (lo_message_add_true m) ∧ no_throw (lo_message_add_false m) ∧
  no_throw (lo_message_add_nil m) ∧ no_throw (lo_message_add_infinitum m) ∧
  (∀ c, no_throw (lo_message_add_char m c)) ∧ (∀ z, no_throw (lo_message_add_int32 m z)) ∧
  (∀ z, no_throw (lo_message_add_int64 m z)) ∧ (∀ f, no_throw (lo_message_add_float m f)) ∧
  (∀ d, no_throw (lo_message_add_double m d)) ∧ (∀ bs, no_throw (lo_message_add_midi m bs)) ∧
  (∀ t, no_throw (lo_message_add_timetag m t)).
Proof.
  split_all; intros;
    [apply (c_message_add m ATrue)|apply (c_message_add m AFalse)|apply (c_message_add m ANil)
    |apply (c_message_add m AInfinitum)|apply (c_message_add m (AChar _))
    |apply (c_message_add m (AInt32 _))|apply (c_message_add m (AInt64 _))
    |apply (c_message_add m (AFloat _))|apply (c_message_add m (ADouble _))
    |apply (c_message_add m (AMidi _))|apply (c_message_add m (ATimetag _))].
Qed.

(** Member functions of the sender, statement by statement. *)
Ltac throws_steps :=
  repeat first
    [ solve [auto 1 with lopack nocore] | by apply throws_ret | apply throws_gets | apply throws_modify | apply throws_undef
    | by apply throws_throw
    | apply throws_zoom, throws_no;
      first [ apply c_timetag_now | apply c_address_new | apply c_address_free | apply c_message_new
            | apply c_message_free | apply c_message_add_string | apply c_message_add_symbol
            | apply c_message_add_blob | apply c_blob_new | apply c_blob_free | apply c_bundle_new
            | apply c_bundle_add_message | apply c_bundle_add_bundle
            | apply c_bundle_free_recursive | apply c_send_message | apply c_send_bundle
            | by apply lo_message_add_throws ]
    | apply throws_bind; [|intros ?]
    | case_match ].

Lemma throws_clear : throws uncaught OscSender.clear.
Proof. unfold OscSender.clear, when, bundles_front. throws_steps. Qed.

#[local] Hint Resolve throws_clear : lopack.

Lemma throws_setup address port : throws uncaught (OscSender.setup address port).
Proof. unfold OscSender.setup, when. throws_steps. Qed.

Lemma throws_send : throws uncaught send.
Proof. unfold send, bundles_front. throws_steps. Qed.

Lemma throws_destroy : throws uncaught OscSender_destroy.
Proof. unfold OscSender_destroy, when. throws_steps. Qed.

Lemma std_string_no_throw s e : std_string s ≠ Throw e.
Proof. by destruct s. Qed.

Lemma throws_operator_in i : throws uncaught (operator_in i).
Proof.
  destruct i; cbn [operator_in];
    unfold beginMessage, endMessage, addBool, addChar, addNil, addInfinitum, addInt32, addInt64,
      addFloat, addDouble, addString, addSymbol, addMidiMessage, addTimeTag, addBlob,
      beginBundle_at, open_bundle, endBundle, bundles_back; throws_steps.
  apply throws_liftO, std_string_no_throw.
Qed.

Lemma throws_getUrl : throws uncaught OscSender.getUrl.
Proof.
  intros [s w] e s'. unfold OscSender.getUrl, address_string. simpl. intros [= Hr _]. revert Hr.
  destruct (m_address s) as [a|]; [|done].
  destruct (lo_address_get_url (Some a) w) as [p|e1|u] eqn:E; [|by apply c_address_get_url in E|done].
  simpl. intros Hp. by apply std_string_no_throw in Hp.
Qed.

Lemma throws_now t : throws uncaught (TimeTag_now t).
Proof. apply throws_bind; [apply throws_no, c_timetag_now|]. intros. apply throws_ret. Qed.

Lemma throws_ms storage ms : throws uncaught (TimeTag_ms storage ms).
Proof.
  apply throws_bind; [apply throws_now|]. intros. apply throws_liftO.
  intros e. apply TimeTag_add_no_throw.
Qed.

Lemma throws_BeginBundle storage : throws uncaught (BeginBundle_default storage).
Proof. apply throws_bind; [apply throws_now|]. intros. apply throws_ret. Qed.
End uncaught.

(** ** Programs that only send and print *)

Section calm.
Context {L : Liblo} {LC : LibloC L} {A : Type}.

Definition sends {B} (a : access A B) : Prop :=
  match a with
  | OnConsole m => throws uncaught m
  | Lo m => throws uncaught m
  | _ => False
  end.

(** Only such accesses, no exception that is caught, and a result as in [Q]. *)
Fixpoint calm {R} (Q : R → Prop) (p : prog A R) : Prop :=
  match p with
  | Done (Ret x) => Q x
  | Done (Throw e) => uncaught e
  | Done (Undef _) => True
  | Step a k => sends a ∧ ∀ b, possible a b → calm Q (k b)
  end.

Lemma calm_bind {B C} (Q : B → Prop) (Q' : C → Prop) (p : prog A B) (f : B → prog A C) :
  calm Q p → (∀ b, Q b → calm Q' (f b)) → calm Q' (p ≫= f).
Proof.
  intros Hp Hf. induction p as [[b|e|u]|D a k IH]; simpl in *; [by apply Hf|done|done|].
  destruct Hp as [Ha Hk]. split; [done|]. intros d Hd. by apply IH, Hk.
Qed.

(** What the access of a [try] gives: a value of the access, or what was thrown. *)
Lemma possible_attempted {B} (a : access A B) c :
  possible (projT2 (attempted a)).1 c →
  (∃ b, possible a b ∧ (projT2 (attempted a)).2 c = inl b) ∨
  ∃ w, (projT2 (attempted a)).2 c = inr w ∧ ∃ s s', exec a s = (Throw (ReceiveException w), s').
Proof.
  intros (s & s1 & Hc). pose proof (caught_exec a s) as H. unfold caught in H. rewrite Hc in H.
  destruct (exec a s) as [[b|e|u] s'] eqn:E.
  - left. exists b. destruct H as (c' & [= <- _] & Hb). split; [by exists s, s'|done].
  - destruct e as [| | | | | |w|]; try done. right. exists w.
    destruct H as (c' & [= <- _] & Hw). split; [done|]. by exists s, s'.
  - done.
Qed.

Lemma sends_exec {B} (a : access A B) s w s' :
  sends a → exec a s = (Throw (ReceiveException w), s') → False.
Proof.
  destruct a; try done; simpl; intros Ha Hr.
  - by apply (throws_zoom uncaught _ Ha) in Hr.
  - unfold lo in Hr. destruct (m (net (rest s))) as [o w'] eqn:E. injection Hr as -> _.
    by apply Ha in E.
Qed.

(** ** Conditions of programs with a handler *)

Section wp.
Context (ok : ∀ B, access A B → Prop).
Lemma wp_try_bind {B C R} (p : prog A B) (g : B → prog A C) (h : string → prog A R) f ph r Q :
  wp ok (p_try p h (λ b, p_try (g b) h f)) ph r Q → wp ok (p_try (p ≫= g) h f) ph r Q.
Proof.
  revert ph r. induction p as [[b|[]|u]|D a k IH]; intros ph r; try done. cbn [p_try wp].
  apply after_mono. intros ph' r' d. destruct ((projT2 (attempted a)).2 d); [apply IH|done].
Qed.

(** What does not start or stop the thread. *)
Definition uncontrolled {B} (a : access A B) : Prop := controls a = false.

Lemma after_uncontrolled {B} (a : access A B) r (K : phase → flags → B → Prop) :
  uncontrolled a → (∀ r b, K Stopped r b) → after ok a Stopped r K.
Proof.
  intros Ha HK. destruct a; try done; simpl; split_all; try apply consistent_stopped; naive_solver.
Qed.

(** While the thread is stopped nothing else matters. *)
Lemma wp_uncontrolled {B} (p : prog A B) r Q :
  all_access (@uncontrolled) p → (∀ r b, Q Stopped r b) → wp ok p Stopped r Q.
Proof.
  intros Hp HQ. revert r. induction p as [[b|e|u]|D a k IH]; intros r;
    [apply HQ|apply consistent_stopped|apply consistent_stopped|].
  destruct Hp as [Ha Hk]. apply after_uncontrolled; [done|]. intros r' b. apply IH, Hk.
Qed.

Lemma wp_try_stopped {B R} (p : prog A B) (h : string → prog A R) f r Q :
  all_access (@uncontrolled) p → (∀ r w, wp ok (h w) Stopped r Q) →
  (∀ r b, wp ok (f b) Stopped r Q) → wp ok (p_try p h f) Stopped r Q.
Proof.
  intros Hp Hh Hf. revert r. induction p as [[b|[]|u]|D a k IH]; intros r;
    try apply consistent_stopped; [apply Hf|apply Hh|].
  destruct Hp as [Ha Hk]. cbn [p_try wp].
  assert (uncontrolled (projT2 (attempted a)).1) as Ha' by (by destruct a).
  apply after_uncontrolled; [done|]. intros r' c.
  destruct ((projT2 (attempted a)).2 c); [apply IH, Hk|apply Hh].
Qed.
Context (Hok : ∀ B m, ok B (OnConsole m)) (Hlo : ∀ B m, ok B (Lo m)).

(** A program that only sends keeps the flags, in any phase, and is not caught. *)
Lemma wp_try_calm {B R} (p : prog A B) (h : string → prog A R) f ph r (P : B → Prop) Q :
  consistent ph r → calm P p → (∀ b, P b → wp ok (f b) ph r Q) → wp ok (p_try p h f) ph r Q.
Proof.
  intros Hr Hp Hf. induction p as [[b|[]|u]|D a k IH]; try done; [by apply Hf|].
  destruct Hp as [Ha Hk]. cbn [p_try wp].
  assert (∀ c, possible (projT2 (attempted a)).1 c →
    wp ok match (projT2 (attempted a)).2 c with inl b => p_try (k b) h f | inr w => h w end ph r Q) as Hw.
  { intros c [(b & Hb & ->)|(w & _ & s & s' & Hs)]%possible_attempted; [by apply IH, Hk|].
    by apply sends_exec in Hs. }
  destruct a; try done; simpl in *; by split_all.
Qed.
End wp.
End calm.

(** ** testSender *)

Section sender.
Context {L : Liblo} {LC : LibloC L}.

#[local] Existing Instance sprog_ret.
#[local] Existing Instance sprog_bind.

(** What a statement may end in. *)
Definition ends_uncaught {B} (r : outcome B * OscSender) : Prop :=
  match r.1 with Throw e => uncaught e | _ => True end.

Definition calm_sender {B} (p : sprog B) : Prop := ∀ sender, calm ends_uncaught (p sender).

Lemma calm_sender_ret {B} (b : B) : calm_sender (mret b).
Proof. done. Qed.

Lemma calm_sender_bind {B C} (p : sprog B) (f : B → sprog C) :
  calm_sender p → (∀ b, calm_sender (f b)) → calm_sender (p ≫= f).
Proof.
  intros Hp Hf sender. eapply calm_bind; [apply Hp|]. intros [[b|e|u] sender']; [|done..].
  intros _. apply Hf.
Qed.

Lemma calm_p_sender {B} (m : M state B) : throws uncaught m → calm_sender (p_sender m).
Proof.
  intros Hm sender. split.
  - intros w e w'. unfold on_local.
    destruct (m (sender, w)) as [[b|e1|u] [sender' w1]] eqn:E; intros [=].
  - intros [o sender'] (s & s' & Hr). simpl in Hr. unfold OscReceiver.lo, on_local in Hr.
    destruct (m (sender, net (rest s))) as [[b|e1|u] [sender1 w1]] eqn:E; [| |done];
      injection Hr as <- _ _; [done|]. by eapply Hm.
Qed.

Lemma calm_p_clock {B} (m : M world B) : throws uncaught m → calm_sender (p_clock m).
Proof. intros Hm. by apply calm_p_sender, throws_zoom. Qed.

Lemma calm_p_out ts : calm (λ _, True) (p_out ts).
Proof. split; [by intros s e s'|done]. Qed.

Lemma calm_s_print ts : calm_sender (s_print ts).
Proof. intros sender. eapply calm_bind; [apply calm_p_out|]. done. Qed.

Lemma calm_p_stream its : calm_sender (p_stream its).
Proof.
  induction its as [|i its IH]; [apply calm_sender_ret|].
  apply calm_sender_bind; [apply calm_p_sender, throws_operator_in|]. intros []. apply IH.
Qed.

Ltac calms := repeat first
  [ apply calm_p_stream | apply calm_s_print
  | apply calm_p_sender;
    first [apply throws_send|apply throws_setup|apply throws_getUrl|apply throws_operator_in]
  | apply calm_p_clock; first [apply throws_now|apply throws_BeginBundle|apply throws_ms]
  | apply calm_sender_bind; [|intros ?] ].

Lemma calm_testSender_body storage : calm_sender (p_testSender_body storage).
Proof.
  unfold p_testSender_body, p_testSender_messages, p_testSender_bundle, p_testSender_last. calms.
Qed.

(** Whatever goes wrong in [testSender] is no exception [main] catches. *)
Lemma calm_testSender storage : calm (λ _, True) (p_testSender storage).
Proof.
  eapply calm_bind; [apply calm_testSender_body|]. intros [o sender] Ho.
  eapply calm_bind; [apply calm_p_sender, throws_destroy|]. intros [o' sender'] Ho'.
  unfold ends_uncaught in *. simpl in *. by destruct o' as [[]|e|u], o as [[]|e1|u1].
Qed.
End sender.

(** ** The callbacks, and the parts of main *)

Section parts.
Context {L : Liblo}.

Lemma modest_out ts : modest (p_out ts).
Proof. by split. Qed.

Lemma modest_out_value {B} (f : B → token) q : modest (p_out_value f q).
Proof. by repeat split. Qed.

Lemma modest_bind {B C} (p : prog TestReceiver B) (f : B → prog TestReceiver C) :
  modest p → (∀ b, modest (f b)) → modest (p ≫= f).
Proof. apply all_access_bind. Qed.

Ltac modests := repeat first
  [ done | apply modest_out | apply modest_out_value | apply modest_bind; [|intros ?] | case_match ].

Lemma modest_Object o message source : modest (p_Object_processOscMessage o message source).
Proof. unfold p_Object_processOscMessage. modests. Qed.

Lemma modest_print_args n message i : modest (p_print_args n message i).
Proof.
  revert i. induction n as [|n IH]; intros i; cbn [p_print_args]; modests; apply IH.
Qed.

Lemma modest_TestReceiver message source : modest (p_TestReceiver_process message source).
Proof.
  unfold p_TestReceiver_process, p_print_test3. modests. apply modest_print_args.
Qed.

Notation uncontrolled_prog p := (all_access (@uncontrolled L TestReceiver) p).

Lemma uncontrolled_modest {B} (p : prog TestReceiver B) : modest p → uncontrolled_prog p.
Proof. apply all_access_mono. by intros D a []. Qed.

Lemma uncontrolled_dispatch depth ds :
  uncontrolled_prog (p_lo_dispatch_all p_Object_processOscMessage p_TestReceiver_process depth ds).
Proof.
  eapply (all_access_mono (@method_access L TestReceiver)); [by intros D x []|].
  apply method_lo_dispatch_all; intros; [apply modest_Object|apply modest_TestReceiver].
Qed.
End parts.

(** ** main *)

Section main.
Context {L : Liblo} {LC : LibloC L}.
Context (depth : nat) (storage : lo_timetag) (fuel : nat) (object : ptr).

Ltac uncontrols := repeat first
  [ done | apply uncontrolled_dispatch | apply all_access_bind; [|intros ?] | case_match ].

Lemma uncontrolled_poll :
  all_access (@uncontrolled L TestReceiver) (p_poll depth fuel).
Proof.
  apply all_access_bind; [done|]. intros _.
  induction fuel as [|n IH]; cbn [p_poll_loop]; uncontrols.
Qed.
#[local] Notation wp := (wp (A := TestReceiver) caller_access).

(** At the end: the thread is stopped, and its handle forgotten. *)
Definition over (ph : phase) (r : flags) : Prop := ph = Stopped ∧ f_thread r = None.
Definition ends_over {B} (ph : phase) (r : flags) (_ : B) : Prop := over ph r.

Lemma wp_p_stop ph r Q : consistent ph r →
  (∀ r', f_thread r' = f_thread r → Q Stopped r' tt) → wp p_stop ph r Q.
Proof.
  intros Hr HQ. split; [done|]. intros t ->. simpl. case_bool_decide as Ht; simpl.
  - destruct (decide (ph = Stopped)) as [->|Hph]; [by apply HQ|]. by destruct (Hr Hph).
  - split; [done|]. intros z. split_all; try done. by apply HQ.
Qed.

Lemma wp_p_clear ph r Q : consistent ph r →
  (∀ r', f_thread r' = None → Q Stopped r' tt) → wp p_clear ph r Q.
Proof.
  intros Hr HQ. apply wp_bind, wp_p_stop; [done|]. intros r' _. split; [done|]. intros t ->.
  simpl. case_bool_decide as Ht; simpl; split_all; try done; apply HQ; [done|].
  by destruct (f_thread r').
Qed.

Lemma wp_p_end r : wp (p_end object) Stopped r ends_over.
Proof.
  apply wp_bind. split; [apply consistent_stopped|]. split; [done|]. intros ? _.
  by apply wp_bind, wp_p_clear; [apply consistent_stopped|].
Qed.

(** Starting the thread, and stopping it, in a block with a handler. *)
Section try.
Context (h : string → prog TestReceiver Z) (Q : phase → flags → Z → Prop).
Context (Hh : ∀ r w, wp (h w) Stopped r Q).

Lemma wp_try_start r f :
  wp (f tt) Stopped r Q → (∀ t, wp (f tt) Started (Flags true (Some t)) Q) →
  wp (p_try p_start h f) Stopped r Q.
Proof.
  intros Hs Hf. split; [done|]. intros t Ht. simpl. destruct t as [t|]; simpl.
  - split; [apply consistent_stopped|]. split; [done|]. intros z. split; [done|].
    destruct r as [b t']. simpl in Ht. subst t'. apply Hf.
  - split; [apply consistent_stopped|]. split; [done|]. intros [[]|w] _; [done|apply Hh].
Qed.

Lemma wp_try_stop ph r f : consistent ph r →
  (∀ r, wp (f tt) Stopped r Q) → wp (p_try p_stop h f) ph r Q.
Proof.
  intros Hr Hf. split; [done|]. intros t ->. simpl. case_bool_decide as Ht; simpl.
  - destruct (decide (ph = Stopped)) as [->|Hph]; [apply Hf|]. by destruct (Hr Hph).
  - split; [done|]. intros z. by split_all.
Qed.

Lemma wp_tests f r : (∀ r, wp (f tt) Stopped r Q) →
  wp (p_try (p_tests depth storage fuel) h f) Stopped r Q.
Proof.
  intros Hf.
  assert (∀ (ts : list token) g ph r, consistent ph r → (∀ b, wp (g b) ph r Q) →
    wp (p_try (p_out ts) h g) ph r Q) as Hout
    by (intros; eapply (wp_try_calm _); [done|done|done|apply calm_p_out|done]).
  assert (∀ g ph r, consistent ph r → (∀ b, wp (g b) ph r Q) →
    wp (p_try (p_testSender storage) h g) ph r Q) as Hsend
    by (intros; eapply (wp_try_calm _); [done|done|done|apply calm_testSender|done]).
  apply wp_try_bind, Hout; [apply consistent_stopped|]. intros ?.
  apply wp_try_bind, Hsend; [apply consistent_stopped|]. intros ?.
  apply wp_try_bind, wp_try_stopped; [apply uncontrolled_poll|done|]. clear r. intros r ?.
  apply wp_try_bind, Hout; [apply consistent_stopped|]. intros ?.
  apply wp_try_bind, Hout; [apply consistent_stopped|]. intros ?.
  assert (∀ ph r, consistent ph r →
    wp (p_try (_ ← p_testSender storage; _ ← p_stop; p_out [T_str "DONE"; T_endl; T_endl]) h f)
      ph r Q) as Hrest.
  { intros ph r' Hr. apply wp_try_bind, Hsend; [done|]. intros ?.
    apply wp_try_bind, wp_try_stop; [done|]. intros r1.
    apply Hout; [apply consistent_stopped|]. intros []. apply Hf. }
  apply wp_try_bind, wp_try_start; [apply Hrest, consistent_stopped|].
  intros t. apply Hrest. apply consistent_true.
Qed.
End try.

Lemma wp_main r : wp (p_main depth storage fuel object) Stopped r ends_over.
Proof.
  assert (∀ {B} (p : prog TestReceiver B) f r, all_access (@uncontrolled L TestReceiver) p →
    (∀ r b, wp (f b) Stopped r (@ends_over Z)) → wp (p ≫= f) Stopped r ends_over) as Hstep
    by (intros; apply wp_bind; by apply wp_uncontrolled).
  unfold p_main.
  do 9 (apply Hstep; [uncontrols|clear r; intros r ?]).
  apply wp_tests; [|intros; apply wp_p_end].
  intros r1 w. apply Hstep; [done|]. intros. apply wp_p_end.
Qed.

Lemma tinv_main s : tinv caller_access over
  (Config s Stopped (Some (forget (p_main depth storage fuel object))) None).
Proof. apply tinv_program. apply wp_bind. by apply wp_main. Qed.

Lemma over_consistent ph r : over ph r → consistent ph r.
Proof. intros [-> _]. apply consistent_stopped. Qed.

(** C8: the test program never races with its server thread: in every state the
    two threads can reach, whatever messages come in and however the accesses of
    [main] and of the callbacks are interleaved, their next accesses do not
    conflict, the data of the program included.  The method runs only while the
    thread is started, and when [main] has returned the thread is stopped and its
    handle forgotten; no handler runs, and nothing is destroyed, before. *)
Theorem main_race_free {T : ServerThread} {TL : ServerThreadLaws T} s c :
  rtc (step p_Object_processOscMessage p_TestReceiver_process depth (λ _ _ _, False))
    (Config s Stopped (Some (forget (p_main depth storage fuel object))) None) c →
  racy c = false ∧
  (server_phase c = Stopped → method c = None) ∧
  (caller c = Some (Done (Ret tt)) →
   server_phase c = Stopped ∧ m_serverThread (rcv (memory c)) = None).
Proof.
  intros Hc.
  assert (tinv caller_access over c) as Hi.
  { eapply (tinv_steps p_Object_processOscMessage p_TestReceiver_process depth
      modest_Object modest_TestReceiver (λ _ _ _, False)); [| |apply Hc|].
    - apply over_consistent.
    - done.
    - apply tinv_main. }
  split; [by eapply tinv_not_racy|]. destruct Hi as (Hj & _ & Hp). split; [done|].
  intros Hn. by rewrite Hn in Hp.
Qed.
End main.

(** ** Applications *)

Definition main_start : config (L := model) TestReceiver :=
  Config main_state Stopped (Some (forget main_prog)) None.

Definition main_schedule :=
  schedule (L := model) p_Object_processOscMessage p_TestReceiver_process 4 model_deliver.
Definition main_reached (ts : list turn) : config (L := model) TestReceiver :=
  default main_start (main_schedule ts main_start).

(** The thread receives the message for the object while [main] sends, and [main]
    waits for the method to end. *)
Definition main_sends : list turn :=
  repeat Turn_caller 127 ++ Turn_deliver :: repeat Turn_method 10 ++ repeat Turn_caller 65.
Definition main_ends : list turn := main_sends ++ repeat Turn_method 17 ++ repeat Turn_caller 12.

Definition finished (c : config (L := model) TestReceiver) : bool :=
  match caller c with Some (Done (Ret tt)) => true | _ => false end.

(** At the stop the method is still running; at the end everything is over, and
    the object has got its message. *)
Example main_runs :
  let c := main_reached main_sends in let c' := main_reached main_ends in
  (server_phase c, busy (method c), finished c', server_phase c',
   bool_decide (T_str "Object: received message " ∈ cout (con (memory c'))))
  = (Stopping, true, true, Stopped, true).
Proof. vm_compute. reflexivity. Qed.

Lemma main_reaches (ts : list turn) :
  Forall (turn_allowed (λ _ _ _, False)) ts →
  bool_decide (is_Some (main_schedule ts main_start)) = true →
  rtc (step p_Object_processOscMessage p_TestReceiver_process 4 (λ _ _ _, False))
    main_start (main_reached ts).
Proof.
  intros Hts [c Hc]%bool_decide_eq_true.
  eapply (schedule_steps (L := model) p_Object_processOscMessage p_TestReceiver_process 4
    (λ _ _ _, False) model_deliver); [|done|].
  - intros w d w' Hd. by split.
  - unfold main_reached. by rewrite Hc.
Qed.

Lemma main_race_free_witness :
  let c := main_reached main_ends in
  racy c = false ∧ (server_phase c = Stopped → method c = None) ∧
  (caller c = Some (Done (Ret tt)) →
   server_phase c = Stopped ∧ m_serverThread (rcv (memory c)) = None).
Proof.
  apply (main_race_free (L := model) 4 (Timetag 0 0) 20 1%positive main_state).
  apply main_reaches; [|by vm_compute].
  unfold main_ends, main_sends.
  repeat first [apply Forall_app; split | apply Forall_cons; split | apply Forall_replicate]; try done.
Defined.
