(* ===== verification/LptestMemory.v ===== *)
(** * The objects of the test program, used by two threads

    [guarded] runs a program on the vector of the receiver and the heap of objects: what
    is read from them is what they hold, an access to an object needs the object,
    and while the server thread may run nothing changes them.  [main] and the
    method satisfy it, so that on every schedule an object is there when it is
    used. *)
From S2P Require Import Prelude Exceptions Effects Machine Floats Liblo LibloModel OscTypes OscSender Log ReceivedMessage Vectors OscObject OscReceiver ReceiverProps Accesses Calls Threads ThreadProps ThreadTheorems Lptest LptestProps LptestPrograms LptestAlone LptestThreads.
Open Scope Z_scope.

(** The vector and the handle of the receiver, and the objects. *)
Record mem : Type := Mem {
  g_objects : vec (option ptr); g_thread : option ptr; g_heap : gmap ptr OscObject }.

Definition is_kept {B} (f : member B) : bool :=
  match f with F_objects | F_serverThread => true | _ => false end.
Definition observed {B} (f : member B) (g : mem) : B → Prop :=
  match f with
  | F_objects => λ v, v = g_objects g
  | F_serverThread => λ t, t = g_thread g
  | _ => λ _, True
  end.
Definition stored {B} (f : member B) (g : mem) : B → mem :=
  match f with
  | F_objects => λ v, Mem v (g_thread g) (g_heap g)
  | F_serverThread => λ t, Mem (g_objects g) t (g_heap g)
  | _ => λ _, g
  end.

Section gp.
Context {L : Liblo} {A : Type}.
Implicit Types s : rstate A.

(** What has to hold of the memory when the server thread is started. *)
Context (ready : mem → Prop).

Definition mem_of s : mem := Mem (m_objects (rcv s)) (m_serverThread (rcv s)) (heap s).

(** The object, and an update of it. *)
Definition reading {B} (o : ptr) (f : OscObject → B) (g : mem) (K : B → Prop) : Prop :=
  ∃ ob, g_heap g !! o = Some ob ∧ K (f ob).
Definition writing (o : ptr) (f : OscObject → OscObject) (g : mem) (K : mem → Prop) : Prop :=
  ∃ ob, g_heap g !! o = Some ob ∧ K (Mem (g_objects g) (g_thread g) (<[o := f ob]> (g_heap g))).

Definition after_g {B} (a : access A B) (ph : phase) (g : mem) : (phase → mem → B → Prop) → Prop :=
  match a with
  | Read f => λ K, ∀ b, observed f g b → K ph g b
  | Write f x => λ K, (is_kept f = true → ph = Stopped) ∧ K ph (stored f g x) tt
  | ReadObjects o => λ K, reading o oo_objects g (K ph g)
  | WriteObjects o v => λ K, ph = Stopped ∧ writing o (set_objects v) g (λ g, K ph g tt)
  | ReadRoot o => λ K, reading o oscRootAddress g (K ph g)
  | WriteRoot o r => λ K, ph = Stopped ∧ writing o (set_root r) g (λ g, K ph g tt)
  | NewObject o ob => λ K, ph = Stopped ∧ K ph (Mem (g_objects g) (g_thread g) (<[o := ob]> (g_heap g))) tt
  | FreeObject o => λ K, ph = Stopped ∧ K ph (Mem (g_objects g) (g_thread g) (delete o (g_heap g))) tt
  | ThreadStart _ => λ K, ready g ∧ ∀ z, K Started g z
  | ThreadStop _ => λ K, ∀ z, K Stopped g z
  | a => λ K, ∀ b, possible a b → K ph g b
  end.

Fixpoint guarded {R} (p : prog A R) (ph : phase) (g : mem) (Q : phase → mem → R → Prop) : Prop :=
  match p with
  | Done (Ret x) => Q ph g x
  | Done _ => True
  | Step a k => after_g a ph g (λ ph' g' b, guarded (k b) ph' g' Q)
  end.

#[local] Notation gp := guarded.

Lemma after_g_mono {B} (a : access A B) ph g (K K' : phase → mem → B → Prop) :
  (∀ ph g b, K ph g b → K' ph g b) → after_g a ph g K → after_g a ph g K'.
Proof. intros HK. destruct a; simpl; unfold reading, writing; naive_solver. Qed.

Lemma gp_bind {B C} (p : prog A B) (f : B → prog A C) ph g Q :
  gp p ph g (λ ph g b, gp (f b) ph g Q) → gp (p ≫= f) ph g Q.
Proof.
  revert ph g. induction p as [[b|e|u]|D a k IH]; intros ph g; [done..|]. simpl.
  apply after_g_mono. intros ph' g' d. apply IH.
Qed.

(** What does not concern the objects. *)
Definition plain {B} (a : access A B) : Prop :=
  match a with
  | Read f => True
  | Write f _ => is_kept f = false
  | OnConsole _ | Lo _ | Ask _ | User _ => True
  | _ => False
  end.

Lemma after_plain {B} (a : access A B) ph g (K : phase → mem → B → Prop) :
  plain a → (∀ b, K ph g b) → after_g a ph g K.
Proof. intros Ha HK. destruct a; try done; simpl in *; auto. by destruct f. Qed.

Lemma gp_plain {B} (p : prog A B) ph g Q : all_access (@plain) p → (∀ b, Q ph g b) → gp p ph g Q.
Proof.
  intros Hp HQ. induction p as [[b|e|u]|D a k IH]; try done; [apply HQ|].
  destruct Hp as [Ha Hk]. apply after_plain; [done|]. intros b. apply IH, Hk.
Qed.

(** ** Steps *)

Lemma mem_of_other {B} (a : access A B) s : plain a ∨ controls a = true → mem_of (exec a s).2 = mem_of s.
Proof.
  unfold mem_of, rcv.
  intros [Ha|Ha]; destruct a; try done; simpl; unfold zoom, OscReceiver.lo, on_user.
  - by destruct f.
  - by destruct (m (lget s)).
  - by destruct (m (net (rest s))).
  - by destruct (m (user (rest s))).
  - by destruct (lo_server_thread_start t _).
  - by destruct (lo_server_thread_stop t _).
Qed.

Lemma after_g_exec {B} (a : access A B) ph s K : controls a = false →
  after_g a ph (mem_of s) K →
  (ph ≠ Stopped → mem_of (exec a s).2 = mem_of s) ∧
  ∀ b, (exec a s).1 = Ret b → K ph (mem_of (exec a s).2) b.
Proof.
  intros Hc Ha. destruct a; try done; simpl in Ha.
  - split; [by intros; apply mem_of_other; left|]. intros b [= <-]. rewrite mem_of_other by by left.
    apply Ha. by destruct f.
  - destruct Ha as [Hs Ha]. split; [|by intros [] _; destruct f].
    intros Hph. by destruct f; try done; destruct (Hph (Hs eq_refl)).
  - destruct Ha as (ob & Ho & Ha). simpl in Ho |- *. unfold objects_of, deref, mbind, M_bind.
    rewrite Ho. simpl. split; [done|]. by intros b [= <-].
  - destruct Ha as (-> & ob & Ho & Ha). simpl in Ho |- *. unfold update, deref, mbind, M_bind.
    rewrite Ho. simpl. split; [done|]. by intros [] _.
  - destruct Ha as (ob & Ho & Ha). simpl in Ho |- *.
    unfold OscObject.getOscRootAddress, deref, mbind, M_bind.
    rewrite Ho. simpl. split; [done|]. by intros b [= <-].
  - destruct Ha as (-> & ob & Ho & Ha). simpl in Ho |- *.
    unfold OscObject.setOscRootAddress, update, deref, mbind, M_bind.
    rewrite Ho. simpl. split; [done|]. by intros [] _.
  - destruct Ha as [-> Ha]. split; [done|]. by intros [] _.
  - destruct Ha as [-> Ha]. split; [done|]. by intros [] _.
  - rewrite mem_of_other by by left. split; [done|]. intros b Hb. apply Ha.
    destruct (exec _ s) as [o s'] eqn:E. exists s, s'. simpl in Hb. by rewrite <- Hb.
  - rewrite mem_of_other by by left. split; [done|]. intros b Hb. apply Ha.
    destruct (exec _ s) as [o s'] eqn:E. exists s, s'. simpl in Hb. by rewrite <- Hb.
  - rewrite mem_of_other by by left. split; [done|]. intros b Hb. apply Ha.
    destruct (exec _ s) as [o s'] eqn:E. exists s, s'. simpl in Hb. by rewrite <- Hb.
  - rewrite mem_of_other by by left. split; [done|]. intros b Hb. apply Ha.
    destruct (exec _ s) as [o s'] eqn:E. exists s, s'. simpl in Hb. by rewrite <- Hb.
Qed.

Lemma gp_advance {R B} (a : access A B) (k : B → prog A R) ph s p' s' Q : controls a = false →
  gp (Step a k) ph (mem_of s) Q → advance (Step a k) s = Some (p', s') →
  gp p' ph (mem_of s') Q ∧ (ph ≠ Stopped → mem_of s' = mem_of s).
Proof.
  intros Hc Hg [= He]. apply (after_g_exec a ph s) in Hg as [Hm Hk]; [|done].
  destruct (exec a s) as [[b|e|u] s1]; injection He as <- <-; split; try done; by apply Hk.
Qed.
End gp.

(** ** Handlers *)

Section handlers.
Context {L : Liblo} {LC : LibloC L} {A : Type} (ready : mem → Prop).

#[local] Notation gp := (guarded (A := A) ready).

Lemma gp_try_bind {B C R} (p : prog A B) (h : string → prog A R) (g : B → prog A C) f ph m Q :
  gp (p_try p h (λ b, p_try (g b) h f)) ph m Q → gp (p_try (p ≫= g) h f) ph m Q.
Proof.
  revert ph m. induction p as [[b|[]|u]|D a k IH]; intros ph m; try done. cbn [p_try guarded].
  apply after_g_mono. intros ph' m' d. destruct ((projT2 (attempted a)).2 d); [apply IH|done].
Qed.

(** The access of a [try] is the access, when nothing is caught. *)
Lemma after_attempted {B} (a : access A B) ph m (K : phase → mem → B → Prop) K' :
  (∀ c b ph m, (projT2 (attempted a)).2 c = inl b → K ph m b → K' ph m c) →
  (∀ c w, (projT2 (attempted a)).2 c = inr w →
     (∃ s s', exec a s = (Throw (ReceiveException w), s')) → K' ph m c) →
  after_g ready a ph m K → after_g ready (projT2 (attempted a)).1 ph m K'.
Proof.
  intros HK Hw Ha.
  assert (∀ c, (∀ b, possible a b → K ph m b) → possible (projT2 (attempted a)).1 c → K' ph m c) as Hc.
  { intros c Hb [(b & Hp & Hc)|(w & Hc & Hs)]%possible_attempted; [by eapply HK, Hb|by eapply Hw]. }
  destruct a; simpl in *; try (by intros c Hp; apply Hc); revert Ha; unfold reading, writing;
    naive_solver.
Qed.

Lemma gp_try_calm {B R} (p : prog A B) (h : string → prog A R) f ph m (P : B → Prop) Q :
  calm P p → (∀ b, P b → gp (f b) ph m Q) → gp (p_try p h f) ph m Q.
Proof.
  intros Hp Hf. induction p as [[b|[]|u]|D a k IH]; try done; [by apply Hf|].
  destruct Hp as [Ha Hk]. cbn [p_try guarded].
  assert (∀ c, possible (projT2 (attempted a)).1 c →
    gp match (projT2 (attempted a)).2 c with inl b => p_try (k b) h f | inr w => h w end ph m Q) as Hw.
  { intros c [(b & Hb & ->)|(w & _ & s & s' & Hs)]%possible_attempted; [by apply IH, Hk|].
    by apply sends_exec in Hs. }
  by destruct a.
Qed.

(** While the thread is stopped the handler may run at any point. *)
Lemma gp_try_stopped {B R} (p : prog A B) (h : string → prog A R) f m Q Q' :
  all_access (@uncontrolled L A) p → (∀ m w, gp (h w) Stopped m Q) →
  (∀ m b, Q' Stopped m b → gp (f b) Stopped m Q) →
  gp p Stopped m Q' → gp (p_try p h f) Stopped m Q.
Proof.
  intros Hu Hh Hf. revert m. induction p as [[b|[]|u]|D a k IH]; intros m Hp; try done;
    [by apply Hf|apply Hh|].
  destruct Hu as [Ha Hu]. cbn [p_try guarded] in *.
  assert (after_g ready a Stopped m (λ ph m b, ph = Stopped ∧ gp (k b) ph m Q')) as Hp'.
  { destruct a; try done; simpl in *; unfold reading, writing in *; naive_solver. }
  revert Hp'. apply after_attempted.
  - intros c b ph m' -> [-> Hk]. by apply IH.
  - intros c w -> _. apply Hh.
Qed.
End handlers.

(** ** The method *)

(** Every access of a program is plain. *)
Ltac plains := repeat first
  [ done | apply all_access_bind; [|intros ?] | case_match ].

Section method.
Context {L : Liblo} (object : ptr).

(** The object is there, and attached to the receiver. *)
Definition in_place (g : mem) : Prop :=
  g_heap g !! object = Some Object_new ∧ elems (g_objects g) = [Some object].

(** And the receiver has a handle to stop the thread with. *)
Definition ready (g : mem) : Prop := in_place g ∧ g_thread g ≠ None.

#[local] Notation gp := (guarded (A := TestReceiver) ready).

(** Programs that leave the phase and the objects as they are. *)
Definition keeping {B} (p : prog TestReceiver B) : Prop := ∀ ph g Q,
  in_place g → (∀ b, Q ph g b) → gp p ph g Q.

Lemma keeping_bind {B C} (p : prog TestReceiver B) (f : B → prog TestReceiver C) :
  keeping p → (∀ b, keeping (f b)) → keeping (p ≫= f).
Proof. intros Hp Hf ph g Q Hg HQ. apply gp_bind, Hp; [done|]. intros b. by apply Hf. Qed.

Lemma keeping_plain {B} (p : prog TestReceiver B) : all_access (@plain L TestReceiver) p → keeping p.
Proof. intros Hp ph g Q _ HQ. by apply gp_plain. Qed.

Lemma plain_print_args n message i : all_access (@plain L TestReceiver) (p_print_args n message i).
Proof. revert i. induction n as [|n IH]; intros i; cbn [p_print_args]; plains. Qed.

Lemma keeping_TestReceiver message source : keeping (p_TestReceiver_process message source).
Proof.
  apply keeping_plain. unfold p_TestReceiver_process, p_print_test3. plains. apply plain_print_args.
Qed.

Lemma keeping_Object message source : keeping (p_Object_processOscMessage object message source).
Proof.
  intros ph g Q Hg HQ. exists Object_new. split; [apply Hg|].
  apply gp_plain; [|done]. plains.
Qed.

Lemma keeping_processOsc depth message source :
  keeping (p_processOsc p_Object_processOscMessage depth object message source).
Proof.
  destruct depth as [|depth]; [done|]. intros ph g Q Hg HQ.
  exists Object_new. split; [apply Hg|]. exists Object_new. split; [apply Hg|].
  by apply keeping_Object.
Qed.

(** The loop over the vector: the object is asked, and the end is reached. *)
Lemma keeping_dispatch_all write removed call :
  keeping (call object) → keeping (p_dispatch_all (act (Read F_objects)) write removed call).
Proof.
  intros Hc ph g Q Hg HQ. pose proof Hg as [_ He]. unfold p_dispatch_all. apply gp_bind.
  intros v ->. cbn [guarded]. rewrite He. cbn [length p_dispatch]. apply gp_bind.
  intros v ->. cbn [guarded]. rewrite bool_decide_false by (by intros []). rewrite He.
  cbn. apply gp_bind, Hc; [done|]. intros []; [apply HQ|]. intros v ->. cbn [pbind guarded].
  rewrite bool_decide_false by (by intros []). rewrite He. apply HQ.
Qed.

Lemma keeping_processMessage depth message source :
  keeping (p_processMessage p_Object_processOscMessage p_TestReceiver_process depth message source).
Proof.
  apply keeping_bind; [by apply keeping_plain|]. intros []; [by apply keeping_plain|].
  apply keeping_bind; [apply keeping_dispatch_all, keeping_processOsc|].
  intros []; [by apply keeping_plain|].
  apply keeping_bind; [apply keeping_TestReceiver|]. intros []; by apply keeping_plain.
Qed.

Lemma keeping_lo_dispatch depth d :
  keeping (p_lo_dispatch p_Object_processOscMessage p_TestReceiver_process depth d).
Proof.
  apply keeping_bind; [|intros ?; by apply keeping_plain].
  apply keeping_bind; [by apply keeping_plain|]. intros message.
  apply keeping_bind; [by apply keeping_plain|]. intros source.
  apply keeping_bind; [apply keeping_processMessage|]. intros b. by apply keeping_plain.
Qed.

Lemma keeping_handleMessages depth t :
  keeping (p_handleMessages p_Object_processOscMessage p_TestReceiver_process depth t).
Proof.
  apply keeping_bind; [by apply keeping_plain|]. intros th. case_bool_decide; [by apply keeping_plain|].
  apply keeping_bind; [by apply keeping_plain|]. intros []; [by apply keeping_plain|].
  apply keeping_bind; [by apply keeping_plain|]. intros server.
  apply keeping_bind; [by apply keeping_plain|]. intros [n ds].
  apply keeping_bind; [|intros ?; by apply keeping_plain].
  induction ds as [|d ds IH]; [by apply keeping_plain|].
  apply keeping_bind; [apply keeping_lo_dispatch|]. intros ?. apply IH.
Qed.

Lemma keeping_poll depth fuel : keeping (p_poll depth fuel).
Proof.
  apply keeping_bind; [by apply keeping_plain|]. intros ?.
  induction fuel as [|fuel IH]; cbn [p_poll_loop];
    (apply keeping_bind; [by apply keeping_plain|]); intros []; try by apply keeping_plain.
  apply keeping_bind; [apply keeping_handleMessages|]. intros num.
  apply keeping_bind; [case_bool_decide; by apply keeping_plain|]. intros ?. apply IH.
Qed.
End method.

(** ** main *)

Section main.
Context {L : Liblo} {LC : LibloC L}.
Context (depth : nat) (storage : lo_timetag) (fuel : nat) (object : ptr).

#[local] Notation gp := (guarded (A := TestReceiver) (ready object)).
#[local] Notation plain_prog p := (all_access (@plain L TestReceiver) p).

Definition anything {B} (ph : phase) (g : mem) (_ : B) : Prop := True.

Lemma gp_stopping ph g Q : (ph = Stopped ∨ g_thread g ≠ None) → Q Stopped g tt → gp p_stop ph g Q.
Proof.
  intros Hg HQ t ->. simpl. case_bool_decide as Ht; [|done].
  by destruct Hg as [->|[]].
Qed.

Lemma gp_p_end g : gp (p_end object) Stopped g anything.
Proof.
  apply gp_bind. split; [done|]. apply gp_bind, gp_bind, gp_stopping; [by left|].
  intros t ->. simpl. by destruct (g_thread g).
Qed.

Section try.
Context (h : string → prog TestReceiver Z) (f : unit → prog TestReceiver Z).
Context (Hh : ∀ g w, gp (h w) Stopped g anything) (Hf : ∀ g, gp (f tt) Stopped g anything).

Lemma gp_tests g : in_place object g →
  gp (p_try (p_tests depth storage fuel) h f) Stopped g anything.
Proof.
  intros Hg.
  assert (∀ (ts : list token) k ph g, (∀ b, gp (k b) ph g anything) →
    gp (p_try (p_out ts) h k) ph g anything) as Hout
    by (intros; eapply gp_try_calm; [apply calm_p_out|done]).
  assert (∀ k ph g, (∀ b, gp (k b) ph g anything) →
    gp (p_try (p_testSender storage) h k) ph g anything) as Hsend
    by (intros; eapply gp_try_calm; [apply calm_testSender|done]).
  apply gp_try_bind, Hout. intros ?.
  apply gp_try_bind, Hsend. intros ?.
  apply gp_try_bind, (gp_try_stopped _ _ _ _ _ _ (λ ph g' _, g' = g));
    [apply uncontrolled_poll|done| |by apply keeping_poll].
  intros ? ? ->.
  apply gp_try_bind, Hout. intros ?.
  apply gp_try_bind, Hout. intros ?.
  assert (∀ ph, (ph = Stopped ∨ g_thread g ≠ None) →
    gp (p_try (_ ← p_testSender storage; _ ← p_stop; p_out [T_str "DONE"; T_endl; T_endl]) h f)
      ph g anything) as Hrest.
  { intros ph Hr. apply gp_try_bind, Hsend. intros ?. apply gp_try_bind.
    intros t ->. simpl. case_bool_decide; simpl.
    - destruct Hr as [->|[]]; [|done]. intros [[]|w] _; [apply Hf|apply Hh].
    - intros z. split; [done|]. split; [done|]. intros [[]|w] _; [apply Hf|apply Hh]. }
  apply gp_try_bind. intros t Ht. simpl. case_bool_decide; simpl.
  - intros [[]|w] _; [|apply Hh]. apply Hrest. by left.
  - split; [by rewrite Ht in *|]. intros z. split; [done|]. apply Hrest. right. by rewrite Ht in *.
Qed.
End try.

Lemma gp_p_setup port g Q : (∀ t b, Q Stopped (Mem (g_objects g) t (g_heap g)) b) →
  gp (p_setup port) Stopped g Q.
Proof.
  intros HQ t ->. simpl. case_bool_decide as Ht; simpl.
  - intros [] _. destruct g. apply HQ.
  - intros t' _. split; [done|]. case_bool_decide; simpl.
    + intros [] _. apply HQ.
    + intros [] _. split; [done|]. apply HQ.
Qed.

Lemma gp_p_new g Q : Q Stopped (Mem vec_empty None (g_heap g)) tt →
  gp p_TestReceiver_new Stopped g Q.
Proof. intros HQ. simpl. by split_all; intros [] _. Qed.

Lemma gp_main g : gp (p_main depth storage fuel object) Stopped g anything.
Proof.
  assert (∀ {B} (p : prog TestReceiver B) f g, plain_prog p →
    (∀ b, gp (f b) Stopped g (@anything Z)) → gp (p ≫= f) Stopped g anything) as Hplain
    by (intros; apply gp_bind; by apply gp_plain).
  unfold p_main.
  do 3 (apply Hplain; [plains|intros ?]).
  apply gp_bind, gp_p_new.
  apply gp_bind, gp_p_setup. intros t ?.
  do 2 (apply Hplain; [plains|intros ?]).
  apply gp_bind. split; [done|].
  apply gp_bind. intros v ->. split; [done|].
  apply gp_tests; [|intros; apply gp_p_end|].
  - intros g1 w. apply Hplain; [done|]. intros ?. apply gp_p_end.
  - split; [apply lookup_insert_eq|done].
Qed.

(** ** Every schedule *)

#[local] Notation test_step := (step p_Object_processOscMessage p_TestReceiver_process depth (λ _ _ _, False)).

(** The next access is not to an object that is gone. *)
Definition access_live {B} (a : access TestReceiver B) (s : tstate) : Prop :=
  match a with
  | ReadObjects o | WriteObjects o _ | ReadRoot o | WriteRoot o _ => is_Some (heap s !! o)
  | _ => True
  end.
Definition next_live {R} (p : prog TestReceiver R) (s : tstate) : Prop :=
  match p with Done _ => True | Step a _ => access_live a s end.

Lemma gp_next {R} (p : prog TestReceiver R) ph s Q : gp p ph (mem_of s) Q → next_live p s.
Proof.
  destruct p as [|B a k]; [done|]. simpl.
  destruct a; try done; [intros (ob & Ho & _)|intros (_ & ob & Ho & _)
    |intros (ob & Ho & _)|intros (_ & ob & Ho & _)]; by exists ob.
Qed.

(** While the thread may run the object is in place; what is left of the two programs
    is in order. *)
Definition minv (c : config TestReceiver) : Prop :=
  (server_phase c ≠ Stopped → in_place object (mem_of (memory c))) ∧
  (∀ p, caller c = Some p → gp p (server_phase c) (mem_of (memory c)) anything) ∧
  (∀ q, method c = Some q → all_access (@method_access L TestReceiver) q ∧
     gp q Started (mem_of (memory c)) anything).

Lemma minv_step {T : ServerThread} {TL : ServerThreadLaws T} c c' :
  test_step c c' → (server_phase c = Stopped → method c = None) → minv c → minv c'.
Proof.
  intros Hs Hj (Hi & Hp & Hm).
  destruct Hs as [s ph j B d Hd|s s' ph B a k p' j Hc Ha|s s' ph t k z j He|s t k j
    |s s' ph t k p' j Hph Hr Ha|s ph o j Ho|s ph d m w' Hd|s ph d e w' Hd|s s' ph d q q' Ha|s ph d];
    unfold minv; simpl in Hj, Hi, Hp, Hm |- *; [done|..].
  - destruct (gp_advance (ready object) a k ph s p' s' anything Hc (Hp _ eq_refl) Ha) as [Hp' Hmem].
    split_all.
    + intros Hph. rewrite Hmem by done. by apply Hi.
    + by intros p [= <-].
    + intros q ->. destruct (decide (ph = Stopped)) as [E|Hph]; [by specialize (Hj E)|].
      rewrite Hmem by done. by apply Hm.
  - pose proof (mem_of_other (ThreadStart t) s (or_intror eq_refl)) as Hmem. rewrite He in Hmem.
    simpl in Hmem. rewrite Hmem. destruct (Hp _ eq_refl) as [[Hin _] Hk].
    split_all. intros p [= <-]. apply Hk.
  - split_all; [by intros _; apply Hi|intros p [= <-]; apply (Hp _ eq_refl)].
  - pose proof (mem_of_other (ThreadStop t) s (or_intror eq_refl)) as Hmem.
    specialize (Hp _ eq_refl). unfold advance in Ha.
    destruct (exec (ThreadStop t) s) as [[b|e|u] s1]; injection Ha as <- <-; simpl in Hmem;
      rewrite Hmem; split_all; intros p [= <-]; [apply Hp|done..].
  - by split_all.
  - assert (mem_of (on_net w' s) = mem_of s) as -> by done.
    split_all. intros q [= <-]. split.
    + apply method_lo_dispatch; intros; [apply modest_Object|apply modest_TestReceiver].
    + apply keeping_lo_dispatch; [|done]. apply Hi. by rewrite (law_delivers _ _ _ _ Hd).
  - assert (mem_of (on_net w' s) = mem_of s) as -> by done.
    split_all; intros q [= <-]. split; [done|]. simpl. by destruct (errorCB _ _ _).
  - destruct (Hm _ eq_refl) as [Ha0 Hg]. destruct q as [|B a k]; [done|].
    destruct (method_advance _ _ _ _ Ha0 Ha) as [Ha' _].
    destruct (gp_advance (ready object) a k Started s q' s' anything) as [Hq Hmem];
      [apply Ha0|done|done|].
    rewrite Hmem by done. split_all. intros q0 [= <-].
    split; [done|]. by rewrite <- Hmem.
  - by split_all.
Qed.

(** C9: in the test program no thread uses an object that is gone: in every state the
    two threads can reach, whatever messages come in and however the threads are
    interleaved, an object whose members the next access of either thread reads
    or writes exists.  As long as the server thread may run, the object of [main]
    is the one in the list of the receiver, and is as it was made. *)
Theorem main_objects_live {T : ServerThread} {TL : ServerThreadLaws T} s c :
  rtc test_step (Config s Stopped (Some (forget (p_main depth storage fuel object))) None) c →
  (∀ p, caller c = Some p → next_live p (memory c)) ∧
  (∀ q, method c = Some q → next_live q (memory c)) ∧
  (server_phase c ≠ Stopped →
   heap (memory c) !! object = Some Object_new ∧
   elems (m_objects (rcv (memory c))) = [Some object]).
Proof.
  intros Hc.
  assert (minv c) as (Hi & Hp & Hm).
  { assert (∀ c0, rtc test_step c0 c → tinv caller_access over c0 → minv c0 → minv c) as H.
    { clear Hc. intros c0 Hc. induction Hc as [|c0 c1 c Hs _ IH]; [done|]. intros Ht Hm. apply IH.
      - by eapply tinv_step; [apply modest_Object|apply modest_TestReceiver|apply over_consistent
          |..|apply Hs|].
      - eapply minv_step; [done| |done]. apply Ht. }
    apply H in Hc; [done|apply tinv_main|]. split; [done|]. split; [|done].
    intros p [= <-]. apply gp_bind. apply gp_main. }
  split; [intros p ?; by eapply gp_next, Hp|]. split; [intros q ?; by eapply gp_next, Hm|done].
Qed.
End main.

(** ** Applications *)

(** While [main] sends, the method comes to read the address of the object. *)
Definition main_reads : list turn :=
  repeat Turn_caller 127 ++ Turn_deliver :: repeat Turn_method 7.

Example main_reads_object :
  match method (main_reached main_reads) with
  | Some (Step (ReadRoot o) _) => bool_decide (o = 1%positive)
  | _ => false
  end = true.
Proof. vm_compute. reflexivity. Qed.

Lemma main_objects_live_witness :
  let c := main_reached main_reads in
  (∀ p, caller c = Some p → next_live p (memory c)) ∧
  (∀ q, method c = Some q → next_live q (memory c)) ∧
  (server_phase c ≠ Stopped →
   heap (memory c) !! 1%positive = Some Object_new ∧
   elems (m_objects (rcv (memory c))) = [Some 1%positive]).
Proof.
  apply (main_objects_live (L := model) 4 (Timetag 0 0) 20 1%positive main_state).
  apply main_reaches; [|by vm_compute].
  unfold main_reads. repeat first [apply Forall_app; split | apply Forall_cons; split]; done.
Defined.
